(* ===== verification/_CoqProject ===== *)
-Q . S2P
Prelude.v
Common.v
Kv.v
KvSpec.v
KvScan.v
SqlGate.v
SqlGateSpec.v
Sql.v
SqlSpec.v
Cache.v
Manager.v
DataNode.v
NodeInv.v
NodeCapacity.v
NodeSafety.v
Coherence.v
NodeThreads.v
NodePrivacy.v
NodeWorld.v
NodeThreadsSpec.v
NodeWorldSpec.v
NodeInterleave.v
NodeRaces.v
Catalog.v
CatalogSpec.v
CatalogAccess.v
Ledger.v
LedgerSpec.v
Postgres.v
MetaStore.v
PostgresSpec.v
PostgresFaults.v
PgBooks.v
PgBooksSpec.v
BookStore.v
BookStoreSpec.v
PgConcurrent.v
PgConcurrentSpec.v
PgOnce.v
Billing.v
BillingSpec.v
SettleSpec.v
MeterFleet.v
Access.v
AccessSpec.v
Metrics.v
MetricsSpec.v
Backup.v
BackupSpec.v
SiteCoherence.v
NodeApi.v
NodeApiSpec.v
Routing.v
RoutingSpec.v
Agent.v
AgentSpec.v
Queries.v
QueriesSpec.v
Background.v
BackgroundSpec.v
Labels.v
Handlers.v
App.v
HandlersSpec.v
Confine.v
AppSpec.v
EndToEnd.v
Startup.v
NodeMain.v
Conform.v
ConformCommon.v
ConformNode.v
ConformStore.v
ConformBackup.v
ConformServer.v
ConformThreads.v
