(* ===== verification/Prelude.v ===== *)
(** * Combee: a verification development

    Combee is a serverless database: many small SQLite databases with a
    Redis-style KV table, called Cells, on data nodes behind a stateless API
    server. This library translates the Rust crates under src/crates into
    executable definitions and proves what makes them correct, and, where the
    code does something else than it means to, what it does instead.

    ** The program's parts and the files that model them

    Each component has a file of definitions that follows the source file by
    file and function by function, under the source's names (a prefix is added
    where two files use one name: [node_], [h_], [admin_], [cache_],
    [manager_], [pg_], [agent_], [internal_]), and one or more files of
    theorems.

    - [Prelude] (this file): the effect monad and its program logic, integers
      of 64 bits, text and numbers.
    - [Common] (crates/common: ids.rs, errors.rs, rpc.rs, usage.rs, credit.rs,
      and [into_response] of api-server/src/lib.rs): identifiers, the error
      type with its RPC image and HTTP status, metrics, pricing ([rate]),
      voucher codes.
    - [Kv], [KvSpec], [KvScan] (data-node: kv.rs, ttl.rs): the operations on
      the [__sys_kv] table. The state is the table, a finite map from keys to
      rows. [KvSpec] states the abstract store, [view now t]: the entries a
      client can observe at a time; every operation is proved to implement an
      operation on it. [KvScan] is the cursor pagination.
    - [SqlGate], [SqlGateSpec] (sql.rs, sandbox.rs): the textual gate, its
      scanners on byte indices, and the verdicts of the authorizer.
    - [Sql], [SqlSpec] (sql.rs, the guard of sandbox.rs): running a statement
      and a transaction call by call ([leave_user_sql], [conn_transaction],
      [tx_commit], [tx_drop]), each statement put to the authorizer; result
      limits, the thread's user-SQL flag.
    - [Cache], [Manager], [DataNode] (cache.rs, storage.rs, manager.rs,
      lib.rs): the data node. Its state is the record [Manager.Node]: the
      Cells' files, their manifests, the open connections with the time of
      their last use, interrupt handles, the read-only set, the KV cache and
      the fencing generations. [with_conn] opens a Cell, evicts, and runs the
      critical section; the operations of [DataNode] add the checks.
    - [NodeInv], [NodeCapacity], [NodeSafety], [Coherence]: the invariants of
      the node. [NodeInv] has the requests as data ([NodeOp], [run_node]) and
      the lemmas that carry an invariant through all of them; [NodeCapacity]
      the bound on connections; [NodeSafety] isolation of Cells and fencing;
      [Coherence] that the cache agrees with SQLite as long as one operation
      runs after the other ([SiteCoherence], below, adds backups and restores).
      [NodePrivacy] compares two runs: what the owner of a Cell is answered does
      not depend on the others.
    - [NodeThreads], [NodeWorld] (the locks of manager.rs, the closures of
      lib.rs): the same requests as tasks that interleave, each cut at its
      awaits, with Cell locks, one closure at a time on the connection table,
      interrupts, dropped requests and look-ups that take no lock. A schedule
      is a list of actions ([exec], [run_schedule]). [NodeThreadsSpec] ties the
      steps to the operations of [DataNode]; [NodeWorldSpec] has exclusion and
      progress, [NodeInterleave] coherence under interleaving, [NodeRaces] the
      schedules that go wrong.
    - [Catalog], [CatalogSpec], [CatalogAccess] (metadata/src/store.rs, the
      directory half of [InMemoryStore]): Cells and names, tenants, API keys,
      data nodes, leases, idempotency keys, configuration, waitlist.
    - [Ledger], [LedgerSpec] (store.rs, the accounting half): usage buckets,
      prices, accounts, ledger entries, vouchers.
    - [Postgres], [MetaStore], [PostgresSpec], [PostgresFaults]
      (metadata/src/postgres.rs, the directory half of [PostgresStore], and the
      trait of store.rs): the tables with their keys and unique indexes, each
      statement a function on them. [MetadataStore] is the class of the trait,
      with both stores as instances and requests as data ([MetaOp],
      [run_meta]); [store_sim] relates the stores.
    - [PgBooks], [PgBooksSpec] (postgres.rs, the accounting half): statements
      in transactions. [BookStore], [BookStoreSpec]: the accounting methods of
      the trait as a class with both stores as instances, requests as data
      ([run_books]), and the refinement between them. [PgConcurrent],
      [PgConcurrentSpec]: many calls at once, each a thread that runs one
      statement per step, with the row locks PostgreSQL holds until the end of
      a transaction. [PgOnce]: calls that post one reference at the same time.
    - [Metrics], [MetricsSpec] (common/src/metrics.rs): the registry, with
      [f64] as sign, mantissa and exponent.
    - [NodeApi], [NodeApiSpec] (data-node/src/server.rs, the trait and the two
      clients of client.rs, the bodies of rpc.rs): the class [DataNodeClient]
      with the local and the remote client as values of it; the remote one goes
      through the JSON text of the request, axum's body limit, router, token
      check, handler, envelope and the JSON text of the answer.
    - [Agent], [AgentSpec] (data-node/src/agent.rs, handlers/internal.rs, the
      replica duties of lib.rs): a node's membership. The [World] is the API
      server, the node's process if it runs, and the id file on its disk;
      crashes, starts and stops are events ([NodeEvent]).
    - [Billing], [BillingSpec] (api-server: usage.rs, pricing.rs,
      settlement.rs): metering, flushing, price refresh, settlement. The meter
      is written against the class [UsageSink]; the ledger is its instance.
      [SettleSpec]: what a whole settlement round charges. [MeterFleet]:
      several servers on one store, with lost answers and crashes.
    - [Access], [AccessSpec] (auth.rs, quota.rs, the middleware of usage.rs,
      the layers of app.rs): every middleware as a function of the next one.
      The definitions are generic in the server's state, by the class
      [HasApi]; [Routing] gives the instance for the whole server.
    - [Backup], [BackupSpec] (data-node: backup.rs and the backup, restore and
      replication operations of lib.rs): a [Site] is a node with the object
      store, a map from object names to bytes that all nodes share. A fetched
      main file is read with the WAL that may lie beside it until that is
      replaced or removed. [SiteCoherence]: requests, backups, restores and
      catch-ups as data ([SiteOp], [run_site]) and the coherence of the cache
      over their histories, with [suspects], the Cells a failed deletion or
      restore leaves in doubt.
    - [Routing], [RoutingSpec] (api-server: nodes.rs, the routing half of
      client.rs, failover.rs): the [Server] holds registry, route cache,
      client cache, directory, meter, and the data nodes it can reach by
      address.
    - [Handlers], [App], [HandlersSpec] (api-server/src/handlers, app.rs): the
      handlers, composed from all of the above, and [build_app]: each route a
      constructor of [Route] with its extracted parameters, run behind its
      layers. [Confine], [AppSpec]: what a request of one tenant cannot
      reach, for every route. [EndToEnd]: a write followed through backup and
      failover to the read that returns it.
    - [Background], [BackgroundSpec] (the loops of usage.rs, pricing.rs,
      settlement.rs and failover.rs, as main.rs starts them): one turn of each
      background task on the server's state.
    - [Queries], [QueriesSpec] (handlers/usage.rs, handlers/health.rs, the
      lists of handlers/admin.rs, the metrics of logging.rs): what the server
      reports. [Labels] (app.rs): the table of public routes and the labels the
      request log gives them.
    - [Startup] (common/src/config.rs, api-server/src/main.rs, [connect] of
      postgres.rs): from the environment variables to the store with the
      configured keys and the state the routes run on. [NodeMain]
      (data-node/src/main.rs, common/src/healthcheck.rs): the same for the data
      node, its shutdown, and the container's health check.
    - [Conform], [ConformCommon], [ConformNode], [ConformStore],
      [ConformBackup], [ConformServer], [ConformThreads] (the test modules of
      the crates): the program's own unit tests, translated statement by
      statement and run on the definitions. They check the translation where a
      proof cannot: that the definitions behave as the authors expect of the
      code. Parameters are instantiated by small concrete functions; concurrent
      tests run under a scheduler on [NodeWorld].

    ** How the code is modelled

    - A computation is a function of state and environment readings to a
      result, a state and the readings consumed ([M]); state changed before an
      early return stays changed, as in the source. [let!], [do!] are [?];
      [attempt] and [ignore] are [match] on a result and [let _ =].
    - The environment ([Env]) gives the n-th reading of the wall clock, of the
      monotonic clock, the n-th random uuid, and whether the n-th SQL
      statement, file-system call, object-store request or remote call fails.
      A theorem that does not restrict [fault] holds for every pattern of
      failures. [returns m s Q] says that, when no call fails, [m] ends
      successfully from [s] in a state with [Q], whatever the readings were.
    - Integers keep their width: [i64_add] and its like wrap, as release
      builds do, where the source uses plain operators, and saturate or are
      checked where the source says so. Text is a string of bytes; times of
      [Instant] are nanoseconds.
    - An SQL statement of the program is one function on the table, which
      takes effect as a whole or fails as a whole: what SQLite promises. User
      SQL is run by the parameter [SqlEngine]: how a statement compiles, which
      actions it asks the authorizer for, and what it does.
    - An operation of the store runs under the store's mutex and is one
      transition. A critical section of a Cell runs under the Cell's lock and
      is one function in [DataNode]; [NodeThreads] and [NodeWorld] cut it into
      steps between which other requests run, and the cache may drop an entry
      at any time.
    - The handlers reach data nodes through the [RoutingProvider] of client.rs;
      the [LocalProvider] is the instance that always answers the local node.
    - Failures between processes: a remote call, and a statement sent to
      PostgreSQL, may be lost before it has run or its answer after, and the
      caller cannot tell. A transaction that is left early is rolled back; a
      commit that reports an error may have happened.
    - Parameters that stand for code outside the repository, with their laws:
      [UuidText] (printing and parsing of uuids), [CellFiles] (the length of the
      main file, a reading that may differ from call to call because SQLite
      checkpoints when it likes, and integrity answers), [SqlEngine], [Images]
      (the bytes of main file and WAL, the content SQLite reads from them, the
      WAL that a call finds left over), [MillisClock], [HttpText] (header values
      that are text), [JsonText] (what serde writes and reads), [TimeText]
      (RFC 3339), the test for socket addresses, hashes and
      [object_store::Path::from] as function arguments. Each theorem over a
      parameter has a witness at a concrete instance.
    - The capacity of the KV cache is moka's business: when and which entries it
      drops is left open, as a step that may drop any entry at any time.

    ** Fuel

    The scanners of [SqlGate] recurse with the length of the text as fuel,
    every turn advances the index ([SqlGateSpec] proves that they agree with
    an automaton that recurses on the text). [KvScan.scan_loop] is the client's
    loop over pages: one page more than there are keys is enough, which
    [scan_loop_complete] proves. Everything else recurses on its data.

    ** What the theorems show

    - The KV store is the abstract store: [kv_writes_refine], [kv_reads_refine],
      [kv_error_no_effect], [scan_loop_complete], [scan_page_correct]. Through
      the node's cache: [SiteCoherence.cache_coherent],
      [SiteCoherence.kv_get_linearizes], and [interleaved_coherence] when
      requests interleave, for the Cells that are not reset or deleted
      meanwhile.
    - The data node: [cells_isolated], [stale_generation_refused] (fencing),
      [capacity_respected] (connections), [transaction_atomic],
      [user_sql_sandboxed], [has_multiple_statements_correct],
      [collect_rows_bounded], and [cell_noninterference]: neither the answers on
      a Cell nor what the node keeps for it depend on the requests on others,
      under the conditions it lists ([collector_channel] shows why the collector
      is excepted). As tasks: [cell_lock_excludes], [requests_settle]
      (every request ends), [request_alone] (the steps compose to the
      operation), and the races [fence_race], [reset_race].
    - The metadata store: [tenants_isolated], [name_lookup_exact],
      [generation_monotone] (directory), [revoked_key_dead], [lease_exclusive].
      The PostgreSQL store is a refinement of the in-memory one,
      [pg_refines_memory] and [pg_books_refine_ledger], on the requests and up to
      the differences their statements list, and does nothing by
      halves under faults ([pg_request_atomic], [pg_pricing_atomic]). Where the
      two differ: [pg_list_loses_names], [pg_replicas_unreadable],
      [pg_taken_name_internal], [pg_foreign_idempotency],
      [pg_voucher_expiry_boundary], [pg_account_race], [pg_usage_nil_cell].
    - Money: [balance_is_ledger_sum], [voucher_pays_once], and both under
      concurrent calls ([concurrent_books_ok]), of which those under one
      reference count once ([reference_posts_once]), and which always finish
      ([concurrent_calls_finish]; [call_is_run] ties the threads to the
      functions of [PgBooks]). Usage: [metered_is_charged] from the meter to
      the charge, [flush_conserves], [fleet_conserves] with several servers and
      lost answers, [windows_partition], [settle_round_exact],
      [settle_metric_charges], [rate_proportional_floor], [refresh_safe],
      [one_sampler], [turns_return]. What tenants are told:
      [timeseries_exact], [usage_summary_exact], [cell_usage_exact],
      [usage_splits_by_cell].
    - Between the processes: [remote_is_local] (the remote client is the local
      one behind a wire), [rpc_error_roundtrip], [identity_kept],
      [tick_registers], [node_guarded], [launch_node_consistent],
      [clean_shutdown].
    - Backups and failover: [incremental_roundtrip], [full_roundtrip],
      [restore_confined], [failover_fences] (who accepts writes after a
      failover, with the old primary reachable or not),
      [failover_reroutes] (requests find it), [written_survives_failover] (a
      value written and archived is read back through the API afterwards),
      [pick_round_robin] (placement).
    - Tenants: [complete_mediation] (no handler without authentication),
      [strangers_harmless] (a request without credentials changes nothing, on
      any route), [tenant_confined] (a tenant's request leaves the Cells,
      records and accounts of the others as they were), [foreign_cell_untouched],
      [control_planes_closed], [launch_guarded] (the server starts closed, or does
      not start: when is stated exactly).
    - Observation: [registry_well_formed], [series_key_injective],
      [operation_labels].
    - Conformance: [kv_tests_pass], [common_tests_pass], [node_tests_pass],
      [store_tests_pass], [backup_tests_pass], [server_tests_pass],
      [thread_tests_pass], 103 of the unit tests.
    - What the code does that it should not: [migration_loses_data],
      [concurrency_limit_void], [reset_blocks_writes],
      [failed_entry_never_charged], [set_conditions_ignore_expiry],
      [scan_prefix_wildcard], [check_statement_bypass],
      [kv_ttl_persistent_hit], [default_name_steals],
      [delete_removes_foreign_name], [restart_charges_twice],
      [failover_promotes_empty], [restart_blocks_writes],
      [internal_kv_metered], [load_never_reported], [identity_lost],
      [partial_round_undercharges], [replicas_charge_twice],
      [revoked_service_key_passes], [fence_race], [reset_race],
      [collector_channel].

    ** What is not modelled

    - The creation of the PostgreSQL tables ([connect] may fail at each of its
      scripts, and finds the tables there), and concurrency of PostgreSQL
      statements outside [PgConcurrent]: there a request of the directory runs
      alone.
    - Process glue: sockets, signals, log lines, CORS, the body-size layer of
      the API server, the matching of paths by axum and the decoding of the API
      requests' bodies by serde, OpenAPI text.
    - The benchmark crate: load generators, not part of the service. Unit tests
      that look at what is not modelled: SQLite's own pragmas, the JSON text
      serde writes, the actions SQLite reports for real statements.
    - Crashes in the middle of a file-system call, and SQLite's own durability
      levels. Of a Cell, a crash between two calls is covered: the state is
      what the calls before it made.
    - Text of error messages of libraries (an argument of the fault).

    ** Possible extensions

    The handlers over the class [MetadataStore], so that they run on the
    PostgreSQL store too; the comparison of two runs of [NodePrivacy] for whole
    API requests; API requests and background turns as interleaved steps of
    one server. *)

From Stdlib Require Import ZArith Lia String Ascii DecimalString DecimalZ.
From stdpp Require Import gmap strings list fin_maps.

Declare Scope combee_scope.
Delimit Scope combee_scope with combee.
Open Scope combee_scope.
Open Scope Z_scope.

(** ** Results and the effect monad *)

(** Rust's [Result]. *)
Inductive result (E A : Type) : Type :=
| Ok (a : A)
| Err (e : E).
Arguments Ok {E A} a.
Arguments Err {E A} e.

Definition is_Ok {E A} (r : result E A) : bool :=
  match r with Ok _ => true | Err _ => false end.

(** What the program reads from outside: the n-th reading of the system
    clock (unix seconds), the n-th reading of the monotonic clock, the fault
    (if any) of the n-th SQL statement or file-system call, and the n-th
    random uuid. *)
Class Env := {
  clock : nat -> Z;
  instant : nat -> Z;
  fault : nat -> option string;
  uuid_v4 : nat -> N;
}.

(** How many readings of each kind were made so far. *)
Record Eff := mkEff { e_clock : nat; e_instant : nat; e_call : nat; e_uuid : nat }.

Definition eff0 : Eff := mkEff 0 0 0 0.

Definition bump_clock (e : Eff) : Eff :=
  mkEff (S (e_clock e)) (e_instant e) (e_call e) (e_uuid e).
Definition bump_instant (e : Eff) : Eff :=
  mkEff (e_clock e) (S (e_instant e)) (e_call e) (e_uuid e).
Definition bump_call (e : Eff) : Eff :=
  mkEff (e_clock e) (e_instant e) (S (e_call e)) (e_uuid e).
Definition bump_uuid (e : Eff) : Eff :=
  mkEff (e_clock e) (e_instant e) (e_call e) (S (e_uuid e)).

(** A computation reads and updates a state, consumes readings of the
    environment, and ends in a result; the state changed before an early
    return is kept, as in the source. *)
Definition M (S E A : Type) : Type := S -> Eff -> result E A * S * Eff.

Section monad.
Context {S E : Type}.

Definition mret {A} (a : A) : M S E A := fun s e => (Ok a, s, e).

Definition mfail {A} (err : E) : M S E A := fun s e => (Err err, s, e).

Definition mlift {A} (r : result E A) : M S E A := fun s e => (r, s, e).

Definition bind {A B} (m : M S E A) (k : A -> M S E B) : M S E B :=
  fun s e =>
    match m s e with
    | (Ok a, s1, e1) => k a s1 e1
    | (Err err, s1, e1) => (Err err, s1, e1)
    end.

(** [let _ = m;] in the source: the outcome is dropped, the effects stay. *)
Definition ignore {A} (m : M S E A) : M S E unit :=
  fun s e => let '(_, s1, e1) := m s e in (Ok tt, s1, e1).

(** [match m { Ok(a) => .., Err(e) => .. }]: the error is handled. *)
Definition attempt {A} (m : M S E A) : M S E (result E A) :=
  fun s e => let '(r, s1, e1) := m s e in (Ok r, s1, e1).

Definition gets {A} (f : S -> A) : M S E A := fun s e => (Ok (f s), s, e).

Definition modify (f : S -> S) : M S E unit := fun s e => (Ok tt, f s, e).

Fixpoint mfor {A} (l : list A) (body : A -> M S E unit) : M S E unit :=
  match l with
  | [] => mret tt
  | x :: l' => bind (body x) (fun _ => mfor l' body)
  end.

Fixpoint mmap {A B} (l : list A) (body : A -> M S E B) : M S E (list B) :=
  match l with
  | [] => mret []
  | x :: l' => bind (body x) (fun b => bind (mmap l' body) (fun bs => mret (b :: bs)))
  end.

End monad.

Notation "'let!' x ':=' c 'in' k" := (bind c (fun x => k))
  (at level 10, x pattern, c at level 100, k at level 200) : combee_scope.
Notation "'do!' c 'in' k" := (bind c (fun _ => k))
  (at level 10, c at level 100, k at level 200) : combee_scope.

(** Runs a computation on a component [T] of the state. *)
Definition zoom {S T E A} (get : S -> T) (put : T -> S -> S) (m : M T E A) : M S E A :=
  fun s e => let '(r, t, e1) := m (get s) e in (r, put t s, e1).

Lemma bind_ret {S E A B} (a : A) (k : A -> M S E B) s e : bind (mret a) k s e = k a s e.
Proof. done. Qed.

Lemma bind_assoc {S E A B C} (m : M S E A) (f : A -> M S E B) (k : B -> M S E C) s e :
  bind (bind m f) k s e = bind m (fun a => bind (f a) k) s e.
Proof. unfold bind. by destruct (m s e) as [[[a|err] s1] e1]. Qed.

Section environment.
Context {env : Env} {S E : Type}.

Definition read_clock : M S E Z :=
  fun s e => (Ok (clock (e_clock e)), s, bump_clock e).

Definition read_instant : M S E Z :=
  fun s e => (Ok (instant (e_instant e)), s, bump_instant e).

Definition fresh_uuid : M S E N :=
  fun s e => (Ok (uuid_v4 (e_uuid e)), s, bump_uuid e).

(** A call that can fail: [err] turns the fault's text into the error the
    caller sees; on success it is a no-op here and the caller applies the
    statement's effect. *)
Definition fallible (err : string -> E) : M S E unit :=
  fun s e =>
    match fault (e_call e) with
    | Some msg => (Err (err msg), s, bump_call e)
    | None => (Ok tt, s, bump_call e)
    end.

(** The number of a call whose answer is a reading, such as a file's length. *)
Definition next_call : M S E nat := fun s e => (Ok (e_call e), s, bump_call e).

End environment.

(** A concrete environment: a clock that stands at 1000, no faults. *)
Definition env_still : Env := {|
  clock _ := 1000; instant _ := 0; fault _ := None; uuid_v4 n := N.of_nat n |}.

(** ** Hoare triples over the monad *)

Section hoare.
Context {S E : Type}.

Definition hoare {A} (P : S -> Eff -> Prop) (m : M S E A)
    (Q : result E A -> S -> Eff -> Prop) : Prop :=
  forall s e, P s e -> let '(r, s', e') := m s e in Q r s' e'.

(** [I] holds after [m], however [m] ends, when it held before. *)
Definition preserves {A} (I : S -> Eff -> Prop) (m : M S E A) : Prop :=
  hoare I m (fun _ s e => I s e).

Lemma hoare_run {A} P (m : M S E A) Q s e r s' e' :
  hoare P m Q -> P s e -> m s e = (r, s', e') -> Q r s' e'.
Proof. intros H HP Hm. specialize (H s e HP). by rewrite Hm in H. Qed.

Lemma hoare_bind {A B} P (m : M S E A) (k : A -> M S E B) R Q :
  hoare P m R ->
  (forall a, hoare (R (Ok a)) (k a) Q) ->
  (forall err s e, R (Err err) s e -> Q (Err err) s e) ->
  hoare P (bind m k) Q.
Proof.
  intros Hm Hk Herr s e HP. unfold bind. specialize (Hm s e HP).
  destruct (m s e) as [[[a|err] s1] e1]; [by apply Hk | by apply Herr].
Qed.

Lemma hoare_conseq {A} (P P' : S -> Eff -> Prop) (m : M S E A)
    (Q Q' : result E A -> S -> Eff -> Prop) :
  hoare P m Q -> (forall s e, P' s e -> P s e) ->
  (forall r s e, Q r s e -> Q' r s e) -> hoare P' m Q'.
Proof.
  intros Hm HP HQ s e H'. specialize (Hm s e (HP _ _ H')).
  destruct (m s e) as [[r s1] e1]. by apply HQ.
Qed.

Lemma preserves_ret {A} I (a : A) : preserves I (mret a).
Proof. by intros s e H. Qed.

Lemma preserves_fail {A} I (err : E) : preserves I (mfail (A:=A) err).
Proof. by intros s e H. Qed.

Lemma preserves_lift {A} I (r : result E A) : preserves I (mlift r).
Proof. by intros s e H. Qed.

Lemma preserves_gets {A} I (f : S -> A) : preserves I (gets f).
Proof. by intros s e H. Qed.

Lemma preserves_bind {A B} I (m : M S E A) (k : A -> M S E B) :
  preserves I m -> (forall a, preserves I (k a)) -> preserves I (bind m k).
Proof. intros Hm Hk. eapply hoare_bind; [exact Hm | exact Hk | done]. Qed.

Lemma preserves_ignore {A} I (m : M S E A) : preserves I m -> preserves I (ignore m).
Proof.
  intros Hm s e H. unfold ignore. specialize (Hm s e H).
  by destruct (m s e) as [[r s1] e1].
Qed.

Lemma preserves_attempt {A} I (m : M S E A) : preserves I m -> preserves I (attempt m).
Proof.
  intros Hm s e H. unfold attempt. specialize (Hm s e H).
  by destruct (m s e) as [[r s1] e1].
Qed.

Lemma preserves_modify (I : S -> Eff -> Prop) f :
  (forall s e, I s e -> I (f s) e) -> preserves I (modify f).
Proof. intros H s e Hs. by apply H. Qed.

Lemma preserves_mfor {A} I (l : list A) body :
  (forall x, preserves I (body x)) -> preserves I (mfor l body).
Proof.
  intros H. induction l as [|x l IH]; [apply preserves_ret|].
  by apply preserves_bind.
Qed.

Lemma preserves_mmap {A B} I (l : list A) (body : A -> M S E B) :
  (forall x, preserves I (body x)) -> preserves I (mmap l body).
Proof.
  intros H. induction l as [|x l IH]; [apply preserves_ret|].
  simpl. apply preserves_bind; [done|]. intros b.
  apply preserves_bind; [done|]. intros bs. apply preserves_ret.
Qed.

End hoare.

(** ** Runs without faults *)

(** Without faults [m] ends in a value, and value and state are as [Q] says. *)
Definition returns {S E A} (m : M S E A) (s : S) (Q : A -> S -> Prop) : Prop :=
  forall e, exists a s' e', m s e = (Ok a, s', e') /\ Q a s'.

Section returns.
Context {S E : Type}.
Implicit Types s : S.

Lemma returns_ret {A} (a : A) s (Q : A -> S -> Prop) : Q a s -> returns (E:=E) (mret a) s Q.
Proof. intros HQ e. by exists a, s, e. Qed.

Lemma returns_gets {A} (f : S -> A) s (Q : A -> S -> Prop) : Q (f s) s -> returns (E:=E) (gets f) s Q.
Proof. intros HQ e. by exists (f s), s, e. Qed.

Lemma returns_modify f s (Q : unit -> S -> Prop) : Q tt (f s) -> returns (E:=E) (modify f) s Q.
Proof. intros HQ e. by exists tt, (f s), e. Qed.

Lemma returns_bind {A B} (m : M S E A) (k : A -> M S E B) s R Q :
  returns m s R -> (forall a s', R a s' -> returns (k a) s' Q) -> returns (bind m k) s Q.
Proof.
  intros Hm Hk e. destruct (Hm e) as (a & s1 & e1 & Hrun & HR).
  destruct (Hk a s1 HR e1) as (b & s2 & e2 & Hrun2 & HQ). exists b, s2, e2. unfold bind. by rewrite Hrun.
Qed.

Lemma returns_seq {A B} (m : M S E A) (k : A -> M S E B) s Q :
  returns m s (fun a s' => returns (k a) s' Q) -> returns (bind m k) s Q.
Proof. intros Hm. by apply (returns_bind _ _ _ _ _ Hm). Qed.

Lemma returns_weaken {A} (m : M S E A) s (R Q : A -> S -> Prop) :
  returns m s R -> (forall a s', R a s' -> Q a s') -> returns m s Q.
Proof. intros Hm HRQ e. destruct (Hm e) as (a & s1 & e1 & Hrun & HR). exists a, s1, e1. auto. Qed.

Lemma returns_attempt {A} (m : M S E A) s (Q : result E A -> S -> Prop) :
  returns m s (fun a s' => Q (Ok a) s') -> returns (attempt m) s Q.
Proof.
  intros Hm e. destruct (Hm e) as (a & s1 & e1 & Hrun & HR). exists (Ok a), s1, e1.
  unfold attempt. by rewrite Hrun.
Qed.

Lemma returns_ignore {A} (m : M S E A) s (Q : unit -> S -> Prop) :
  returns m s (fun _ s' => Q tt s') -> returns (ignore m) s Q.
Proof.
  intros Hm e. destruct (Hm e) as (a & s1 & e1 & Hrun & HR). exists tt, s1, e1.
  unfold ignore. by rewrite Hrun.
Qed.

Lemma returns_zoom {T A} (get : S -> T) put (m : M T E A) s (Q : A -> S -> Prop) :
  returns m (get s) (fun a t => Q a (put t s)) -> returns (zoom get put m) s Q.
Proof.
  intros Hm e. destruct (Hm e) as (a & t & e1 & Hrun & HR). exists a, (put t s), e1.
  unfold zoom. by rewrite Hrun.
Qed.

Context {env : Env} (Hfault : forall n, fault n = None).

Lemma returns_fallible (err : string -> E) s (Q : unit -> S -> Prop) : Q tt s -> returns (fallible err) s Q.
Proof using Hfault. intros HQ e. exists tt, s, (bump_call e). unfold fallible. by rewrite Hfault. Qed.

Lemma returns_clock s (Q : Z -> S -> Prop) : (forall k, Q (clock k) s) -> returns (E:=E) read_clock s Q.
Proof. intros HQ e. by eexists _, _, _. Qed.

Lemma returns_instant s (Q : Z -> S -> Prop) : (forall k, Q (instant k) s) -> returns (E:=E) read_instant s Q.
Proof. intros HQ e. by eexists _, _, _. Qed.

Lemma returns_uuid s (Q : N -> S -> Prop) : (forall k, Q (uuid_v4 k) s) -> returns (E:=E) fresh_uuid s Q.
Proof. intros HQ e. by eexists _, _, _. Qed.

Lemma returns_next_call s (Q : nat -> S -> Prop) : (forall k, Q k s) -> returns (E:=E) next_call s Q.
Proof. intros HQ e. by eexists _, _, _. Qed.

End returns.

Create HintDb combee discriminated.
#[export] Hint Resolve preserves_ret preserves_fail preserves_lift preserves_gets
  preserves_ignore preserves_attempt preserves_mfor preserves_mmap : combee.

(** Splits an invariant goal along the structure of a computation. *)
Ltac pres_step :=
  match goal with
  | |- preserves _ (bind _ _) => apply preserves_bind; [|intros ?]
  | |- preserves _ (match ?x with _ => _ end) => destruct x eqn:?
  | |- preserves _ (let '(_, _) := ?x in _) => destruct x eqn:?
  | |- preserves _ (mfor _ _) => apply preserves_mfor; intros ?
  | |- preserves _ (mmap _ _) => apply preserves_mmap; intros ?
  | |- preserves _ (ignore _) => apply preserves_ignore
  | |- preserves _ (attempt _) => apply preserves_attempt
  | |- preserves _ _ => solve [eauto with combee]
  end.
Ltac pres := repeat pres_step.

(** Runs a computation without faults, step by step. *)
Ltac ret_step :=
  match goal with
  | |- returns (bind _ _) _ _ => apply returns_seq
  | |- returns (fallible _) _ _ => apply returns_fallible; [assumption|]
  | |- returns (mret _) _ _ => apply returns_ret
  | |- returns (gets _) _ _ => apply returns_gets
  | |- returns (modify _) _ _ => apply returns_modify
  | |- returns read_clock _ _ => apply returns_clock; intros ?
  | |- returns read_instant _ _ => apply returns_instant; intros ?
  | |- returns fresh_uuid _ _ => apply returns_uuid; intros ?
  | |- returns next_call _ _ => apply returns_next_call; intros ?
  | |- returns (attempt _) _ _ => apply returns_attempt
  | |- returns (ignore _) _ _ => apply returns_ignore
  | |- returns (zoom _ _ _) _ _ => apply returns_zoom
  end.
Ltac ret := repeat (ret_step; cbv beta).

(** ** Machine integers *)

Definition I64_MIN : Z := - 2 ^ 63.
Definition I64_MAX : Z := 2 ^ 63 - 1.
Definition U64_MAX : Z := 2 ^ 64 - 1.

Definition is_i64 (z : Z) : Prop := I64_MIN <= z <= I64_MAX.
Definition is_u64 (z : Z) : Prop := 0 <= z <= U64_MAX.

#[export] Instance is_i64_dec z : Decision (is_i64 z).
Proof. unfold is_i64. apply _. Defined.
#[export] Instance is_u64_dec z : Decision (is_u64 z).
Proof. unfold is_u64. apply _. Defined.

(** Two's complement wrap-around to 64 bits, signed ([as i64], and [+] in a
    build without overflow checks). *)
Definition wrap_i64 (z : Z) : Z := (z + 2 ^ 63) mod 2 ^ 64 - 2 ^ 63.
Definition wrap_u64 (z : Z) : Z := z mod 2 ^ 64.

Definition i64_add (a b : Z) : Z := wrap_i64 (a + b).
Definition i64_sub (a b : Z) : Z := wrap_i64 (a - b).
Definition u64_add (a b : Z) : Z := wrap_u64 (a + b).

Definition i64_saturating_add (a b : Z) : Z := Z.max I64_MIN (Z.min I64_MAX (a + b)).
Definition u64_saturating_add (a b : Z) : Z := Z.min U64_MAX (a + b).
Definition u64_saturating_sub (a b : Z) : Z := Z.max 0 (a - b).
Definition u64_saturating_mul (a b : Z) : Z := Z.min U64_MAX (a * b).

Definition i64_checked_add (a b : Z) : option Z :=
  if decide (is_i64 (a + b)) then Some (a + b) else None.

Lemma wrap_i64_range z : is_i64 (wrap_i64 z).
Proof.
  unfold is_i64, I64_MIN, I64_MAX, wrap_i64.
  pose proof (Z.mod_pos_bound (z + 2 ^ 63) (2 ^ 64) ltac:(lia)). lia.
Qed.

Lemma wrap_i64_id z : is_i64 z -> wrap_i64 z = z.
Proof.
  unfold is_i64, I64_MIN, I64_MAX, wrap_i64. intros H.
  rewrite Z.mod_small by lia. lia.
Qed.

Lemma wrap_i64_above z :
  I64_MAX < z <= I64_MAX + 2 ^ 64 -> wrap_i64 z = z - 2 ^ 64.
Proof.
  unfold I64_MAX, wrap_i64. intros H.
  replace (z + 2 ^ 63) with (z - 2 ^ 63 + 1 * 2 ^ 64) by lia.
  rewrite Z.mod_add by lia. rewrite Z.mod_small by lia. lia.
Qed.

Lemma wrap_u64_range z : is_u64 (wrap_u64 z).
Proof.
  unfold is_u64, U64_MAX, wrap_u64.
  pose proof (Z.mod_pos_bound z (2 ^ 64) ltac:(lia)). lia.
Qed.

Lemma wrap_u64_id z : is_u64 z -> wrap_u64 z = z.
Proof. unfold is_u64, U64_MAX, wrap_u64. intros. rewrite Z.mod_small; lia. Qed.

Lemma i64_saturating_add_range a b : is_i64 (i64_saturating_add a b).
Proof. unfold is_i64, i64_saturating_add, I64_MIN, I64_MAX. lia. Qed.

Lemma i64_saturating_add_id a b : is_i64 (a + b) -> i64_saturating_add a b = a + b.
Proof. unfold is_i64, i64_saturating_add. lia. Qed.

Lemma i64_checked_add_Some a b c :
  i64_checked_add a b = Some c <-> c = a + b /\ is_i64 c.
Proof. unfold i64_checked_add. destruct (decide _); naive_solver. Qed.

(** ** Strings: Rust's [str] as the byte string [string] *)

Fixpoint string_contains (needle hay : string) : bool :=
  String.prefix needle hay ||
  match hay with
  | EmptyString => false
  | String.String _ rest => string_contains needle rest
  end.

Definition is_upper (c : ascii) : bool :=
  (65 <=? nat_of_ascii c)%nat && (nat_of_ascii c <=? 90)%nat.
Definition is_lower (c : ascii) : bool :=
  (97 <=? nat_of_ascii c)%nat && (nat_of_ascii c <=? 122)%nat.
Definition is_digit (c : ascii) : bool :=
  (48 <=? nat_of_ascii c)%nat && (nat_of_ascii c <=? 57)%nat.

Definition to_lower (c : ascii) : ascii :=
  if is_upper c then ascii_of_nat (nat_of_ascii c + 32) else c.

Fixpoint to_ascii_lowercase (s : string) : string :=
  match s with
  | EmptyString => EmptyString
  | String.String c rest => String.String (to_lower c) (to_ascii_lowercase rest)
  end.

(** Decimal rendering of an [i64] and [str::parse::<i64>]: an optional sign,
    at least one digit, nothing else, and the value in range. *)
Definition i64_to_string (z : Z) : string := NilZero.string_of_int (Z.to_int z).

Definition parse_digits (s : string) : option Z :=
  Z.of_uint <$> NilZero.uint_of_string s.

Definition in_i64 (z : Z) : option Z := if decide (is_i64 z) then Some z else None.

Definition parse_i64 (s : string) : option Z :=
  match s with
  | String.String "-"%char rest => z ← parse_digits rest; in_i64 (- z)
  | String.String "+"%char rest => z ← parse_digits rest; in_i64 z
  | _ => z ← parse_digits s; in_i64 z
  end.

Lemma string_of_uint_head d c s :
  NilZero.string_of_uint d = String.String c s -> is_digit c = true.
Proof. destruct d; simpl; intros [= <- _]; reflexivity. Qed.

Lemma to_int_cases z :
  (0 <= z /\ exists d, Z.to_int z = Decimal.Pos d /\ d <> Decimal.Nil /\ Z.of_uint d = z) \/
  (z < 0 /\ exists d, Z.to_int z = Decimal.Neg d /\ d <> Decimal.Nil /\ Z.of_uint d = - z).
Proof.
  pose proof (DecimalZ.of_to z) as Hof. destruct z as [|p|p].
  - left. split; [lia|]. by exists Decimal.zero.
  - left. split; [lia|]. exists (Pos.to_uint p). split; [done|]. split; [|exact Hof].
    intros Hn. simpl in Hof. rewrite Hn in Hof. discriminate.
  - right. split; [lia|]. exists (Pos.to_uint p). split; [done|]. simpl in Hof.
    split; [|lia]. intros Hn. rewrite Hn in Hof. discriminate.
Qed.

Lemma parse_digits_print d : d <> Decimal.Nil ->
  parse_digits (NilZero.string_of_uint d) = Some (Z.of_uint d).
Proof. intros H. unfold parse_digits. by rewrite NilZero.usu. Qed.

Lemma parse_i64_print z : is_i64 z -> parse_i64 (i64_to_string z) = Some z.
Proof.
  intros Hz. unfold i64_to_string.
  destruct (to_int_cases z) as [[Hs (d & -> & Hd & Hv)]|[Hs (d & -> & Hd & Hv)]];
    pose proof (parse_digits_print d Hd) as Hp; simpl.
  - assert (parse_i64 (NilZero.string_of_uint d) =
            (z ← parse_digits (NilZero.string_of_uint d); in_i64 z)) as ->.
    { destruct (NilZero.string_of_uint d) as [|c s] eqn:E; [done|].
      apply string_of_uint_head in E. destruct c as [[] [] [] [] [] [] [] []]; try done. }
    rewrite Hp. simpl. unfold in_i64. rewrite Hv. by rewrite decide_True.
  - rewrite Hp. simpl. unfold in_i64. rewrite Hv.
    rewrite decide_True by (by rewrite Z.opp_involutive). f_equal. lia.
Qed.

Lemma parse_i64_range s z : parse_i64 s = Some z -> is_i64 z.
Proof.
  assert (Hin : forall o (f : Z -> Z), (x ← o; in_i64 (f x)) = Some z -> is_i64 z).
  { intros [x|] f; simpl; [|done]. unfold in_i64. destruct (decide _); naive_solver. }
  unfold parse_i64. destruct s as [|[[] [] [] [] [] [] [] []] rest]; intros H;
    first [apply (Hin _ id) in H; exact H | apply (Hin _ Z.opp) in H; exact H].
Qed.

(** ** Sums over finite maps *)

(** Sum of a measure over the values of a finite map. *)
Definition map_sum {K V} `{Countable K} (f : K -> V -> Z) (m : gmap K V) : Z :=
  map_fold (fun k v acc => f k v + acc) 0 m.

Section map_sum.
Context {K : Type} `{Countable K} {V : Type}.
Implicit Types (m : gmap K V) (f : K -> V -> Z).

Lemma map_sum_empty f : map_sum f ∅ = 0.
Proof. apply map_fold_empty. Qed.

Lemma map_sum_insert_None f m k v :
  m !! k = None -> map_sum f (<[k := v]> m) = f k v + map_sum f m.
Proof.
  intros Hk. unfold map_sum. rewrite map_fold_insert_L; [done| |done]. intros. lia.
Qed.

Lemma map_sum_delete f m k v :
  m !! k = Some v -> map_sum f m = f k v + map_sum f (delete k m).
Proof.
  intros Hk. rewrite <- map_sum_insert_None by apply lookup_delete_eq.
  by rewrite insert_delete_eq, insert_id.
Qed.

Lemma map_sum_insert f m k v :
  map_sum f (<[k := v]> m) =
  f k v + map_sum f m - from_option (f k) 0 (m !! k).
Proof.
  destruct (m !! k) as [w|] eqn:Hk; simpl.
  - rewrite <- (insert_delete_eq m). rewrite map_sum_insert_None by apply lookup_delete_eq.
    rewrite (map_sum_delete f m k w Hk). lia.
  - rewrite map_sum_insert_None by done. lia.
Qed.

Lemma map_sum_ext f g m :
  (forall k v, m !! k = Some v -> f k v = g k v) -> map_sum f m = map_sum g m.
Proof.
  induction m as [|k v m Hk IH] using map_ind; [by rewrite !map_sum_empty|].
  intros Hfg. rewrite !map_sum_insert_None by done. rewrite IH, (Hfg k v).
  - lia.
  - apply lookup_insert_eq.
  - intros k' v' Hk'. apply Hfg. rewrite lookup_insert_ne; [done|]. intros ->. congruence.
Qed.

End map_sum.

(** ** Strings *)

Lemma string_app_assoc (a b c : string) : (a +:+ b) +:+ c = a +:+ (b +:+ c).
Proof. induction a as [|x a IH]; [done|]. exact (f_equal (String.String x) IH). Qed.

(** ** Sums over lists *)

Fixpoint sum_where {A} (P : A -> bool) (f : A -> Z) (l : list A) : Z :=
  match l with
  | [] => 0
  | a :: l' => (if P a then f a else 0) + sum_where P f l'
  end.

#[export] Instance sum_where_perm {A} (P : A -> bool) f : Proper ((≡ₚ) ==> (=)) (sum_where P f).
Proof. induction 1; simpl; lia. Qed.

Lemma sum_where_fmap {A B} (P : B -> bool) f (g : A -> B) l :
  sum_where P f (g <$> l) = sum_where (P ∘ g) (f ∘ g) l.
Proof. induction l as [|a l IH]; simpl; [done|]. by rewrite <- IH. Qed.

Lemma sum_where_filter {A} (P : A -> bool) f (Q : A -> Prop) `{!forall a, Decision (Q a)} l :
  sum_where P f (filter Q l) = sum_where (fun a => bool_decide (Q a) && P a) f l.
Proof.
  induction l as [|a l IH]; [done|]. rewrite filter_cons. simpl. case_decide as HQ.
  - rewrite bool_decide_eq_true_2 by done. simpl. by rewrite IH.
  - rewrite bool_decide_eq_false_2 by done. simpl. by rewrite IH.
Qed.

Lemma sum_where_ext {A} (P Q : A -> bool) f l : (forall a, P a = Q a) -> sum_where P f l = sum_where Q f l.
Proof. intros Hpq. induction l as [|a l IH]; simpl; [done|]. by rewrite Hpq, IH. Qed.

Lemma sum_where_ext_val {A} (P : A -> bool) f g l : (forall a, f a = g a) -> sum_where P f l = sum_where P g l.
Proof. intros Hfg. induction l as [|a l IH]; simpl; [done|]. by rewrite Hfg, IH. Qed.

(** Splitting by a class with finitely many values. *)
Lemma sum_where_split {A K} `{EqDecision K} (P : A -> bool) f (key : A -> K) ks l :
  NoDup ks -> (forall a, a ∈ l -> P a = true -> key a ∈ ks) ->
  sum_where P f l = foldr (fun k acc => sum_where (fun a => P a && bool_decide (key a = k)) f l + acc) 0 ks.
Proof.
  intros Hks Hin. induction l as [|a l IH]; simpl.
  - clear Hin. by induction Hks.
  - rewrite IH by (intros b Hb; apply Hin; by right). clear IH.
    assert (forall g : K -> Z, foldr (fun k acc => (if P a && bool_decide (key a = k) then f a else 0) + g k + acc) 0 ks =
      (if P a && bool_decide (key a ∈ ks) then f a else 0) + foldr (fun k acc => g k + acc) 0 ks) as Hsum.
    { intros g. clear Hin. induction Hks as [|k ks Hk Hks IHk]; [|cbn [foldr]].
      - by destruct (P a).
      - rewrite IHk. destruct (P a); simpl; [|lia]. destruct (decide (key a = k)) as [Hak|Hak].
        + rewrite (bool_decide_eq_true_2 (key a = k)), (bool_decide_eq_false_2 (key a ∈ ks)),
            bool_decide_eq_true_2 by (congruence || rewrite elem_of_cons; auto). lia.
        + rewrite (bool_decide_eq_false_2 (key a = k)) by done.
          rewrite (bool_decide_ext (key a ∈ k :: ks) (key a ∈ ks)) by (rewrite elem_of_cons; naive_solver). lia. }
    rewrite Hsum. destruct (P a) eqn:HP; simpl; [|lia].
    rewrite bool_decide_eq_true_2; [lia|]. apply Hin; [by left|done].
Qed.

Lemma u64_add_wrap a b : u64_add (wrap_u64 a) b = wrap_u64 (a + b).
Proof. unfold u64_add, wrap_u64. apply Zplus_mod_idemp_l. Qed.
