(* ===== verification/Common.v ===== *)
(** crates/common: identifiers, the error type and its RPC image, usage
    metrics and pricing. *)

From Stdlib Require Import ZArith Lia String Ascii.
From stdpp Require Import gmap strings list fin_maps.
From S2P Require Import Prelude.

(** ** ids.rs *)

(** The newtypes keep tenant, cell and node ids apart; a uuid is a 128-bit
    number. *)
Record DatabaseId := mkDatabaseId { database_uuid : N }.
Record TenantId := mkTenantId { tenant_uuid : N }.
Record NodeId := mkNodeId { node_uuid : N }.

#[export] Instance DatabaseId_eq_dec : EqDecision DatabaseId.
Proof. solve_decision. Defined.
#[export] Instance DatabaseId_countable : Countable DatabaseId.
Proof. by apply (inj_countable' database_uuid mkDatabaseId); intros []. Defined.
#[export] Instance TenantId_eq_dec : EqDecision TenantId.
Proof. solve_decision. Defined.
#[export] Instance TenantId_countable : Countable TenantId.
Proof. by apply (inj_countable' tenant_uuid mkTenantId); intros []. Defined.
#[export] Instance NodeId_eq_dec : EqDecision NodeId.
Proof. solve_decision. Defined.
#[export] Instance NodeId_countable : Countable NodeId.
Proof. by apply (inj_countable' node_uuid mkNodeId); intros []. Defined.

(** The textual form of a uuid belongs to the [uuid] crate: hyphenated
    lower-case hexadecimal, parsed back by [from_str]. *)
Class UuidText := {
  uuid_to_string : N -> string;
  uuid_from_str : string -> option N;
}.

Definition is_whitespace (c : ascii) : bool :=
  (nat_of_ascii c =? 32)%nat ||
  ((9 <=? nat_of_ascii c)%nat && (nat_of_ascii c <=? 13)%nat).

Fixpoint no_whitespace (s : string) : bool :=
  match s with
  | EmptyString => true
  | String.String c rest => negb (is_whitespace c) && no_whitespace rest
  end.

(** What the program relies on: printing then parsing is the identity on a
    uuid, and the text is one non-empty word. *)
Class UuidTextLaws `{UuidText} := {
  uuid_parse_print : forall u, (u < 2 ^ 128)%N -> uuid_from_str (uuid_to_string u) = Some u;
  uuid_print_word : forall u, no_whitespace (uuid_to_string u) = true;
  uuid_print_nonempty : forall u, uuid_to_string u <> EmptyString;
}.

Section ids.
Context `{UuidText}.

Definition DatabaseId_to_string (d : DatabaseId) : string := uuid_to_string (database_uuid d).
Definition DatabaseId_from_str (s : string) : option DatabaseId :=
  mkDatabaseId <$> uuid_from_str s.
Definition TenantId_from_str (s : string) : option TenantId :=
  mkTenantId <$> uuid_from_str s.
Definition TenantId_to_string (t : TenantId) : string := uuid_to_string (tenant_uuid t).

End ids.

Section fresh_ids.
Context {env : Env} {S E : Type}.

Definition DatabaseId_new : M S E DatabaseId :=
  let! u := fresh_uuid in mret (mkDatabaseId u).
Definition TenantId_new : M S E TenantId :=
  let! u := fresh_uuid in mret (mkTenantId u).

End fresh_ids.

(** ** errors.rs *)

Inductive CombeeError :=
| DatabaseNotFound (id : DatabaseId)
| DatabaseAlreadyExists (id : DatabaseId)
| CellAlreadyExists (name : string)
| InvalidCellName (name : string)
| CellNameConflict (name : string)
| CellResetFailed (msg : string)
| ApiKeyNotFound
| Unauthorized
| InvalidRequest (msg : string)
| Forbidden (msg : string)
| QuotaExceeded (msg : string)
| SqlError (msg : string)
| Internal (msg : string).

#[export] Instance CombeeError_eq_dec : EqDecision CombeeError.
Proof. solve_decision. Defined.

Abbreviation Result := (result CombeeError).

Section errors.
Context `{UuidText}.

(** [#[error("...")]] of thiserror: [to_string]. *)
Definition error_to_string (e : CombeeError) : string :=
  match e with
  | DatabaseNotFound id => "database not found: " +:+ DatabaseId_to_string id
  | DatabaseAlreadyExists id => "database already exists: " +:+ DatabaseId_to_string id
  | CellAlreadyExists n => "cell name already exists: " +:+ n
  | InvalidCellName n => "invalid cell name: " +:+ n
  | CellNameConflict n => "cell name conflict: " +:+ n
  | CellResetFailed m => "cell reset failed: " +:+ m
  | ApiKeyNotFound => "api key not found or already revoked"
  | Unauthorized => "unauthorized"
  | InvalidRequest m => "invalid request: " +:+ m
  | Forbidden m => "forbidden: " +:+ m
  | QuotaExceeded m => "quota exceeded: " +:+ m
  | SqlError m => "sql error: " +:+ m
  | Internal m => "internal error: " +:+ m
  end%string.

Definition kind (e : CombeeError) : string :=
  match e with
  | DatabaseNotFound _ => "database_not_found"
  | DatabaseAlreadyExists _ => "database_already_exists"
  | CellAlreadyExists _ => "cell_already_exists"
  | InvalidCellName _ => "invalid_cell_name"
  | CellNameConflict _ => "cell_name_conflict"
  | CellResetFailed _ => "cell_reset_failed"
  | Unauthorized => "unauthorized"
  | ApiKeyNotFound => "api_key_not_found"
  | InvalidRequest _ => "invalid_request"
  | Forbidden _ => "forbidden"
  | QuotaExceeded _ => "quota_exceeded"
  | SqlError _ => "sql"
  | Internal _ => "internal"
  end%string.

(** [split_whitespace().last()]: the last maximal run of non-blank bytes. *)
Fixpoint last_word_aux (s cur : string) (found : option string) : option string :=
  let close := match cur with EmptyString => found | _ => Some cur end in
  match s with
  | EmptyString => close
  | String.String c rest =>
      if is_whitespace c then last_word_aux rest EmptyString close
      else last_word_aux rest (cur +:+ String.String c EmptyString) found
  end.

Definition last_word (s : string) : option string := last_word_aux s EmptyString None.

(** [CombeeError::from_kind]; [fresh] is the uuid [DatabaseId::new] would
    return when the message carries no id. *)
Definition from_kind (fresh : DatabaseId) (k message : string) : CombeeError :=
  let tail_id := w ← last_word message; DatabaseId_from_str w in
  if decide (k = "database_not_found"%string) then DatabaseNotFound (default fresh tail_id)
  else if decide (k = "database_already_exists"%string) then
    DatabaseAlreadyExists (default fresh tail_id)
  else if decide (k = "unauthorized"%string) then Unauthorized
  else if decide (k = "api_key_not_found"%string) then ApiKeyNotFound
  else if decide (k = "invalid_request"%string) then InvalidRequest message
  else if decide (k = "forbidden"%string) then Forbidden message
  else if decide (k = "quota_exceeded"%string) then QuotaExceeded message
  else if decide (k = "sql"%string) then SqlError message
  else Internal message.

(** rpc.rs: the response envelope. *)
Inductive RpcResponse (T : Type) :=
| RpcOk (data : T)
| RpcErr (rkind rmessage : string).
Arguments RpcOk {T} data.
Arguments RpcErr {T} rkind rmessage.

Definition from_result {T} (r : Result T) : RpcResponse T :=
  match r with
  | Ok data => RpcOk data
  | Err e => RpcErr (kind e) (error_to_string e)
  end.

Definition into_result {T} (fresh : DatabaseId) (r : RpcResponse T) : Result T :=
  match r with
  | RpcOk data => Ok data
  | RpcErr k m => Err (from_kind fresh k m)
  end.

End errors.

(** api-server/lib.rs: [ApiError::into_response], the HTTP status. *)
Definition http_status (e : CombeeError) : Z :=
  match e with
  | DatabaseNotFound _ => 404
  | DatabaseAlreadyExists _ => 409
  | CellAlreadyExists _ | CellNameConflict _ => 409
  | InvalidCellName _ => 400
  | CellResetFailed _ => 500
  | ApiKeyNotFound => 404
  | Unauthorized => 401
  | InvalidRequest _ => 400
  | Forbidden _ => 403
  | QuotaExceeded _ => 429
  | SqlError _ => 400
  | Internal _ => 500
  end.

(** ** usage.rs *)

Inductive UsageMetric :=
| KvRead | KvWrite | SqlRead | SqlWrite | Requests | BytesIn | BytesOut
| StorageBytes | StorageByteSecs.

#[export] Instance UsageMetric_eq_dec : EqDecision UsageMetric.
Proof. solve_decision. Defined.

Definition metric_as_str (m : UsageMetric) : string :=
  match m with
  | KvRead => "kv_read"
  | KvWrite => "kv_write"
  | SqlRead => "sql_read"
  | SqlWrite => "sql_write"
  | Requests => "requests"
  | BytesIn => "bytes_in"
  | BytesOut => "bytes_out"
  | StorageBytes => "storage_bytes"
  | StorageByteSecs => "storage_byte_secs"
  end%string.

Definition all_metrics : list UsageMetric :=
  [KvRead; KvWrite; SqlRead; SqlWrite; Requests; BytesIn; BytesOut; StorageBytes;
   StorageByteSecs].

Definition metric_parse (s : string) : option UsageMetric :=
  if decide (s = "kv_read"%string) then Some KvRead
  else if decide (s = "kv_write"%string) then Some KvWrite
  else if decide (s = "sql_read"%string) then Some SqlRead
  else if decide (s = "sql_write"%string) then Some SqlWrite
  else if decide (s = "requests"%string) then Some Requests
  else if decide (s = "bytes_in"%string) then Some BytesIn
  else if decide (s = "bytes_out"%string) then Some BytesOut
  else if decide (s = "storage_bytes"%string) then Some StorageBytes
  else if decide (s = "storage_byte_secs"%string) then Some StorageByteSecs
  else None.

Lemma metric_parse_as_str m : metric_parse (metric_as_str m) = Some m.
Proof. by destruct m. Qed.

#[export] Instance UsageMetric_countable : Countable UsageMetric.
Proof. exact (inj_countable metric_as_str metric_parse metric_parse_as_str). Defined.

Definition BUCKET_SECS : Z := 60.

(** [unix_secs.div_euclid(60) * 60]; the divisor is positive, so Euclidean
    and floor division agree. *)
Definition bucket_start (unix_secs : Z) : Z := unix_secs / BUCKET_SECS * BUCKET_SECS.

Record UsageKey := mkUsageKey {
  uk_tenant : TenantId;
  uk_cell : option DatabaseId;
  uk_metric : UsageMetric;
  uk_bucket : Z;
}.

#[export] Instance UsageKey_eq_dec : EqDecision UsageKey.
Proof. solve_decision. Defined.
#[export] Instance UsageKey_countable : Countable UsageKey.
Proof.
  by apply (inj_countable'
    (fun k => (uk_tenant k, uk_cell k, uk_metric k, uk_bucket k))
    (fun '(t, c, m, b) => mkUsageKey t c m b)); intros [].
Defined.

Record UsageBucket := mkUsageBucket {
  ub_tenant : TenantId;
  ub_cell : option DatabaseId;
  ub_metric : UsageMetric;
  ub_bucket : Z;
  ub_value : Z;
}.

(** ** credit.rs *)

Definition CREDIT_UNITS_PER_CREDIT : Z := 1000000.
Definition BYTE_SECS_PER_GB_HOUR : Z := 3600000000000.
Definition DEFAULT_STORAGE_PRICE_UNITS_PER_GB_HOUR : Z := 10000.

Inductive CreditTransactionType :=
| Recharge | Usage | Grant | Voucher | Refund | Adjustment.

#[export] Instance CreditTransactionType_eq_dec : EqDecision CreditTransactionType.
Proof. solve_decision. Defined.

Record CreditTransaction := mkTxn {
  txn_id : N;
  txn_tenant : TenantId;
  txn_type : CreditTransactionType;
  amount_units : Z;
  pricing_version : option Z;
  reference_id : option string;
  description : option string;
  txn_created_at : Z;
  balance_after : option Z;
}.

Record CreditAccount := mkAccount {
  acc_tenant : TenantId;
  balance_units : Z;
  reserved_units : Z;
  acc_updated_at : Z;
}.

Inductive VoucherStatus := VoucherActive | VoucherUsed | VoucherExpired | VoucherRevoked.

#[export] Instance VoucherStatus_eq_dec : EqDecision VoucherStatus.
Proof. solve_decision. Defined.

Record CreditVoucher := mkVoucher {
  v_id : N;
  v_code_hash : string;
  v_amount_units : Z;
  v_status : VoucherStatus;
  v_campaign : option string;
  v_created_at : Z;
  v_expires_at : option Z;
  v_redeemed_by : option TenantId;
  v_redeemed_at : option Z;
}.

Inductive PricingStatus := PricingActive | PricingInactive.

#[export] Instance PricingStatus_eq_dec : EqDecision PricingStatus.
Proof. solve_decision. Defined.

Record PricingVersion := mkPricingVersion {
  pv_version : Z;
  pv_status : PricingStatus;
  pv_effective_at : Z;
  pv_created_at : Z;
}.

Record PricingRule := mkPricingRule {
  pr_version : Z;
  pr_metric : UsageMetric;
  pr_unit_size : Z;
  pr_price_units : Z;
}.

Record PricingConfig := mkPricingConfig {
  pc_version : Z;
  pc_effective_at : Z;
  pc_rules : gmap UsageMetric (Z * Z);
}.

Definition PricingConfig_empty : PricingConfig := mkPricingConfig 0 0 ∅.

(** [PricingConfig::rate]: proportional, rounded down, saturated at
    [i64::MAX]. The product is computed in [u128]: with [units] a [u64] and
    [price_units] an [i64] it never overflows. *)
Definition rate (cfg : PricingConfig) (metric : UsageMetric) (units : Z) : Z :=
  match pc_rules cfg !! metric with
  | None => 0
  | Some (unit_size, price_units) =>
      if (unit_size <=? 0) || (price_units <=? 0) || (units =? 0) then 0
      else Z.min (units * price_units / unit_size) I64_MAX
  end.

(** ** Lemmas and properties *)

#[local] Arguments String.append !_ _ / : simpl nomatch.

Lemma append_assoc_char (a : string) c b :
  ((a +:+ String.String c EmptyString) +:+ b = a +:+ String.String c b)%string.
Proof. induction a as [|x a IH]; simpl; [done|]. by rewrite IH. Qed.

Lemma append_nil_r (a : string) : (a +:+ EmptyString = a)%string.
Proof. induction a as [|x a IH]; simpl; [done|]. by rewrite IH. Qed.

Lemma last_word_aux_word s cur found :
  no_whitespace s = true -> (cur +:+ s <> EmptyString)%string ->
  last_word_aux s cur found = Some (cur +:+ s)%string.
Proof.
  revert cur. induction s as [|c s IH]; intros cur Hw Hne; simpl in *.
  - rewrite append_nil_r in *. by destruct cur.
  - apply andb_prop in Hw as [Hc Hw]. apply negb_true_iff in Hc. rewrite Hc.
    rewrite IH; [by rewrite append_assoc_char | done |].
    rewrite append_assoc_char. by destruct cur.
Qed.

Section error_properties.
Context `{UuidTextLaws}.

Lemma tail_id_display id : (database_uuid id < 2 ^ 128)%N ->
  (w ← last_word_aux (DatabaseId_to_string id) EmptyString (Some "found:"%string);
   DatabaseId_from_str w) = Some id /\
  (w ← last_word_aux (DatabaseId_to_string id) EmptyString (Some "exists:"%string);
   DatabaseId_from_str w) = Some id.
Proof.
  intros Hid. unfold DatabaseId_from_str, DatabaseId_to_string.
  assert (Hw : forall f, last_word_aux (uuid_to_string (database_uuid id)) EmptyString f =
    Some (uuid_to_string (database_uuid id))).
  { intros f. apply last_word_aux_word; [apply uuid_print_word|apply uuid_print_nonempty]. }
  rewrite !Hw. simpl. rewrite uuid_parse_print by done. by destruct id.
Qed.

Definition cell_error (e : CombeeError) : bool :=
  match e with
  | CellAlreadyExists _ | InvalidCellName _ | CellNameConflict _ | CellResetFailed _ => true
  | _ => false
  end.

Definition carries_id (e : CombeeError) : option DatabaseId :=
  match e with DatabaseNotFound id | DatabaseAlreadyExists id => Some id | _ => None end.

(** An error sent over the internal RPC and restored by the client keeps
    its kind and its HTTP status, and the id it carries, unless it is one of
    the four cell-name errors; those come back as an internal error. *)
Theorem rpc_error_roundtrip (fresh : DatabaseId) (e : CombeeError) :
  (forall id, carries_id e = Some id -> (database_uuid id < 2 ^ 128)%N) ->
  exists e', into_result (T:=unit) fresh (from_result (Err e)) = Err e' /\
    (cell_error e = false ->
       kind e' = kind e /\ http_status e' = http_status e /\ carries_id e' = carries_id e) /\
    (cell_error e = true -> kind e' = "internal"%string /\ http_status e' = 500).
Proof.
  intros Hid. simpl. eexists. split; [reflexivity|].
  destruct e as [id|id| | | | | | | | | | |]; simpl; try (split; intros; done);
    specialize (Hid id eq_refl); pose proof (tail_id_display id Hid) as [H1 H2];
    (split; [intros _|done]); unfold from_kind; simpl;
    unfold last_word; simpl; [rewrite H1 | rewrite H2]; done.
Qed.

End error_properties.

(** A concrete textual form, used by the witnesses: the decimal number. *)
Definition decimal_uuid_text : UuidText := {|
  uuid_to_string u := i64_to_string (Z.of_N u);
  uuid_from_str s := Z.to_N <$> parse_digits s;
|}.

Lemma decimal_print_cases u :
  exists d, i64_to_string (Z.of_N u) = DecimalString.NilZero.string_of_uint d /\
    d <> Decimal.Nil /\ Z.of_uint d = Z.of_N u.
Proof.
  unfold i64_to_string.
  destruct (to_int_cases (Z.of_N u)) as [[_ (d & -> & ? & ?)]|[? _]]; [by exists d|lia].
Qed.

Lemma string_of_uint_word d : no_whitespace (DecimalString.NilZero.string_of_uint d) = true.
Proof.
  assert (Hne : no_whitespace (DecimalString.NilEmpty.string_of_uint d) = true)
    by (induction d; simpl; rewrite ?IHd; done).
  by destruct d.
Qed.

Lemma decimal_uuid_laws : @UuidTextLaws decimal_uuid_text.
Proof.
  split; simpl; intros u; destruct (decimal_print_cases u) as (d & -> & Hd & Hv).
  - intros _. rewrite parse_digits_print by done. simpl. by rewrite Hv, N2Z.id.
  - apply string_of_uint_word.
  - by destruct d.
Qed.

Lemma rpc_error_roundtrip_witness :
  exists e', @into_result decimal_uuid_text unit (mkDatabaseId 0)
    (@from_result decimal_uuid_text unit (Err (DatabaseNotFound (mkDatabaseId 7)))) = Err e' /\
    carries_id e' = Some (mkDatabaseId 7).
Proof.
  destruct (@rpc_error_roundtrip decimal_uuid_text decimal_uuid_laws (mkDatabaseId 0)
    (DatabaseNotFound (mkDatabaseId 7))) as (e' & He & Hk & _).
  - intros id [= <-]. reflexivity.
  - exists e'. split; [exact He|]. by destruct (Hk eq_refl) as (_ & _ & ->).
Defined.

(** Every second falls in exactly one minute bucket: the bucket start is
    a multiple of 60, not after the second, and less than 60 before it; two
    seconds share a bucket when they fall in the same minute. *)
Theorem bucket_start_spec (t : Z) :
  bucket_start t mod BUCKET_SECS = 0 /\ bucket_start t <= t < bucket_start t + BUCKET_SECS /\
  bucket_start (bucket_start t) = bucket_start t /\
  (forall u, bucket_start u = bucket_start t <-> bucket_start t <= u < bucket_start t + BUCKET_SECS).
Proof.
  unfold bucket_start, BUCKET_SECS.
  pose proof (Z.div_mod t 60 ltac:(lia)). pose proof (Z.mod_pos_bound t 60 ltac:(lia)).
  split_and!.
  - by rewrite Z.mod_mul.
  - lia.
  - lia.
  - by rewrite Z.div_mul.
  - intros u. pose proof (Z.div_mod u 60 ltac:(lia)).
    pose proof (Z.mod_pos_bound u 60 ltac:(lia)). split; [lia|].
    intros Hu. f_equal. symmetry. apply (Z.div_unique u 60 _ (u - t / 60 * 60)); lia.
Qed.

Section rate_lemmas.
Context (cfg : PricingConfig) (metric : UsageMetric) (size price : Z).
Context (Hrule : pc_rules cfg !! metric = Some (size, price)).
Context (Hsize : 0 < size) (Hprice : 0 < price).

Lemma rate_rule units : 0 <= units ->
  rate cfg metric units = Z.min (units * price / size) I64_MAX.
Proof using Hrule Hsize Hprice.
  intros Hu. unfold rate. rewrite Hrule.
  replace (size <=? 0) with false by lia. replace (price <=? 0) with false by lia.
  destruct (Z.eqb_spec units 0) as [->|]; simpl; [|done].
  rewrite Z.div_0_l by lia. by rewrite Z.min_l.
Qed.

Lemma div_superadditive a b : 0 <= a -> 0 <= b -> a / size + b / size <= (a + b) / size.
Proof using Hsize.
  intros. apply Z.div_le_lower_bound; [lia|].
  pose proof (Z.mul_div_le a size Hsize). pose proof (Z.mul_div_le b size Hsize). lia.
Qed.

Lemma div_nonneg a : 0 <= a -> 0 <= a / size.
Proof using Hsize. intros. by apply Z.div_pos. Qed.

End rate_lemmas.

(** Rating rounds down and never overcharges: the charge is between 0 and
    [i64::MAX], never more than the exact proportional price, less than one
    microcredit below it while it does not saturate; it is monotone, and
    charging usage in two parts never costs more than charging it at once. *)
Theorem rate_proportional_floor (cfg : PricingConfig) (metric : UsageMetric) (size price a b : Z) :
  pc_rules cfg !! metric = Some (size, price) -> 0 < size -> 0 < price -> 0 <= a -> 0 <= b ->
  0 <= rate cfg metric a <= I64_MAX /\
  rate cfg metric a * size <= a * price /\
  (rate cfg metric a < I64_MAX -> a * price < (rate cfg metric a + 1) * size) /\
  (a <= b -> rate cfg metric a <= rate cfg metric b) /\
  (rate cfg metric (a + b) < I64_MAX ->
     rate cfg metric a + rate cfg metric b <= rate cfg metric (a + b)).
Proof.
  intros Hr Hs Hp Ha Hb. rewrite !(rate_rule cfg metric size price) by (done || lia).
  pose proof (Z.mul_div_le (a * price) size Hs) as Hle.
  pose proof (Z.mul_succ_div_gt (a * price) size Hs) as Hgt.
  pose proof (div_nonneg size Hs (a * price) ltac:(nia)) as Hpos.
  unfold I64_MAX in *. split_and!; [lia|lia|nia| | |].
  - intros Hlt. rewrite Z.min_l in * by lia. lia.
  - intros Hab. pose proof (Z.div_le_mono (a * price) (b * price) size Hs ltac:(nia)). lia.
  - intros Hlt. pose proof (div_superadditive size Hs (a * price) (b * price) ltac:(nia) ltac:(nia)).
    replace ((a + b) * price) with (a * price + b * price) in * by lia. lia.
Qed.

Lemma rate_proportional_floor_witness :
  rate (mkPricingConfig 7 0 {[KvRead := (1000, 10)]}) KvRead 500 = 5 /\
  rate (mkPricingConfig 7 0 {[KvRead := (1000, 10)]}) KvRead 500 * 1000 <= 500 * 10.
Proof.
  split; [reflexivity|].
  apply (rate_proportional_floor (mkPricingConfig 7 0 {[KvRead := (1000, 10)]}) KvRead 1000 10 500 1);
    [reflexivity | lia | lia | lia | lia].
Defined.
