(* ===== verification/Kv.v ===== *)
(** crates/data-node: [ttl.rs] and [kv.rs], the Redis-style operations on the
    [__sys_kv] table of one Cell. The connection is the table; each SQL
    statement is one function on it, executed atomically or failing as a
    whole. *)

From Stdlib Require Import ZArith Lia String Ascii.
From stdpp Require Import gmap strings list fin_maps sorting.
From S2P Require Import Prelude Common.

(** One row of [__sys_kv] (storage.rs, SCHEMA_KV); the key is the map key. *)
Record KvRow := mkKvRow {
  row_value : string;
  row_expires_at : option Z;
  row_version : Z;
}.

Abbreviation KvTable := (gmap string KvRow).

(** protocol.rs *)
Record KvEntry := mkKvEntry { entry_value : string; entry_ttl_seconds : option Z }.
Record KvSetItem := mkKvSetItem {
  item_key : string;
  item_value : string;
  item_ttl_seconds : option Z;
}.
Record RpcKvScanResult := mkScanResult { scan_keys : list string; scan_next_cursor : string }.

(** ** ttl.rs *)

Definition is_expired (expires_at : option Z) (now : Z) : bool :=
  match expires_at with Some e => e <=? now | None => false end.

Definition ttl_or_remaining (expires_at : option Z) (now : Z) : option Z :=
  (fun e => Z.max (i64_sub e now) 0) <$> expires_at.

(** [ttl_seconds] is a [u64]: the cast [s as i64] and the sum both wrap in a
    release build. *)
Definition expires_at_from (ttl_seconds : option Z) (now : Z) : option Z :=
  (fun s => i64_add now (wrap_i64 s)) <$> ttl_seconds.

(** ** The SQL statements of kv.rs and ttl.rs *)

(** SELECT value, expires_at FROM __sys_kv WHERE key = ?1 *)
Definition sql_select_row (key : string) (t : KvTable) : option (string * option Z) :=
  (fun r => (row_value r, row_expires_at r)) <$> t !! key.

(** INSERT .. VALUES (?1, ?2, ?3, 1) ON CONFLICT(key) DO UPDATE SET value,
    expires_at, version = version + 1 *)
Definition sql_upsert (key value : string) (exp : option Z) (t : KvTable) : Z * KvTable :=
  match t !! key with
  | Some r => (1, <[key := mkKvRow value exp (row_version r + 1)]> t)
  | None => (1, <[key := mkKvRow value exp 1]> t)
  end.

(** INSERT .. ON CONFLICT(key) DO NOTHING *)
Definition sql_insert_if_absent (key value : string) (exp : option Z) (t : KvTable)
    : Z * KvTable :=
  match t !! key with
  | Some _ => (0, t)
  | None => (1, <[key := mkKvRow value exp 1]> t)
  end.

(** UPDATE __sys_kv SET value = ?2, expires_at = ?3, version = version + 1 WHERE key = ?1 *)
Definition sql_update_if_present (key value : string) (exp : option Z) (t : KvTable)
    : Z * KvTable :=
  match t !! key with
  | Some r => (1, <[key := mkKvRow value exp (row_version r + 1)]> t)
  | None => (0, t)
  end.

(** UPDATE __sys_kv SET expires_at = ?2, version = version + 1 WHERE key = ?1 *)
Definition sql_update_expires (key : string) (exp : option Z) (t : KvTable) : Z * KvTable :=
  match t !! key with
  | Some r => (1, <[key := mkKvRow (row_value r) exp (row_version r + 1)]> t)
  | None => (0, t)
  end.

(** DELETE FROM __sys_kv WHERE key = ?1 *)
Definition sql_delete (key : string) (t : KvTable) : Z * KvTable :=
  match t !! key with
  | Some _ => (1, delete key t)
  | None => (0, t)
  end.

(** DELETE FROM __sys_kv WHERE key IN (SELECT key FROM __sys_kv WHERE
    expires_at IS NOT NULL AND expires_at <= ?1 LIMIT ?2); a negative LIMIT is
    no limit. The order of the inner SELECT is the engine's; here it is the
    order of the map's enumeration, and no theorem depends on it. *)
Definition expired_keys (now : Z) (t : KvTable) : list string :=
  (filter (fun kr => is_expired (row_expires_at kr.2) now = true) (map_to_list t)).*1.

Definition sql_delete_expired (now limit : Z) (t : KvTable) : Z * KvTable :=
  let ks := expired_keys now t in
  let victims := if limit <? 0 then ks else take (Z.to_nat limit) ks in
  (Z.of_nat (length victims), foldr delete t victims).

(** ** LIKE *)

(** Skips the continuation bytes of a UTF-8 character. *)
Fixpoint skip_cont (s : string) : string :=
  match s with
  | String.String c rest =>
      if (128 <=? nat_of_ascii c)%nat && (nat_of_ascii c <? 192)%nat then skip_cont rest else s
  | EmptyString => EmptyString
  end.

(** SQLite's LIKE: [%] any run, [_] any character, ASCII letters compare
    without case. *)
Fixpoint like (p s : string) {struct p} : bool :=
  match p with
  | EmptyString => match s with EmptyString => true | _ => false end
  | String.String c p' =>
      if decide (c = "%"%char) then
        (fix any (s : string) (fuel : nat) {struct fuel} : bool :=
           like p' s ||
           match fuel, s with
           | Datatypes.S fuel', String.String _ s' => any (skip_cont s') fuel'
           | _, _ => false
           end) s (String.length s)
      else
        match s with
        | EmptyString => false
        | String.String d s' =>
            if decide (c = "_"%char) then like p' (skip_cont s')
            else bool_decide (to_lower c = to_lower d) && like p' s'
        end
  end.

(** ** UTF-8 validity, as [String::from_utf8] checks it *)

Definition byte_in (lo hi : nat) (c : ascii) : bool :=
  (lo <=? nat_of_ascii c)%nat && (nat_of_ascii c <=? hi)%nat.

Fixpoint utf8_valid (s : string) : bool :=
  match s with
  | EmptyString => true
  | String.String a s1 =>
      if byte_in 0 127 a then utf8_valid s1
      else match s1 with
      | EmptyString => false
      | String.String b s2 =>
          if byte_in 194 223 a then byte_in 128 191 b && utf8_valid s2
          else match s2 with
          | EmptyString => false
          | String.String c s3 =>
              if byte_in 224 239 a then
                (if byte_in 224 224 a then byte_in 160 191 b
                 else if byte_in 237 237 a then byte_in 128 159 b
                 else byte_in 128 191 b) && byte_in 128 191 c && utf8_valid s3
              else match s3 with
              | EmptyString => false
              | String.String d s4 =>
                  byte_in 240 244 a &&
                  (if byte_in 240 240 a then byte_in 144 191 b
                   else if byte_in 244 244 a then byte_in 128 143 b
                   else byte_in 128 191 b) &&
                  byte_in 128 191 c && byte_in 128 191 d && utf8_valid s4
              end
          end
      end
  end.

(** [{:?}] of a [str]: quotes, backslashes and control characters are
    escaped, the bytes of other characters are printed as they are. *)
Definition hex_digit (n : nat) : ascii :=
  ascii_of_nat (if (n <? 10)%nat then 48 + n else 87 + n).

Definition escape_char (c : ascii) : string :=
  let n := nat_of_ascii c in
  if bool_decide (n = 34%nat) || bool_decide (n = 92%nat)
  then String.String "\"%char (String.String c EmptyString)
  else if bool_decide (n = 0%nat) then "\0"%string
  else if bool_decide (n = 9%nat) then "\t"%string
  else if bool_decide (n = 10%nat) then "\n"%string
  else if bool_decide (n = 13%nat) then "\r"%string
  else if (n <? 16)%nat then ("\u{" +:+ String.String (hex_digit n) "}")%string
  else if (n <? 32)%nat || bool_decide (n = 127%nat)
  then ("\u{" +:+ String.String (hex_digit (n / 16)) (String.String (hex_digit (n mod 16)) "}"))%string
  else String.String c EmptyString.

Fixpoint escape_debug (s : string) : string :=
  match s with
  | EmptyString => EmptyString
  | String.String c rest => (escape_char c +:+ escape_debug rest)%string
  end.
Definition str_debug (s : string) : string :=
  let q := String.String (ascii_of_nat 34) EmptyString in (q +:+ escape_debug s +:+ q)%string.

(** ** kv.rs *)

Section kv.
Context {env : Env}.

Abbreviation KvM := (M KvTable CombeeError).

(** Executes a statement: it fails as a whole or takes effect as a whole. *)
Definition exec {A} (stmt : KvTable -> A * KvTable) : KvM A :=
  do! fallible SqlError in
  fun t e => let '(a, t') := stmt t in (Ok a, t', e).

Definition query {A} (stmt : KvTable -> A) : KvM A :=
  do! fallible SqlError in gets stmt.

Definition unix_now : KvM Z := read_clock.

Definition invalid (msg : string) : CombeeError := InvalidRequest msg.

Definition read_row (key : string) : KvM (option (string * option Z)) :=
  query (sql_select_row key).

Definition del (key : string) : KvM bool :=
  let! n := exec (sql_delete key) in mret (0 <? n).

Definition read_with_expiry (key : string) : KvM (option (string * option Z)) :=
  let! now := unix_now in
  let! row := read_row key in
  match row with
  | Some (value, expires_at) =>
      if negb (is_expired expires_at now) then
        if utf8_valid value then mret (Some (value, expires_at))
        else mfail (invalid "stored value is not valid UTF-8")
      else do! ignore (del key) in mret None
  | None => mret None
  end.

Definition get (key : string) : KvM (option KvEntry) :=
  let! now := unix_now in
  let! r := read_with_expiry key in
  match r with
  | Some (value, expires_at) =>
      mret (Some (mkKvEntry value (ttl_or_remaining expires_at now)))
  | None => mret None
  end.

Definition set (key value : string) (ttl_seconds : option Z) (nx xx : bool) : KvM bool :=
  if decide (key = EmptyString) then mfail (invalid "key must not be empty") else
  let! now := unix_now in
  let expires_at := expires_at_from ttl_seconds now in
  let! changed :=
    if nx then exec (sql_insert_if_absent key value expires_at)
    else if xx then exec (sql_update_if_present key value expires_at)
    else do! exec (sql_upsert key value expires_at) in mret 1 in
  mret (0 <? changed).

Definition exists_ (key : string) : KvM bool :=
  let! now := unix_now in
  let! row := read_row key in
  match row with
  | Some (_, expires_at) => mret (negb (is_expired expires_at now))
  | None => mret false
  end.

Definition mget (keys : list string) : KvM (list (option string)) :=
  mmap keys (fun k => let! r := get k in mret (entry_value <$> r)).

Definition mset (items : list KvSetItem) : KvM unit :=
  mfor items (fun it =>
    do! set (item_key it) (item_value it) (item_ttl_seconds it) false false in mret tt).

Definition ttl (key : string) : KvM (option Z) :=
  let! now := unix_now in
  let! row := read_row key in
  match row with
  | Some (_, Some expires_at) =>
      if negb (is_expired (Some expires_at) now)
      then mret (Some (Z.max (i64_sub expires_at now) 0))
      else mret None
  | Some (_, None) => mret (Some (-1))
  | None => mret None
  end.

Definition expire (key : string) (ttl_seconds : option Z) : KvM bool :=
  let! found := exists_ key in
  if negb found then mret false else
  let! now := unix_now in
  let expires_at := expires_at_from ttl_seconds now in
  do! exec (sql_update_expires key expires_at) in
  mret true.

(** [old.checked_add(delta)] and the parse of the stored text. *)
Definition incr_value (value : string) (delta : Z) : Result Z :=
  if utf8_valid value then
    match parse_i64 value with
    | Some old =>
        match i64_checked_add old delta with
        | Some new => Ok new
        | None => Err (invalid "integer overflow")
        end
    | None => Err (invalid ("value is not an integer: " +:+ str_debug value))
    end
  else Err (invalid "value is not an integer").

Definition incr (key : string) (delta : Z) (ttl_seconds : option Z) : KvM Z :=
  if decide (key = EmptyString) then mfail (invalid "key must not be empty") else
  let! now := unix_now in
  let! row := read_row key in
  let! (new_value, expires_at) :=
    match row with
    | Some (value, old_expires) =>
        if negb (is_expired old_expires now) then
          let! new := mlift (incr_value value delta) in
          let exp := match expires_at_from ttl_seconds now with
                     | Some e => Some e
                     | None => old_expires
                     end in
          mret (new, exp)
        else
          do! ignore (del key) in mret (delta, expires_at_from ttl_seconds now)
    | None => mret (delta, expires_at_from ttl_seconds now)
    end in
  do! exec (sql_upsert key (i64_to_string new_value) expires_at) in
  mret new_value.

(** The rows a scan can return: live, matching, after the cursor, in the order
    of the BINARY collation, which compares bytes. *)
Definition scan_matches (now : Z) (prefix cursor : string) (kr : string * KvRow) : bool :=
  negb (is_expired (row_expires_at kr.2) now) &&
  like (prefix +:+ "%") kr.1 &&
  (bool_decide (cursor = EmptyString) || negb (String.leb kr.1 cursor)).

Definition scan_rows (now : Z) (prefix cursor : string) (t : KvTable) : list string :=
  merge_sort String.le
    ((filter (fun kr => scan_matches now prefix cursor kr = true) (map_to_list t)).*1).

Definition clamp_limit (limit : Z) : Z := Z.min 1000 (Z.max 1 limit).

Definition scan (prefix : string) (limit : Z) (cursor : string) : KvM RpcKvScanResult :=
  let limit := clamp_limit limit in
  let! now := unix_now in
  let! rows := query (fun t => take (Z.to_nat (limit + 1)) (scan_rows now prefix cursor t)) in
  let more := bool_decide (limit < Z.of_nat (length rows)) in
  let keys := take (Z.to_nat limit) rows in
  let next_cursor := if more then default EmptyString (last keys) else EmptyString in
  mret (mkScanResult keys next_cursor).

(** ttl.rs: [gc_expired] *)
Definition gc_expired (limit : Z) : KvM Z :=
  let! now := unix_now in
  exec (sql_delete_expired now limit).

End kv.
