(* ===== verification/KvSpec.v ===== *)
(** What the KV store promises: a map from keys to values with expiry times,
    seen at a given time; and the proof that the operations of [kv.rs] and
    [ttl.rs] implement it on the SQLite table. *)

From Stdlib Require Import ZArith Lia String Ascii.
From stdpp Require Import gmap strings list fin_maps sorting.
From S2P Require Import Prelude Common Kv.

(** ** The abstract store *)

(** The entries a client can observe at time [now]. *)
Definition view (now : Z) (t : KvTable) : gmap string (string * option Z) :=
  omap (fun r => if is_expired (row_expires_at r) now then None
                 else Some (row_value r, row_expires_at r)) t.

(** Writing an entry: one that is already expired removes the key. *)
Definition spec_put (now : Z) (key value : string) (exp : option Z)
    (m : gmap string (string * option Z)) : gmap string (string * option Z) :=
  if is_expired exp now then delete key m else <[key := (value, exp)]> m.

(** What INCR adds to: 0 for an absent key, the number an entry spells. *)
Definition spec_counter (entry : option (string * option Z)) : option Z :=
  match entry with
  | None => Some 0
  | Some (value, _) => if utf8_valid value then parse_i64 value else None
  end.

Definition spec_exp (new old : option Z) : option Z :=
  match new with Some e => Some e | None => old end.

(** ** Requests as data *)

Inductive KvOp :=
| OpGet (key : string)
| OpSet (key value : string) (ttl : option Z) (nx xx : bool)
| OpDel (key : string)
| OpExists (key : string)
| OpTtl (key : string)
| OpExpire (key : string) (ttl : option Z)
| OpIncr (key : string) (delta : Z) (ttl : option Z)
| OpGc (limit : Z).

Inductive KvResp :=
| RespEntry (e : option KvEntry)
| RespBool (b : bool)
| RespTtl (t : option Z)
| RespInt (z : Z).

Section run.
Context {env : Env}.

Definition run_op (op : KvOp) : M KvTable CombeeError KvResp :=
  match op with
  | OpGet k => let! r := get k in mret (RespEntry r)
  | OpSet k v ttl nx xx => let! b := set k v ttl nx xx in mret (RespBool b)
  | OpDel k => let! b := del k in mret (RespBool b)
  | OpExists k => let! b := exists_ k in mret (RespBool b)
  | OpTtl k => let! r := ttl k in mret (RespTtl r)
  | OpExpire k ttl => let! b := expire k ttl in mret (RespBool b)
  | OpIncr k d ttl => let! z := incr k d ttl in mret (RespInt z)
  | OpGc limit => let! n := gc_expired limit in mret (RespInt n)
  end.

End run.

Definition op_key (op : KvOp) : option string :=
  match op with
  | OpGet k | OpSet k _ _ _ _ | OpDel k | OpExists k | OpTtl k | OpExpire k _ | OpIncr k _ _ =>
      Some k
  | OpGc _ => None
  end.

(** ** Lemmas *)

Lemma lookup_view now t k :
  view now t !! k = r ← t !! k;
    if is_expired (row_expires_at r) now then None else Some (row_value r, row_expires_at r).
Proof. unfold view. by rewrite lookup_omap. Qed.

Lemma is_expired_mono exp a b : a <= b -> is_expired exp a = true -> is_expired exp b = true.
Proof. destruct exp; simpl; [lia|done]. Qed.

Lemma view_delete_expired now t k r :
  t !! k = Some r -> is_expired (row_expires_at r) now = true -> view now (delete k t) = view now t.
Proof.
  intros Hk Hx. apply map_eq. intros j. rewrite !lookup_view.
  destruct (decide (k = j)) as [<-|]; [|by rewrite lookup_delete_ne].
  by rewrite lookup_delete_eq, Hk; simpl; rewrite Hx.
Qed.

Lemma view_insert now t k r :
  view now (<[k := r]> t) = spec_put now k (row_value r) (row_expires_at r) (view now t).
Proof.
  apply map_eq. intros j. unfold spec_put.
  destruct (is_expired (row_expires_at r) now) eqn:Hx; rewrite lookup_view.
  - destruct (decide (k = j)) as [<-|].
    + by rewrite lookup_insert_eq, lookup_delete_eq; simpl; rewrite Hx.
    + by rewrite lookup_insert_ne, lookup_delete_ne, lookup_view.
  - destruct (decide (k = j)) as [<-|].
    + by rewrite !lookup_insert_eq; simpl; rewrite Hx.
    + by rewrite !lookup_insert_ne, lookup_view.
Qed.

Lemma view_delete now t k : view now (delete k t) = delete k (view now t).
Proof.
  apply map_eq. intros j. rewrite lookup_view.
  destruct (decide (k = j)) as [<-|]; [by rewrite !lookup_delete_eq|].
  by rewrite !lookup_delete_ne, lookup_view.
Qed.

Lemma foldr_delete_lookup {V} (ks : list string) (t : gmap string V) k :
  foldr delete t ks !! k = if decide (k ∈ ks) then None else t !! k.
Proof.
  induction ks as [|j ks IH]; simpl; [done|].
  destruct (decide (j = k)) as [->|Hne].
  - rewrite lookup_delete_eq. by rewrite decide_True by set_solver.
  - rewrite lookup_delete_ne by done. rewrite IH.
    destruct (decide (k ∈ ks)); [by rewrite decide_True by set_solver|].
    by rewrite decide_False by set_solver.
Qed.

Lemma elem_of_expired_keys now t k :
  k ∈ expired_keys now t <->
  exists r, t !! k = Some r /\ is_expired (row_expires_at r) now = true.
Proof.
  unfold expired_keys. rewrite list_elem_of_fmap. split.
  - intros ([k' r] & -> & Hin). apply list_elem_of_filter in Hin as [Hx Hin].
    apply elem_of_map_to_list in Hin. by exists r.
  - intros (r & Hk & Hx). exists (k, r). split; [done|].
    apply list_elem_of_filter. split; [done|]. by apply elem_of_map_to_list.
Qed.

Lemma take_subset {A} n (l : list A) x : x ∈ take n l -> x ∈ l.
Proof. intros H. rewrite <- (take_drop n l). set_solver. Qed.

Lemma victims_expired now limit t k :
  k ∈ (if limit <? 0 then expired_keys now t else take (Z.to_nat limit) (expired_keys now t)) ->
  exists r, t !! k = Some r /\ is_expired (row_expires_at r) now = true.
Proof.
  intros H. apply elem_of_expired_keys. destruct (limit <? 0); [done|]. by eapply take_subset.
Qed.

Lemma view_gc now limit t later : now <= later ->
  view later (sql_delete_expired now limit t).2 = view later t.
Proof.
  intros Hle. apply map_eq. intros k. unfold sql_delete_expired. simpl.
  rewrite !lookup_view, foldr_delete_lookup. case_decide as Hin; [|done].
  apply victims_expired in Hin as (r & -> & Hx). simpl.
  by rewrite (is_expired_mono _ _ _ Hle Hx).
Qed.

(** Evaluates an operation symbolically: every fault, lookup and test that it
    depends on becomes a case. *)
Ltac kv_unfold :=
  unfold run_op, get, set, del, exists_, ttl, expire, incr, gc_expired, read_with_expiry,
    read_row, query, exec, unix_now, read_clock, fallible, bind, mret, mfail, mlift, ignore, gets in *.
Ltac kv_run :=
  kv_unfold; repeat (simplify_eq; cbn in *; case_match; try done).

Section frame.
Context {env : Env}.

Lemma exec_run {A} (stmt : KvTable -> A * KvTable) t e :
  exec stmt t e =
  match fault (e_call e) with
  | Some msg => (Err (SqlError msg), t, bump_call e)
  | None => (Ok (stmt t).1, (stmt t).2, bump_call e)
  end.
Proof.
  unfold exec, bind, fallible. destruct (fault _); [done|]. by destruct (stmt t).
Qed.

Lemma query_run {A} (stmt : KvTable -> A) t e :
  query stmt t e =
  match fault (e_call e) with
  | Some msg => (Err (SqlError msg), t, bump_call e)
  | None => (Ok (stmt t), t, bump_call e)
  end.
Proof. unfold query, bind, fallible, gets. by destruct (fault _). Qed.

Lemma preserves_unix_now (J : KvTable -> Prop) : preserves (fun t _ => J t) unix_now.
Proof. by intros t e Ht. Qed.

Lemma preserves_query {A} (J : KvTable -> Prop) (stmt : KvTable -> A) :
  preserves (fun t _ => J t) (query stmt).
Proof. intros t e Ht. rewrite query_run. by destruct (fault _). Qed.

Lemma preserves_exec {A} (J : KvTable -> Prop) (stmt : KvTable -> A * KvTable) :
  (forall t, J t -> J (stmt t).2) -> preserves (fun t _ => J t) (exec stmt).
Proof. intros H t e Ht. rewrite exec_run. destruct (fault _); [done|]. by apply H. Qed.

End frame.

#[export] Hint Resolve preserves_unix_now preserves_query : combee.

Section frame_ops.
Context {env : Env} (k : string) (x : option KvRow).
Abbreviation Same := (fun (t : KvTable) (_ : Eff) => t !! k = x).

Lemma frame_delete key : key <> k -> preserves Same (del key).
Proof.
  intros Hne. unfold del. pres. apply preserves_exec. intros t Ht. unfold sql_delete.
  case_match; simpl; [by rewrite lookup_delete_ne|done].
Qed.

Lemma frame_read key : preserves Same (read_row key).
Proof. apply preserves_query. Qed.

Lemma frame_upsert key v exp : key <> k -> preserves Same (exec (sql_upsert key v exp)).
Proof.
  intros Hne. apply preserves_exec. intros t Ht. unfold sql_upsert.
  case_match; simpl; by rewrite lookup_insert_ne.
Qed.

#[local] Hint Resolve frame_delete frame_read frame_upsert : combee.

Lemma frame_read_with_expiry key : key <> k -> preserves Same (read_with_expiry key).
Proof. intros. unfold read_with_expiry. pres. Qed.

Lemma frame_get key : key <> k -> preserves Same (get key).
Proof. intros. unfold get. pres. by apply frame_read_with_expiry. Qed.

Lemma frame_set key v ttl nx xx : key <> k -> preserves Same (set key v ttl nx xx).
Proof.
  intros Hne. unfold set. pres; apply preserves_exec; intros t Ht;
    unfold sql_insert_if_absent, sql_update_if_present; case_match; simpl;
    rewrite ?lookup_insert_ne by done; done.
Qed.

Lemma frame_expire key ttl : key <> k -> preserves Same (expire key ttl).
Proof.
  intros Hne. unfold expire, exists_. pres. apply preserves_exec. intros t Ht.
  unfold sql_update_expires. case_match; simpl; [by rewrite lookup_insert_ne|done].
Qed.

Lemma frame_incr key d ttl : key <> k -> preserves Same (incr key d ttl).
Proof. intros Hne. unfold incr. pres. Qed.

End frame_ops.

(** The rows of other keys are untouched by an operation on a key, whatever
    its outcome. *)
Lemma run_op_frame {env : Env} op t e r t' e' key k :
  run_op op t e = (r, t', e') -> op_key op = Some key -> key <> k -> t' !! k = t !! k.
Proof.
  intros Hrun Hk Hne.
  assert (preserves (fun t0 _ => t0 !! k = t !! k) (run_op op)) as Hp.
  { destruct op; simplify_eq/=; pres;
      eauto using frame_get, frame_set, frame_delete, frame_expire, frame_incr;
      unfold exists_, Kv.ttl; pres. }
  exact (hoare_run _ _ _ _ _ _ _ _ Hp eq_refl Hrun).
Qed.

(** ** Each operation against the abstract store *)

Section refinement.
Context {env : Env}.

Lemma del_run key t e :
  del key t e =
  match fault (e_call e) with
  | Some msg => (Err (SqlError msg), t, bump_call e)
  | None => (Ok (bool_decide (is_Some (t !! key))), delete key t, bump_call e)
  end.
Proof.
  unfold del, bind. rewrite exec_run. destruct (fault _); [done|]. unfold sql_delete.
  destruct (t !! key) eqn:Hk; simpl; [done|]. by rewrite delete_id.
Qed.

Lemma read_row_run key t e :
  read_row key t e =
  match fault (e_call e) with
  | Some msg => (Err (SqlError msg), t, bump_call e)
  | None => (Ok (sql_select_row key t), t, bump_call e)
  end.
Proof. apply query_run. Qed.

(** The outcome of an operation started at effect state [e]: it made [n]
    clock readings, and seen at any time not before them it changed the
    observable store by [f]. *)
Definition updates (n : nat)
    (f : Z -> gmap string (string * option Z) -> gmap string (string * option Z))
    (t : KvTable) (e : Eff) (t' : KvTable) (e' : Eff) : Prop :=
  e_clock e' = (n + e_clock e)%nat /\
  forall later, (forall i, (i < n)%nat -> clock (i + e_clock e) <= later) ->
    view later t' = f later (view later t).

Abbreviation observes_only n := (updates n (fun _ m => m)).

Lemma observes_only_refl n t e e' :
  e_clock e' = (n + e_clock e)%nat -> observes_only n t e t e'.
Proof. by split. Qed.

Lemma observes_only_del n i t e e' key r :
  e_clock e' = (n + e_clock e)%nat -> (i < n)%nat -> t !! key = Some r ->
  is_expired (row_expires_at r) (clock (i + e_clock e)) = true ->
  observes_only n t e (delete key t) e'.
Proof.
  intros He Hi Hk Hx. split; [done|]. intros later Hl.
  eapply view_delete_expired; [exact Hk|]. eapply is_expired_mono; [|exact Hx]. by apply Hl.
Qed.

Lemma view_lookup_row now t key r :
  t !! key = Some r -> is_expired (row_expires_at r) now = false ->
  view now t !! key = Some (row_value r, row_expires_at r).
Proof. intros Hk Hx. rewrite lookup_view, Hk. simpl. by rewrite Hx. Qed.

Lemma view_lookup_None now t key : t !! key = None -> view now t !! key = None.
Proof. intros Hk. by rewrite lookup_view, Hk. Qed.

Lemma view_lookup_expired now t key r :
  t !! key = Some r -> is_expired (row_expires_at r) now = true -> view now t !! key = None.
Proof. intros Hk Hx. rewrite lookup_view, Hk. simpl. by rewrite Hx. Qed.

Lemma read_with_expiry_spec key t e r t' e' :
  read_with_expiry key t e = (r, t', e') ->
  observes_only 1 t e t' e' /\
  (forall o, r = Ok o -> o = view (clock (e_clock e)) t !! key) /\
  (forall j, j <> key -> t' !! j = t !! j) /\
  (t' !! key = t !! key \/
   exists row, t !! key = Some row /\ t' !! key = None /\
     is_expired (row_expires_at row) (clock (e_clock e)) = true).
Proof.
  intros Hrun.
  assert (forall j, j <> key -> t' !! j = t !! j) as Hframe.
  { intros j Hj. exact (hoare_run _ _ _ _ _ _ _ _
      (frame_read_with_expiry j (t !! j) key (not_eq_sym Hj)) eq_refl Hrun). }
  revert Hrun.
  unfold read_with_expiry, bind, unix_now, read_clock. rewrite read_row_run.
  destruct (fault _) as [msg|].
  { intros [= <- <- <-]. split; [by apply observes_only_refl|]. split; [by intros|]. auto. }
  unfold sql_select_row. destruct (t !! key) as [row|] eqn:Hk; simpl.
  2:{ intros [= <- <- <-]. split; [by apply observes_only_refl|].
      split; [intros o [= <-]; symmetry; by apply view_lookup_None|]. auto. }
  destruct (is_expired _ _) eqn:Hx; simpl.
  - pose proof (view_lookup_expired _ _ _ _ Hk Hx) as Hv. unfold ignore. rewrite del_run.
    destruct (fault _); intros [= <- <- <-].
    + split; [by apply observes_only_refl|]. split; [by intros o [= <-]|]. auto.
    + split; [apply (observes_only_del 1 0 t e _ key row); [done|lia|done|done]|]. split; [by intros o [= <-]|].
      split; [done|]. right. exists row. by rewrite lookup_delete_eq.
  - pose proof (view_lookup_row _ _ _ _ Hk Hx) as Hv.
    destruct (utf8_valid _); intros [= <- <- <-];
      (split; [by apply observes_only_refl|]; split; [by intros o [= <-]|]; auto).
Qed.

Lemma select_row_view now t key :
  match sql_select_row key t with
  | Some (v, x) => if is_expired x now then view now t !! key = None
                   else view now t !! key = Some (v, x)
  | None => view now t !! key = None
  end.
Proof.
  unfold sql_select_row. destruct (t !! key) as [row|] eqn:Hk; simpl.
  - destruct (is_expired _ _) eqn:Hx; [by eapply view_lookup_expired|by eapply view_lookup_row].
  - by apply view_lookup_None.
Qed.

Lemma get_spec key t e r t' e' :
  get key t e = (r, t', e') ->
  observes_only 2 t e t' e' /\
  forall o, r = Ok o ->
    o = (fun '(v, x) => mkKvEntry v (ttl_or_remaining x (clock (e_clock e)))) <$>
        view (clock (S (e_clock e))) t !! key.
Proof.
  unfold get, bind, unix_now, read_clock.
  destruct (read_with_expiry key t (bump_clock e)) as [[r1 t1] e1] eqn:Hrun.
  apply read_with_expiry_spec in Hrun as ([He Hobs] & Hok & _).
  assert (observes_only 2 t e t1 e1) as Hobs2.
  { split; [simpl in He; lia|]. intros later Hl. apply Hobs. intros i Hi.
    replace i with 0%nat by lia. exact (Hl 1%nat ltac:(lia)). }
  destruct r1 as [o|err]; [|intros [= <- <- <-]; by split].
  specialize (Hok o eq_refl). cbn in Hok.
  destruct o as [[v x]|]; intros [= <- <- <-]; (split; [done|]); intros o [= <-];
    by rewrite <- Hok.
Qed.

Lemma exists_spec key t e r t' e' :
  exists_ key t e = (r, t', e') ->
  t' = t /\ observes_only 1 t e t' e' /\
  forall b, r = Ok b -> b = bool_decide (is_Some (view (clock (e_clock e)) t !! key)).
Proof.
  unfold exists_, bind, unix_now, read_clock. rewrite read_row_run.
  destruct (fault _); [intros [= <- <- <-]; by repeat split|].
  pose proof (select_row_view (clock (e_clock e)) t key) as Hv.
  destruct (sql_select_row key t) as [[v x]|].
  - destruct (is_expired x _); intros [= <- <- <-]; (repeat split; try done);
      intros b [= <-]; by rewrite Hv.
  - intros [= <- <- <-]. repeat split; try done. intros b [= <-]. by rewrite Hv.
Qed.

Lemma ttl_spec key t e r t' e' :
  Kv.ttl key t e = (r, t', e') ->
  observes_only 1 t e t' e' /\
  forall o, r = Ok o ->
    o = (fun '(v, x) => match x with
                        | Some exp => Z.max (i64_sub exp (clock (e_clock e))) 0
                        | None => -1
                        end) <$> view (clock (e_clock e)) t !! key.
Proof.
  unfold Kv.ttl, bind, unix_now, read_clock. rewrite read_row_run.
  destruct (fault _); [intros [= <- <- <-]; by repeat split|].
  pose proof (select_row_view (clock (e_clock e)) t key) as Hv.
  destruct (sql_select_row key t) as [[v [x|]]|]; simpl.
  - destruct (is_expired (Some x) _) eqn:Hx; simpl in Hx; rewrite Hx; simpl;
      intros [= <- <- <-]; (repeat split; try done); intros o [= <-]; by rewrite Hv.
  - intros [= <- <- <-]. repeat split; try done. intros o [= <-]. simpl in Hv. by rewrite Hv.
  - intros [= <- <- <-]. repeat split; try done. intros o [= <-]. by rewrite Hv.
Qed.

Lemma upsert_view key v x t now :
  view now (sql_upsert key v x t).2 = spec_put now key v x (view now t).
Proof. unfold sql_upsert. destruct (t !! key); apply (view_insert now t key). Qed.

Lemma spec_put_delete now key v x m : spec_put now key v x (delete key m) = spec_put now key v x m.
Proof.
  unfold spec_put. destruct (is_expired x now); [by rewrite delete_delete_eq|].
  by rewrite insert_delete_eq.
Qed.

(** Whether SET writes: NX asks for no row, XX for a row, live or not. *)
Definition set_writes (nx xx : bool) (row : option KvRow) : bool :=
  if nx then bool_decide (row = None) else if xx then bool_decide (is_Some row) else true.

Lemma set_spec key v ttl nx xx t e r t' e' :
  set key v ttl nx xx t e = (r, t', e') ->
  match r with
  | Ok b => b = set_writes nx xx (t !! key) /\ key <> EmptyString /\
      e_clock e' = S (e_clock e) /\
      t' = if b then (sql_upsert key v (expires_at_from ttl (clock (e_clock e))) t).2 else t
  | Err _ => t' = t
  end.
Proof.
  unfold set. case_decide as Hk; [by intros [= <- <- <-]|].
  unfold bind, unix_now, read_clock. destruct nx; [|destruct xx]; simpl; rewrite exec_run;
    (destruct (fault _); [by intros [= <- <- <-]|]);
    unfold sql_insert_if_absent, sql_update_if_present, sql_upsert;
    destruct (t !! key) eqn:Ht; intros [= <- <- <-]; simpl; done.
Qed.

Lemma upsert_updates key v x t e e' :
  e_clock e' = S (e_clock e) ->
  updates 1 (fun now => spec_put now key v x) t e (sql_upsert key v x t).2 e'.
Proof. intros He. split; [done|]. intros later _. apply upsert_view. Qed.

Lemma del_spec key t e r t' e' :
  del key t e = (r, t', e') ->
  match r with
  | Ok b => b = bool_decide (is_Some (t !! key)) /\ t' = delete key t /\
      updates 0 (fun _ => delete key) t e t' e'
  | Err _ => t' = t
  end.
Proof.
  rewrite del_run. destruct (fault _); intros [= <- <- <-]; [done|].
  split; [done|]. split; [done|]. split; [done|]. intros later _. apply view_delete.
Qed.

Lemma update_expires_view key x t now r :
  t !! key = Some r ->
  view now (sql_update_expires key x t).2 = spec_put now key (row_value r) x (view now t).
Proof. intros Hk. unfold sql_update_expires. rewrite Hk. apply (view_insert now t key). Qed.

Lemma expire_spec key ttl t e r t' e' :
  expire key ttl t e = (r, t', e') ->
  match r with
  | Ok true => exists v x, view (clock (e_clock e)) t !! key = Some (v, x) /\
      updates 2 (fun now => spec_put now key v (expires_at_from ttl (clock (S (e_clock e)))))
        t e t' e'
  | Ok false => view (clock (e_clock e)) t !! key = None /\ t' = t
  | Err _ => t' = t
  end.
Proof.
  unfold expire, bind. destruct (exists_ key t e) as [[r1 t1] e1] eqn:Hrun.
  apply exists_spec in Hrun as (-> & [He1 _] & Hok).
  destruct r1 as [b|err]; [|by intros [= <- <- <-]]. specialize (Hok b eq_refl).
  destruct (view (clock (e_clock e)) t !! key) as [[v x]|] eqn:Hv; subst b; simpl;
    [|by intros [= <- <- <-]].
  unfold unix_now, read_clock. rewrite exec_run, He1.
  destruct (fault _); intros [= <- <- <-]; [done|].
  exists v, x. split; [done|]. split; [simpl; rewrite He1; lia|].
  intros later _. rewrite lookup_view in Hv.
  destruct (t !! key) as [row|] eqn:Hk; simpl in Hv; [|done].
  destruct (is_expired _ _); simplify_eq. by rewrite (update_expires_view _ _ _ _ row Hk).
Qed.

Lemma incr_value_spec v x delta n :
  incr_value v delta = Ok n ->
  exists base, spec_counter (Some (v, x)) = Some base /\ n = base + delta /\ is_i64 n.
Proof.
  unfold incr_value. simpl. destruct (utf8_valid v); [|done].
  destruct (parse_i64 v) as [old|] eqn:Hp; [|done].
  destruct (i64_checked_add old delta) eqn:Ha; [|done]. intros [= <-].
  apply i64_checked_add_Some in Ha as [-> Hr]. by exists old.
Qed.

Lemma incr_spec key delta ttl t e r t' e' :
  incr key delta ttl t e = (r, t', e') ->
  match r with
  | Ok n => key <> EmptyString /\ exists base,
      spec_counter (view (clock (e_clock e)) t !! key) = Some base /\
      n = base + delta /\ (is_i64 delta -> is_i64 n) /\
      updates 1 (fun now => spec_put now key (i64_to_string n)
        (spec_exp (expires_at_from ttl (clock (e_clock e)))
                  (view (clock (e_clock e)) t !! key ≫= snd))) t e t' e'
  | Err _ => observes_only 1 t e t' e' \/ t' = t
  end.
Proof.
  unfold incr. case_decide as Hkey; [intros [= <- <- <-]; auto|].
  unfold bind, unix_now, read_clock. rewrite read_row_run.
  destruct (fault _); [intros [= <- <- <-]; auto|].
  pose proof (select_row_view (clock (e_clock e)) t key) as Hv. unfold sql_select_row in *.
  destruct (t !! key) as [row|] eqn:Hk; simpl in *.
  2:{ rewrite exec_run. destruct (fault _); intros [= <- <- <-]; [auto|].
      split; [done|]. exists 0. rewrite Hv. simpl. split_and!; try done.
      split; [done|]. intros later _. rewrite upsert_view.
      by destruct (expires_at_from ttl (clock (e_clock e))). }
  destruct (is_expired _ _) eqn:Hx; simpl.
  - unfold ignore. rewrite del_run. destruct (fault (e_call _)); cbn; rewrite exec_run.
    + destruct (fault _); intros [= <- <- <-]; [auto|]. split; [done|]. exists 0.
      rewrite Hv. simpl. split_and!; try done. split; [done|]. intros later _.
      rewrite upsert_view. by destruct (expires_at_from ttl (clock (e_clock e))).
    + destruct (fault _); intros [= <- <- <-].
      { left. apply (observes_only_del 1 0 t e _ key row); [done|lia|done|done]. }
      split; [done|]. exists 0. rewrite Hv. simpl. split_and!; try done. split; [done|].
      intros later _. rewrite upsert_view, view_delete, spec_put_delete.
      by destruct (expires_at_from ttl (clock (e_clock e))).
  - unfold mlift. destruct (incr_value _ _) as [n|err] eqn:Hn; [|intros [= <- <- <-]; auto].
    cbn. rewrite exec_run. destruct (fault _); intros [= <- <- <-]; [auto|].
    apply (incr_value_spec _ (row_expires_at row)) in Hn as (base & Hb & -> & Hr).
    split; [done|]. exists base. rewrite Hv. split_and!; try done. split; [done|].
    intros later _. apply upsert_view.
Qed.

Lemma gc_spec limit t e r t' e' :
  gc_expired limit t e = (r, t', e') ->
  observes_only 1 t e t' e' /\
  forall n, r = Ok n ->
    n = (if limit <? 0 then Z.of_nat (length (expired_keys (clock (e_clock e)) t))
         else Z.min limit (Z.of_nat (length (expired_keys (clock (e_clock e)) t)))).
Proof.
  unfold gc_expired, bind, unix_now, read_clock. rewrite exec_run.
  destruct (fault _); intros [= <- <- <-]; [by split|]. split.
  - split; [done|]. intros later Hl. apply view_gc. exact (Hl 0%nat ltac:(lia)).
  - intros n [= <-]. destruct (limit <? 0) eqn:Hl; [done|]. rewrite length_take. lia.
Qed.

(** Without a fault of SQLite an operation fails for its arguments only. *)
Definition counter_fits (delta : Z) (entry : option (string * option Z)) : bool :=
  match entry with
  | None => true
  | Some _ => match spec_counter entry with Some base => bool_decide (is_i64 (base + delta)) | None => false end
  end.

Section no_fault.
Hypothesis Hfault : forall i, fault i = None.

Lemma reads_answer key limit t e :
  is_Ok (get key t e).1.1 =
    from_option (fun vx => utf8_valid vx.1) true (view (clock (S (e_clock e))) t !! key) /\
  is_Ok (exists_ key t e).1.1 = true /\ is_Ok (Kv.ttl key t e).1.1 = true /\
  is_Ok (gc_expired limit t e).1.1 = true.
Proof.
  pose proof (select_row_view (clock (S (e_clock e))) t key) as Hv.
  unfold get, read_with_expiry, exists_, Kv.ttl, gc_expired, bind, unix_now, read_clock, ignore.
  rewrite !read_row_run, exec_run, !Hfault. split_and!; try done.
  - destruct (sql_select_row key t) as [[v x]|]; [|by rewrite Hv]. cbn.
    destruct (is_expired _ _) eqn:Hx; rewrite Hv; cbn; [rewrite del_run, Hfault; done|].
    by destruct (utf8_valid v).
  - by destruct (sql_select_row key t) as [[v x]|].
  - destruct (sql_select_row key t) as [[v [x|]]|]; try done. by destruct (negb _).
Qed.

Lemma read_with_expiry_answers key t e :
  (forall row, t !! key = Some row -> utf8_valid (row_value row) = true) ->
  is_Ok (read_with_expiry key t e).1.1 = true.
Proof.
  intros Htext. unfold read_with_expiry, bind, unix_now, read_clock, ignore, sql_select_row.
  rewrite read_row_run, Hfault. unfold sql_select_row.
  destruct (t !! key) as [row|] eqn:Hk; [|done]. simpl.
  destruct (is_expired _ _); simpl; [by rewrite del_run, Hfault|]. by rewrite (Htext row eq_refl).
Qed.

Lemma writes_answer key value ttl nx xx delta t e :
  is_Ok (set key value ttl nx xx t e).1.1 = negb (bool_decide (key = EmptyString)) /\
  is_Ok (del key t e).1.1 = true /\ is_Ok (expire key ttl t e).1.1 = true /\
  is_Ok (incr key delta ttl t e).1.1 =
    negb (bool_decide (key = EmptyString)) && counter_fits delta (view (clock (e_clock e)) t !! key).
Proof.
  split_and!.
  - unfold set, bind, unix_now, read_clock.
    destruct (decide (key = EmptyString)); [by rewrite bool_decide_eq_true_2|].
    rewrite bool_decide_eq_false_2 by done. by destruct nx, xx; simpl; rewrite exec_run, Hfault.
  - by rewrite del_run, Hfault.
  - unfold expire, exists_, bind, unix_now, read_clock. rewrite read_row_run, Hfault.
    destruct (sql_select_row key t) as [[v x]|]; [|done]. simpl.
    destruct (is_expired _ _); [done|]. simpl. by rewrite exec_run, Hfault.
  - pose proof (select_row_view (clock (e_clock e)) t key) as Hv.
    unfold incr, bind, unix_now, read_clock, ignore.
    destruct (decide (key = EmptyString)); [by rewrite bool_decide_eq_true_2|].
    rewrite bool_decide_eq_false_2 by done. rewrite read_row_run, Hfault.
    destruct (sql_select_row key t) as [[v x]|]; [|by simpl; rewrite exec_run, Hfault, Hv].
    destruct (is_expired _ _); rewrite Hv; simpl.
    + rewrite del_run, Hfault. cbn. by rewrite exec_run, Hfault.
    + unfold incr_value, mlift, i64_checked_add. destruct (utf8_valid v); [|done].
      destruct (parse_i64 v) as [old|]; [|done].
      destruct (decide (is_i64 (old + delta))); simpl;
        [rewrite exec_run, Hfault, bool_decide_eq_true_2 | rewrite bool_decide_eq_false_2]; done.
Qed.

End no_fault.

End refinement.

(** ** Properties *)

Section properties.
Context {env : Env}.

(** C20: GET, EXISTS and TTL answer from the abstract store at the time they
    read the clock (a live entry with its remaining seconds, -1 for one
    without expiry, nothing for an expired or absent key), and none of them,
    nor the background GC, changes what can be observed afterwards, even when
    a statement fails half way. Without a fault of SQLite they all answer,
    but a GET of a value that is not text. *)
Theorem kv_reads_refine (key : string) (limit : Z) (t : KvTable) (e : Eff) :
  (let '(r, t', e') := get key t e in
   updates 2 (fun _ m => m) t e t' e' /\
   forall o, r = Ok o ->
     o = (fun '(v, x) => mkKvEntry v (ttl_or_remaining x (clock (e_clock e)))) <$>
         view (clock (S (e_clock e))) t !! key) /\
  (let '(r, t', e') := exists_ key t e in
   updates 1 (fun _ m => m) t e t' e' /\
   forall b, r = Ok b -> b = bool_decide (is_Some (view (clock (e_clock e)) t !! key))) /\
  (let '(r, t', e') := Kv.ttl key t e in
   updates 1 (fun _ m => m) t e t' e' /\
   forall o, r = Ok o ->
     o = (fun '(v, x) => match x with
                         | Some exp => Z.max (i64_sub exp (clock (e_clock e))) 0
                         | None => -1
                         end) <$> view (clock (e_clock e)) t !! key) /\
  (let '(r, t', e') := gc_expired limit t e in updates 1 (fun _ m => m) t e t' e') /\
  ((forall i, fault i = None) ->
   is_Ok (get key t e).1.1 =
     from_option (fun vx => utf8_valid vx.1) true (view (clock (S (e_clock e))) t !! key) /\
   is_Ok (exists_ key t e).1.1 = true /\ is_Ok (Kv.ttl key t e).1.1 = true /\
   is_Ok (gc_expired limit t e).1.1 = true).
Proof.
  split; [|split; [|split; [|split; [|by intros; apply reads_answer]]]].
  - destruct (get key t e) as [[r t'] e'] eqn:Hr. by apply get_spec.
  - destruct (exists_ key t e) as [[r t'] e'] eqn:Hr. by apply exists_spec in Hr as (_ & ? & ?).
  - destruct (Kv.ttl key t e) as [[r t'] e'] eqn:Hr. by apply ttl_spec.
  - destruct (gc_expired limit t e) as [[r t'] e'] eqn:Hr. by apply gc_spec in Hr as [? _].
Qed.

(** C4: the writes implement the abstract store. SET puts the value with its
    expiry; with NX only when the table has no row for the key, with XX only
    when it has one, an expired row that was not collected counting as a row,
    and it reports whether it wrote. DEL removes the key and reports whether
    there was a row. EXPIRE re-dates a live entry and reports an absent one.
    INCR adds to the number a live entry spells (0 when absent) and keeps the
    old expiry unless a new one is given. Without a fault of SQLite they
    succeed, but SET and INCR of the empty key, and an INCR of an entry that
    does not spell a 64-bit number or whose sum is none. *)
Theorem kv_writes_refine (key value : string) (ttl : option Z) (nx xx : bool) (delta : Z) (t : KvTable) (e : Eff) :
  (let '(r, t', e') := set key value ttl nx xx t e in
   forall b, r = Ok b ->
     b = (if nx then bool_decide (t !! key = None) else if xx then bool_decide (is_Some (t !! key)) else true) /\
     if b then updates 1 (fun now => spec_put now key value (expires_at_from ttl (clock (e_clock e)))) t e t' e'
     else t' = t) /\
  (let '(r, t', e') := del key t e in
   forall b, r = Ok b -> b = bool_decide (is_Some (t !! key)) /\ updates 0 (fun _ => delete key) t e t' e') /\
  (let '(r, t', e') := expire key ttl t e in
   (r = Ok false -> view (clock (e_clock e)) t !! key = None /\ t' = t) /\
   (r = Ok true -> exists v x, view (clock (e_clock e)) t !! key = Some (v, x) /\
      updates 2 (fun now => spec_put now key v (expires_at_from ttl (clock (S (e_clock e)))))
        t e t' e')) /\
  (let '(r, t', e') := incr key delta ttl t e in
   forall n, r = Ok n -> exists base,
     spec_counter (view (clock (e_clock e)) t !! key) = Some base /\ n = base + delta /\
     updates 1 (fun now => spec_put now key (i64_to_string n)
       (spec_exp (expires_at_from ttl (clock (e_clock e)))
                 (view (clock (e_clock e)) t !! key ≫= snd))) t e t' e') /\
  ((forall i, fault i = None) ->
   is_Ok (set key value ttl nx xx t e).1.1 = negb (bool_decide (key = EmptyString)) /\
   is_Ok (del key t e).1.1 = true /\ is_Ok (expire key ttl t e).1.1 = true /\
   is_Ok (incr key delta ttl t e).1.1 =
     negb (bool_decide (key = EmptyString)) && counter_fits delta (view (clock (e_clock e)) t !! key)).
Proof.
  split; [|split; [|split; [|split; [|by intros; apply writes_answer]]]].
  - destruct (set _ _ _ _ _ t e) as [[r t'] e'] eqn:Hr. apply set_spec in Hr. intros b ->.
    destruct Hr as (Hb & _ & He & ->). split; [exact Hb|]. destruct b; [by apply upsert_updates|done].
  - destruct (del key t e) as [[r t'] e'] eqn:Hr. apply del_spec in Hr. intros b ->.
    destruct Hr as (-> & _ & ?). done.
  - destruct (expire key ttl t e) as [[r t'] e'] eqn:Hr. apply expire_spec in Hr.
    split; intros ->; exact Hr.
  - destruct (incr key delta ttl t e) as [[r t'] e'] eqn:Hr. apply incr_spec in Hr.
    intros n ->. destruct Hr as (_ & base & ? & ? & _ & ?). eauto.
Qed.

(** An operation that returns an error has no observable effect: at any
    time not before its clock readings the store reads as it did before. *)
Theorem kv_error_no_effect (op : KvOp) (t : KvTable) (e : Eff) :
  let '(r, t', e') := run_op op t e in
  forall err later, r = Err err ->
    (forall i, (e_clock e <= i < 2 + e_clock e)%nat -> clock i <= later) ->
    view later t' = view later t.
Proof.
  destruct (run_op op t e) as [[r t'] e'] eqn:Hrun. intros err later -> Hlate.
  assert (forall n, (n <= 2)%nat -> updates n (fun _ m => m) t e t' e' -> view later t' = view later t)
    as Hobs.
  { intros n Hn [_ H]. apply H. intros i Hi. apply Hlate. lia. }
  destruct op; unfold run_op, bind in Hrun.
  - destruct (get _ _ _) as [[[]?]?] eqn:Hr; simplify_eq. apply get_spec in Hr as [? _]. eauto.
  - destruct (set _ _ _ _ _ _ _) as [[[]?]?] eqn:Hr; simplify_eq. apply set_spec in Hr. by subst.
  - destruct (del _ _ _) as [[[]?]?] eqn:Hr; simplify_eq. apply del_spec in Hr. by subst.
  - destruct (exists_ _ _ _) as [[[]?]?] eqn:Hr; simplify_eq. by apply exists_spec in Hr as (-> & _).
  - destruct (Kv.ttl _ _ _) as [[[]?]?] eqn:Hr; simplify_eq. apply ttl_spec in Hr as [? _]. eauto.
  - destruct (expire _ _ _ _) as [[[]?]?] eqn:Hr; simplify_eq. apply expire_spec in Hr. by subst.
  - destruct (incr _ _ _ _ _) as [[[]?]?] eqn:Hr; simplify_eq.
    apply incr_spec in Hr as [?| ->]; [|done]. eauto.
  - destruct (gc_expired _ _ _) as [[[]?]?] eqn:Hr; simplify_eq. apply gc_spec in Hr as [? _]. eauto.
Qed.

(** An operation on one key leaves the stored row of every other key as it
    was, whether it succeeds or fails. *)
Theorem kv_op_isolated (op : KvOp) (key k : string) (t : KvTable) (e : Eff) :
  op_key op = Some key -> key <> k -> (run_op op t e).1.2 !! k = t !! k.
Proof.
  intros Hk Hne. destruct (run_op op t e) as [[r t'] e'] eqn:Hrun. simpl.
  by eapply run_op_frame.
Qed.

End properties.

Lemma kv_op_isolated_witness :
  (run_op (env:=env_still) (OpDel "a") {["b"%string := mkKvRow "1" None 1]} eff0).1.2
    !! "b"%string = Some (mkKvRow "1" None 1).
Proof. apply (kv_op_isolated (env:=env_still) (OpDel "a") "a"); [reflexivity | discriminate]. Defined.

Section counters.
Context {env : Env}.

Lemma utf8_valid_ascii s :
  (forall c, c ∈ String.list_ascii_of_string s -> (nat_of_ascii c < 128)%nat) -> utf8_valid s = true.
Proof.
  induction s as [|c s IH]; [done|]. intros H. cbn [utf8_valid].
  assert (nat_of_ascii c < 128)%nat as Hc by (apply H; simpl; set_solver).
  unfold byte_in. rewrite (proj2 (Nat.leb_le _ 127)) by lia. simpl.
  apply IH. intros d Hd. apply H. simpl. set_solver.
Qed.

Lemma digits_ascii d c :
  c ∈ String.list_ascii_of_string (DecimalString.NilEmpty.string_of_uint d) ->
  (nat_of_ascii c < 128)%nat.
Proof.
  induction d as [|d IH|d IH|d IH|d IH|d IH|d IH|d IH|d IH|d IH|d IH]; simpl;
    [set_solver|..]; intros [->|Hc]%elem_of_cons; eauto; vm_compute; lia.
Qed.

Lemma nilzero_ascii d c :
  c ∈ String.list_ascii_of_string (DecimalString.NilZero.string_of_uint d) ->
  (nat_of_ascii c < 128)%nat.
Proof.
  assert (d = Decimal.Nil \/
    DecimalString.NilZero.string_of_uint d = DecimalString.NilEmpty.string_of_uint d)
    as [-> | ->] by (destruct d; auto); [|apply digits_ascii].
  simpl. intros [->|Hc]%elem_of_cons; [vm_compute; lia|set_solver].
Qed.

Lemma i64_to_string_utf8 z : utf8_valid (i64_to_string z) = true.
Proof.
  apply utf8_valid_ascii. intros c. unfold i64_to_string, DecimalString.NilZero.string_of_int.
  destruct (Z.to_int z) as [d|d]; [apply nilzero_ascii|].
  simpl. intros [->|Hc]%elem_of_cons; [vm_compute; lia|]. by eapply nilzero_ascii.
Qed.

Lemma spec_counter_print z x : is_i64 z -> spec_counter (Some (i64_to_string z, x)) = Some z.
Proof. intros Hz. simpl. rewrite i64_to_string_utf8. by apply parse_i64_print. Qed.

(** Counters add up: two INCRs of the same key that both succeed, with the
    counter still live at the second, return [base + d1] and
    [base + d1 + d2]; what the first stored is what the second read. *)
Theorem incr_incr_adds (key : string) (d1 d2 : Z) (ttl : option Z) (t : KvTable) (e : Eff) :
  is_i64 d1 ->
  let '(r1, t1, e1) := incr key d1 ttl t e in
  let '(r2, t2, e2) := incr key d2 None t1 e1 in
  forall n1 n2, r1 = Ok n1 -> r2 = Ok n2 ->
    clock (e_clock e) <= clock (S (e_clock e)) ->
    is_Some (view (clock (S (e_clock e))) t1 !! key) ->
    exists base, spec_counter (view (clock (e_clock e)) t !! key) = Some base /\
      n1 = base + d1 /\ n2 = base + d1 + d2.
Proof.
  intros Hd1. destruct (incr key d1 ttl t e) as [[r1 t1] e1] eqn:H1.
  destruct (incr key d2 None t1 e1) as [[r2 t2] e2] eqn:H2.
  intros n1 n2 -> -> Hclk Hlive.
  apply incr_spec in H1 as (_ & base & Hb & Hn1 & Hr1 & [He1 Hv1]).
  apply incr_spec in H2 as (_ & base2 & Hb2 & Hn2 & _). simpl in He1. rewrite He1 in Hb2.
  rewrite (Hv1 (clock (S (e_clock e)))) in Hb2, Hlive
    by (intros i Hi; replace i with 0%nat by lia; exact Hclk).
  unfold spec_put in Hb2, Hlive. destruct (is_expired _ _);
    [rewrite lookup_delete_eq in Hlive; by destruct Hlive|].
  rewrite lookup_insert_eq, spec_counter_print in Hb2 by auto. simplify_eq.
  exists base. auto.
Qed.

End counters.

Lemma incr_incr_adds_witness :
  exists base, spec_counter None = Some base /\ 5 = base + 5 /\ 12 = base + 5 + 7.
Proof.
  assert (is_i64 5) as H5 by (vm_compute; split; discriminate).
  exact (incr_incr_adds (env:=env_still) "c" 5 7 None ∅ eff0 H5 5 12 eq_refl eq_refl
    (Z.le_refl _) (mk_is_Some _ _ eq_refl)).
Defined.

Section conditional_set.
Context {env : Env}.

(** SET NX and SET XX look at the stored row, not at the live entry: on a
    key whose entry has expired but whose row has not been collected yet, NX
    writes nothing and returns false although no live key exists, and XX
    writes although there is none. *)
Theorem set_conditions_ignore_expiry (key value : string) (ttl : option Z) (row : KvRow)
    (t : KvTable) (e : Eff) :
  key <> EmptyString -> t !! key = Some row ->
  is_expired (row_expires_at row) (clock (e_clock e)) = true -> fault (e_call e) = None ->
  view (clock (e_clock e)) t !! key = None /\
  (exists e', set key value ttl true false t e = (Ok false, t, e')) /\
  (exists e', set key value ttl false true t e =
     (Ok true, (sql_upsert key value (expires_at_from ttl (clock (e_clock e))) t).2, e')).
Proof.
  intros Hne Hk Hx Hf. split; [by eapply view_lookup_expired|].
  split; unfold set, bind, unix_now, read_clock; rewrite decide_False by done; simpl;
    rewrite exec_run; simpl; rewrite Hf;
    unfold sql_insert_if_absent, sql_update_if_present, sql_upsert; rewrite Hk;
    eexists; reflexivity.
Qed.

End conditional_set.

Lemma set_conditions_ignore_expiry_witness :
  exists e', set (env:=env_still) "lock" "me" (Some 30) true false
    {["lock"%string := mkKvRow "old" (Some 900) 1]} eff0 =
    (Ok false, {["lock"%string := mkKvRow "old" (Some 900) 1]}, e').
Proof.
  apply (set_conditions_ignore_expiry (env:=env_still) "lock" "me" (Some 30)
    (mkKvRow "old" (Some 900) 1)); [discriminate | reflexivity | reflexivity | reflexivity].
Defined.
