(* ===== verification/KvScan.v ===== *)
(** Cursor pagination of [kv.rs] [scan]: every page is the next slice of the
    sorted list of matching live keys, and following the cursors to the end
    returns that list exactly. *)

From Stdlib Require Import ZArith Lia String Ascii.
From stdpp Require Import gmap strings list fin_maps sorting.
From S2P Require Import Prelude Common Kv KvSpec.

(** ** The order of keys *)

Definition str_lt (a b : string) : Prop := String.le a b /\ a <> b.

Lemma leb_false_lt a b : String.leb b a = false <-> str_lt a b.
Proof.
  unfold str_lt, String.le. split.
  - intros H. destruct (String.leb_total b a) as [Hl|Hl]; [congruence|].
    split; [by rewrite Hl|]. intros ->. congruence.
  - intros [Hab Hne]. destruct (String.leb b a) eqn:H; [|done]. exfalso. apply Hne.
    apply String.leb_antisym; [by apply Is_true_true|done].
Qed.

Lemma str_lt_trans a b c : str_lt a b -> str_lt b c -> str_lt a c.
Proof.
  intros [H1 N1] [H2 N2]. split; [by etrans|]. intros ->. apply N1. by apply (anti_symm String.le).
Qed.

Lemma empty_le a : String.le EmptyString a.
Proof. by destruct a. Qed.

(** ** The rows a scan selects *)

Lemma scan_rows_sorted now p c t : StronglySorted String.le (scan_rows now p c t).
Proof. apply StronglySorted_merge_sort; apply _. Qed.

Lemma scan_rows_NoDup now p c t : NoDup (scan_rows now p c t).
Proof.
  unfold scan_rows. rewrite merge_sort_Permutation.
  apply (NoDup_fmap_fst (filter _ (map_to_list t))).
  - intros k r1 r2 [_ H1]%list_elem_of_filter [_ H2]%list_elem_of_filter.
    apply elem_of_map_to_list in H1, H2. congruence.
  - apply NoDup_filter, NoDup_map_to_list.
Qed.

Lemma elem_of_scan_rows now p c t k :
  k ∈ scan_rows now p c t <->
  is_Some (view now t !! k) /\ like (p +:+ "%") k = true /\ (c = EmptyString \/ str_lt c k).
Proof.
  unfold scan_rows. rewrite merge_sort_Permutation, list_elem_of_fmap, lookup_view.
  assert (forall r, scan_matches now p c (k, r) = true <->
    is_expired (row_expires_at r) now = false /\ like (p +:+ "%") k = true /\
    (c = EmptyString \/ str_lt c k)) as Hm.
  { intros r. unfold scan_matches. simpl.
    rewrite !andb_true_iff, orb_true_iff, bool_decide_eq_true, !negb_true_iff, leb_false_lt. tauto. }
  split.
  - intros ([k' r] & -> & [Hs Hin]%list_elem_of_filter). apply elem_of_map_to_list in Hin.
    simpl in *. apply Hm in Hs as (Hx & ? & ?). rewrite Hin. simpl. rewrite Hx. eauto.
  - intros ([x Hx] & Hl & Hc). destruct (t !! k) as [r|] eqn:Hk; simpl in Hx; [|done].
    exists (k, r). split; [done|]. apply list_elem_of_filter.
    split; [|by apply elem_of_map_to_list]. apply Hm. by destruct (is_expired _ _).
Qed.

(** ** Slices of a sorted list *)

Lemma sorted_app_lt (l1 l2 : list string) x y :
  StronglySorted String.le (l1 ++ l2) -> NoDup (l1 ++ l2) ->
  x ∈ l1 -> y ∈ l2 -> str_lt x y.
Proof.
  intros Hs Hn Hx Hy. split.
  - by eapply StronglySorted_app_1_elem_of.
  - intros ->. apply NoDup_app in Hn as (_ & Hd & _). by eapply Hd.
Qed.

Lemma last_take_sorted (n : nat) (l : list string) k x :
  StronglySorted String.le l -> NoDup l -> last (take n l) = Some k ->
  x ∈ l -> (x ∈ drop n l <-> str_lt k x).
Proof.
  intros Hs Hn Hlast Hx. rewrite <- (take_drop n l) in Hs, Hn.
  apply last_Some in Hlast as [l' Hl'].
  assert (k ∈ take n l) as Hk by (rewrite Hl'; set_solver). split.
  - intros Hd. by eapply sorted_app_lt.
  - intros [Hle Hne]. rewrite <- (take_drop n l) in Hx. apply elem_of_app in Hx as [Hx|]; [|done].
    exfalso. apply Hne. apply (anti_symm String.le); [done|].
    apply StronglySorted_app_1_l in Hs. rewrite Hl' in Hs, Hx.
    apply elem_of_app in Hx as [Hx|Hx]; [|set_solver].
    eapply StronglySorted_app_1_elem_of; [exact Hs|done|set_solver].
Qed.

Lemma drop_sorted n (l : list string) :
  StronglySorted String.le l -> StronglySorted String.le (drop n l).
Proof. rewrite <- (take_drop n l) at 1. apply StronglySorted_app_1_r. Qed.

(** Continuing after the last key of a page selects what the page left. *)
Lemma scan_rows_next now p c t n k :
  k <> EmptyString -> last (take n (scan_rows now p c t)) = Some k ->
  scan_rows now p k t = drop n (scan_rows now p c t).
Proof.
  intros Hne Hlast.
  pose proof (scan_rows_sorted now p c t) as Hs. pose proof (scan_rows_NoDup now p c t) as Hn.
  assert (k ∈ scan_rows now p c t) as Hk.
  { apply last_Some in Hlast as [l' Hl']. apply (take_subset n). rewrite Hl'. set_solver. }
  apply (StronglySorted_unique String.le); [apply scan_rows_sorted|by apply drop_sorted|].
  apply NoDup_Permutation; [apply scan_rows_NoDup| |].
  { rewrite <- (take_drop n (scan_rows now p c t)) in Hn. by apply NoDup_app in Hn as (_ & _ & ?). }
  intros x. split.
  - intros Hx. apply elem_of_scan_rows in Hx as (Hv & Hl & [->|Hlt]); [done|].
    apply (last_take_sorted n _ k x Hs Hn Hlast); [|done].
    apply elem_of_scan_rows in Hk as (_ & _ & Hc). apply elem_of_scan_rows.
    split; [done|]. split; [done|]. destruct Hc as [->|Hc]; [by left|].
    right. by eapply str_lt_trans.
  - intros Hx. assert (x ∈ scan_rows now p c t) as Hin.
    { rewrite <- (take_drop n (scan_rows now p c t)). set_solver. }
    apply (last_take_sorted n _ k x Hs Hn Hlast Hin) in Hx.
    apply elem_of_scan_rows in Hin as (? & ? & _). apply elem_of_scan_rows. eauto.
Qed.

Lemma clamp_limit_range l : 1 <= clamp_limit l <= 1000.
Proof. unfold clamp_limit. lia. Qed.

(** ** Prefix matching *)

Definition like_any (p' : string) : string -> nat -> bool :=
  fix any (s : string) (fuel : nat) {struct fuel} : bool :=
    like p' s ||
    match fuel, s with
    | Datatypes.S fuel', String.String _ s' => any (skip_cont s') fuel'
    | _, _ => false
    end.

Lemma like_percent p s : like (String.String "%" p) s = like_any p s (String.length s).
Proof. reflexivity. Qed.

Lemma skip_cont_length s : (String.length (skip_cont s) <= String.length s)%nat.
Proof. induction s as [|c s IH]; simpl; [done|]. destruct (_ && _); simpl; lia. Qed.

Lemma like_any_nil fuel s : (String.length s <= fuel)%nat -> like_any EmptyString s fuel = true.
Proof.
  revert s. induction fuel as [|fuel IH]; intros [|c s] H; simpl in *; try done; try lia.
  apply IH. pose proof (skip_cont_length s). lia.
Qed.

(** A prefix spelled without LIKE wildcards. *)
Fixpoint no_wildcard (p : string) : bool :=
  match p with
  | EmptyString => true
  | String.String c p' =>
      negb (bool_decide (c = "%"%char)) && negb (bool_decide (c = "_"%char)) && no_wildcard p'
  end.

#[local] Arguments String.append !_ _ / : simpl nomatch.

(** With a prefix free of [%] and [_], the keys a scan selects are those
    that begin with the prefix, ASCII letters compared without case. *)
Lemma like_prefix_keys (p s : string) :
  no_wildcard p = true ->
  like (p +:+ "%") s = String.prefix (to_ascii_lowercase p) (to_ascii_lowercase s).
Proof.
  revert s. induction p as [|c p IH]; intros s Hw.
  - change (EmptyString +:+ "%") with "%"%string. rewrite like_percent.
    rewrite like_any_nil by done. by destruct (to_ascii_lowercase s).
  - simpl in Hw. apply andb_true_iff in Hw as [[H1 H2]%andb_true_iff Hw].
    apply negb_true_iff, bool_decide_eq_false in H1, H2. simpl.
    rewrite decide_False by done. destruct s as [|d s]; [done|]. rewrite decide_False by done.
    simpl. rewrite IH by done. case_bool_decide as Hc.
    + rewrite Hc. by destruct (ascii_dec _ _).
    + by destruct (ascii_dec _ _).
Qed.

(** ** Pages *)

Section pages.
Context {env : Env}.

(** What one call returns, on a table whose keys are non-empty. *)
Lemma scan_page p limit c t e :
  t !! EmptyString = None ->
  let now := clock (e_clock e) in
  let rows := scan_rows now p c t in
  let n := Z.to_nat (clamp_limit limit) in
  scan p limit c t e =
    match fault (e_call e) with
    | Some msg => (Err (SqlError msg), t, bump_call (bump_clock e))
    | None => (Ok (mkScanResult (take n rows)
        (if decide (length rows <= n)%nat then EmptyString else default EmptyString (last (take n rows)))),
        t, bump_call (bump_clock e))
    end.
Proof.
  intros Hempty now rows n. pose proof (clamp_limit_range limit) as Hr.
  unfold scan, query, fallible, gets, bind, unix_now, read_clock. simpl.
  destruct (fault (e_call e)); [done|]. simpl. unfold mret. do 2 f_equal. f_equal.
  fold now rows. rewrite take_take. replace (min _ _) with n by lia. fold n.
  f_equal. rewrite length_take. case_bool_decide; case_decide; try done; lia.
Qed.

(** A client that follows the cursors: at most [fuel] pages. *)
Fixpoint scan_loop (fuel : nat) (p : string) (limit : Z) (c : string)
    : M KvTable CombeeError (list string) :=
  match fuel with
  | O => mret []
  | Datatypes.S fuel' =>
      let! page := scan p limit c in
      if decide (scan_next_cursor page = EmptyString) then mret (scan_keys page)
      else let! rest := scan_loop fuel' p limit (scan_next_cursor page) in
           mret (scan_keys page ++ rest)
  end.

Lemma scan_cursor_nonempty now p c t n :
  t !! EmptyString = None -> (0 < n)%nat -> (n < length (scan_rows now p c t))%nat ->
  exists k, last (take n (scan_rows now p c t)) = Some k /\ k <> EmptyString.
Proof.
  intros Hempty Hn Hlen. destruct (last (take n (scan_rows now p c t))) as [k|] eqn:Hl.
  - exists k. split; [done|]. intros ->. apply last_Some in Hl as [l' Hl'].
    assert (EmptyString ∈ scan_rows now p c t) as Hin.
    { apply (take_subset n). rewrite Hl'. set_solver. }
    apply elem_of_scan_rows in Hin as ([x Hx] & _). rewrite lookup_view, Hempty in Hx. done.
  - apply last_None in Hl. apply (f_equal length) in Hl. rewrite length_take in Hl. simpl in Hl. lia.
Qed.

(** One page of a scan: it changes nothing and returns the first [limit]
    (clamped to 1..1000) keys, in order, of the keys that are live, match the
    pattern and lie after the cursor; the next cursor is empty exactly when
    nothing is left, and otherwise selects exactly what the page left out. *)
Theorem scan_page_correct (p : string) (limit : Z) (c : string) (t : KvTable) (e : Eff) :
  t !! EmptyString = None -> fault (e_call e) = None ->
  let now := clock (e_clock e) in
  let n := Z.to_nat (clamp_limit limit) in
  exists page rows, scan p limit c t e = (Ok page, t, bump_call (bump_clock e)) /\
    StronglySorted String.le rows /\ NoDup rows /\
    (forall k, k ∈ rows <-> is_Some (view now t !! k) /\ like (p +:+ "%") k = true /\
       (c = EmptyString \/ str_lt c k)) /\
    scan_keys page = take n rows /\
    (scan_next_cursor page = EmptyString <-> drop n rows = []) /\
    (scan_next_cursor page <> EmptyString ->
     scan_rows now p (scan_next_cursor page) t = drop n rows).
Proof.
  intros Hempty Hf now n. rewrite scan_page, Hf by done. fold now n.
  eexists _, (scan_rows now p c t). split; [reflexivity|].
  split; [apply scan_rows_sorted|]. split; [apply scan_rows_NoDup|].
  split; [intros k; apply elem_of_scan_rows|]. split; [done|]. simpl.
  destruct (decide _) as [Hle|Hgt].
  - split; [|done]. split; [|done]. intros _. by apply drop_ge.
  - pose proof (clamp_limit_range limit).
    destruct (scan_cursor_nonempty now p c t n) as (k & Hl & Hk); [done|lia|lia|].
    rewrite Hl. simpl. split; [|intros _; by apply scan_rows_next].
    split; [done|]. intros Hd. apply (f_equal length) in Hd. rewrite length_drop in Hd.
    simpl in Hd. lia.
Qed.

Lemma scan_loop_rows p limit now t c e fuel :
  t !! EmptyString = None -> (forall i, fault i = None) -> (forall i, clock i = now) ->
  (length (scan_rows now p c t) < fuel)%nat ->
  exists e', scan_loop fuel p limit c t e = (Ok (scan_rows now p c t), t, e').
Proof.
  intros Hempty Hf Hclk. revert c e.
  induction fuel as [|fuel IH]; intros c e Hfuel; [lia|].
  cbn [scan_loop]. unfold bind at 1. rewrite scan_page, Hf, Hclk by done.
  cbn [scan_next_cursor scan_keys].
  pose proof (clamp_limit_range limit). set (n := Z.to_nat (clamp_limit limit)).
  destruct (decide (length _ <= n)%nat) as [Hle|Hgt].
  - rewrite decide_True by done. rewrite take_ge by done. by eexists.
  - destruct (scan_cursor_nonempty now p c t n) as (k & Hl & Hk); [done|lia|lia|].
    rewrite Hl. simpl. rewrite decide_False by done.
    destruct (IH k (bump_call (bump_clock e))) as [e' He'].
    { rewrite (scan_rows_next now p c t n k) by done. rewrite length_drop. lia. }
    unfold bind. rewrite He'. unfold mret. exists e'.
    rewrite (scan_rows_next now p c t n k) by done. by rewrite take_drop.
Qed.

Lemma scan_rows_size now p c t : (length (scan_rows now p c t) <= size t)%nat.
Proof.
  unfold scan_rows. rewrite (Permutation_length (merge_sort_Permutation _ _)), length_fmap.
  etransitivity; [apply length_filter|]. by rewrite length_map_to_list.
Qed.

(** A key is live when the table has a row for it that does not expire, or
    expires after [now]. *)
Definition live (now : Z) (t : KvTable) (k : string) : Prop :=
  exists row, t !! k = Some row /\ forall x, row_expires_at row = Some x -> now < x.

Lemma live_view now t k : live now t k <-> is_Some (view now t !! k).
Proof.
  unfold live. rewrite lookup_view. split.
  - intros (row & -> & Hx). simpl. destruct (row_expires_at row) as [x|]; simpl; [|eauto].
    specialize (Hx x eq_refl). destruct (Z.leb_spec x now); [lia|eauto].
  - intros [y Hy]. destruct (t !! k) as [row|]; simpl in Hy; [|done]. exists row. split; [done|].
    intros x Hx. rewrite Hx in Hy. simpl in Hy. destruct (Z.leb_spec x now); [done|lia].
Qed.

(** C34: while clock and table stand still, no statement fails and no key is
    empty, a client that follows the cursors from the start until one is
    empty comes to an end, after at most one page more than the table has
    rows, whatever the page size. It has then seen, each once and in the order
    of the bytes, exactly the live keys that begin with the prefix, letters
    compared without case; for a prefix with LIKE wildcards, those that match
    it as a pattern. *)
Theorem scan_loop_complete (p : string) (limit : Z) (now : Z) (t : KvTable) (e : Eff) (fuel : nat) :
  t !! EmptyString = None -> (forall i, fault i = None) -> (forall i, clock i = now) ->
  (size t < fuel)%nat ->
  exists keys e', scan_loop fuel p limit EmptyString t e = (Ok keys, t, e') /\
    StronglySorted String.le keys /\ NoDup keys /\
    (forall k, k ∈ keys <-> live now t k /\ like (p +:+ "%") k = true) /\
    (no_wildcard p = true ->
     forall k, k ∈ keys <-> live now t k /\ String.prefix (to_ascii_lowercase p) (to_ascii_lowercase k) = true).
Proof.
  intros Hempty Hf Hclk Hfuel. pose proof (scan_rows_size now p EmptyString t).
  destruct (scan_loop_rows p limit now t EmptyString e fuel) as [e' He']; [done|done|done|lia|].
  eexists _, e'. split; [exact He'|]. split; [apply scan_rows_sorted|]. split; [apply scan_rows_NoDup|].
  assert (forall k, k ∈ scan_rows now p EmptyString t <-> live now t k /\ like (p +:+ "%") k = true) as Hk.
  { intros k. rewrite elem_of_scan_rows, live_view. intuition. }
  split; [exact Hk|]. intros Hw k. by rewrite Hk, like_prefix_keys.
Qed.

End pages.

Definition sample_table : KvTable :=
  <["a1"%string := mkKvRow "x" None 1]> (<["a2"%string := mkKvRow "y" (Some 2000) 1]> ∅).

Lemma scan_page_correct_witness :
  exists page rows, scan (env:=env_still) "a" 1 EmptyString
      sample_table eff0
    = (Ok page, sample_table, bump_call (bump_clock eff0)) /\ scan_keys page = take 1 rows /\ NoDup rows.
Proof.
  destruct (scan_page_correct (env:=env_still) "a" 1 EmptyString
    sample_table eff0
    eq_refl eq_refl) as (page & rows & H1 & _ & H2 & _ & H3 & _).
  exists page, rows. auto.
Defined.

Lemma scan_loop_complete_witness :
  exists keys e', scan_loop (env:=env_still) 3 "A" 1 EmptyString sample_table eff0 = (Ok keys, sample_table, e') /\
    ("a2"%string ∈ keys <-> live 1000 sample_table "a2" /\ String.prefix "a" "a2" = true).
Proof.
  destruct (scan_loop_complete (env:=env_still) "A" 1 1000 sample_table eff0 3)
    as (keys & e' & Hrun & _ & _ & _ & Hkeys); [reflexivity | reflexivity | reflexivity | apply Nat.ltb_lt; reflexivity |].
  exists keys, e'. split; [exact Hrun|]. exact (Hkeys eq_refl "a2"%string).
Defined.

(** A prefix that contains a LIKE wildcard selects keys that do not begin
    with it: scanning for [a_] returns the key [ab]. *)
Theorem scan_prefix_wildcard (v : string) (e : Eff) :
  (scan (env:=env_still) "a_" 10 EmptyString {["ab"%string := mkKvRow v None 1]} e).1.1
    = Ok (mkScanResult ["ab"%string] EmptyString) /\
  String.prefix "a_" "ab" = false.
Proof. split; reflexivity. Qed.
