(* ===== verification/SqlGate.v ===== *)
(** crates/data-node: what user SQL is let through. The textual gate of
    [sql.rs] ([check_statement] and its scanners, on byte indices as in the
    source), the engine-level sandbox of [sandbox.rs], and what they refuse. *)

From Stdlib Require Import ZArith Lia String Ascii.
From stdpp Require Import gmap strings list fin_maps.
From S2P Require Import Prelude Common.

Abbreviation bytes := (list ascii).

Definition as_bytes (s : string) : bytes := String.list_ascii_of_string s.

Definition byte_is (c : ascii) (o : option ascii) : bool := bool_decide (o = Some c).

Definition NL : ascii := ascii_of_nat 10.
Definition QUOTE : ascii := ascii_of_nat 34.
Definition TAB : ascii := ascii_of_nat 9.
Definition CR : ascii := ascii_of_nat 13.

(** ** The scanners of sql.rs *)

(** [while i < b.len() && b[i] != newline: i += 1] *)
Fixpoint to_eol (fuel : nat) (b : bytes) (i : nat) : nat :=
  match fuel with
  | O => i
  | S fuel' =>
      match b !! i with
      | None => i
      | Some c => if bool_decide (c = NL) then i else to_eol fuel' b (i + 1)
      end
  end.

(** [while i + 1 < b.len() && not at the end mark: i += 1] *)
Fixpoint to_block_end (fuel : nat) (b : bytes) (i : nat) : nat :=
  match fuel with
  | O => i
  | S fuel' =>
      match b !! i, b !! (i + 1)%nat with
      | Some c, Some d =>
          if bool_decide (c = "*"%char) && bool_decide (d = "/"%char) then i
          else to_block_end fuel' b (i + 1)
      | _, _ => i
      end
  end.

(** The index after a block comment that opens at [i]. *)
Definition after_block (b : bytes) (i : nat) : nat :=
  min (to_block_end (length b) b (i + 2) + 2) (length b).

Fixpoint skip_quoted_loop (fuel : nat) (b : bytes) (i : nat) (quote : ascii) : nat :=
  match fuel with
  | O => i
  | S fuel' =>
      match b !! i with
      | None => i
      | Some c =>
          if bool_decide (c = quote) then
            if byte_is quote (b !! (i + 1)%nat) then skip_quoted_loop fuel' b (i + 2) quote else i
          else skip_quoted_loop fuel' b (i + 1) quote
      end
  end.

Definition skip_quoted (b : bytes) (start : nat) (quote : ascii) : nat :=
  skip_quoted_loop (length b) b (start + 1) quote.

Definition is_blank (c : ascii) : bool :=
  bool_decide (c = " "%char) || bool_decide (c = TAB) || bool_decide (c = CR) || bool_decide (c = NL).

Definition is_quote (c : ascii) : bool :=
  bool_decide (c = "'"%char) || bool_decide (c = QUOTE) || bool_decide (c = "`"%char).

Fixpoint trailing_loop (fuel : nat) (b : bytes) (i : nat) : bool :=
  match fuel with
  | O => false
  | S fuel' =>
      match b !! i with
      | None => false
      | Some c =>
          if is_blank c then trailing_loop fuel' b (i + 1)
          else if bool_decide (c = "-"%char) && byte_is "-"%char (b !! (i + 1)%nat) then
            trailing_loop fuel' b (to_eol (length b) b i)
          else if bool_decide (c = "/"%char) && byte_is "*"%char (b !! (i + 1)%nat) then
            trailing_loop fuel' b (after_block b i)
          else true
      end
  end.

Definition trailing_has_sql (b : bytes) (start : nat) : bool :=
  trailing_loop (S (length b)) b start.

Fixpoint multiple_loop (fuel : nat) (b : bytes) (i : nat) : bool :=
  match fuel with
  | O => false
  | S fuel' =>
      match b !! i with
      | None => false
      | Some c =>
          if is_quote c then multiple_loop fuel' b (skip_quoted b i c + 1)
          else if bool_decide (c = "-"%char) && byte_is "-"%char (b !! (i + 1)%nat) then
            multiple_loop fuel' b (to_eol (length b) b i + 1)
          else if bool_decide (c = "/"%char) && byte_is "*"%char (b !! (i + 1)%nat) then
            multiple_loop fuel' b (after_block b i + 1)
          else if bool_decide (c = ";"%char) then trailing_has_sql b (i + 1)
          else multiple_loop fuel' b (i + 1)
      end
  end.

Definition has_multiple_statements (sql : string) : bool :=
  let b := as_bytes sql in multiple_loop (S (length b)) b 0.

Fixpoint trivia_loop (fuel : nat) (b : bytes) (i : nat) : nat :=
  match fuel with
  | O => i
  | S fuel' =>
      match b !! i with
      | None => i
      | Some c =>
          if is_blank c then trivia_loop fuel' b (i + 1)
          else if bool_decide (c = "-"%char) && byte_is "-"%char (b !! (i + 1)%nat) then
            trivia_loop fuel' b (to_eol (length b) b i)
          else if bool_decide (c = "/"%char) && byte_is "*"%char (b !! (i + 1)%nat) then
            trivia_loop fuel' b (after_block b i)
          else i
      end
  end.

Definition skip_leading_trivia (b : bytes) : nat := trivia_loop (S (length b)) b 0.

(** ** str helpers of the standard library *)

(** [str::trim_start]: drops leading characters with the Unicode property
    White_Space, here on their UTF-8 bytes. *)
Fixpoint trim_start (b : bytes) : bytes :=
  match b with
  | [] => []
  | c :: b1 =>
      let n := nat_of_ascii c in
      if is_whitespace c then trim_start b1
      else match b1 with
      | [] => b
      | d :: b2 =>
          let m := nat_of_ascii d in
          if (n =? 194)%nat && ((m =? 133)%nat || (m =? 160)%nat) then trim_start b2
          else match b2 with
          | [] => b
          | f :: b3 =>
              let k := nat_of_ascii f in
              if ((n =? 225) && (m =? 154) && (k =? 128))%nat ||
                 ((n =? 226) && (m =? 128) &&
                    (((128 <=? k) && (k <=? 138)) || (k =? 168) || (k =? 169) || (k =? 175)))%nat ||
                 ((n =? 226) && (m =? 129) && (k =? 159))%nat ||
                 ((n =? 227) && (m =? 128) && (k =? 128))%nat
              then trim_start b3
              else b
          end
      end
  end.

(** [str::trim_end], on the bytes in reverse. *)
Fixpoint trim_end_rev (b : bytes) : bytes :=
  match b with
  | [] => []
  | c :: b1 =>
      let k := nat_of_ascii c in
      if is_whitespace c then trim_end_rev b1
      else match b1 with
      | [] => b
      | d :: b2 =>
          let m := nat_of_ascii d in
          if (m =? 194)%nat && ((k =? 133)%nat || (k =? 160)%nat) then trim_end_rev b2
          else match b2 with
          | [] => b
          | f :: b3 =>
              let n := nat_of_ascii f in
              if ((n =? 225) && (m =? 154) && (k =? 128))%nat ||
                 ((n =? 226) && (m =? 128) &&
                    (((128 <=? k) && (k <=? 138)) || (k =? 168) || (k =? 169) || (k =? 175)))%nat ||
                 ((n =? 226) && (m =? 129) && (k =? 159))%nat ||
                 ((n =? 227) && (m =? 128) && (k =? 128))%nat
              then trim_end_rev b3
              else b
          end
      end
  end.

Definition trim (b : bytes) : bytes := rev (trim_end_rev (rev (trim_start b))).

Definition lowercase (b : bytes) : bytes := to_lower <$> b.

Fixpoint starts_with (p b : bytes) : bool :=
  match p, b with
  | [], _ => true
  | c :: p', d :: b' => bool_decide (c = d) && starts_with p' b'
  | _ :: _, [] => false
  end.

Fixpoint contains (p b : bytes) : bool :=
  starts_with p b || match b with [] => false | _ :: b' => contains p b' end.

(** ** check_statement *)

Definition FORBIDDEN_PREFIXES : list string := ["vacuum"%string].

(** [for p in FORBIDDEN_PREFIXES { if leading.starts_with(p) .. }] *)
Definition forbidden_prefix (leading : bytes) : option string :=
  List.find (fun p => starts_with (as_bytes p) leading) FORBIDDEN_PREFIXES.

Definition check_statement (sql : string) : Result unit :=
  let b := as_bytes sql in
  if contains (as_bytes "__sys") (lowercase (trim_start b)) then
    Err (Forbidden "access to __sys_* internal tables is not allowed")
  else
    let start := skip_leading_trivia b in
    let leading := lowercase (trim_start (drop start b)) in
    match forbidden_prefix leading with
    | Some p =>
        Err (InvalidRequest ("statement starting with '" +:+ p +:+
          "' is not allowed; use the /transaction endpoint for transactions"))
    | None =>
        if has_multiple_statements sql then
          Err (InvalidRequest "multiple statements in one request are not allowed")
        else Ok tt
    end.

(** ** sandbox.rs *)

(** What a transaction-control statement does, as SQLite names it to the
    authorizer. *)
Inductive TransactionOperation := TxBegin | TxCommit | TxRollback.

(** [rusqlite::hooks::AuthAction] *)
Inductive AuthAction :=
| AUnknown (code : Z)
| ACreateIndex (index_name table_name : string)
| ACreateTable (table_name : string)
| ACreateTempIndex (index_name table_name : string)
| ACreateTempTable (table_name : string)
| ACreateTempTrigger (trigger_name table_name : string)
| ACreateTempView (view_name : string)
| ACreateTrigger (trigger_name table_name : string)
| ACreateView (view_name : string)
| ADelete (table_name : string)
| ADropIndex (index_name table_name : string)
| ADropTable (table_name : string)
| ADropTempIndex (index_name table_name : string)
| ADropTempTable (table_name : string)
| ADropTempTrigger (trigger_name table_name : string)
| ADropTempView (view_name : string)
| ADropTrigger (trigger_name table_name : string)
| ADropView (view_name : string)
| AInsert (table_name : string)
| Pragma (pragma_name : string) (pragma_value : option string)
| ARead (table_name column_name : string)
| ASelect
| Transaction (operation : TransactionOperation)
| AUpdate (table_name column_name : string)
| Attach (filename : string)
| Detach (database_name : string)
| AAlterTable (database_name table_name : string)
| AReindex (index_name : string)
| AAnalyze (table_name : string)
| ACreateVtable (table_name module_name : string)
| ADropVtable (table_name module_name : string)
| AFunction (function_name : string)
| Savepoint (savepoint_name : string)
| ARecursive.

Definition pragma_allowed (name : string) (has_value : bool) : bool :=
  let functional := bool_decide (name ∈ ["quick_check"; "integrity_check"; "table_info";
    "table_xinfo"; "table_list"; "database_list"; "index_list"; "index_info"; "index_xinfo";
    "collation_list"; "compile_options"; "function_list"; "module_list"; "pragma_list"]%string) in
  if functional then true else
  let read_only := bool_decide (name ∈ ["user_version"; "application_id"; "page_count";
    "freelist_count"; "schema_version"; "data_version"; "journal_mode"; "foreign_keys";
    "wal_checkpoint"]%string) in
  if negb read_only then false else
  if has_value then bool_decide (name ∈ ["user_version"; "application_id"]%string)
  else true.

Definition function_allowed (name : string) : bool :=
  negb (bool_decide (name ∈ ["load_extension"; "readfile"; "writefile";
    "sqlite_compileoption_used"]%string)).

(** The authorizer callback; [active] is the thread's user-SQL flag. *)
Definition authorize (active : bool) (action : AuthAction) : bool :=
  if negb active then true else
  match action with
  | Attach _ | Detach _ => false
  | Transaction _ | Savepoint _ => false
  | Pragma name value =>
      pragma_allowed (to_ascii_lowercase name) (match value with Some _ => true | None => false end)
  | AFunction name => function_allowed (to_ascii_lowercase name)
  | ARead t _ | AInsert t | AUpdate t _ | ADelete t =>
      negb (starts_with (as_bytes "__sys") (as_bytes t))
  | _ => true
  end.
