(* ===== verification/SqlGateSpec.v ===== *)
(** What the SQL gate guarantees: the index-based scanner against a reference
    automaton over the characters, leading trivia, and the sandbox's verdicts;
    with the inputs on which the textual gate is too weak. *)

From Stdlib Require Import ZArith Lia String Ascii.
From stdpp Require Import gmap strings list fin_maps.
From S2P Require Import Prelude Common SqlGate.

(** ** A reference: one pass, one state, one character at a time *)

Inductive Mode := Code | Quoted (q : ascii) | Line | BlockOpen | Block | BlockClose.

Definition head_is (c : ascii) (b : bytes) : bool := byte_is c (head b).

(** Whether anything other than blanks and comments follows a semicolon that
    is outside quotes and comments; [tail] says that the semicolon was seen. *)
Fixpoint more_sql (tail : bool) (m : Mode) (b : bytes) : bool :=
  match b with
  | [] => false
  | c :: b' =>
      match m with
      | Quoted q => more_sql tail (if bool_decide (c = q) then Code else Quoted q) b'
      | Line => more_sql tail (if bool_decide (c = NL) then Code else Line) b'
      | BlockOpen => more_sql tail Block b'
      | Block =>
          more_sql tail
            (if bool_decide (c = "*"%char) && head_is "/"%char b' then BlockClose else Block) b'
      | BlockClose => more_sql tail Code b'
      | Code =>
          if bool_decide (c = "-"%char) && head_is "-"%char b' then more_sql tail Line b'
          else if bool_decide (c = "/"%char) && head_is "*"%char b' then more_sql tail BlockOpen b'
          else if tail then if is_blank c then more_sql tail Code b' else true
          else if is_quote c then more_sql tail (Quoted c) b'
          else more_sql (bool_decide (c = ";"%char)) Code b'
      end
  end.

(** ** Index arithmetic *)

Lemma drop_lookup_None (b : bytes) i : b !! i = None -> drop i b = [].
Proof. intros H. apply drop_ge. by apply lookup_ge_None. Qed.

Lemma head_drop (b : bytes) i : head (drop i b) = b !! i.
Proof.
  destruct (b !! i) as [c|] eqn:H.
  - by rewrite (drop_S b c i H).
  - by rewrite drop_lookup_None.
Qed.

Lemma head_is_drop c (b : bytes) i : head_is c (drop i b) = byte_is c (b !! i).
Proof. unfold head_is. by rewrite head_drop. Qed.

Lemma byte_is_Some c o : byte_is c o = true <-> o = Some c.
Proof. apply bool_decide_eq_true. Qed.

Lemma to_eol_ge fuel b i : (i <= to_eol fuel b i)%nat.
Proof.
  revert i. induction fuel as [|f IH]; intros i; simpl; [done|].
  destruct (b !! i); [|done]. case_bool_decide; [done|]. specialize (IH (i + 1)%nat). lia.
Qed.

Lemma skip_quoted_loop_ge fuel b i q : (i <= skip_quoted_loop fuel b i q)%nat.
Proof.
  revert i. induction fuel as [|f IH]; intros i; simpl; [done|].
  destruct (b !! i); [|done]. case_bool_decide.
  - destruct (byte_is _ _); [|done]. specialize (IH (i + 2)%nat). lia.
  - specialize (IH (i + 1)%nat). lia.
Qed.

Ltac bsplit := repeat match goal with
  | H : (_ && _)%bool = true |- _ => apply andb_true_iff in H as [? ?]
  | H : bool_decide _ = true |- _ => apply bool_decide_eq_true in H
  | H : byte_is _ _ = true |- _ => apply byte_is_Some in H
  end.

(** ** The loops against the reference *)

(** A line comment ends at the newline, which the caller steps over. *)
Lemma more_sql_line tail fuel b i : (length b - i <= fuel)%nat ->
  more_sql tail Line (drop i b) = more_sql tail Code (drop (to_eol fuel b i + 1) b).
Proof.
  revert i. induction fuel as [|f IH]; intros i Hf.
  - rewrite !drop_ge by (simpl; lia). done.
  - simpl. destruct (b !! i) as [c|] eqn:Hc.
    + rewrite (drop_S b c i Hc). simpl. case_bool_decide as Hn.
      * by rewrite Nat.add_1_r.
      * rewrite <- (IH (i + 1)%nat) by lia. by rewrite Nat.add_1_r.
    + rewrite drop_lookup_None by done.
      rewrite drop_ge by (apply lookup_ge_None in Hc; lia). done.
Qed.

(** Leaving the newline to the blank case of the caller comes to the same. *)
Lemma more_sql_at_eol fuel b i : (length b - i <= fuel)%nat ->
  more_sql true Code (drop (to_eol fuel b i) b) = more_sql true Code (drop (to_eol fuel b i + 1) b).
Proof.
  revert i. induction fuel as [|f IH]; intros i Hf.
  - rewrite !drop_ge by (simpl; lia). done.
  - simpl. destruct (b !! i) as [c|] eqn:Hc.
    + case_bool_decide as Hn; [|apply IH; lia]. subst c.
      rewrite (drop_S b NL i Hc), Nat.add_1_r. reflexivity.
    + apply lookup_ge_None in Hc. rewrite !drop_ge by lia. done.
Qed.

Lemma more_sql_dash tail b i : b !! i = Some "-"%char ->
  more_sql tail Line (drop (S i) b) = more_sql tail Line (drop i b).
Proof. intros H. rewrite (drop_S b _ i H). reflexivity. Qed.

Lemma quote_cases q : is_quote q = true -> q = "'"%char \/ q = QUOTE \/ q = "`"%char.
Proof.
  unfold is_quote. intros H. apply orb_true_iff in H as [H|H]; [apply orb_true_iff in H as [H|H]|];
    apply bool_decide_eq_true in H; auto.
Qed.

Lemma more_sql_quote q b : is_quote q = true ->
  more_sql false Code (q :: b) = more_sql false (Quoted q) b.
Proof. intros [-> |[-> | ->]]%quote_cases; reflexivity. Qed.

Lemma more_sql_quoted q fuel b i : is_quote q = true -> (length b - i <= fuel)%nat ->
  more_sql false (Quoted q) (drop i b) =
  more_sql false Code (drop (skip_quoted_loop fuel b i q + 1) b).
Proof.
  intros Hq. revert i. induction fuel as [|f IH]; intros i Hf.
  - rewrite !drop_ge by (simpl; lia). done.
  - simpl. destruct (b !! i) as [c|] eqn:Hc.
    + rewrite (drop_S b c i Hc). simpl. case_bool_decide as Hn.
      * subst c. destruct (byte_is q (b !! (i + 1)%nat)) eqn:H2.
        -- apply byte_is_Some in H2. rewrite Nat.add_1_r in H2.
           rewrite <- IH by lia. rewrite (drop_S b q (S i) H2), more_sql_quote by done.
           do 2 f_equal. lia.
        -- by rewrite Nat.add_1_r.
      * rewrite <- IH by lia. by rewrite Nat.add_1_r.
    + apply lookup_ge_None in Hc. rewrite !drop_ge by lia. done.
Qed.

(** No block comment anywhere. *)
Definition block_free (b : bytes) : Prop :=
  forall i, b !! i = Some "/"%char -> b !! (i + 1)%nat = Some "*"%char -> False.

Lemma contains_drop p b i : contains p b = false -> starts_with p (drop i b) = false.
Proof.
  revert i. induction b as [|c b IH]; intros i H; simpl in H; apply orb_false_iff in H as [H1 H2].
  - by rewrite drop_nil.
  - destruct i as [|i]; [done|]. simpl. by apply IH.
Qed.

Lemma starts_with_app p b : starts_with p (p ++ b) = true.
Proof. induction p as [|c p IH]; simpl; [done|]. rewrite bool_decide_eq_true_2 by done. done. Qed.

Lemma contains_block_free b : contains (as_bytes "/*") b = false -> block_free b.
Proof.
  intros H i H1 H2. rewrite Nat.add_1_r in H2. apply (contains_drop _ _ i) in H.
  rewrite (drop_S b _ i H1), (drop_S b _ (S i) H2) in H. discriminate.
Qed.

Lemma block_free_test b i : block_free b -> b !! i = Some "/"%char ->
  byte_is "*"%char (b !! (i + 1)%nat) = false.
Proof.
  intros Hb H. destruct (byte_is _ _) eqn:E; [|done]. apply byte_is_Some in E. by destruct (Hb i).
Qed.

Lemma trailing_loop_ref b fuel i : block_free b -> (length b - i < fuel)%nat ->
  trailing_loop fuel b i = more_sql true Code (drop i b).
Proof.
  intros Hb. revert i. induction fuel as [|f IH]; intros i Hf; [lia|]. cbn [trailing_loop].
  destruct (b !! i) as [c|] eqn:Hc; [|by rewrite drop_lookup_None].
  assert (i < length b)%nat as Hlt by (by eapply lookup_lt_Some).
  rewrite (drop_S b c i Hc). cbn [more_sql]. rewrite !head_is_drop.
  replace (S i) with (i + 1)%nat by lia.
  destruct (is_blank c) eqn:Hbl.
  - rewrite IH by lia. unfold is_blank in Hbl. repeat (apply orb_true_iff in Hbl as [Hbl|Hbl]);
      apply bool_decide_eq_true in Hbl; subst c; reflexivity.
  - destruct (bool_decide (c = "-"%char) && byte_is "-"%char (b !! (i + 1)%nat)) eqn:Hd.
    + bsplit. subst c. assert (S (S i) <= to_eol (length b) b i)%nat.
      { destruct b as [|b0 b']; [done|]. cbn [length to_eol]. rewrite Hc.
        rewrite bool_decide_eq_false_2 by discriminate.
        destruct (length b') as [|n] eqn:Hl.
        - apply lookup_lt_Some in H0. simpl in H0. lia.
        - cbn [to_eol]. rewrite H0. rewrite bool_decide_eq_false_2 by discriminate.
          pose proof (to_eol_ge n (b0 :: b') (i + 1 + 1)). lia. }
      rewrite IH by lia. rewrite more_sql_at_eol, <- more_sql_line by lia.
      rewrite <- (more_sql_dash true b i) by done. do 2 f_equal. lia.
    + destruct (bool_decide (c = "/"%char)) eqn:Hs; simpl.
      * apply bool_decide_eq_true in Hs. subst c. by rewrite block_free_test.
      * done.
Qed.

Lemma multiple_loop_ref b fuel i : block_free b -> (length b - i < fuel)%nat ->
  multiple_loop fuel b i = more_sql false Code (drop i b).
Proof.
  intros Hb. revert i. induction fuel as [|f IH]; intros i Hf; [lia|]. cbn [multiple_loop].
  destruct (b !! i) as [c|] eqn:Hc; [|by rewrite drop_lookup_None].
  assert (i < length b)%nat as Hlt by (by eapply lookup_lt_Some).
  rewrite (drop_S b c i Hc).
  destruct (is_quote c) eqn:Hq.
  - unfold skip_quoted. pose proof (skip_quoted_loop_ge (length b) b (i + 1) c).
    rewrite IH by lia. rewrite <- more_sql_quoted by (done || lia).
    rewrite more_sql_quote by done. do 2 f_equal. lia.
  - cbn [more_sql]. rewrite Hq, !head_is_drop. replace (S i) with (i + 1)%nat by lia.
    destruct (bool_decide (c = "-"%char) && byte_is "-"%char (b !! (i + 1)%nat)) eqn:Hd.
    + bsplit. subst c. pose proof (to_eol_ge (length b) b i).
      rewrite IH by lia. rewrite <- more_sql_line by lia.
      rewrite <- (more_sql_dash false b i) by done. do 2 f_equal. lia.
    + destruct (bool_decide (c = "/"%char)) eqn:Hs; cbn [andb].
      * apply bool_decide_eq_true in Hs. subst c. rewrite block_free_test by done.
        cbn. rewrite IH by lia. done.
      * destruct (bool_decide (c = ";"%char)) eqn:Hsc.
        -- unfold trailing_has_sql. apply trailing_loop_ref; [done|lia].
        -- rewrite IH by lia. done.
Qed.

(** C33: on a statement without block comments, the scanner of the code, which
    walks byte indices and skips quoted text and line comments, answers
    exactly whether SQL other than blanks and comments follows a semicolon
    that stands outside quotes and comments. *)
Theorem has_multiple_statements_correct (sql : string) :
  contains (as_bytes "/*") (as_bytes sql) = false ->
  has_multiple_statements sql = more_sql false Code (as_bytes sql).
Proof.
  intros H. apply contains_block_free in H. unfold has_multiple_statements.
  rewrite multiple_loop_ref by (done || lia). by rewrite drop_0.
Qed.

Lemma has_multiple_statements_correct_witness :
  has_multiple_statements "SELECT ';' -- a;b" = more_sql false Code (as_bytes "SELECT ';' -- a;b").
Proof. apply has_multiple_statements_correct. reflexivity. Defined.

(** A block comment hides the character after it from the scanner: the
    gate accepts requests that hold a second statement, among them one that
    runs VACUUM INTO behind an empty first statement, and one that runs it
    behind a form feed, which SQLite also takes for a blank. *)
Theorem check_statement_bypass :
  let drop_tail := "SELECT 1/**/;DROP TABLE t"%string in
  let vacuum_tail := "/**/;VACUUM INTO '/tmp/x'"%string in
  let form_feed := String.String (ascii_of_nat 12) "/**/VACUUM INTO '/tmp/x'" in
  check_statement drop_tail = Ok tt /\ more_sql false Code (as_bytes drop_tail) = true /\
  check_statement vacuum_tail = Ok tt /\ more_sql false Code (as_bytes vacuum_tail) = true /\
  check_statement form_feed = Ok tt.
Proof. repeat split; vm_compute; reflexivity. Qed.

(** ** Leading trivia *)

Inductive Trivia :=
| TBlank (c : ascii)
| TLine (body : bytes)
| TBlock (body : bytes).

Definition trivia_text (t : Trivia) : bytes :=
  match t with
  | TBlank c => [c]
  | TLine body => as_bytes "--" ++ body ++ [NL]
  | TBlock body => as_bytes "/*" ++ body ++ as_bytes "*/"
  end.

(** A line comment ends at its first newline, a block comment at its first
    end mark. *)
Definition trivia_ok (t : Trivia) : bool :=
  match t with
  | TBlank c => is_blank c
  | TLine body => bool_decide (NL ∉ body)
  | TBlock body => negb (contains (as_bytes "*/") (body ++ ["*"%char]))
  end.

Definition trivia_bytes (ts : list Trivia) : bytes := concat (map trivia_text ts).

Lemma drop_cons_lookup (b : bytes) i c r : drop i b = c :: r -> b !! i = Some c /\ drop (i + 1) b = r.
Proof.
  intros H. split; [by rewrite <- head_drop, H|].
  rewrite <- drop_drop, H. done.
Qed.

Lemma to_eol_at b fuel i l r : drop i b = l ++ NL :: r -> NL ∉ l -> (length l <= fuel)%nat ->
  to_eol fuel b i = (i + length l)%nat.
Proof.
  revert fuel i. induction l as [|c l IH]; intros fuel i Hd Hn Hf.
  - apply drop_cons_lookup in Hd as [Hc _]. destruct fuel; simpl; [lia|]. rewrite Hc.
    rewrite bool_decide_eq_true_2 by done. lia.
  - simpl in Hd. apply drop_cons_lookup in Hd as [Hc Hd]. destruct fuel; simpl in *; [lia|].
    rewrite Hc. rewrite bool_decide_eq_false_2 by set_solver. rewrite (IH fuel (i + 1)%nat).
    + lia. + done. + set_solver. + lia.
Qed.

Lemma to_block_end_at b fuel i l r :
  drop i b = l ++ as_bytes "*/" ++ r -> contains (as_bytes "*/") (l ++ ["*"%char]) = false ->
  (length l <= fuel)%nat -> to_block_end fuel b i = (i + length l)%nat.
Proof.
  revert fuel i. induction l as [|c l IH]; intros fuel i Hd Hn Hf.
  - simpl in Hd. apply drop_cons_lookup in Hd as [H1 Hd]. apply drop_cons_lookup in Hd as [H2 _].
    destruct fuel; simpl; [lia|]. rewrite H1, H2. simpl. lia.
  - cbn [app] in Hd. apply drop_cons_lookup in Hd as [H1 Hd]. simpl in Hf.
    destruct fuel; simpl; [lia|].
    assert (exists d r', l ++ as_bytes "*/" ++ r = d :: r' /\ head (l ++ ["*"%char]) = Some d)
      as (d & r' & Hr & Hh).
    { destruct l as [|d l]; simpl; eauto. }
    rewrite Hr in Hd. pose proof (drop_cons_lookup _ _ _ _ Hd) as [H2 _]. rewrite H1, H2.
    cbn [contains app] in Hn. apply orb_false_iff in Hn as [Hs Hn].
    destruct (bool_decide (c = "*"%char) && bool_decide (d = "/"%char)) eqn:E.
    + bsplit. subst. destruct (l ++ ["*"%char]); simplify_eq/=.
    + rewrite (IH fuel (i + 1)%nat); [lia|by rewrite Hr|done|lia].
Qed.

Lemma trivia_step b fuel i t r : trivia_ok t = true -> drop i b = trivia_text t ++ r ->
  (length (trivia_text t) <= fuel)%nat ->
  exists fuel', (fuel - length (trivia_text t) <= fuel')%nat /\
    trivia_loop fuel b i = trivia_loop fuel' b (i + length (trivia_text t)).
Proof.
  intros Hok Hd Hf. assert (Hlen : (length (trivia_text t) <= length b)%nat).
  { apply (f_equal length) in Hd. rewrite length_app, length_drop in Hd. lia. }
  destruct t as [c|body|body]; simpl in *.
  - apply drop_cons_lookup in Hd as [Hc _]. destruct fuel as [|f]; [lia|]. exists f.
    split; [lia|]. simpl. by rewrite Hc, Hok.
  - apply bool_decide_eq_true in Hok. rewrite length_app in Hf, Hlen. simpl in Hf, Hlen.
    destruct fuel as [|[|f]]; [lia|lia|].
    exists f. rewrite length_app. split; [simpl; lia|].
    pose proof (drop_cons_lookup _ _ _ _ Hd) as [H1 Hd1].
    apply drop_cons_lookup in Hd1 as [H2 Hd2].
    remember (S f) as f1. cbn [trivia_loop]. rewrite H1, H2. cbn [is_blank].
    change (is_blank "-"%char) with false. cbn.
    rewrite (to_eol_at b _ i (as_bytes "--" ++ body) r);
      [|by rewrite Hd, <- app_assoc|set_solver|rewrite length_app; simpl; lia].
    subst f1. cbn [trivia_loop]. rewrite <- app_assoc in Hd.
    assert (b !! (i + length (as_bytes "--" ++ body))%nat = Some NL) as ->.
    { rewrite <- head_drop, <- drop_drop, Hd. change ("-"%char :: "-"%char :: body ++ [NL] ++ r)
        with ((as_bytes "--" ++ body) ++ NL :: r). by rewrite drop_app_length. }
    cbn. f_equal. simpl. lia.
  - apply negb_true_iff in Hok. rewrite length_app in Hf, Hlen. simpl in Hf, Hlen.
    destruct fuel as [|f]; [lia|]. exists f. rewrite length_app. split; [simpl; lia|].
    pose proof (drop_cons_lookup _ _ _ _ Hd) as [H1 Hd1].
    apply drop_cons_lookup in Hd1 as [H2 Hd2]. cbn [trivia_loop]. rewrite H1, H2.
    change (is_blank "/"%char) with false. cbn. unfold after_block.
    rewrite (to_block_end_at b _ (i + 2)%nat body r);
      [|transitivity (drop (i + 1 + 1) b); [f_equal; lia|by rewrite Hd2, <- app_assoc]|done|lia].
    f_equal. apply (f_equal length) in Hd. rewrite length_drop in Hd. simpl in Hd.
    rewrite !length_app in Hd. simpl in *. lia.
Qed.

Definition significant (b : bytes) : Prop :=
  match b with
  | [] => True
  | c :: _ => is_blank c = false /\ c <> "-"%char /\ c <> "/"%char
  end.

Lemma trivia_loop_stop b fuel i : significant (drop i b) -> trivia_loop fuel b i = i.
Proof.
  intros Hs. destruct fuel as [|f]; [done|]. simpl. rewrite <- head_drop.
  destruct (drop i b) as [|c r]; [done|]. simpl. destruct Hs as (-> & H1 & H2).
  by rewrite !bool_decide_eq_false_2.
Qed.

Lemma trivia_loop_skips b ts r : Forall (fun t => trivia_ok t = true) ts -> significant r ->
  forall fuel i, drop i b = trivia_bytes ts ++ r -> (length (trivia_bytes ts) <= fuel)%nat ->
  trivia_loop fuel b i = (i + length (trivia_bytes ts))%nat.
Proof.
  intros Hok Hsig. unfold trivia_bytes.
  induction Hok as [|t ts Ht Hts IH]; intros fuel i Hd Hf; simpl in *.
  - rewrite trivia_loop_stop by (by rewrite Hd). lia.
  - rewrite length_app in *. rewrite <- app_assoc in Hd.
    destruct (trivia_step b fuel i t _ Ht Hd) as (f' & Hf' & ->); [lia|].
    rewrite IH; [lia| |lia].
    rewrite <- drop_drop, Hd. by rewrite drop_app_length.
Qed.

Lemma skip_leading_trivia_correct ts r :
  Forall (fun t => trivia_ok t = true) ts -> significant r ->
  drop (skip_leading_trivia (trivia_bytes ts ++ r)) (trivia_bytes ts ++ r) = r.
Proof.
  intros Hok Hs. unfold skip_leading_trivia.
  rewrite (trivia_loop_skips _ ts r) by (done || (rewrite length_app; lia)).
  simpl. by rewrite drop_app_length.
Qed.

Lemma as_bytes_of_list b : as_bytes (string_of_list_ascii b) = b.
Proof. apply list_ascii_of_string_of_list_ascii. Qed.

(** Whatever blanks, line comments and block comments come first, a
    statement that begins with VACUUM, in any mix of case, is refused. *)
Theorem vacuum_refused (ts : list Trivia) (keyword rest : bytes) :
  Forall (fun t => trivia_ok t = true) ts -> lowercase keyword = as_bytes "vacuum" ->
  exists err, check_statement (string_of_list_ascii (trivia_bytes ts ++ keyword ++ rest)) = Err err.
Proof.
  intros Hok Hkw. unfold check_statement. rewrite !as_bytes_of_list. destruct (contains _ _); [by eexists|].
  assert (exists c k, keyword = c :: k /\ (c = "v"%char \/ c = "V"%char)) as (c & k & -> & Hc).
  { destruct keyword as [|c k]; [done|]. exists c, k. split; [done|]. simpl in Hkw.
    injection Hkw as Hc _. destruct c as [[] [] [] [] [] [] [] []]; vm_compute in Hc; auto; done. }
  rewrite skip_leading_trivia_correct;
    [|done|by destruct Hc as [-> | ->]].
  assert (trim_start ((c :: k) ++ rest) = (c :: k) ++ rest) as ->.
  { destruct Hc as [-> | ->]; destruct k as [|d [|f k]]; try discriminate;
      destruct rest as [|? [|]]; reflexivity. }
  assert (lowercase ((c :: k) ++ rest) = as_bytes "vacuum" ++ lowercase rest) as ->.
  { unfold lowercase in *. by rewrite fmap_app, Hkw. }
  simpl. by eexists.
Qed.

Lemma vacuum_refused_witness :
  exists err, check_statement (string_of_list_ascii
    (trivia_bytes [TLine (as_bytes " x"); TBlank " "%char; TBlock (as_bytes "*")] ++
     as_bytes "VacUUm" ++ as_bytes " INTO 'f'")) = Err err.
Proof.
  apply vacuum_refused; [repeat constructor; reflexivity | reflexivity].
Defined.

(** ** The engine-level sandbox *)

Definition table_of (a : AuthAction) : option string :=
  match a with
  | ARead t _ | AInsert t | AUpdate t _ | ADelete t => Some t
  | _ => None
  end.

(** Attaching and detaching databases, and control of transactions. *)
Definition leaves_cell (a : AuthAction) : bool :=
  match a with Attach _ | Detach _ | Transaction _ | Savepoint _ => true | _ => false end.

(** While user SQL runs, the authorizer refuses attaching and detaching
    databases, transaction control, every access to a table whose name begins
    with [__sys], file and extension functions in any case, and every
    assignment to a pragma other than [user_version] and [application_id]
    (the pragmas that take a query argument aside); outside user SQL it
    refuses nothing. *)
Theorem sandbox_verdicts (a : AuthAction) :
  authorize false a = true /\
  (leaves_cell a = true -> authorize true a = false) /\
  (forall t suffix, table_of a = Some t -> as_bytes t = as_bytes "__sys" ++ suffix ->
     authorize true a = false) /\
  (forall f, a = AFunction f ->
     to_ascii_lowercase f ∈ ["load_extension"; "readfile"; "writefile"]%string ->
     authorize true a = false) /\
  (forall name value, a = Pragma name (Some value) -> authorize true a = true ->
     to_ascii_lowercase name ∈ ["user_version"; "application_id"]%string \/
     pragma_allowed (to_ascii_lowercase name) false = true /\
     to_ascii_lowercase name ∉ ["page_count"; "freelist_count"; "schema_version"; "data_version";
       "journal_mode"; "foreign_keys"; "wal_checkpoint"]%string).
Proof.
  split; [done|]. split.
  { by destruct a. }
  split.
  { intros t suffix Ht Hs. assert (starts_with (as_bytes "__sys") (as_bytes t) = true)
      as Hw by (rewrite Hs; apply starts_with_app).
    destruct a; simpl in Ht; try discriminate Ht; injection Ht as ->; unfold authorize; rewrite Hw; done. }
  split.
  { intros f -> Hf. change (function_allowed (to_ascii_lowercase f) = false).
    unfold function_allowed. rewrite bool_decide_eq_true_2; [done|].
    repeat (apply elem_of_cons in Hf as [->|Hf]; [by repeat constructor|]). by apply elem_of_nil in Hf. }
  intros name value -> H.
  change (pragma_allowed (to_ascii_lowercase name) true = true) in H. unfold pragma_allowed in *.
  generalize dependent (to_ascii_lowercase name). clear name. intros name H.
  case_bool_decide as Hfun.
  - right. split; [done|]. intros Hin.
    repeat (apply elem_of_cons in Hfun as [->|Hfun];
      [apply (bool_decide_eq_true_2 _) in Hin; vm_compute in Hin; discriminate|]).
    by apply elem_of_nil in Hfun.
  - destruct (negb _); [done|]. apply bool_decide_eq_true in H. by left.
Qed.
