(* ===== verification/Sql.v ===== *)
(** crates/data-node: running user SQL ([sql.rs], [UserSqlGuard] of
    [sandbox.rs]). SQLite itself is a parameter: how a statement compiles, the
    actions it asks the authorizer for, and what it does to the user's data. *)

From Stdlib Require Import ZArith Lia String Ascii.
From stdpp Require Import gmap strings list fin_maps.
From S2P Require Import Prelude Common Kv SqlGate.

(** ** JSON and SQL values *)

(** serde_json's [Number]: a [u64], a negative [i64] or the bits of an [f64]. *)
Inductive Number :=
| PosInt (n : Z)
| NegInt (n : Z)
| Float (bits : Z).

Inductive Json :=
| JNull
| JBool (b : bool)
| JNumber (n : Number)
| JString (s : string)
| JArray (l : list Json)
| JObject (fields : list (string * Json)).

Inductive SqlValue :=
| SqlNull
| SqlInteger (i : Z)
| SqlReal (bits : Z)
| SqlText (s : string)
| SqlBlob (b : string).

Record SqlRequest := mkSqlRequest { req_sql : string; req_params : list Json }.

Record SqlResult := mkSqlResult {
  res_columns : list string;
  res_rows : list (list Json);
  res_rows_affected : Z;
  res_truncated : bool;
}.

Definition f64_is_finite (bits : Z) : bool := negb ((bits / 2 ^ 52) mod 2 ^ 11 =? 2047).

Definition as_i64 (n : Number) : option Z :=
  match n with
  | PosInt n => if decide (n <= I64_MAX) then Some n else None
  | NegInt n => Some n
  | Float _ => None
  end.

(** ** [String::from_utf8_lossy]: each maximal ill-formed piece becomes U+FFFD *)

Definition REPLACEMENT : string :=
  String.String (ascii_of_nat 239) (String.String (ascii_of_nat 191)
    (String.String (ascii_of_nat 189) EmptyString)).

Definition second_ok (a b : ascii) : bool :=
  if byte_in 194 223 a then byte_in 128 191 b
  else if byte_in 224 224 a then byte_in 160 191 b
  else if byte_in 237 237 a then byte_in 128 159 b
  else if byte_in 225 239 a then byte_in 128 191 b
  else if byte_in 240 240 a then byte_in 144 191 b
  else if byte_in 241 243 a then byte_in 128 191 b
  else if byte_in 244 244 a then byte_in 128 143 b
  else false.

Definition is_cont (b : ascii) : bool := byte_in 128 191 b.

(** Length of the leading character, or of the leading ill-formed piece. *)
Definition utf8_piece (s : string) : bool * nat :=
  match s with
  | EmptyString => (true, 0%nat)
  | String.String a s1 =>
      if byte_in 0 127 a then (true, 1%nat) else
      match s1 with
      | String.String b s2 =>
          if second_ok a b then
            if byte_in 194 223 a then (true, 2%nat) else
            match s2 with
            | String.String c s3 =>
                if is_cont c then
                  if byte_in 224 239 a then (true, 3%nat) else
                  match s3 with
                  | String.String d _ => if is_cont d then (true, 4%nat) else (false, 3%nat)
                  | EmptyString => (false, 3%nat)
                  end
                else (false, 2%nat)
            | EmptyString => (false, 2%nat)
            end
          else (false, 1%nat)
      | EmptyString => (false, 1%nat)
      end
  end.

Fixpoint string_drop (n : nat) (s : string) : string :=
  match n, s with
  | Datatypes.S n', String.String _ s' => string_drop n' s'
  | _, _ => s
  end.

Fixpoint string_take (n : nat) (s : string) : string :=
  match n, s with
  | Datatypes.S n', String.String c s' => String.String c (string_take n' s')
  | _, _ => EmptyString
  end.

Fixpoint lossy_loop (fuel : nat) (s : string) : string :=
  match fuel, s with
  | Datatypes.S fuel', String.String _ _ =>
      let '(ok, n) := utf8_piece s in
      (if ok then string_take n s else REPLACEMENT) +:+ lossy_loop fuel' (string_drop n s)
  | _, _ => EmptyString
  end.

Definition from_utf8_lossy (s : string) : string := lossy_loop (String.length s) s.

(** ** The engine *)

(** What SQLite and serde_json do with one Cell's user data [U]. *)
Class SqlEngine (U : Type) := {
  (** columns of the compiled first statement and the actions it asks for *)
  prepare : U -> string -> result string (list string * list AuthAction);
  (** stepping a statement with columns: rows or errors, in order; all writes
      happen before the first row *)
  run_query : U -> string -> list SqlValue ->
    result string (list (result string (result string (list SqlValue)))) * U;
  (** running a statement without columns: rows changed *)
  run_execute : U -> string -> list SqlValue -> result string Z * U;
  (** whether BEGIN and COMMIT succeed; ROLLBACK of an open transaction does *)
  begin_tx : U -> result string unit;
  commit_tx : U -> result string unit;
  (** the error of BEGIN in a transaction, and of COMMIT or ROLLBACK outside *)
  tx_misuse : TransactionOperation -> string;
  auth_denied : string;
  u64_as_f64 : Z -> Z;
  json_display : Json -> string;
  json_size : list Json -> nat;
}.

(** One connection while a request runs: the data as its statements see it,
    the thread's flag, and, while a transaction is open, the data that
    ROLLBACK brings back. *)
Record SqlState (U : Type) := mkSqlState {
  user_data : U;
  user_sql_active : bool;
  tx_begun : option U;
}.
Arguments mkSqlState {U}.
Arguments user_data {U}.
Arguments user_sql_active {U}.
Arguments tx_begun {U}.

(** common/config.rs *)
Record QuotaConfig := mkQuotaConfig {
  max_request_body_bytes : nat;
  max_kv_key_bytes : nat;
  max_kv_value_bytes : nat;
  max_sql_rows : nat;
  max_sql_result_bytes : nat;
  max_cells_per_tenant : nat;
  max_per_tenant_concurrency : nat;
  max_per_cell_concurrency : nat;
  storage_soft_bytes : Z;
  storage_hard_bytes : Z;
  max_ttl_seconds : Z;
}.

Definition QuotaConfig_default : QuotaConfig := {|
  max_request_body_bytes := Z.to_nat (5 * 1024 * 1024);
  max_kv_key_bytes := 1024;
  max_kv_value_bytes := Z.to_nat (256 * 1024);
  max_sql_rows := Z.to_nat 10000;
  max_sql_result_bytes := Z.to_nat (5 * 1024 * 1024);
  max_cells_per_tenant := 1000;
  max_per_tenant_concurrency := 0;
  max_per_cell_concurrency := 0;
  storage_soft_bytes := 0;
  storage_hard_bytes := 0;
  max_ttl_seconds := 30 * 24 * 60 * 60;
|}.

Section sql.
Context {U : Type} `{SqlEngine U}.

Abbreviation SqlM := (M (SqlState U) CombeeError).

(** ** Scopes

    A local of the source is dropped when its scope is left, by the last
    statement or by [?]; one that is moved out at the end only by [?]. *)

Definition scoped {A} (m : SqlM A) (drop : SqlM unit) : SqlM A :=
  fun s e =>
    let '(r, s1, e1) := m s e in
    let '(_, s2, e2) := drop s1 e1 in (r, s2, e2).

Definition scoped_until_moved {A} (m : SqlM A) (drop : SqlM unit) : SqlM A :=
  fun s e =>
    match m s e with
    | (Ok a, s1, e1) => (Ok a, s1, e1)
    | (Err err, s1, e1) => let '(_, s2, e2) := drop s1 e1 in (Err err, s2, e2)
    end.

(** ** [UserSqlGuard] of sandbox.rs *)

Definition set_active (active : bool) : SqlM unit :=
  modify (fun s => mkSqlState (user_data s) active (tx_begun s)).

(** [UserSqlGuard::set]: [USER_SQL_ACTIVE.replace(active)]; the guard holds
    the previous value. *)
Definition guard_set (active : bool) : SqlM bool :=
  let! prev := gets user_sql_active in
  do! set_active active in mret prev.

(** [Drop for UserSqlGuard] *)
Definition user_guard_drop (prev : bool) : SqlM unit := set_active prev.

(** A scope that begins with [let _guard = UserSqlGuard::enter()], and one
    with [UserSqlGuard::leave()]. *)
Definition with_guard {A} (active : bool) (m : SqlM A) : SqlM A :=
  let! prev := guard_set active in scoped m (user_guard_drop prev).
Definition enter_user_sql {A} (m : SqlM A) : SqlM A := with_guard true m.
Definition leave_user_sql {A} (m : SqlM A) : SqlM A := with_guard false m.

(** ** The connection *)

Definition sql_fail {A} (msg : string) : SqlM A := mfail (SqlError msg).

Definition on_data {A} (f : U -> result string A * U) : SqlM A :=
  fun s e =>
    let '(r, u) := f (user_data s) in
    (match r with Ok a => Ok a | Err msg => Err (SqlError msg) end,
     mkSqlState u (user_sql_active s) (tx_begun s), e).

(** The authorizer is asked for every action when a statement is compiled. *)
Definition authorized (actions : list AuthAction) : SqlM unit :=
  let! active := gets user_sql_active in
  if forallb (authorize active) actions then mret tt else sql_fail auth_denied.

(** [conn.prepare]: the columns of the statement and its actions. *)
Definition conn_prepare (sql : string) : SqlM (list string * list AuthAction) :=
  let! u := gets user_data in
  match prepare u sql with
  | Err msg => sql_fail msg
  | Ok (columns, actions) => do! authorized actions in mret (columns, actions)
  end.

(** BEGIN, COMMIT and ROLLBACK once compiled. *)
Definition tx_control (op : TransactionOperation) : SqlM unit :=
  let! s := gets id in
  match op, tx_begun s with
  | TxBegin, None =>
      match begin_tx (user_data s) with
      | Err msg => sql_fail msg
      | Ok _ => modify (fun s => mkSqlState (user_data s) (user_sql_active s) (Some (user_data s)))
      end
  | TxCommit, Some _ =>
      match commit_tx (user_data s) with
      | Err msg => sql_fail msg
      | Ok _ => modify (fun s => mkSqlState (user_data s) (user_sql_active s) None)
      end
  | TxRollback, Some begun => modify (fun s => mkSqlState begun (user_sql_active s) None)
  | _, _ => sql_fail (tx_misuse op)
  end.

(** Running a compiled statement: the transaction control among its actions,
    then what it does to the data. *)
Definition run_actions (actions : list AuthAction) : SqlM unit :=
  mfor actions (fun a => match a with Transaction op => tx_control op | _ => mret tt end).

(** [conn.execute] compiles the text again. *)
Definition conn_execute (sql : string) (values : list SqlValue) : SqlM Z :=
  let! (_, actions) := conn_prepare sql in
  do! run_actions actions in
  on_data (fun u => run_execute u sql values).

Definition stmt_query (sql : string) (actions : list AuthAction) (values : list SqlValue)
    : SqlM (list (result string (result string (list SqlValue)))) :=
  do! run_actions actions in
  on_data (fun u => run_query u sql values).

(** ** [rusqlite::Transaction] *)

(** A statement rusqlite issues itself. *)
Definition tx_statement (op : TransactionOperation) : SqlM unit :=
  do! authorized [Transaction op] in tx_control op.

(** [conn.transaction()] *)
Definition conn_transaction : SqlM unit := tx_statement TxBegin.

(** A transaction that is dropped is rolled back, unless it has ended; an
    error is ignored. *)
Definition tx_drop : SqlM unit :=
  let! begun := gets tx_begun in
  match begun with
  | Some _ => ignore (tx_statement TxRollback)
  | None => mret tt
  end.

(** [tx.commit()] consumes the transaction: it is dropped at the end. *)
Definition tx_commit : SqlM unit := scoped (tx_statement TxCommit) tx_drop.

(** ** sql.rs *)

Definition to_sql_value (p : Json) : Result SqlValue :=
  match p with
  | JNull => Ok SqlNull
  | JBool b => Ok (SqlInteger (if b then 1 else 0))
  | JNumber n =>
      match as_i64 n with
      | Some i => Ok (SqlInteger i)
      | None =>
          match n with
          | Float bits => Ok (SqlReal bits)
          | PosInt n | NegInt n => Ok (SqlReal (u64_as_f64 n))
          end
      end
  | JString s => Ok (SqlText s)
  | other => Err (InvalidRequest ("unsupported parameter type: " +:+ json_display other))
  end.

Fixpoint to_sql_values (params : list Json) : Result (list SqlValue) :=
  match params with
  | [] => Ok []
  | p :: ps =>
      match to_sql_value p with
      | Err e => Err e
      | Ok v =>
          match to_sql_values ps with
          | Err e => Err e
          | Ok vs => Ok (v :: vs)
          end
      end
  end.

Definition value_to_json (v : SqlValue) : Json :=
  match v with
  | SqlNull => JNull
  | SqlInteger i => JNumber (if i <? 0 then NegInt i else PosInt i)
  | SqlReal bits => if f64_is_finite bits then JNumber (Float bits) else JNull
  | SqlText s => JString s
  | SqlBlob b => JString (from_utf8_lossy b)
  end.

Definition row_to_json (row : result string (list SqlValue)) : Result (list Json) :=
  match row with
  | Ok vs => Ok (value_to_json <$> vs)
  | Err msg => Err (SqlError msg)
  end.

(** The loop over result rows, with the row and byte limits (0 = none). *)
Fixpoint collect_rows (max_rows max_bytes : nat)
    (steps : list (result string (result string (list SqlValue))))
    (out : list (list Json)) (total_bytes : nat) : Result (list (list Json) * bool) :=
  match steps with
  | [] => Ok (out, false)
  | Err msg :: _ => Err (SqlError msg)
  | Ok row :: rest =>
      if (0 <? max_rows)%nat && (max_rows <=? length out)%nat then Ok (out, true) else
      match row_to_json row with
      | Err err => Err err
      | Ok json_row =>
          if (0 <? max_bytes)%nat then
            let total := (total_bytes + json_size json_row)%nat in
            if (max_bytes <? total)%nat then Ok (out, true)
            else collect_rows max_rows max_bytes rest (out ++ [json_row]) total
          else collect_rows max_rows max_bytes rest (out ++ [json_row]) total_bytes
      end
  end.

Definition execute_sql_quota (req : SqlRequest) (quota : option QuotaConfig) : SqlM SqlResult :=
  enter_user_sql (
    do! mlift (check_statement (req_sql req)) in
    let! values := mlift (to_sql_values (req_params req)) in
    let! (columns, actions) := conn_prepare (req_sql req) in
    let max_rows := from_option max_sql_rows 0%nat quota in
    let max_bytes := from_option max_sql_result_bytes 0%nat quota in
    if decide (columns = []) then
      let! affected := conn_execute (req_sql req) values in
      mret (mkSqlResult [] [] affected false)
    else
      let! steps := stmt_query (req_sql req) actions values in
      let! (rows, truncated) := mlift (collect_rows max_rows max_bytes steps [] 0) in
      mret (mkSqlResult columns rows 0 truncated)).

Definition execute_sql (req : SqlRequest) : SqlM SqlResult := execute_sql_quota req None.

Definition execute_transaction (statements : list SqlRequest) (quota : option QuotaConfig)
    : SqlM (list SqlResult) :=
  match statements with
  | [] => mfail (InvalidRequest "transaction requires at least one statement")
  | _ =>
      do! leave_user_sql conn_transaction in
      let! results := scoped_until_moved (mmap statements (fun st => execute_sql_quota st quota)) tx_drop in
      do! leave_user_sql tx_commit in
      mret results
  end.

End sql.
