(* ===== verification/SqlSpec.v ===== *)
(** What running user SQL guarantees: bounded results, atomic transactions,
    and a sandbox that is on exactly while user SQL runs. *)

From Stdlib Require Import ZArith Lia String Ascii.
From stdpp Require Import gmap strings list fin_maps.
From S2P Require Import Prelude Common Kv SqlGate SqlGateSpec Sql.

Section results.
Context {U : Type} `{SqlEngine U}.

(** The rows SQLite delivers, as long as no step fails. *)
Fixpoint delivered (steps : list (result string (result string (list SqlValue))))
    : option (list (list Json)) :=
  match steps with
  | [] => Some []
  | Ok (Ok vs) :: rest => rows ← delivered rest; Some ((value_to_json <$> vs) :: rows)
  | _ => None
  end.

Definition total_size (rows : list (list Json)) : nat := sum_list_with json_size rows.

Lemma total_size_snoc rows r : total_size (rows ++ [r]) = (total_size rows + json_size r)%nat.
Proof. unfold total_size. rewrite sum_list_with_app. simpl. lia. Qed.

Definition within (limit n : nat) : Prop := (limit = 0 \/ n <= limit)%nat.

Lemma within_dec limit n : (0 <? limit)%nat && (limit <? n)%nat = false -> within limit n.
Proof.
  intros H0. apply andb_false_iff in H0 as [H0|H0]; [left|right];
    [apply Nat.ltb_ge in H0 | apply Nat.ltb_ge in H0]; lia.
Qed.

(** What the loop may return when it has collected [out] and the rows of
    [steps] are to come. *)
Record loop_result (max_rows max_bytes : nat) steps (out rows : list (list Json)) (trunc : bool) : Prop := {
  loop_rows : within max_rows (length rows);
  loop_bytes : within max_bytes (total_size rows);
  loop_complete : trunc = false -> exists added, delivered steps = Some added /\ rows = out ++ added;
  loop_stopped : trunc = true -> forall all, delivered steps = Some all ->
    exists added r rest, all = added ++ r :: rest /\ rows = out ++ added /\
      (0 < max_rows /\ max_rows <= length rows \/
       0 < max_bytes /\ max_bytes < total_size rows + json_size r)%nat;
}.

(** Stopping at a row that a limit does not admit. *)
Lemma loop_stop max_rows max_bytes row steps out :
  within max_rows (length out) -> within max_bytes (total_size out) ->
  (forall vs, row = Ok vs ->
    0 < max_rows /\ max_rows <= length out \/
    0 < max_bytes /\ max_bytes < total_size out + json_size (value_to_json <$> vs))%nat ->
  loop_result max_rows max_bytes (Ok row :: steps) out out true.
Proof.
  intros Hr Hb Hlim. split; try done. intros _ all Hall. simpl in Hall. destruct row as [vs|]; [|done].
  destruct (delivered steps) as [rest|]; simplify_eq/=.
  exists [], (value_to_json <$> vs), rest. rewrite app_nil_r. auto.
Qed.

(** Going on with one row more. *)
Lemma loop_next max_rows max_bytes vs steps out rows trunc :
  loop_result max_rows max_bytes steps (out ++ [value_to_json <$> vs]) rows trunc ->
  loop_result max_rows max_bytes (Ok (Ok vs) :: steps) out rows trunc.
Proof.
  intros [A B D F]. split; [done|done| |].
  - intros Hf. destruct (D Hf) as (ad & Hd & Hrows). eexists. simpl. rewrite Hd. simpl.
    split; [reflexivity|]. by rewrite Hrows, <- app_assoc.
  - intros Hf all Hall. simpl in Hall. destruct (delivered steps) as [l|] eqn:Hd; [|done]. simplify_eq/=.
    destruct (F eq_refl l eq_refl) as (ad & r & rest & -> & Hrows & Hlimit).
    eexists (_ :: ad), r, rest. split; [reflexivity|]. split; [|done]. by rewrite Hrows, <- app_assoc.
Qed.

Lemma collect_rows_spec max_rows max_bytes steps out total rows trunc :
  (0 < max_bytes -> total = total_size out)%nat ->
  within max_rows (length out) -> within max_bytes (total_size out) ->
  collect_rows max_rows max_bytes steps out total = Ok (rows, trunc) ->
  loop_result max_rows max_bytes steps out rows trunc.
Proof.
  revert out total. induction steps as [|[row|msg] steps IH]; intros out total Ht Hr Hb Hc; simpl in Hc.
  - simplify_eq. split; try done. intros _. exists []. by rewrite app_nil_r.
  - destruct ((0 <? max_rows)%nat && (max_rows <=? length out)%nat) eqn:Hlim.
    { simplify_eq. apply andb_true_iff in Hlim as [H1%Nat.ltb_lt H2%Nat.leb_le]. apply loop_stop; auto. }
    destruct row as [vs|msg]; simpl in Hc; [|done].
    assert (within max_rows (length (out ++ [value_to_json <$> vs]))) as Hr'.
    { rewrite length_app. simpl.
      apply andb_false_iff in Hlim as [H1%Nat.ltb_ge|H1%Nat.leb_gt]; unfold within in *; lia. }
    destruct (0 <? max_bytes)%nat eqn:Hmb.
    + apply Nat.ltb_lt in Hmb. specialize (Ht Hmb). subst total. destruct (max_bytes <? _)%nat eqn:Hover.
      * simplify_eq. apply Nat.ltb_lt in Hover. apply loop_stop; [done|done|]. intros ? [= <-]. auto.
      * apply Nat.ltb_ge in Hover. eapply loop_next, IH; [|done|by right; rewrite total_size_snoc|exact Hc].
        intros _. by rewrite total_size_snoc.
    + apply Nat.ltb_ge in Hmb. eapply loop_next, IH; [lia|done|left; lia|exact Hc].
  - done.
Qed.

(** The row loop respects both limits (0 = no limit), returns a prefix of
    the rows SQLite delivers, all of them when [truncated] is false, and when
    it is true stops at a row that would have broken a limit. *)
Theorem collect_rows_bounded max_rows max_bytes
    (steps : list (result string (result string (list SqlValue)))) :
  match collect_rows max_rows max_bytes steps [] 0 with
  | Err _ => True
  | Ok (rows, truncated) =>
      within max_rows (length rows) /\ within max_bytes (total_size rows) /\
      (truncated = false -> delivered steps = Some rows) /\
      (truncated = true -> forall all, delivered steps = Some all ->
         exists r rest, all = rows ++ r :: rest /\
           (0 < max_rows /\ max_rows <= length rows \/
            0 < max_bytes /\ max_bytes < total_size rows + json_size r)%nat)
  end.
Proof.
  destruct (collect_rows _ _ _ _ _) as [[rows trunc]|] eqn:Hc; [|done].
  apply collect_rows_spec in Hc as [A B D F];
    [|done|right; simpl; lia|right; simpl; lia].
  split; [done|]. split; [done|]. split.
  - intros Hf. by destruct (D Hf) as (added & Hd & ->).
  - intros Hf all Hall. destruct (F Hf all Hall) as (added & r & rest & -> & -> & Hl). eauto.
Qed.

(** ** One statement *)

(** What a user statement answers and does to the data: it must pass the
    gate, compile, and ask for nothing that the sandbox refuses. *)
Definition statement_effect (req : SqlRequest) (quota : option QuotaConfig) (u : U)
    : result CombeeError SqlResult * U :=
  match check_statement (req_sql req), to_sql_values (req_params req), prepare u (req_sql req) with
  | Err err, _, _ | Ok _, Err err, _ => (Err err, u)
  | Ok _, Ok _, Err msg => (Err (SqlError msg), u)
  | Ok _, Ok values, Ok (columns, actions) =>
      if forallb (authorize true) actions then
        if decide (columns = []) then
          let '(r, u') := run_execute u (req_sql req) values in
          (match r with Ok n => Ok (mkSqlResult [] [] n false) | Err msg => Err (SqlError msg) end, u')
        else
          let '(r, u') := run_query u (req_sql req) values in
          (match r with
           | Err msg => Err (SqlError msg)
           | Ok steps =>
               match collect_rows (from_option max_sql_rows 0%nat quota)
                       (from_option max_sql_result_bytes 0%nat quota) steps [] 0 with
               | Ok (rows, truncated) => Ok (mkSqlResult columns rows 0 truncated)
               | Err err => Err err
               end
           end, u')
      else (Err (SqlError auth_denied), u)
  end.

(** Statements the sandbox lets through do not control transactions. *)
Lemma run_actions_allowed actions (s : SqlState U) e :
  forallb (authorize true) actions = true -> run_actions actions s e = (Ok tt, s, e).
Proof.
  unfold run_actions. induction actions as [|a actions IH]; [done|]. simpl.
  intros [Ha Hrest]%andb_true_iff. unfold bind. destruct a; try done; by apply IH.
Qed.

Lemma conn_prepare_run sql (s : SqlState U) e :
  conn_prepare sql s e =
    match prepare (user_data s) sql with
    | Err msg => (Err (SqlError msg), s, e)
    | Ok (cols, actions) =>
        if forallb (authorize (user_sql_active s)) actions then (Ok (cols, actions), s, e)
        else (Err (SqlError auth_denied), s, e)
    end.
Proof.
  unfold conn_prepare, authorized, sql_fail, bind, gets. destruct (prepare _ _) as [[cols acts]|]; [|done].
  by destruct (forallb _ _).
Qed.

(** A user statement leaves the thread's flag and an open transaction alone,
    and has no other effect than on the data. *)
Lemma execute_sql_run req quota (s : SqlState U) e :
  execute_sql_quota req quota s e =
    let '(r, u) := statement_effect req quota (user_data s) in
    (r, mkSqlState u (user_sql_active s) (tx_begun s), e).
Proof.
  destruct s as [u active begun].
  unfold execute_sql_quota, enter_user_sql, with_guard, guard_set, user_guard_drop, set_active, scoped, statement_effect,
    conn_execute, stmt_query, bind, mlift, modify, gets, mret. simpl.
  destruct (check_statement _); [|done]. destruct (to_sql_values _); [|done]. rewrite conn_prepare_run. simpl.
  destruct (prepare u _) as [[cols acts]|] eqn:Hp; [|done].
  destruct (forallb _ acts) eqn:Hall; [|done]. case_decide.
  - rewrite conn_prepare_run. simpl. rewrite Hp, Hall, run_actions_allowed by done.
    unfold on_data. simpl. by destruct (run_execute _ _ _) as [[] ?].
  - rewrite run_actions_allowed by done. unfold on_data. simpl. destruct (run_query _ _ _) as [[] ?]; [|done].
    by destruct (collect_rows _ _ _ _ _) as [[]|].
Qed.

(** Statements one after the other, up to the first that fails. *)
Fixpoint statements_effect (l : list SqlRequest) (quota : option QuotaConfig) (u : U)
    : result CombeeError (list SqlResult) * U :=
  match l with
  | [] => (Ok [], u)
  | st :: l' =>
      match statement_effect st quota u with
      | (Err err, u') => (Err err, u')
      | (Ok r, u') =>
          match statements_effect l' quota u' with
          | (Ok rs, u'') => (Ok (r :: rs), u'')
          | (Err err, u'') => (Err err, u'')
          end
      end
  end.

Lemma mmap_execute_run l quota (s : SqlState U) e :
  mmap l (fun st => execute_sql_quota st quota) s e =
    let '(r, u) := statements_effect l quota (user_data s) in
    (r, mkSqlState u (user_sql_active s) (tx_begun s), e).
Proof.
  revert s e. induction l as [|st l IH]; intros s e; [by destruct s|]. cbn [mmap statements_effect]. unfold bind.
  rewrite execute_sql_run. destruct (statement_effect st quota (user_data s)) as [[r|err] u]; [|done].
  rewrite IH. simpl. by destruct (statements_effect l quota u) as [[] ?].
Qed.

(** ** Transactions *)

(** What rusqlite issues outside the user's context is not refused. *)
Lemma leave_statement op (s : SqlState U) e :
  leave_user_sql (tx_statement op) s e =
    let '(r, s', e') := tx_control op (mkSqlState (user_data s) false (tx_begun s)) e in
    (r, mkSqlState (user_data s') (user_sql_active s) (tx_begun s'), e').
Proof.
  unfold leave_user_sql, with_guard, guard_set, user_guard_drop, set_active, scoped, tx_statement, authorized, bind, modify,
    gets, mret. simpl. by destruct (tx_control op _ e) as [[r s'] e'].
Qed.

Lemma leave_commit (s : SqlState U) e begun : tx_begun s = Some begun ->
  leave_user_sql tx_commit s e =
    match commit_tx (user_data s) with
    | Ok _ => (Ok tt, mkSqlState (user_data s) (user_sql_active s) None, e)
    | Err msg => (Err (SqlError msg), mkSqlState begun (user_sql_active s) None, e)
    end.
Proof.
  destruct s as [u active x]. simpl. intros ->.
  unfold leave_user_sql, with_guard, guard_set, user_guard_drop, set_active, tx_commit, scoped, tx_statement, authorized,
    tx_drop, tx_control, ignore, bind, modify, gets, mret, sql_fail, mfail. simpl.
  by destruct (commit_tx u).
Qed.

Lemma drop_rolls_back (s : SqlState U) e begun : tx_begun s = Some begun -> user_sql_active s = false ->
  tx_drop s e = (Ok tt, mkSqlState begun false None, e).
Proof. destruct s as [u active x]. simpl. by intros -> ->. Qed.

Lemma drop_active (s : SqlState U) e : user_sql_active (tx_drop s e).1.2 = user_sql_active s.
Proof.
  destruct s as [u active [begun|]]; [|done]. unfold tx_drop, tx_statement, authorized, ignore, bind, gets, mret.
  by destruct active.
Qed.

(** A transaction request on a connection in autocommit mode. *)
Lemma sql_transaction_run statements quota (u : U) active e : statements <> [] ->
  execute_transaction statements quota (mkSqlState u active None) e =
    match begin_tx u, statements_effect statements quota u with
    | Err msg, _ => (Err (SqlError msg), mkSqlState u active None, e)
    | Ok _, (Err err, u') =>
        let '(_, s', e') := tx_drop (mkSqlState u' active (Some u)) e in (Err err, s', e')
    | Ok _, (Ok rs, u') =>
        match commit_tx u' with
        | Ok _ => (Ok rs, mkSqlState u' active None, e)
        | Err msg => (Err (SqlError msg), mkSqlState u active None, e)
        end
    end.
Proof.
  intros Hne. unfold execute_transaction. destruct statements as [|st l]; [done|].
  unfold conn_transaction, bind at 1. rewrite leave_statement. unfold tx_control, bind at 1, gets, modify, sql_fail, mfail.
  cbn [tx_begun user_data id]. destruct (begin_tx u); [|done]. simpl fst. simpl snd. unfold bind, scoped_until_moved.
  rewrite mmap_execute_run. cbn [tx_begun user_data user_sql_active].
  destruct (statements_effect (st :: l) quota u) as [[rs|err] u']; [|by destruct (tx_drop _ e) as [[] ?]].
  rewrite (leave_commit _ _ u) by done. cbn [tx_begun user_data user_sql_active].
  by destruct (commit_tx u').
Qed.

(** C31: a transaction request, on a connection without an open transaction,
    is all or nothing. When it succeeds, results and data are those of its
    statements run one after the other, and the transaction is closed. When
    it fails, on a worker thread whose sandbox flag is off, the data is what
    it was and no transaction is left open. It does succeed when every
    statement does and SQLite accepts BEGIN and COMMIT, which the sandbox does
    not refuse even on a thread whose flag is on. The flag is afterwards what
    it was. *)
Theorem transaction_atomic (statements : list SqlRequest) (quota : option QuotaConfig)
    (s : SqlState U) (e : Eff) :
  tx_begun s = None -> statements <> [] ->
  let '(r, s', _) := execute_transaction statements quota s e in
  let '(alone, s_alone, _) := mmap statements (fun st => execute_sql_quota st quota) s e in
  user_sql_active s' = user_sql_active s /\
  (forall rs, r = Ok rs -> alone = Ok rs /\ user_data s' = user_data s_alone /\ tx_begun s' = None) /\
  (forall err, r = Err err -> user_sql_active s = false -> user_data s' = user_data s /\ tx_begun s' = None) /\
  (forall rs, alone = Ok rs -> begin_tx (user_data s) = Ok tt -> commit_tx (user_data s_alone) = Ok tt -> r = Ok rs).
Proof.
  destruct s as [u active begun]. simpl. intros -> Hne. rewrite sql_transaction_run, mmap_execute_run by done. simpl.
  destruct (statements_effect statements quota u) as [[rs|err] u'] eqn:Hs.
  - destruct (begin_tx u) as [[]|]; [destruct (commit_tx u') as [[]|] eqn:Hcommit|]; simpl; split_and!; intros; simplify_eq/=; auto; congruence.
  - destruct (begin_tx u) as [[]|]; [|simpl; split_and!; intros; simplify_eq/=; auto].
    pose proof (drop_active (mkSqlState u' active (Some u)) e) as Ha.
    destruct (tx_drop _ e) as [[d s'] e'] eqn:Hd. simpl in *. split_and!; try done.
    intros ? _ ->. rewrite (drop_rolls_back _ e u) in Hd by done. by simplify_eq.
Qed.

(** C32: a user statement that changes a Cell's data has passed the textual
    gate, and every action the engine compiled it to was allowed by the
    sandbox in force: none attaches a database, controls a transaction or
    reads or writes rows of a table named [__sys..]. *)
Theorem user_sql_sandboxed (req : SqlRequest) (quota : option QuotaConfig) (s : SqlState U) (e : Eff) :
  let s' := (execute_sql_quota req quota s e).1.2 in
  user_data s' = user_data s \/
  check_statement (req_sql req) = Ok tt /\
  exists cols actions, prepare (user_data s) (req_sql req) = Ok (cols, actions) /\
    Forall (fun a => leaves_cell a = false /\
      forall t, table_of a = Some t -> starts_with (as_bytes "__sys") (as_bytes t) = false) actions.
Proof.
  simpl. rewrite execute_sql_run. unfold statement_effect.
  destruct (check_statement (req_sql req)) as [[]|err]; [|by left].
  destruct (to_sql_values (req_params req)) as [values|err]; [|by left].
  destruct (prepare (user_data s) (req_sql req)) as [[cols actions]|msg]; [|by left].
  destruct (forallb (authorize true) actions) eqn:Hall; [|by left].
  right. split; [done|]. exists cols, actions. split; [done|].
  apply Forall_forall. intros a Ha. assert (authorize true a = true) as Hau.
  { rewrite forallb_forall in Hall. apply Hall. by apply list_elem_of_In. }
  split; [by destruct a|].
  intros t Ht. destruct a; simpl in Ht; try discriminate Ht; injection Ht as ->;
    unfold authorize in Hau; cbn [negb] in Hau; by apply negb_true_iff in Hau.
Qed.

End results.

(** An engine whose data is a counter: UPDATE adds one, BAD adds one and
    fails, END asks to commit. *)
Definition counting_engine : SqlEngine nat := {|
  prepare _ sql := Ok ([], if decide (sql = "END"%string) then [Transaction TxCommit] else [AUpdate "t" "n"]);
  run_query u _ _ := (Ok [], u);
  run_execute u sql _ :=
    (if decide (sql = "BAD"%string) then Err "constraint failed"%string else Ok 1, Datatypes.S u);
  begin_tx _ := Ok tt;
  commit_tx _ := Ok tt;
  tx_misuse _ := "transaction state"%string;
  auth_denied := "not authorized"%string;
  u64_as_f64 z := z;
  json_display _ := EmptyString;
  json_size _ := 0%nat;
|}.

Definition counted (l : list string) := (fun sql => mkSqlRequest sql []) <$> l.

(** Two updates and a statement that fails: the counter is as before. *)
Lemma transaction_atomic_witness :
  user_data (execute_transaction (H:=counting_engine) (counted ["UPDATE"; "UPDATE"; "BAD"]%string) None
    (mkSqlState 7%nat false None) eff0).1.2 = 7%nat.
Proof.
  pose proof (transaction_atomic (H:=counting_engine) (counted ["UPDATE"; "UPDATE"; "BAD"]%string) None
    (mkSqlState 7%nat false None) eff0 eq_refl ltac:(discriminate)) as Hatomic.
  destruct (execute_transaction _ _ _ _) as [[[rs|err] s'] e'] eqn:Hrun; [vm_compute in Hrun; discriminate Hrun|].
  destruct (mmap _ _ _ _) as [[alone s_alone] e_alone] in Hatomic. destruct Hatomic as (_ & _ & Herr & _).
  exact (proj1 (Herr err eq_refl eq_refl)).
Defined.

(** A COMMIT in the middle of the user's statements is refused, so what ran
    before it is rolled back with the rest. *)
Example user_commit_refused :
  (execute_transaction (H:=counting_engine) (counted ["UPDATE"; "END"; "BAD"]%string) None
    (mkSqlState 7%nat false None) eff0).1 =
  (Err (SqlError "not authorized"), mkSqlState 7%nat false None).
Proof. vm_compute. reflexivity. Qed.
