(* ===== verification/Cache.v ===== *)
(** crates/data-node/src/cache.rs: the node-wide KV cache. The entries live in
    a [moka] cache, which may drop any entry at any time to stay within its
    capacity; here it is a finite map, and dropping is a step of its own. *)

From Stdlib Require Import ZArith Lia String Ascii.
From stdpp Require Import gmap strings list fin_maps.
From S2P Require Import Prelude Common Kv.

Abbreviation CacheKey := (DatabaseId * string)%type.

Record CachedValue := mkCachedValue { cached_value : string; cached_expires_at : option Z }.

Record KvCache := mkKvCache {
  cache_inner : gmap CacheKey CachedValue;
  cache_hits : Z;
  cache_misses : Z;
}.

Definition KvCache_new : KvCache := mkKvCache ∅ 0 0.

Definition cache_hit (c : KvCache) : KvCache :=
  mkKvCache (cache_inner c) (u64_add (cache_hits c) 1) (cache_misses c).
Definition cache_miss (c : KvCache) : KvCache :=
  mkKvCache (cache_inner c) (cache_hits c) (u64_add (cache_misses c) 1).
Definition cache_remove (k : CacheKey) (c : KvCache) : KvCache :=
  mkKvCache (delete k (cache_inner c)) (cache_hits c) (cache_misses c).

(** [KvCache::get] *)
Definition cache_get (db : DatabaseId) (key : string) (now : Z) (c : KvCache)
    : option KvEntry * KvCache :=
  match cache_inner c !! (db, key) with
  | Some v =>
      if negb (is_expired (cached_expires_at v) now) then
        (Some (mkKvEntry (cached_value v) (ttl_or_remaining (cached_expires_at v) now)), cache_hit c)
      else (None, cache_miss (cache_remove (db, key) c))
  | None => (None, cache_miss c)
  end.

(** [KvCache::put] *)
Definition cache_put (db : DatabaseId) (key value : string) (expires_at : option Z) (c : KvCache)
    : KvCache :=
  mkKvCache (<[(db, key) := mkCachedValue value expires_at]> (cache_inner c))
    (cache_hits c) (cache_misses c).

(** [KvCache::invalidate] *)
Definition cache_invalidate (db : DatabaseId) (key : string) (c : KvCache) : KvCache :=
  cache_remove (db, key) c.

(** [KvCache::clear_database] *)
Definition cache_clear_database (db : DatabaseId) (c : KvCache) : KvCache :=
  let keys := filter (fun k => k.1 = db) (map_to_list (cache_inner c)).*1 in
  foldr cache_remove c keys.

Lemma cache_inner_hit c : cache_inner (cache_hit c) = cache_inner c.
Proof. done. Qed.

Lemma cache_get_inner db key now c :
  cache_inner (cache_get db key now c).2 = cache_inner c \/
  cache_inner (cache_get db key now c).2 = delete (db, key) (cache_inner c).
Proof. unfold cache_get. destruct (_ !! _) as [v|]; [destruct (negb _)|]; auto. Qed.

Lemma cache_get_Some db key now c entry c' :
  cache_get db key now c = (Some entry, c') ->
  exists v, cache_inner c !! (db, key) = Some v /\
    is_expired (cached_expires_at v) now = false /\
    entry = mkKvEntry (cached_value v) (ttl_or_remaining (cached_expires_at v) now) /\
    cache_inner c' = cache_inner c.
Proof.
  unfold cache_get. destruct (_ !! _) as [v|] eqn:Hv; [|done].
  destruct (is_expired _ _) eqn:Hx; simpl; [done|]. intros [= <- <-]. eauto.
Qed.

Lemma foldr_cache_remove ks c k :
  cache_inner (foldr cache_remove c ks) !! k =
  if decide (k ∈ ks) then None else cache_inner c !! k.
Proof.
  induction ks as [|j ks IH]; simpl; [done|]. destruct (decide (j = k)) as [->|Hne].
  - rewrite lookup_delete_eq. by rewrite decide_True by set_solver.
  - rewrite lookup_delete_ne by done. rewrite IH.
    destruct (decide (k ∈ ks)); [by rewrite decide_True by set_solver|].
    by rewrite decide_False by set_solver.
Qed.

(** Clearing a Cell removes its entries and no other. *)
Lemma cache_clear_database_lookup db c k :
  cache_inner (cache_clear_database db c) !! k =
  if decide (k.1 = db) then None else cache_inner c !! k.
Proof.
  unfold cache_clear_database. rewrite foldr_cache_remove.
  destruct (decide (k ∈ _)) as [Hin|Hin].
  - apply list_elem_of_filter in Hin as [<- _]. by rewrite decide_True.
  - destruct (decide (k.1 = db)) as [Hd|]; [|done]. destruct (_ !! k) as [v|] eqn:Hv; [|done].
    exfalso. apply Hin, list_elem_of_filter. split; [done|]. apply list_elem_of_fmap.
    exists (k, v). split; [done|]. by apply elem_of_map_to_list.
Qed.
