(* ===== verification/Manager.v ===== *)
(** crates/data-node: [storage.rs] and [manager.rs], the files of the Cells and
    the connections that are open on them. A Cell's content is what SQLite
    sees through main file and WAL; a system call or statement may fail, as
    the environment's fault oracle says. *)

From Stdlib Require Import ZArith Lia String Ascii.
From stdpp Require Import gmap strings list fin_maps.
From S2P Require Import Prelude Common Kv SqlGate Sql Cache.

(** One Cell: the [__sys_kv] table and the user's own tables. *)
Record CellDb (U : Type) := mkCellDb { cell_kv : KvTable; cell_user : U }.
Arguments mkCellDb {U}.
Arguments cell_kv {U}.
Arguments cell_user {U}.

(** What SQLite and the file system report about a Cell. The length of the
    main file is not determined by the content, which is partly in the WAL: it
    is a reading, made as the n-th call. *)
Class CellFiles (U : Type) := {
  fresh_user : U;
  file_len : nat -> CellDb U -> Z;
  quick_check_result : CellDb U -> string;
}.

(** The data node: disk, connection manager, cache and fencing state. *)
Record Node (U : Type) := mkNode {
  files : gmap DatabaseId (CellDb U);
  manifests : gmap DatabaseId (option Z);
  conns : gmap DatabaseId Z;
  interrupts : gset DatabaseId;
  readonly : gset DatabaseId;
  cache : KvCache;
  generations : gmap DatabaseId Z;
}.
Arguments mkNode {U}.
Arguments files {U}.
Arguments manifests {U}.
Arguments conns {U}.
Arguments interrupts {U}.
Arguments readonly {U}.
Arguments cache {U}.
Arguments generations {U}.

Record DataNodeConfig := mkDataNodeConfig {
  data_dir : string;
  max_active_dbs : nat;
  db_idle_timeout : Z;
  sql_timeout : option string;
  quota : QuotaConfig;
}.

Definition CELL_FORMAT_VERSION : Z := 1.
Definition EMPTY_CELL_BASELINE_BYTES : Z := 32 * 1024.

Section node_updates.
Context {U : Type}.
Implicit Types n : Node U.

Definition set_files (f : gmap DatabaseId (CellDb U) -> gmap DatabaseId (CellDb U)) n : Node U :=
  mkNode (f (files n)) (manifests n) (conns n) (interrupts n) (readonly n) (cache n) (generations n).
Definition set_manifests (f : gmap DatabaseId (option Z) -> gmap DatabaseId (option Z)) n : Node U :=
  mkNode (files n) (f (manifests n)) (conns n) (interrupts n) (readonly n) (cache n) (generations n).
Definition set_conns (f : gmap DatabaseId Z -> gmap DatabaseId Z) n : Node U :=
  mkNode (files n) (manifests n) (f (conns n)) (interrupts n) (readonly n) (cache n) (generations n).
Definition set_interrupts (f : gset DatabaseId -> gset DatabaseId) n : Node U :=
  mkNode (files n) (manifests n) (conns n) (f (interrupts n)) (readonly n) (cache n) (generations n).
Definition set_readonly (f : gset DatabaseId -> gset DatabaseId) n : Node U :=
  mkNode (files n) (manifests n) (conns n) (interrupts n) (f (readonly n)) (cache n) (generations n).
Definition set_cache (f : KvCache -> KvCache) n : Node U :=
  mkNode (files n) (manifests n) (conns n) (interrupts n) (readonly n) (f (cache n)) (generations n).
Definition set_generations (f : gmap DatabaseId Z -> gmap DatabaseId Z) n : Node U :=
  mkNode (files n) (manifests n) (conns n) (interrupts n) (readonly n) (cache n) (f (generations n)).

Definition Node_new : Node U := mkNode ∅ ∅ ∅ ∅ ∅ KvCache_new ∅.

End node_updates.

Section manager.
Context {env : Env} `{UuidText} {U : Type} `{CellFiles U} (cfg : DataNodeConfig).

Abbreviation NodeM := (M (Node U) CombeeError).

(** ** storage.rs *)

Definition db_path (db : DatabaseId) : string :=
  let hex := uuid_to_string (database_uuid db) in
  data_dir cfg +:+ "/" +:+ String.substring 0 2 hex +:+ "/" +:+ hex +:+ ".sqlite".

Definition fresh_cell : CellDb U := mkCellDb ∅ fresh_user.

(** The content of a Cell; a Cell that was never opened is empty. *)
Definition cell_of (db : DatabaseId) (n : Node U) : CellDb U := default fresh_cell (files n !! db).

(** The main file alone, without WAL and shared memory. *)
Definition storage_bytes (db : DatabaseId) : NodeM Z :=
  let! call := next_call in
  gets (fun n =>
    let main := match files n !! db with Some c => file_len call c | None => 0 end in
    u64_saturating_sub main EMPTY_CELL_BASELINE_BYTES).

(** The manifest holds [None] when it has no [format_version] number. *)
Definition check_format_version (db : DatabaseId) : NodeM unit :=
  let! m := gets (fun n => manifests n !! db) in
  match m with
  | Some (Some v) =>
      if CELL_FORMAT_VERSION <? v then
        mfail (Internal ("cell " +:+ DatabaseId_to_string db +:+ " uses format_version " +:+
          i64_to_string v +:+ ", this binary supports up to " +:+
          i64_to_string CELL_FORMAT_VERSION +:+ "; upgrade required"))
      else mret tt
  | _ => mret tt
  end.

Definition write_manifest (db : DatabaseId) : NodeM unit :=
  let! _now := read_clock in
  do! fallible (fun m => Internal ("write manifest " +:+ db_path db +:+ ".manifest.json: " +:+ m)) in
  modify (set_manifests <[db := Some 1]>).

(** [res.trim() == "ok"] *)
Definition trims_to_ok (s : string) : bool :=
  bool_decide (trim (as_bytes s) = as_bytes "ok").

Definition quick_check (db : DatabaseId) : NodeM unit :=
  do! fallible SqlError in
  let! res := gets (fun n => quick_check_result (cell_of db n)) in
  if trims_to_ok res then mret tt
  else mfail (Internal ("cell integrity check failed: " +:+ res)).

(** CREATE TABLE IF NOT EXISTS for the internal tables, and the version row. *)
Definition init_schema : NodeM unit :=
  do! fallible SqlError in do! fallible SqlError in
  do! fallible SqlError in fallible SqlError.

(** [storage::open]: creates directory and file when missing, sets busy
    timeout, journal mode, synchronous and foreign keys, the schema, and
    checks integrity. *)
Definition open_ (db : DatabaseId) : NodeM unit :=
  do! fallible (fun m => Internal ("create data dir: " +:+ m)) in
  do! fallible SqlError in
  do! modify (fun n => set_files <[db := cell_of db n]> n) in
  do! fallible SqlError in do! fallible SqlError in
  do! fallible SqlError in do! fallible SqlError in
  do! init_schema in
  quick_check db.

(** Moves the WAL into the main file: the content stays the same. *)
Definition checkpoint : NodeM unit := fallible SqlError.

(** Removes the main file, when it exists, then each side file; a side file
    that does not exist is skipped, which is not a fault. *)
Definition remove_file_set (err : string -> CombeeError) (db : DatabaseId) (side : list string)
    : NodeM unit :=
  let! found := gets (fun n => files n !! db) in
  do! (match found with
       | Some _ => do! fallible err in modify (set_files (delete db))
       | None => mret tt
       end) in
  mfor side (fun _ => fallible err).

Definition remove_files (db : DatabaseId) : NodeM unit :=
  remove_file_set (fun m => Internal ("remove " +:+ db_path db +:+ ": " +:+ m)) db ["-wal"; "-shm"]%string.

(** ** manager.rs *)

Definition max_active : nat := max (max_active_dbs cfg) 1.

(** [iter().min_by_key(last_used)]; which of several oldest entries comes
    first is the map's business. *)
Fixpoint min_by_last_used (l : list (DatabaseId * Z)) : option (DatabaseId * Z) :=
  match l with
  | [] => None
  | x :: l' =>
      match min_by_last_used l' with
      | Some y => if y.2 <? x.2 then Some y else Some x
      | None => Some x
      end
  end.

Definition evict_lru : NodeM unit :=
  let! victim := gets (fun n => min_by_last_used (map_to_list (conns n))) in
  match victim with
  | Some (id, _) =>
      do! modify (set_conns (delete id)) in
      ignore checkpoint
  | None => mret tt
  end.

Definition mark_readonly (db : DatabaseId) : NodeM unit :=
  modify (set_readonly (fun s => {[db]} ∪ s)).

Definition is_readonly (db : DatabaseId) (n : Node U) : bool := bool_decide (db ∈ readonly n).

(** The branch of [with_conn] for a Cell without an open connection. *)
Definition activate (db : DatabaseId) (now : Z) : NodeM unit :=
  let! count := gets (fun n => size (conns n)) in
  do! (if (max_active <=? count)%nat then evict_lru else mret tt) in
  let! opened := attempt (open_ db) in
  match opened with
  | Err e => do! mark_readonly db in mfail e
  | Ok _ =>
      do! check_format_version db in
      do! modify (set_interrupts (fun s => {[db]} ∪ s)) in
      do! ignore (write_manifest db) in
      modify (set_conns <[db := now]>)
  end.

(** [with_conn], from the moment the per-Cell lock and the connection table
    are held: the closure runs on the open connection, which is then marked
    as just used whatever the closure returned. *)
Definition with_conn {A} (db : DatabaseId) (f : NodeM A) : NodeM A :=
  let! now := read_instant in
  let! entry := gets (fun n => conns n !! db) in
  do! (match entry with Some _ => mret tt | None => activate db now end) in
  let! result := attempt f in
  let! used := read_instant in
  do! modify (set_conns <[db := used]>) in
  mlift result.

(** Runs KV statements on the Cell's table. *)
Definition on_kv {A} (db : DatabaseId) (m : M KvTable CombeeError A) : NodeM A :=
  zoom (fun n => cell_kv (cell_of db n))
    (fun t n => set_files <[db := mkCellDb t (cell_user (cell_of db n))]> n) m.

(** Runs user SQL on the Cell's own tables; the worker thread's flag is off
    when a request starts, and no transaction is open on the connection: each
    request closes its own, which [SqlSpec] proves. *)
Definition on_sql {A} (db : DatabaseId) (m : M (SqlState U) CombeeError A) : NodeM A :=
  zoom (fun n => mkSqlState (cell_user (cell_of db n)) false None)
    (fun s n => set_files <[db := mkCellDb (cell_kv (cell_of db n)) (user_data s)]> n) m.

Definition drop_conn (db : DatabaseId) : NodeM unit :=
  let! entry := gets (fun n => conns n !! db) in
  match entry with
  | Some _ => do! modify (set_conns (delete db)) in ignore checkpoint
  | None => mret tt
  end.

Definition close_database (db : DatabaseId) : NodeM unit := drop_conn db.

Definition manager_delete_database (db : DatabaseId) : NodeM unit :=
  do! drop_conn db in remove_files db.

Definition active_databases (n : Node U) : list DatabaseId := (map_to_list (conns n)).*1.

Definition close_all : NodeM unit :=
  let! ids := gets active_databases in
  do! modify (set_conns (fun _ => ∅)) in
  mfor ids (fun _ => ignore checkpoint).

(** One tick of [spawn_maintenance]: idle connections go to sleep, the others
    have expired keys collected. *)
Definition maintenance_tick : NodeM unit :=
  let! now := read_instant in
  let! idle := gets (fun n =>
    (filter (fun e => db_idle_timeout cfg < now - e.2) (map_to_list (conns n))).*1) in
  do! mfor idle (fun id => drop_conn id) in
  let! active := gets active_databases in
  mfor active (fun id => ignore (on_kv id (gc_expired 1000))).

End manager.
