(* ===== verification/DataNode.v ===== *)
(** crates/data-node/src/lib.rs: the operations of the data node. Each runs
    its critical section on the Cell's connection ([Manager.with_conn]) after
    the checks of generation, read-only protection and quotas; reads look in
    the cache first, without a lock. *)

From Stdlib Require Import ZArith Lia String Ascii.
From stdpp Require Import gmap strings list fin_maps.
From S2P Require Import Prelude Common Kv SqlGate Sql Cache Manager.

Definition nat_to_string (n : nat) : string := i64_to_string (Z.of_nat n).

Section datanode.
Context {env : Env} `{UuidText} {U : Type} `{CellFiles U} `{SqlEngine U} (cfg : DataNodeConfig).

Abbreviation NodeM := (M (Node U) CombeeError).

Definition node_now : NodeM Z := read_clock.

(** ** Checks before a write *)

Definition fence_cell (db : DatabaseId) (generation : Z) : NodeM unit :=
  modify (set_generations <[db := generation]>).

Definition check_generation (db : DatabaseId) (generation : Z) : NodeM unit :=
  let! cur := gets (fun n => default 0 (generations n !! db)) in
  if decide (generation <> cur) then
    mfail (Forbidden ("cell " +:+ DatabaseId_to_string db +:+ " fenced: write generation " +:+
      i64_to_string generation +:+ " != current " +:+ i64_to_string cur))
  else mret tt.

Definition check_writable (db : DatabaseId) : NodeM unit :=
  let! ro := gets (is_readonly db) in
  if ro then
    mfail (Internal ("cell " +:+ DatabaseId_to_string db +:+
      " is read-only (integrity check failed); contact operator to restore from backup"))
  else mret tt.

Definition check_ttl (ttl_seconds : option Z) : NodeM unit :=
  let max := max_ttl_seconds (quota cfg) in
  match ttl_seconds with
  | Some ttl =>
      if (0 <? max) && (max <? ttl) then
        mfail (QuotaExceeded ("ttl too large: " +:+ i64_to_string ttl +:+ "s (max " +:+
          i64_to_string max +:+ "s)"))
      else mret tt
  | None => mret tt
  end.

Definition check_kv_size (key value : string) : NodeM unit :=
  let q := quota cfg in
  if (0 <? max_kv_key_bytes q)%nat && (max_kv_key_bytes q <? String.length key)%nat then
    mfail (QuotaExceeded ("kv key too large: " +:+ nat_to_string (String.length key) +:+
      " bytes (max " +:+ nat_to_string (max_kv_key_bytes q) +:+ ")"))
  else if (0 <? max_kv_value_bytes q)%nat && (max_kv_value_bytes q <? String.length value)%nat then
    mfail (QuotaExceeded ("kv value too large: " +:+ nat_to_string (String.length value) +:+
      " bytes (max " +:+ nat_to_string (max_kv_value_bytes q) +:+ ")"))
  else mret tt.

(** The hard limit refuses; the soft limit only logs. *)
Definition check_storage (db : DatabaseId) (value : string) : NodeM unit :=
  let q := quota cfg in
  do! (if 0 <? storage_hard_bytes q then
         let! current := storage_bytes db in
         let projected := u64_saturating_add current (Z.of_nat (String.length value)) in
         if storage_hard_bytes q <? projected then
           mfail (QuotaExceeded ("storage hard limit exceeded: " +:+ i64_to_string projected +:+
             " bytes (max " +:+ i64_to_string (storage_hard_bytes q) +:+ ")"))
         else mret tt
       else mret tt) in
  if 0 <? storage_soft_bytes q then let! _current := storage_bytes db in mret tt else mret tt.

(** ** SQL *)

(** [tokio::time::timeout]: the blocking task runs on, the caller gets an
    error; whether the timer fires first is the environment's choice. *)
Definition timeout_sql {A} (fut : NodeM A) : NodeM A :=
  match sql_timeout cfg with
  | Some d =>
      let! r := attempt fut in
      do! fallible (fun _ => SqlError ("query timed out after " +:+ d +:+ " (interrupted)")) in
      mlift r
  | None => fut
  end.

Definition node_execute_sql (db : DatabaseId) (req : SqlRequest) (generation : Z) : NodeM SqlResult :=
  do! check_generation db generation in
  do! check_writable db in
  timeout_sql (with_conn cfg db (on_sql db (execute_sql_quota req (Some (quota cfg))))).

Definition node_execute_transaction (db : DatabaseId) (statements : list SqlRequest)
    (generation : Z) : NodeM (list SqlResult) :=
  do! check_generation db generation in
  do! check_writable db in
  timeout_sql (with_conn cfg db (on_sql db (execute_transaction statements (Some (quota cfg))))).

(** ** KV *)

Definition kv_scan (db : DatabaseId) (prefix : string) (limit : Z) (cursor : string)
    : NodeM RpcKvScanResult :=
  with_conn cfg db (on_kv db (scan prefix limit cursor)).

(** The lock-free look-up of the fast path. *)
Definition cache_lookup (db : DatabaseId) (key : string) (now : Z) : NodeM (option KvEntry) :=
  fun n e => let '(r, c) := cache_get db key now (cache n) in (Ok r, set_cache (fun _ => c) n, e).

Definition fill_cache (db : DatabaseId) (key value : string) (expires_at : option Z) : NodeM unit :=
  modify (set_cache (cache_put db key value expires_at)).

Definition drop_cached (db : DatabaseId) (key : string) : NodeM unit :=
  modify (set_cache (cache_invalidate db key)).

Definition kv_get (db : DatabaseId) (key : string) : NodeM (option KvEntry) :=
  let! now := node_now in
  let! hit := cache_lookup db key now in
  match hit with
  | Some entry => mret (Some entry)
  | None =>
      with_conn cfg db (
        let! now := node_now in
        let! row := on_kv db (read_with_expiry key) in
        match row with
        | Some (value, expires_at) =>
            do! fill_cache db key value expires_at in
            mret (Some (mkKvEntry value (ttl_or_remaining expires_at now)))
        | None => mret None
        end)
  end.

(** The critical section of SET: SQLite first, then the cache, whose expiry
    time is computed from a clock reading of its own. *)
Definition set_and_cache (db : DatabaseId) (key value : string) (ttl_seconds : option Z)
    (nx xx : bool) : NodeM bool :=
  let! written := on_kv db (set key value ttl_seconds nx xx) in
  do! (if written : bool then
         let! now := node_now in
         fill_cache db key value (expires_at_from ttl_seconds now)
       else mret tt) in
  mret written.

Definition kv_set (db : DatabaseId) (key value : string) (ttl_seconds : option Z) (nx xx : bool)
    (generation : Z) : NodeM bool :=
  do! check_generation db generation in
  do! check_writable db in
  do! check_ttl ttl_seconds in
  do! check_kv_size key value in
  do! check_storage db value in
  with_conn cfg db (set_and_cache db key value ttl_seconds nx xx).

Definition kv_del (db : DatabaseId) (key : string) (generation : Z) : NodeM bool :=
  do! check_generation db generation in
  do! check_writable db in
  with_conn cfg db (
    let! deleted := on_kv db (del key) in
    do! (if deleted : bool then drop_cached db key else mret tt) in
    mret deleted).

Definition kv_exists (db : DatabaseId) (key : string) : NodeM bool :=
  let! now := node_now in
  let! hit := cache_lookup db key now in
  match hit with
  | Some _ => mret true
  | None => with_conn cfg db (on_kv db (exists_ key))
  end.

(** MGET: the cache first, then the misses under the lock, each filled in at
    its own position. *)
Definition mget_miss (db : DatabaseId) (key : string) (found : option string)
    : NodeM (option string) :=
  match found with
  | Some v => mret (Some v)
  | None =>
      let! row := on_kv db (read_with_expiry key) in
      match row with
      | Some (value, expires_at) => do! fill_cache db key value expires_at in mret (Some value)
      | None => mret None
      end
  end.

Definition kv_mget (db : DatabaseId) (keys : list string) : NodeM (list (option string)) :=
  let! now := node_now in
  let! out := mmap keys (fun k =>
    let! hit := cache_lookup db k now in mret (entry_value <$> hit)) in
  if forallb (fun o : option string => match o with Some _ => true | None => false end) out
  then mret out
  else with_conn cfg db (mmap (zip keys out) (fun ko => mget_miss db ko.1 ko.2)).

Definition kv_mset (db : DatabaseId) (items : list KvSetItem) (generation : Z) : NodeM unit :=
  do! check_generation db generation in
  do! check_writable db in
  do! mfor items (fun it =>
        do! check_kv_size (item_key it) (item_value it) in check_ttl (item_ttl_seconds it)) in
  with_conn cfg db (mfor items (fun it =>
    do! set_and_cache db (item_key it) (item_value it) (item_ttl_seconds it) false false in
    mret tt)).

Definition kv_ttl (db : DatabaseId) (key : string) : NodeM (option Z) :=
  let! now := node_now in
  let! hit := cache_lookup db key now in
  match hit with
  | Some entry => mret (entry_ttl_seconds entry)
  | None => with_conn cfg db (on_kv db (ttl key))
  end.

Definition kv_expire (db : DatabaseId) (key : string) (ttl_seconds : option Z) (generation : Z)
    : NodeM bool :=
  do! check_generation db generation in
  do! check_ttl ttl_seconds in
  do! check_writable db in
  with_conn cfg db (
    let! updated := on_kv db (expire key ttl_seconds) in
    do! (if updated : bool then drop_cached db key else mret tt) in
    mret updated).

Definition kv_incr (db : DatabaseId) (key : string) (delta : Z) (ttl_seconds : option Z)
    (generation : Z) : NodeM Z :=
  do! check_generation db generation in
  do! check_ttl ttl_seconds in
  do! check_writable db in
  with_conn cfg db (
    let! value := on_kv db (incr key delta ttl_seconds) in
    do! drop_cached db key in
    mret value).

(** ** Lifecycle *)

(** The closure of [ensure_database]: SELECT 1. *)
Definition ensure_database (db : DatabaseId) : NodeM unit :=
  with_conn cfg db (fallible SqlError).

Definition clear_cache (db : DatabaseId) : NodeM unit :=
  modify (set_cache (cache_clear_database db)).

(** [reset_database]: closes the connection, clears the cache, removes main
    file, WAL, shared memory and journal. *)
Definition reset_database (db : DatabaseId) : NodeM unit :=
  do! close_database db in
  do! clear_cache db in
  remove_file_set (fun m => Internal ("reset remove file failed: " +:+ m)) db
    ["-wal"; "-shm"; "-journal"]%string.

Definition node_delete_database (db : DatabaseId) : NodeM unit :=
  do! manager_delete_database cfg db in
  clear_cache db.

End datanode.
