(* ===== verification/NodeInv.v ===== *)
(** Invariants of the data node: what the connection manager keeps, and the
    lemmas that carry an invariant through every node operation. *)

From Stdlib Require Import ZArith Lia String Ascii.
From stdpp Require Import gmap strings list fin_maps.
From S2P Require Import Prelude Common Kv KvSpec SqlGate Sql Cache Manager DataNode.

(** ** Requests as data *)

Inductive NodeOp :=
| NGet (db : DatabaseId) (key : string)
| NSet (db : DatabaseId) (key value : string) (ttl : option Z) (nx xx : bool) (generation : Z)
| NDel (db : DatabaseId) (key : string) (generation : Z)
| NExists (db : DatabaseId) (key : string)
| NMget (db : DatabaseId) (keys : list string)
| NMset (db : DatabaseId) (items : list KvSetItem) (generation : Z)
| NTtl (db : DatabaseId) (key : string)
| NExpire (db : DatabaseId) (key : string) (ttl : option Z) (generation : Z)
| NIncr (db : DatabaseId) (key : string) (delta : Z) (ttl : option Z) (generation : Z)
| NScan (db : DatabaseId) (prefix : string) (limit : Z) (cursor : string)
| NSql (db : DatabaseId) (req : SqlRequest) (generation : Z)
| NTx (db : DatabaseId) (statements : list SqlRequest) (generation : Z)
| NEnsure (db : DatabaseId)
| NReset (db : DatabaseId)
| NDelete (db : DatabaseId)
| NFence (db : DatabaseId) (generation : Z)
(** a read that has looked in the cache and not yet taken the lock *)
| NLookup (db : DatabaseId) (key : string)
(** background work, and moka dropping an entry *)
| NMaintenance
| NShutdown
| NEvict (k : CacheKey).

Definition op_db (op : NodeOp) : option DatabaseId :=
  match op with
  | NGet db _ | NSet db _ _ _ _ _ _ | NDel db _ _ | NExists db _ | NMget db _ | NMset db _ _
  | NTtl db _ | NExpire db _ _ _ | NIncr db _ _ _ _ | NScan db _ _ _ | NSql db _ _ | NTx db _ _
  | NEnsure db | NReset db | NDelete db | NFence db _ | NLookup db _ => Some db
  | NMaintenance | NShutdown | NEvict _ => None
  end.

(** The generation a write carries. *)
Definition op_generation (op : NodeOp) : option Z :=
  match op with
  | NSet _ _ _ _ _ _ g | NDel _ _ g | NMset _ _ g | NExpire _ _ _ g | NIncr _ _ _ _ g
  | NSql _ _ g | NTx _ _ g => Some g
  | _ => None
  end.

Section node.
Context {env : Env} `{UuidText} {U : Type} `{CellFiles U} `{SqlEngine U} (cfg : DataNodeConfig).

Abbreviation NodeM := (M (Node U) CombeeError).

Definition discard {A} (m : NodeM A) : NodeM unit := let! _ := m in mret tt.

Definition run_node (op : NodeOp) : NodeM unit :=
  match op with
  | NGet db k => discard (kv_get cfg db k)
  | NSet db k v ttl nx xx g => discard (kv_set cfg db k v ttl nx xx g)
  | NDel db k g => discard (kv_del cfg db k g)
  | NExists db k => discard (kv_exists cfg db k)
  | NMget db ks => discard (kv_mget cfg db ks)
  | NMset db items g => kv_mset cfg db items g
  | NTtl db k => discard (kv_ttl cfg db k)
  | NExpire db k ttl g => discard (kv_expire cfg db k ttl g)
  | NIncr db k d ttl g => discard (kv_incr cfg db k d ttl g)
  | NScan db p l c => discard (kv_scan cfg db p l c)
  | NSql db req g => discard (node_execute_sql cfg db req g)
  | NTx db sts g => discard (node_execute_transaction cfg db sts g)
  | NEnsure db => ensure_database cfg db
  | NReset db => reset_database db
  | NDelete db => node_delete_database cfg db
  | NFence db g => fence_cell db g
  | NLookup db k => let! now := node_now in discard (cache_lookup db k now)
  | NMaintenance => maintenance_tick cfg
  | NShutdown => close_all
  | NEvict k => modify (set_cache (cache_remove k))
  end.

(** ** Invariants the manager cannot break *)

(** Closed under what opening, closing and checking do to the node, and under
    the passing of time. *)
Record closed (I : Node U -> Eff -> Prop) : Prop := {
  closed_clock : forall n e, I n e -> I n (bump_clock e);
  closed_instant : forall n e, I n e -> I n (bump_instant e);
  closed_call : forall n e, I n e -> I n (bump_call e);
  closed_conns : forall f n e, I n e -> I (set_conns f n) e;
  closed_manifests : forall f n e, I n e -> I (set_manifests f n) e;
  closed_interrupts : forall f n e, I n e -> I (set_interrupts f n) e;
  closed_readonly : forall db n e, I n e -> I (set_readonly (fun s => {[db]} ∪ s) n) e;
  closed_open : forall db n e, I n e -> I (set_files <[db := cell_of db n]> n) e;
}.

Section closed.
Context {I : Node U -> Eff -> Prop} (HI : closed I).

Lemma pres_clock : preserves I (read_clock (E:=CombeeError)).
Proof. intros n e Hn. by apply (closed_clock I HI). Qed.

Lemma pres_instant : preserves I (read_instant (E:=CombeeError)).
Proof. intros n e Hn. by apply (closed_instant I HI). Qed.

Lemma pres_fallible (err : string -> CombeeError) : preserves I (fallible err).
Proof.
  intros n e Hn. unfold fallible. destruct (fault _); by apply (closed_call I HI).
Qed.

Lemma pres_next_call : preserves I (next_call (E:=CombeeError)).
Proof. intros n e Hn. by apply (closed_call I HI). Qed.

Lemma pres_set_conns f : preserves I (modify (E:=CombeeError) (set_conns f)).
Proof. intros n e Hn. by apply (closed_conns I HI). Qed.

#[local] Hint Resolve pres_clock pres_instant pres_fallible pres_next_call pres_set_conns : combee.

Lemma pres_node_now : preserves I node_now.
Proof. apply pres_clock. Qed.

Lemma pres_checkpoint : preserves I checkpoint.
Proof. apply pres_fallible. Qed.

#[local] Hint Resolve pres_checkpoint pres_node_now : combee.

Lemma pres_write_manifest db : preserves I (write_manifest cfg db).
Proof.
  unfold write_manifest. pres. intros n e Hn. by apply (closed_manifests I HI).
Qed.

Lemma pres_open db : preserves I (open_ db).
Proof.
  unfold open_, init_schema, quick_check. pres.
  intros n e Hn. by apply (closed_open I HI).
Qed.

Lemma pres_mark_readonly db : preserves I (mark_readonly db).
Proof. intros n e Hn. by apply (closed_readonly I HI). Qed.

Lemma pres_evict_lru : preserves I evict_lru.
Proof. unfold evict_lru. pres. Qed.

Lemma pres_drop_conn db : preserves I (drop_conn db).
Proof. unfold drop_conn. pres. Qed.

#[local] Hint Resolve pres_write_manifest pres_open pres_mark_readonly pres_evict_lru
  pres_drop_conn : combee.

Lemma pres_activate db now : preserves I (activate cfg db now).
Proof.
  unfold activate, check_format_version. pres.
  intros n e Hn. by apply (closed_interrupts I HI).
Qed.

(** The closure of [with_conn] decides alone. *)
Lemma pres_with_conn {A} db (f : NodeM A) : preserves I f -> preserves I (with_conn cfg db f).
Proof. intros Hf. unfold with_conn. pres. by apply pres_activate. Qed.

Lemma pres_check_generation db g : preserves I (check_generation db g).
Proof. unfold check_generation. pres. Qed.
Lemma pres_check_writable db : preserves I (check_writable db).
Proof. unfold check_writable. pres. Qed.
Lemma pres_check_ttl ttl : preserves I (check_ttl cfg ttl).
Proof. unfold check_ttl. pres. Qed.
Lemma pres_check_kv_size k v : preserves I (check_kv_size cfg k v).
Proof. unfold check_kv_size. pres. Qed.
Lemma pres_check_storage db v : preserves I (check_storage cfg db v).
Proof. unfold check_storage, storage_bytes. pres. Qed.

Lemma pres_timeout {A} (m : NodeM A) : preserves I m -> preserves I (timeout_sql cfg m).
Proof. intros Hm. unfold timeout_sql. pres. Qed.

Lemma pres_discard {A} (m : NodeM A) : preserves I m -> preserves I (discard m).
Proof. intros Hm. unfold discard. pres. Qed.

Lemma pres_ensure db : preserves I (ensure_database cfg db).
Proof. apply pres_with_conn, pres_fallible. Qed.

Lemma pres_close_all : preserves I close_all.
Proof. unfold close_all. pres. Qed.

End closed.

End node.

#[export] Hint Resolve pres_clock pres_instant pres_fallible pres_next_call pres_node_now pres_checkpoint
  pres_drop_conn pres_with_conn pres_check_generation pres_check_writable pres_check_ttl
  pres_check_kv_size pres_check_storage pres_timeout pres_discard pres_ensure pres_close_all
  pres_set_conns : combee.
