(* ===== verification/NodeCapacity.v ===== *)
(** The connection table of the data node: it never holds more than
    [max_active] connections, and what it evicts is the least recently used. *)

From Stdlib Require Import ZArith Lia String Ascii.
From stdpp Require Import gmap strings list fin_maps relations.
From S2P Require Import Prelude Common Kv KvSpec SqlGate Sql Cache Manager DataNode NodeInv.

Section steps.
Context {env : Env} `{UuidText} {U : Type} `{CellFiles U} `{SqlEngine U} (cfg : DataNodeConfig).

(** The life of a node: operations, one after the other, in any order, with
    any outcome. *)
Inductive node_step : Node U * Eff -> Node U * Eff -> Prop :=
| node_step_op op n e r n' e' :
    run_node cfg op n e = (r, n', e') -> node_step (n, e) (n', e').

Definition reachable (n : Node U) (e : Eff) : Prop := rtc node_step (Node_new, eff0) (n, e).

(** Rule induction, once: an invariant every operation preserves. *)
Lemma reachable_invariant (I : Node U -> Eff -> Prop) n e :
  I Node_new eff0 -> (forall op, preserves I (run_node cfg op)) -> reachable n e -> I n e.
Proof.
  intros Hinit Hop. unfold reachable.
  assert (forall p q, rtc node_step p q -> I p.1 p.2 -> I q.1 q.2) as Hind.
  { intros p q Hrtc. induction Hrtc as [|p q r Hstep _ IH]; [done|].
    intros Hp. apply IH. destruct Hstep as [op n0 e0 r0 n1 e1 Hrun]. simpl in *.
    exact (hoare_run _ _ _ _ _ _ _ _ (Hop op) Hp Hrun). }
  intros Hr. exact (Hind _ _ Hr Hinit).
Qed.

End steps.

Section capacity.
Context {env : Env} `{UuidText} {U : Type} `{CellFiles U} `{SqlEngine U} (cfg : DataNodeConfig).

Abbreviation NodeM := (M (Node U) CombeeError).

Definition within_capacity (n : Node U) (_ : Eff) : Prop := (size (conns n) <= max_active cfg)%nat.

(** A computation that leaves the connection table alone. *)
Definition keeps_conns {A} (m : NodeM A) : Prop := forall c, preserves (fun n _ => conns n = c) m.

Lemma keeps_bind {A B} (m : NodeM A) (k : A -> NodeM B) :
  keeps_conns m -> (forall a, keeps_conns (k a)) -> keeps_conns (bind m k).
Proof. intros Hm Hk c. apply preserves_bind; [apply Hm|]. intros a. apply Hk. Qed.

Lemma keeps_clock : keeps_conns (read_clock (E:=CombeeError)).
Proof. by intros c n e Hn. Qed.
Lemma keeps_next_call : keeps_conns (next_call (E:=CombeeError)).
Proof. by intros n e. Qed.

Lemma keeps_fallible err : keeps_conns (fallible (E:=CombeeError) err).
Proof. intros c n e Hn. unfold fallible. by destruct (fault _). Qed.
Lemma keeps_on_kv {A} db (m : M KvTable CombeeError A) : keeps_conns (on_kv db m).
Proof. intros c n e Hn. unfold on_kv, zoom. by destruct (m _ _) as [[r t] e1]. Qed.
Lemma keeps_on_sql {A} db (m : M (SqlState U) CombeeError A) : keeps_conns (on_sql db m).
Proof. intros c n e Hn. unfold on_sql, zoom. by destruct (m _ _) as [[r t] e1]. Qed.
Lemma keeps_cache f : keeps_conns (modify (E:=CombeeError) (set_cache f)).
Proof. by intros c n e Hn. Qed.
Lemma keeps_files f : keeps_conns (modify (E:=CombeeError) (set_files f)).
Proof. by intros c n e Hn. Qed.
Lemma keeps_lookup db k now : keeps_conns (cache_lookup db k now).
Proof. intros c n e Hn. unfold cache_lookup. by destruct (cache_get _ _ _ _). Qed.

Lemma keeps_capacity {A} (m : NodeM A) : keeps_conns m -> preserves within_capacity m.
Proof.
  intros Hm n e Hn. specialize (Hm (conns n) n e eq_refl).
  destruct (m n e) as [[r n1] e1]. unfold within_capacity in *. by rewrite Hm.
Qed.

(** Splits a goal about the connection table along the computation. *)
Ltac keeps := repeat first
  [ apply keeps_bind; [|intros ?]
  | apply keeps_clock | apply keeps_fallible | apply keeps_on_kv | apply keeps_on_sql
  | apply keeps_cache | apply keeps_files | apply keeps_lookup
  | match goal with |- keeps_conns (match ?x with _ => _ end) => destruct x end
  | intros ?c; by eauto with combee ].

Lemma keeps_mfor {A} (l : list A) body : (forall x, keeps_conns (body x)) -> keeps_conns (mfor l body).
Proof. intros Hb c. apply preserves_mfor. intros x. apply Hb. Qed.
Lemma keeps_mmap {A B} (l : list A) (body : A -> NodeM B) :
  (forall x, keeps_conns (body x)) -> keeps_conns (mmap l body).
Proof. intros Hb c. apply preserves_mmap. intros x. apply Hb. Qed.
Lemma keeps_set_and_cache db k v ttl nx xx : keeps_conns (set_and_cache db k v ttl nx xx).
Proof. unfold set_and_cache, node_now, fill_cache. keeps. Qed.

Lemma min_by_last_used_spec l :
  match min_by_last_used l with
  | None => l = []
  | Some x => x ∈ l /\ Forall (fun y => x.2 <= y.2) l
  end.
Proof.
  induction l as [|x l IH]; simpl; [done|]. destruct (min_by_last_used l) as [y|].
  - destruct IH as [Hin Hall]. destruct (Z.ltb_spec y.2 x.2).
    + split; [set_solver|]. constructor; [lia|done].
    + split; [set_solver|]. constructor; [lia|]. eapply Forall_impl; [exact Hall|]. simpl. lia.
  - subst. split; [set_solver|]. by repeat constructor.
Qed.

(** Eviction closes exactly one connection, one that no other was used
    before, and changes nothing else of the node. *)
Theorem evict_lru_least_recent (n : Node U) (e : Eff) :
  conns n <> ∅ ->
  exists id last, conns n !! id = Some last /\
    (forall id' t, conns n !! id' = Some t -> last <= t) /\
    evict_lru n e = (Ok tt, set_conns (delete id) n, bump_call e).
Proof.
  intros Hne. pose proof (min_by_last_used_spec (map_to_list (conns n))) as Hmin.
  unfold evict_lru, bind, gets. destruct (min_by_last_used _) as [[id last]|].
  - destruct Hmin as [Hin Hall]. apply elem_of_map_to_list in Hin.
    exists id, last. split; [done|]. split.
    + intros id' t Ht. apply elem_of_map_to_list in Ht. rewrite Forall_forall in Hall.
      exact (Hall _ Ht).
    + unfold modify, ignore, checkpoint, fallible. by destruct (fault _).
  - by apply map_to_list_empty_iff in Hmin.
Qed.

(** Room is made before a connection is added. *)
Lemma evict_makes_room n e : within_capacity n e ->
  let '(r, n', _) := (if (max_active cfg <=? size (conns n))%nat then evict_lru else mret tt) n e in
  (size (conns n') < max_active cfg)%nat.
Proof.
  intros Hcap. destruct (Nat.leb_spec (max_active cfg) (size (conns n))) as [Hle|]; [|done].
  pose proof (min_by_last_used_spec (map_to_list (conns n))) as Hmin.
  unfold evict_lru, bind, gets. unfold within_capacity in Hcap.
  assert (0 < max_active cfg)%nat by (unfold max_active; lia).
  destruct (min_by_last_used _) as [[id last]|].
  - destruct Hmin as [Hin _]. apply elem_of_map_to_list in Hin.
    unfold modify, ignore, checkpoint, fallible.
    assert (size (delete id (conns n)) < max_active cfg)%nat.
    { rewrite map_size_delete_Some by (by eexists). lia. }
    by destruct (fault _).
  - apply map_to_list_empty_iff in Hmin. rewrite Hmin, map_size_empty in Hle. lia.
Qed.

Lemma size_insert_le (m : gmap DatabaseId Z) db t : (size (<[db := t]> m) <= S (size m))%nat.
Proof. rewrite map_size_insert. destruct (m !! db); simpl; lia. Qed.

(** Activation either fails, within capacity, or leaves the Cell connected. *)
Lemma activate_capacity db now n e : within_capacity n e ->
  let '(r, n', e') := activate cfg db now n e in
  within_capacity n' e' /\ (is_Ok r = true -> is_Some (conns n' !! db)).
Proof.
  intros Hcap. unfold activate. unfold bind at 1. unfold gets at 1.
  pose proof (evict_makes_room n e Hcap) as Hroom. unfold bind at 1.
  destruct ((if (max_active cfg <=? size (conns n))%nat then evict_lru else mret tt) n e)
    as [[[[]|err] n1] e1].
  2:{ unfold within_capacity. split; [lia|done]. }
  unfold bind at 1, attempt.
  assert (keeps_conns (open_ db)) as Hopen.
  { unfold open_, init_schema, quick_check. keeps; by intros c n0 e0 Hn0. }
  specialize (Hopen (conns n1) n1 e1 eq_refl).
  destruct (open_ db n1 e1) as [[[[]|err] n2] e2]; simpl.
  - assert (keeps_conns (check_format_version db)) as Hfmt by (unfold check_format_version; keeps).
    specialize (Hfmt (conns n2) n2 e2 eq_refl). unfold bind at 1.
    destruct (check_format_version db n2 e2) as [[[[]|err] n3] e3].
    2:{ unfold within_capacity. rewrite Hfmt, Hopen. split; [lia|done]. }
    unfold bind, modify, ignore, write_manifest, read_clock, bind, fallible, modify. cbn.
    assert (within_capacity (set_conns <[db := now]> n3) e3) as Hc.
    { unfold within_capacity. simpl. pose proof (size_insert_le (conns n3) db now).
      rewrite Hfmt, Hopen in *. lia. }
    destruct (fault _); simpl; (split; [exact Hc|]); intros _; rewrite lookup_insert_eq; by eexists.
  - unfold bind, mark_readonly, modify, mfail. unfold within_capacity. simpl. rewrite Hopen.
    split; [lia|done].
Qed.

Lemma with_conn_capacity {A} db (f : NodeM A) :
  keeps_conns f -> preserves within_capacity (with_conn cfg db f).
Proof.
  intros Hf n e Hn. unfold with_conn, bind at 1, read_instant. unfold bind at 1, gets.
  assert (forall n1 e1, within_capacity n1 e1 -> is_Some (conns n1 !! db) ->
    let '(_, n', e') := (let! result := attempt f in
      let! used := read_instant in do! modify (set_conns <[db := used]>) in mlift result) n1 e1 in
    within_capacity n' e') as Hrest.
  { intros n1 e1 Hn1 [t Ht]. unfold bind at 1, attempt. specialize (Hf (conns n1) n1 e1 eq_refl).
    destruct (f n1 e1) as [[r n2] e2]. unfold bind, read_instant, modify, mlift.
    unfold within_capacity in *. simpl. rewrite Hf, map_size_insert, Ht. done. }
  destruct (conns n !! db) as [t|] eqn:Ht; unfold bind at 1.
  - apply Hrest; [done|]. rewrite Ht. by eexists.
  - pose proof (activate_capacity db (instant (e_instant e)) n (bump_instant e) Hn) as Hact.
    destruct (activate _ _ _ _ _) as [[[[]|err] n1] e1]; destruct Hact as [Hc Hs].
    + by apply Hrest; [|apply Hs].
    + exact Hc.
Qed.

Lemma drop_conn_capacity db : preserves within_capacity (drop_conn db).
Proof.
  unfold drop_conn. pres.
  - intros n e Hn. unfold within_capacity in *. simpl.
    rewrite map_size_delete. destruct (conns n !! db); simpl; lia.
  - apply keeps_capacity, keeps_fallible.
Qed.

Ltac cap := repeat first
  [ apply with_conn_capacity; repeat first [apply keeps_mfor; intros ? | apply keeps_mmap; intros ?
      | apply keeps_set_and_cache | progress keeps]
  | apply drop_conn_capacity
  | pres_step
  | apply keeps_capacity; by keeps ].

Lemma run_node_capacity op : preserves within_capacity (run_node cfg op).
Proof.
  destruct op; simpl; unfold discard, kv_get, kv_set, kv_del, kv_exists, kv_mget, kv_mset, kv_ttl,
    kv_expire, kv_incr, kv_scan, node_execute_sql, node_execute_transaction, timeout_sql,
    ensure_database, reset_database, node_delete_database, manager_delete_database, remove_files, remove_file_set,
    close_database, maintenance_tick, close_all, check_generation, check_writable, check_ttl,
    check_kv_size, check_storage, storage_bytes, fill_cache, drop_cached, clear_cache, fence_cell, mget_miss,
    node_now, checkpoint; cap.
  intros n e _. unfold within_capacity. simpl. rewrite map_size_empty. lia.
Qed.

(** C30: whatever operations a node has run, in whatever order and with
    whatever failures, it holds at most [max_active] open connections. *)
Theorem capacity_respected (n : Node U) (e : Eff) :
  reachable cfg n e -> (size (conns n) <= max_active cfg)%nat.
Proof.
  intros Hr. apply (reachable_invariant cfg within_capacity n e); [|apply run_node_capacity|done].
  unfold within_capacity. simpl. rewrite map_size_empty. lia.
Qed.

End capacity.

(** ** A concrete node *)

(** User data and an engine that know no statement, and Cells that always
    check out. *)
Definition no_engine : SqlEngine unit := {|
  prepare _ _ := Err "no engine"%string;
  run_query u _ _ := (Ok [], u);
  run_execute u _ _ := (Ok 0, u);
  begin_tx _ := Ok tt;
  commit_tx _ := Ok tt;
  tx_misuse _ := "transaction state"%string;
  auth_denied := "not authorized"%string;
  u64_as_f64 z := z;
  json_display _ := EmptyString;
  json_size _ := 0%nat;
|}.

Definition plain_files : CellFiles unit := {|
  fresh_user := tt;
  file_len _ _ := 24576;
  quick_check_result _ := "ok"%string;
|}.

Definition sample_config : DataNodeConfig :=
  mkDataNodeConfig "/data" 1 3600 None QuotaConfig_default.

Definition cell_a : DatabaseId := mkDatabaseId 1.
Definition cell_b : DatabaseId := mkDatabaseId 2.

(** The node after a list of operations. *)
Definition run_all {env : Env} (ops : list NodeOp) (s : Node unit * Eff) : Node unit * Eff :=
  foldl (fun s op => let '(_, n', e') :=
    run_node (H:=decimal_uuid_text) (H0:=plain_files) (H1:=no_engine) sample_config op s.1 s.2 in (n', e'))
    s ops.

Lemma run_all_reachable {env : Env} ops s :
  reachable (H:=decimal_uuid_text) (H0:=plain_files) (H1:=no_engine) sample_config s.1 s.2 ->
  reachable (H:=decimal_uuid_text) (H0:=plain_files) (H1:=no_engine) sample_config
    (run_all ops s).1 (run_all ops s).2.
Proof.
  revert s. induction ops as [|op ops IH]; intros [n e] Hs; [done|]. simpl. apply IH.
  destruct (run_node _ op n e) as [[r n'] e'] eqn:Hrun. eapply rtc_r; [exact Hs|].
  econstructor. exact Hrun.
Qed.

Lemma evict_lru_least_recent_witness :
  exists id last, ({[cell_a := 5; cell_b := 3]} : gmap DatabaseId Z) !! id = Some last /\
    (forall id' t, ({[cell_a := 5; cell_b := 3]} : gmap DatabaseId Z) !! id' = Some t -> last <= t).
Proof.
  destruct (evict_lru_least_recent (env:=env_still) (U:=unit)
    (mkNode ∅ ∅ {[cell_a := 5; cell_b := 3]} ∅ ∅ KvCache_new ∅) eff0) as (id & last & H1 & H2 & _).
  - discriminate.
  - exists id, last. auto.
Defined.

Lemma capacity_respected_witness :
  let n := (run_all (env:=env_still) [NEnsure cell_a; NEnsure cell_b] (Node_new, eff0)).1 in
  (size (conns n) <= 1)%nat.
Proof.
  exact (capacity_respected (env:=env_still) (H:=decimal_uuid_text) (H0:=plain_files)
    (H1:=no_engine) sample_config _ _ (run_all_reachable [NEnsure cell_a; NEnsure cell_b] (Node_new, eff0) (rtc_refl _ _))).
Defined.
