(* ===== verification/NodeSafety.v ===== *)
(** Safety of the data node across Cells and across failover: an operation on
    one Cell leaves the others alone, a write with a stale generation changes
    nothing, and a Cell under read-only protection stays so. *)

From Stdlib Require Import ZArith Lia String Ascii.
From stdpp Require Import gmap strings list fin_maps relations.
From S2P Require Import Prelude Common Kv KvSpec SqlGate Sql Cache Manager DataNode NodeInv NodeCapacity.

Section safety.
Context {env : Env} `{UuidText} {U : Type} `{CellFiles U} `{SqlEngine U} (cfg : DataNodeConfig).

Abbreviation NodeM := (M (Node U) CombeeError).

(** ** Isolation *)

Section other_cell.
Variables (db other : DatabaseId) (n0 : Node U).
Hypothesis Hne : db <> other.

Definition same_other (n : Node U) (_ : Eff) : Prop :=
  files n !! other = files n0 !! other /\ generations n !! other = generations n0 !! other /\
  forall k, cache_inner (cache n) !! (other, k) = cache_inner (cache n0) !! (other, k).

(** Opening another Cell is the only manager step that touches files; it is
    stated for [db] only, so the lemmas of [closed] do not apply here. *)
Lemma other_files f : (forall m, (f m : gmap DatabaseId (CellDb U)) !! other = m !! other) ->
  preserves same_other (modify (E:=CombeeError) (set_files f)).
Proof. intros Hf n e (A & B & C). split; [|done]. simpl. by rewrite Hf. Qed.

Lemma other_set_files (g : Node U -> CellDb U) :
  preserves same_other (modify (E:=CombeeError) (fun n => set_files <[db := g n]> n)).
Proof. intros n e (A & B & C). split; [|done]. simpl. by rewrite lookup_insert_ne. Qed.

Lemma other_next_call : preserves same_other (next_call (E:=CombeeError)).
Proof. by intros n e Hn. Qed.

Lemma other_fallible err : preserves same_other (fallible (E:=CombeeError) err).
Proof. intros n e Hn. unfold fallible. by destruct (fault _). Qed.
Lemma other_clock : preserves same_other (read_clock (E:=CombeeError)).
Proof. by intros n e Hn. Qed.
Lemma other_instant : preserves same_other (read_instant (E:=CombeeError)).
Proof. by intros n e Hn. Qed.
Lemma other_conns f : preserves same_other (modify (E:=CombeeError) (set_conns f)).
Proof. by intros n e Hn. Qed.
Lemma other_manifests f : preserves same_other (modify (E:=CombeeError) (set_manifests f)).
Proof. by intros n e Hn. Qed.
Lemma other_interrupts f : preserves same_other (modify (E:=CombeeError) (set_interrupts f)).
Proof. by intros n e Hn. Qed.
Lemma other_readonly : preserves same_other (mark_readonly db).
Proof. by intros n e Hn. Qed.

#[local] Hint Resolve other_set_files other_fallible other_next_call other_clock other_instant other_conns
  other_manifests other_interrupts other_readonly : combee.

Lemma other_delete_file : preserves same_other (modify (E:=CombeeError) (set_files (delete db))).
Proof. apply other_files. intros m. by rewrite lookup_delete_ne. Qed.

Lemma other_on_kv {A} (m : M KvTable CombeeError A) : preserves same_other (on_kv db m).
Proof.
  intros n e (P & Q & R). unfold on_kv, zoom. destruct (m _ _) as [[r t] e1].
  split; [|done]. simpl. by rewrite lookup_insert_ne.
Qed.

Lemma other_on_sql {A} (m : M (SqlState U) CombeeError A) : preserves same_other (on_sql db m).
Proof.
  intros n e (P & Q & R). unfold on_sql, zoom. destruct (m _ _) as [[r t] e1].
  split; [|done]. simpl. by rewrite lookup_insert_ne.
Qed.

Lemma other_lookup key now : preserves same_other (cache_lookup db key now).
Proof.
  intros n e (P & Q & R). unfold cache_lookup.
  pose proof (cache_get_inner db key now (cache n)) as Hc.
  destruct (cache_get db key now (cache n)) as [r c]. simpl in Hc.
  split; [done|]. split; [done|]. intros k. simpl.
  destruct Hc as [-> | ->]; [done|]. rewrite lookup_delete_ne by congruence. done.
Qed.

Lemma other_fill key v x : preserves same_other (fill_cache db key v x).
Proof.
  intros n e (P & Q & R). split; [done|]. split; [done|]. intros k. simpl.
  rewrite lookup_insert_ne by congruence. done.
Qed.

Lemma other_drop key : preserves same_other (drop_cached db key).
Proof.
  intros n e (P & Q & R). split; [done|]. split; [done|]. intros k. simpl.
  rewrite lookup_delete_ne by congruence. done.
Qed.

Lemma other_clear : preserves same_other (clear_cache db).
Proof.
  intros n e (P & Q & R). split; [done|]. split; [done|]. intros k. simpl.
  rewrite cache_clear_database_lookup. simpl. by rewrite decide_False by congruence.
Qed.

Lemma other_fence g : preserves same_other (fence_cell db g).
Proof.
  intros n e (P & Q & R). split; [done|]. split; [|done]. simpl. by rewrite lookup_insert_ne.
Qed.

#[local] Hint Resolve other_delete_file other_on_kv other_on_sql other_lookup other_fill other_drop
  other_clear other_fence : combee.

Lemma other_evict : preserves same_other evict_lru.
Proof. unfold evict_lru, checkpoint. pres. Qed.

Lemma other_with_conn {A} (f : NodeM A) :
  preserves same_other f -> preserves same_other (with_conn cfg db f).
Proof.
  intros Hf. unfold with_conn, activate, open_, init_schema, quick_check, check_format_version,
    write_manifest. pres. apply other_evict.
Qed.

#[local] Hint Resolve other_with_conn : combee.

Lemma other_set_and_cache k v ttl nx xx : preserves same_other (set_and_cache db k v ttl nx xx).
Proof. unfold set_and_cache, node_now. pres. Qed.

Lemma other_run op : op_db op = Some db -> preserves same_other (run_node cfg op).
Proof.
  destruct op; intros [= ->]; simpl; unfold discard, kv_get, kv_set, kv_del, kv_exists, kv_mget,
    kv_mset, kv_ttl, kv_expire, kv_incr, kv_scan, node_execute_sql, node_execute_transaction,
    timeout_sql, ensure_database, reset_database, node_delete_database, manager_delete_database,
    remove_files, remove_file_set, close_database, drop_conn, check_generation, check_writable, check_ttl,
    check_kv_size, check_storage, storage_bytes, mget_miss, node_now, checkpoint;
    repeat first [ apply other_with_conn | apply other_set_and_cache | pres_step ].
Qed.

End other_cell.

(** C28: an operation on one Cell, whatever it is and however it ends (opening
    the Cell may evict other connections), leaves the stored content, the
    generation and the cached entries of every other Cell as they were. *)
Theorem cells_isolated (op : NodeOp) (db other : DatabaseId) (n : Node U) (e : Eff) :
  op_db op = Some db -> db <> other ->
  let n' := (run_node cfg op n e).1.2 in
  files n' !! other = files n !! other /\ generations n' !! other = generations n !! other /\
  forall k, cache_inner (cache n') !! (other, k) = cache_inner (cache n) !! (other, k).
Proof.
  intros Hop Hne. pose proof (other_run db other n Hne op Hop n e) as Hrun.
  destruct (run_node cfg op n e) as [[r n'] e']. by apply Hrun.
Qed.

(** ** Fencing *)

Lemma check_generation_stale db g (n : Node U) e :
  g <> default 0 (generations n !! db) ->
  exists msg, check_generation db g n e = (Err (Forbidden msg), n, e).
Proof. intros Hg. unfold check_generation, bind, gets. rewrite decide_True by done. by eexists. Qed.

Lemma check_generation_ok db g (n : Node U) e :
  g = default 0 (generations n !! db) -> check_generation db g n e = (Ok tt, n, e).
Proof. intros Hg. unfold check_generation, bind, gets. rewrite decide_False by auto. done. Qed.

Lemma stale_write_refused (op : NodeOp) (db : DatabaseId) (g : Z) (n : Node U) (e : Eff) :
  op_db op = Some db -> op_generation op = Some g -> g <> default 0 (generations n !! db) ->
  exists msg, run_node cfg op n e = (Err (Forbidden msg), n, e).
Proof.
  intros Hdb Hgen Hg. destruct (check_generation_stale db g n e Hg) as [msg Hc]. exists msg.
  destruct op; simplify_eq/=; unfold discard, kv_set, kv_del, kv_mset, kv_expire, kv_incr,
    node_execute_sql, node_execute_transaction, bind; by rewrite Hc.
Qed.

(** C29: fencing: a write (KV or SQL) that carries a generation other than the
    one the node holds for the Cell (0 when it holds none) is refused as
    forbidden before anything happens: node and environment are untouched. *)
Theorem stale_generation_refused (op : NodeOp) (db : DatabaseId) (g : Z) (n : Node U) (e : Eff) :
  op_db op = Some db -> op_generation op = Some g -> g <> default 0 (generations n !! db) ->
  exists msg, run_node cfg op n e = (Err (Forbidden msg), n, e).
Proof. apply stale_write_refused. Qed.

(** ** Read-only protection *)

Lemma readonly_closed db : closed (fun (n : Node U) _ => db ∈ readonly n).
Proof. split; try done. intros db' n e Hn. simpl. set_solver. Qed.

Lemma readonly_on_kv {A} db db' (m : M KvTable CombeeError A) :
  preserves (fun (n : Node U) _ => db ∈ readonly n) (on_kv db' m).
Proof. intros n e Hn. unfold on_kv, zoom. by destruct (m _ _) as [[r t] e1]. Qed.

Lemma readonly_on_sql {A} db db' (m : M (SqlState U) CombeeError A) :
  preserves (fun (n : Node U) _ => db ∈ readonly n) (on_sql db' m).
Proof. intros n e Hn. unfold on_sql, zoom. by destruct (m _ _) as [[r t] e1]. Qed.

Lemma readonly_lookup db db' k now :
  preserves (fun (n : Node U) _ => db ∈ readonly n) (cache_lookup db' k now).
Proof. intros n e Hn. unfold cache_lookup. by destruct (cache_get _ _ _ _). Qed.

Lemma readonly_modify db f : (forall n, readonly (f n) = readonly n) ->
  preserves (fun (n : Node U) _ => db ∈ readonly n) (modify (E:=CombeeError) f).
Proof. intros Hf n e Hn. unfold modify. by rewrite Hf. Qed.

Lemma readonly_run db op : preserves (fun (n : Node U) _ => db ∈ readonly n) (run_node cfg op).
Proof.
  pose proof (readonly_closed db) as HI.
  destruct op; simpl; unfold discard, kv_get, kv_set, kv_del, kv_exists, kv_mget,
    kv_mset, kv_ttl, kv_expire, kv_incr, kv_scan, node_execute_sql, node_execute_transaction,
    reset_database, node_delete_database, manager_delete_database, fence_cell,
    remove_files, remove_file_set, close_database, mget_miss, maintenance_tick, set_and_cache, fill_cache,
    drop_cached, clear_cache;
    repeat first [ apply (pres_with_conn cfg HI) | apply (pres_timeout cfg HI)
      | apply readonly_on_kv | apply readonly_on_sql | apply readonly_lookup
      | apply readonly_modify; done | pres_step ].
Qed.

(** Read-only protection is for the life of the process: once a Cell is
    marked, after any further operations (resetting or deleting the Cell
    included) every write to it is refused and changes nothing. *)
Theorem readonly_is_permanent (db : DatabaseId) (n : Node U) (e : Eff) (later : Node U * Eff)
    (op : NodeOp) :
  db ∈ readonly n -> rtc (node_step cfg) (n, e) later -> op_db op = Some db ->
  is_Some (op_generation op) ->
  exists err, run_node cfg op later.1 later.2 = (Err err, later.1, later.2).
Proof.
  intros Hro Hsteps Hdb [g Hg].
  assert (forall p q, rtc (node_step cfg) p q -> db ∈ readonly p.1 -> db ∈ readonly q.1) as Hind.
  { intros p q Hrtc. induction Hrtc as [|p q r Hs _ IH]; [done|]. intros Hp. apply IH.
    destruct Hs as [op' n0 e0 r0 n1 e1 Hrun].
    exact (hoare_run _ _ _ _ _ _ _ _ (readonly_run db op') Hp Hrun). }
  apply Hind in Hsteps; [|done]. clear Hind. destruct later as [n' e']. simpl in *.
  assert (exists err, forall e, check_writable db n' e = (Err err, n', e)) as [err Hw].
  { unfold check_writable, bind, gets, is_readonly. rewrite bool_decide_eq_true_2 by done. by eexists. }
  assert (forall g, (exists err, forall e, check_generation db g n' e = (Err err, n', e)) \/
    forall e, check_generation db g n' e = (Ok tt, n', e)) as Hgen.
  { intros g0. unfold check_generation, bind, gets. case_decide; [left|right]; eauto. }
  assert (forall ttl, (exists err, forall e, check_ttl cfg ttl n' e = (Err err, n', e)) \/
    forall e, check_ttl cfg ttl n' e = (Ok tt, n', e)) as Httl.
  { intros [ttl|]; simpl; [|by right]. destruct (_ && _); [left|right]; eauto. }
  destruct op; simplify_eq/=; unfold discard, kv_set, kv_del, kv_mset, kv_expire, kv_incr,
    node_execute_sql, node_execute_transaction, bind;
    destruct (Hgen g) as [[err1 ->]| ->]; eauto; rewrite ?Hw; eauto;
    destruct (Httl ttl) as [[err2 ->]| ->]; eauto; rewrite ?Hw; eauto.
Qed.

End safety.

Lemma cells_isolated_witness :
  let n := mkNode {[cell_b := mkCellDb {["k"%string := mkKvRow "b" None 1]} tt]} ∅ ∅ ∅ ∅ KvCache_new ∅ in
  files (run_node (env:=env_still) (H:=decimal_uuid_text) (H0:=plain_files) (H1:=no_engine)
    sample_config (NDelete cell_a) n eff0).1.2 !! cell_b
  = Some (mkCellDb {["k"%string := mkKvRow "b" None 1]} tt).
Proof.
  intros n. destruct (cells_isolated (env:=env_still) (H:=decimal_uuid_text) (H0:=plain_files)
    (H1:=no_engine) sample_config (NDelete cell_a) cell_a cell_b n eff0) as [Hf _].
  - reflexivity.
  - discriminate.
  - rewrite Hf. reflexivity.
Defined.

Lemma stale_generation_refused_witness :
  exists msg, run_node (env:=env_still) (H:=decimal_uuid_text) (H0:=plain_files) (H1:=no_engine)
    sample_config (NDel cell_a "k" 3) Node_new eff0 = (Err (Forbidden msg), Node_new, eff0).
Proof.
  apply (stale_generation_refused (env:=env_still) (H:=decimal_uuid_text) (H0:=plain_files)
    (H1:=no_engine) sample_config (NDel cell_a "k" 3) cell_a 3);
    [reflexivity | reflexivity | discriminate].
Defined.

Lemma readonly_is_permanent_witness :
  let n := mkNode ∅ ∅ ∅ ∅ {[cell_a]} KvCache_new ∅ : Node unit in
  exists err, run_node (env:=env_still) (H:=decimal_uuid_text) (H0:=plain_files) (H1:=no_engine)
    sample_config (NDel cell_a "k" 0) n eff0 = (Err err, n, eff0).
Proof.
  intros n. apply (readonly_is_permanent (env:=env_still) (H:=decimal_uuid_text) (H0:=plain_files)
    (H1:=no_engine) sample_config cell_a n eff0 (n, eff0) (NDel cell_a "k" 0)).
  - apply elem_of_singleton. reflexivity.
  - apply rtc_refl.
  - reflexivity.
  - exists 0. reflexivity.
Defined.
