(* ===== verification/Coherence.v ===== *)
(** Cache coherence of the data node: an entry the cache would serve is the
    row SQLite holds. The cached expiry time of a SET is computed from a later
    clock reading than the stored one, so the two may differ by the time [D]
    that one operation takes between its readings. *)

From Stdlib Require Import ZArith Lia String Ascii.
From stdpp Require Import gmap strings list fin_maps relations.
From S2P Require Import Prelude Common Kv KvSpec SqlGate Sql SqlSpec Cache Manager DataNode NodeInv NodeCapacity.

(** ** When a row backs a cached entry *)

(** The cached expiry is at most [D] seconds past the stored one. *)
Definition expiry_backs (D : Z) (stored cached : option Z) : Prop :=
  match stored, cached with
  | None, None => True
  | Some a, Some b => b <= a + D
  | _, _ => False
  end.

(** The row is there with the cached value, or it has expired and was
    collected, and the cached entry is at its end as well. *)
Definition entry_ok (D now : Z) (t : KvTable) (key : string) (v : CachedValue) : Prop :=
  (exists row, t !! key = Some row /\ row_value row = cached_value v /\
     expiry_backs D (row_expires_at row) (cached_expires_at v)) \/
  (t !! key = None /\ exists x, cached_expires_at v = Some x /\ x <= now + D).

(** Rows only disappear, and only once they have expired. *)
Definition decays (now : Z) (t t' : KvTable) : Prop :=
  forall k, t' !! k = t !! k \/
    exists row x, t !! k = Some row /\ row_expires_at row = Some x /\ x <= now /\ t' !! k = None.

Lemma decays_refl now t : decays now t t.
Proof. intros k. by left. Qed.

Lemma entry_ok_decays D now now' t t' key v : 0 <= D ->
  now <= now' -> decays now' t t' -> entry_ok D now t key v -> entry_ok D now' t' key v.
Proof.
  intros HD Hle Hdec [(row & Hk & Hv & Hx)|(Hk & x & Hx & Hb)].
  - destruct (Hdec key) as [Heq|(row' & x & Hk' & Hx' & Hb & Hn)].
    + left. exists row. by rewrite Heq.
    + right. simplify_eq. rewrite Hx' in Hx. destruct (cached_expires_at v) as [b|]; [|done].
      split; [done|]. exists b. simpl in Hx. split; [done|]. lia.
  - destruct (Hdec key) as [Heq|(row' & ? & Hk' & _)]; [|congruence].
    right. rewrite Heq. split; [done|]. exists x. split; [done|]. lia.
Qed.

(** ** What the KV operations do to the rows *)

Section rows.
Context {env : Env}.
Hypothesis clock_mono : forall i, clock i <= clock (S i).

Lemma clock_le i j : (i <= j)%nat -> clock i <= clock j.
Proof. induction 1 as [|j Hj IH]; [lia|]. specialize (clock_mono j). lia. Qed.

Definition reads_only {A} (m : M KvTable CombeeError A) : Prop :=
  forall t e r t' e', m t e = (r, t', e') ->
    (e_clock e <= e_clock e')%nat /\ decays (clock (e_clock e')) t t'.

Lemma decays_delete key t row now later :
  t !! key = Some row -> is_expired (row_expires_at row) now = true -> now <= later ->
  decays later t (delete key t).
Proof.
  intros Hk Hx Hle k. destruct (decide (key = k)) as [<-|]; [|left; by rewrite lookup_delete_ne].
  right. destruct (row_expires_at row) as [x|] eqn:Hr; simpl in Hx; [|done].
  exists row, x. rewrite lookup_delete_eq. repeat split; try done. lia.
Qed.

Lemma read_with_expiry_reads key : reads_only (read_with_expiry key).
Proof.
  intros t e r t' e' Hrun. apply read_with_expiry_spec in Hrun as ([He _] & _ & Hf & Hk).
  split; [lia|]. intros k. destruct (decide (k = key)) as [->|]; [|by left; apply Hf].
  destruct Hk as [->|(row & Hrow & Hn & Hx)]; [by left|]. right.
  destruct (row_expires_at row) as [x|] eqn:Hr; [|done]. exists row, x. simpl in Hx.
  pose proof (clock_le (e_clock e) (e_clock e') ltac:(lia)). repeat split; try done. lia.
Qed.

Lemma exists_reads key : reads_only (exists_ key).
Proof.
  intros t e r t' e' Hrun. apply exists_spec in Hrun as (-> & [He _] & _).
  split; [lia|]. apply decays_refl.
Qed.

Lemma ttl_reads key : reads_only (ttl key).
Proof.
  intros t e r t' e'. unfold ttl, bind, unix_now, read_clock. rewrite read_row_run.
  destruct (fault _); [intros [= <- <- <-]; split; [simpl; lia|apply decays_refl]|].
  destruct (sql_select_row key t) as [[v [x|]]|]; [destruct (negb _)|..];
    intros [= <- <- <-]; (split; [simpl; lia|apply decays_refl]).
Qed.

Lemma scan_reads p l c : reads_only (scan p l c).
Proof.
  intros t e r t' e'. unfold scan, bind, unix_now, read_clock. rewrite query_run.
  destruct (fault _); intros [= <- <- <-]; (split; [simpl; lia|apply decays_refl]).
Qed.

Lemma gc_reads limit : reads_only (gc_expired limit).
Proof.
  intros t e r t' e'. unfold gc_expired, bind, unix_now, read_clock. rewrite exec_run.
  destruct (fault _); intros [= <- <- <-]; (split; [simpl; lia|]); [apply decays_refl|].
  intros k. unfold sql_delete_expired. simpl. rewrite foldr_delete_lookup.
  case_decide as Hin; [|by left]. right. apply victims_expired in Hin as (row & Hk & Hx).
  destruct (row_expires_at row) as [x|] eqn:Hr; simpl in Hx; [|done]. exists row, x.
  pose proof (clock_mono (e_clock e)). repeat split; try done. lia.
Qed.

(** INCR: one key changes on success; on failure an expired row may be gone. *)
Lemma incr_rows key d ttl t e r t' e' :
  incr key d ttl t e = (r, t', e') ->
  (e_clock e <= e_clock e')%nat /\
  match r with
  | Ok _ => forall k, k <> key -> t' !! k = t !! k
  | Err _ => decays (clock (e_clock e')) t t'
  end.
Proof.
  intros Hrun. pose proof (fun k Hk => hoare_run _ _ _ _ _ _ _ _
    (frame_incr k (t !! k) key d ttl (not_eq_sym Hk)) eq_refl Hrun) as Hframe.
  revert Hrun. unfold incr. case_decide; [intros [= <- <- <-]; split; [lia|apply decays_refl]|].
  unfold bind at 1, unix_now, read_clock. unfold bind at 1. rewrite read_row_run.
  destruct (fault _); [intros [= <- <- <-]; split; [simpl; lia|apply decays_refl]|].
  assert (forall t1 e1 v x w, (let! _ := exec (sql_upsert key v x) in mret w) t1 e1 = (r, t', e') ->
    e_clock e1 = S (e_clock e) -> decays (clock (S (e_clock e))) t t1 ->
    (e_clock e <= e_clock e')%nat /\
    match r with Ok _ => forall k, k <> key -> t' !! k = t !! k | Err _ => decays (clock (e_clock e')) t t' end)
    as Hend.
  { intros t1 e1 v x w. unfold bind. rewrite exec_run. destruct (fault (e_call e1)); intros [= <- <- <-] He Hd;
      simpl; rewrite He; (split; [lia|]); [done|exact Hframe]. }
  destruct (sql_select_row key t) as [[value old]|] eqn:Hsel; unfold bind at 1.
  - destruct (negb (is_expired old _)) eqn:Hx; unfold bind at 1.
    + unfold mlift. destruct (incr_value value d); [|intros [= <- <- <-]; split; [simpl; lia|apply decays_refl]].
      intros Hrun. eapply Hend; [exact Hrun|done|apply decays_refl].
    + unfold ignore. rewrite del_run. destruct (fault _); intros Hrun;
        (eapply Hend; [exact Hrun|done|]); [apply decays_refl|].
      unfold sql_select_row in Hsel. destruct (t !! key) as [row|] eqn:Hk; simplify_eq/=.
      apply negb_false_iff in Hx. eapply decays_delete; [exact Hk|exact Hx|apply clock_mono].
  - intros Hrun. eapply Hend; [exact Hrun|done|apply decays_refl].
Qed.

(** EXPIRE: one key changes on success. *)
Lemma expire_rows key ttl t e r t' e' :
  expire key ttl t e = (r, t', e') ->
  (e_clock e <= e_clock e')%nat /\
  match r with
  | Ok true => forall k, k <> key -> t' !! k = t !! k
  | _ => t' = t
  end.
Proof.
  intros Hrun. pose proof (fun k Hk => hoare_run _ _ _ _ _ _ _ _
    (frame_expire k (t !! k) key ttl (not_eq_sym Hk)) eq_refl Hrun) as Hframe.
  revert Hrun. unfold expire, bind at 1.
  destruct (exists_ key t e) as [[[[]|err] t1] e1] eqn:He; apply exists_spec in He as (-> & [He _] & _); simpl.
  - unfold bind, unix_now, read_clock. rewrite exec_run. destruct (fault _); intros [= <- <- <-]; simpl;
      (split; [lia|]); [done|exact Hframe].
  - intros [= <- <- <-]. split; [lia|done].
  - intros [= <- <- <-]. split; [lia|done].
Qed.

Lemma upsert_lookup key v x t : exists row, (sql_upsert key v x t).2 !! key = Some row /\
  row_value row = v /\ row_expires_at row = x.
Proof.
  unfold sql_upsert. destruct (t !! key); simpl;
    (eexists; split; [apply lookup_insert_eq|done]).
Qed.

Lemma set_clock key v ttl nx xx t e r t' e' :
  set key v ttl nx xx t e = (r, t', e') -> (e_clock e <= e_clock e')%nat.
Proof.
  unfold set. case_decide; [by intros [= <- <- <-]|].
  unfold bind, unix_now, read_clock. destruct nx; [|destruct xx]; rewrite exec_run;
    destruct (fault _); intros [= <- <- <-]; simpl; lia.
Qed.

(** The stored and the cached expiry of one SET. *)
Lemma expires_at_from_backs D ttl now now' :
  0 <= now -> now <= now' <= now + D -> now' <= I64_MAX ->
  expiry_backs D (expires_at_from ttl now) (expires_at_from ttl now').
Proof.
  intros H0 Hle Hmax. destruct ttl as [s|]; simpl; [|done].
  pose proof (wrap_i64_range s) as Hs. unfold is_i64 in Hs. unfold i64_add.
  set (w := wrap_i64 s) in *. destruct (decide (now + w <= I64_MAX)).
  - rewrite (wrap_i64_id (now + w)) by (unfold is_i64; lia).
    destruct (decide (now' + w <= I64_MAX)).
    + rewrite wrap_i64_id by (unfold is_i64; lia). lia.
    + rewrite wrap_i64_above by (unfold I64_MAX in *; lia). lia.
  - rewrite !wrap_i64_above by (unfold I64_MAX in *; lia). lia.
Qed.

End rows.

(** ** The node *)

Section coherence.
Context {env : Env} `{UuidText} {U : Type} `{CellFiles U} `{SqlEngine U} (cfg : DataNodeConfig).
Context (D : Z) (HD : 0 <= D).
(** Cells whose cached entries are not vouched for. *)
Context (X : gset DatabaseId).
Hypothesis clock_mono : forall i, clock i <= clock (S i).
Hypothesis clock_range : forall i, 0 <= clock i <= I64_MAX.

Abbreviation NodeM := (M (Node U) CombeeError).
Implicit Types n : Node U.

Definition coherent n (e : Eff) : Prop :=
  forall db key v, db ∉ X -> cache_inner (cache n) !! (db, key) = Some v ->
    entry_ok D (clock (e_clock e)) (cell_kv (cell_of db n)) key v.

(** The readings with indices from [w] up to [m] follow each other within [D]
    seconds. *)
Definition window (w m : nat) : Prop :=
  forall i, (w <= i)%nat -> (S i < m)%nat -> clock (S i) <= clock i + D.

(** Coherence inside an operation that began at reading [w]. *)
Definition coherent_from (w : nat) n (e : Eff) : Prop :=
  (w <= e_clock e)%nat /\ (window w (e_clock e) -> coherent n e).

Lemma window_shorter w m m' : (m <= m')%nat -> window w m' -> window w m.
Proof. intros Hle Hw i Hi Hm. apply Hw; lia. Qed.

Lemma entry_ok_later t key v i j : (i <= j)%nat ->
  entry_ok D (clock i) t key v -> entry_ok D (clock j) t key v.
Proof.
  intros Hle. apply (entry_ok_decays D (clock i) (clock j)); [done| |apply decays_refl].
  by apply clock_le.
Qed.

(** The Cell [db] gets a new table, the cache new entries for it. *)
Lemma coherent_update db n n' e e' :
  coherent n e -> (e_clock e <= e_clock e')%nat ->
  (forall db', db' <> db -> cell_kv (cell_of db' n') = cell_kv (cell_of db' n)) ->
  (forall db' k v, db' <> db -> cache_inner (cache n') !! (db', k) = Some v ->
     cache_inner (cache n) !! (db', k) = Some v) ->
  (forall k v, db ∉ X -> cache_inner (cache n') !! (db, k) = Some v ->
     entry_ok D (clock (e_clock e')) (cell_kv (cell_of db n')) k v) ->
  coherent n' e'.
Proof.
  intros Hc He Hcell Hcache Hdb db' key v HX Hv. destruct (decide (db' = db)) as [->|Hne]; [by apply Hdb|].
  rewrite Hcell by done. eapply entry_ok_later; [exact He|]. apply Hc; [done|]. by apply Hcache.
Qed.

Lemma cell_of_insert db c n : cell_of db (set_files <[db := c]> n) = c.
Proof. unfold cell_of. simpl. by rewrite lookup_insert_eq. Qed.
Lemma cell_of_insert_ne db db' c n : db' <> db -> cell_of db' (set_files <[db := c]> n) = cell_of db' n.
Proof. intros Hne. unfold cell_of. simpl. by rewrite lookup_insert_ne. Qed.

Lemma cell_of_same n n' db : files n' = files n -> cell_of db n' = cell_of db n.
Proof. unfold cell_of. by intros ->. Qed.

(** Dropping entries never hurts. *)
Lemma coherent_shrink n n' e e' :
  coherent n e -> (e_clock e <= e_clock e')%nat -> (forall db, db ∉ X -> cell_of db n' = cell_of db n) ->
  (forall k v, cache_inner (cache n') !! k = Some v -> cache_inner (cache n) !! k = Some v) ->
  coherent n' e'.
Proof.
  intros Hc He Hcell Hcache db key v HX Hv. rewrite Hcell by done. eapply entry_ok_later; [exact He|].
  apply Hc; [done|]. by apply Hcache.
Qed.

Lemma from_shrink w n n' e e' :
  coherent_from w n e -> (e_clock e <= e_clock e')%nat -> (forall db, db ∉ X -> cell_of db n' = cell_of db n) ->
  (forall k v, cache_inner (cache n') !! k = Some v -> cache_inner (cache n) !! k = Some v) ->
  coherent_from w n' e'.
Proof.
  intros [Hw Hc] He Hcell Hcache. split; [lia|]. intros Hwin.
  eapply coherent_shrink; [apply Hc; by eapply window_shorter|done..].
Qed.

Lemma coherent_closed w : closed (coherent_from w).
Proof.
  split.
  1-3: intros n e Hn; eapply from_shrink; [exact Hn|simpl; lia|done|done].
  1-4: intros f n e Hn; eapply from_shrink; [exact Hn|done|done|done].
  intros db n e Hn. eapply from_shrink; [exact Hn|done| |done]. intros db' _.
  destruct (decide (db' = db)) as [->|]; [apply cell_of_insert|by apply cell_of_insert_ne].
Qed.

(** A new table for [db] and a change of the cache at [key] only. *)
Lemma coherent_write db key n e e' t' (c' : KvCache) :
  coherent n e -> (e_clock e <= e_clock e')%nat ->
  (forall k, k <> key -> t' !! k = cell_kv (cell_of db n) !! k) ->
  (forall k, k <> (db, key) -> cache_inner c' !! k = cache_inner (cache n) !! k) ->
  (forall v, cache_inner c' !! (db, key) = Some v -> entry_ok D (clock (e_clock e')) t' key v) ->
  coherent (set_cache (fun _ => c')
    (set_files <[db := mkCellDb t' (cell_user (cell_of db n))]> n)) e'.
Proof.
  intros Hc He Hrows Hcache Hkey. eapply (coherent_update db n); [exact Hc|exact He|..].
  - intros db' Hne. by rewrite <- (cell_of_insert_ne db db' (mkCellDb t' (cell_user (cell_of db n))) n).
  - intros db' k v Hne Hv. simpl in Hv. by rewrite Hcache in Hv by congruence.
  - intros k v HX Hv. change (entry_ok D (clock (e_clock e'))
      (cell_kv (cell_of db (set_files <[db := mkCellDb t' (cell_user (cell_of db n))]> n))) k v).
    rewrite cell_of_insert. simpl. simpl in Hv. destruct (decide (k = key)) as [->|Hne]; [by apply Hkey|].
    rewrite Hcache in Hv by congruence. apply Hc in Hv; [|done]. apply (entry_ok_later _ _ _ _ _ He) in Hv.
    unfold entry_ok in *. by rewrite Hrows.
Qed.

Lemma from_on_kv w {A} db (m : M KvTable CombeeError A) :
  reads_only m -> preserves (coherent_from w) (on_kv db m).
Proof.
  intros Hm n e [Hw Hc]. unfold on_kv, zoom.
  destruct (m (cell_kv (cell_of db n)) e) as [[r t'] e'] eqn:Hrun. apply Hm in Hrun as [He Hdec].
  split; [lia|]. intros Hwin. specialize (Hc (window_shorter _ _ _ He Hwin)).
  eapply (coherent_update db n); [exact Hc|exact He|..].
  - intros db' Hne. by rewrite cell_of_insert_ne.
  - done.
  - intros k v HX Hv. rewrite cell_of_insert. simpl. eapply entry_ok_decays; [done| |exact Hdec|by apply Hc].
    by apply clock_le.
Qed.

Lemma from_on_sql w {A} db (m : M (SqlState U) CombeeError A) :
  (forall u e, e_clock (m (mkSqlState u false None) e).2 = e_clock e) -> preserves (coherent_from w) (on_sql db m).
Proof.
  intros Hm n e Hn. unfold on_sql, zoom.
  destruct (m _ e) as [[r s] e'] eqn:Hrun. pose proof (Hm (cell_user (cell_of db n)) e) as He.
  rewrite Hrun in He. simpl in He. destruct Hn as [Hw Hc]. split; [lia|]. rewrite He. intros Hwin.
  eapply (coherent_update db n); [by apply Hc|lia|..].
  - intros db' Hne. by rewrite cell_of_insert_ne.
  - done.
  - intros k v HX Hv. rewrite cell_of_insert. simpl. rewrite He. by apply Hc.
Qed.

Lemma from_lookup w db key now : preserves (coherent_from w) (cache_lookup db key now).
Proof.
  intros n e Hn. unfold cache_lookup. pose proof (cache_get_inner db key now (cache n)) as Hg.
  destruct (cache_get db key now (cache n)) as [r c]. simpl in Hg.
  eapply from_shrink; [exact Hn|done|done|]. simpl. intros k v.
  destruct Hg as [-> | ->]; [done|]. intros Hv. apply lookup_delete_Some in Hv as [_ Hv]. done.
Qed.

Lemma from_clear w db : preserves (coherent_from w) (clear_cache db).
Proof.
  intros n e Hn. eapply from_shrink; [exact Hn|done|done|]. simpl. intros k v.
  rewrite cache_clear_database_lookup. by destruct (decide _).
Qed.

Lemma from_evict w k : preserves (coherent_from w) (modify (E:=CombeeError) (set_cache (cache_remove k))).
Proof.
  intros n e Hn. eapply from_shrink; [exact Hn|done|done|]. simpl. intros k' v Hv.
  apply lookup_delete_Some in Hv as [_ Hv]. done.
Qed.

Lemma from_fence w db g : preserves (coherent_from w) (fence_cell db g).
Proof. intros n e Hn. by eapply from_shrink. Qed.

Lemma from_fill_row w db key value exp n e :
  coherent_from w n e ->
  (window w (e_clock e) -> exists row, cell_kv (cell_of db n) !! key = Some row /\
     row_value row = value /\ expiry_backs D (row_expires_at row) exp) ->
  coherent_from w (set_cache (cache_put db key value exp) n) e.
Proof.
  intros [Hw Hc] Hrow. split; [done|]. intros Hwin db' k v HX. simpl.
  destruct (decide ((db, key) = (db', k))) as [[= <- <-]|Hne].
  - rewrite lookup_insert_eq. intros [= <-]. left. simpl. by apply Hrow.
  - rewrite lookup_insert_ne by done. by apply Hc.
Qed.

(** Reading a row and caching it. *)
Lemma from_read_fill w {A} db key (some : string -> option Z -> A) (none : A) :
  preserves (coherent_from w)
    (let! row := on_kv db (read_with_expiry key) in
     match row with
     | Some (value, expires_at) =>
         do! fill_cache db key value expires_at in mret (some value expires_at)
     | None => mret none
     end).
Proof.
  intros n e Hn. pose proof (from_on_kv w db (read_with_expiry key) (read_with_expiry_reads clock_mono key) n e Hn) as Hread.
  unfold bind at 1. unfold on_kv, zoom in *.
  destruct (read_with_expiry key (cell_kv (cell_of db n)) e) as [[r t'] e'] eqn:Hrun.
  destruct r as [[[value exp]|]|err]; [|done|done].
  apply read_with_expiry_spec in Hrun as (_ & Hok & _ & Hk). specialize (Hok _ eq_refl).
  apply from_fill_row; [done|]. intros _. rewrite cell_of_insert. simpl.
  rewrite lookup_view in Hok. destruct (cell_kv (cell_of db n) !! key) as [row|]; simpl in Hok; [|done].
  destruct (is_expired (row_expires_at row) _) eqn:Hx; [done|]. injection Hok as -> ->.
  destruct Hk as [->|(row' & [= <-] & _ & Hx')]; [|congruence].
  exists row. split; [done|]. split; [done|]. destruct (row_expires_at row); simpl; [lia|done].
Qed.

Lemma from_set_and_cache w db key value ttl nx xx :
  preserves (coherent_from w) (set_and_cache db key value ttl nx xx).
Proof.
  intros n e [Hw Hc]. unfold set_and_cache, bind at 1, on_kv, zoom.
  destruct (set key value ttl nx xx (cell_kv (cell_of db n)) e) as [[r t'] e'] eqn:Hrun.
  pose proof (set_clock _ _ _ _ _ _ _ _ _ _ Hrun) as Hmono.
  assert (t' = cell_kv (cell_of db n) -> coherent_from w
    (set_files <[db := mkCellDb t' (cell_user (cell_of db n))]> n) e') as Hsame.
  { intros ->. eapply from_shrink; [by split|done| |done]. intros db' _.
    destruct (decide (db' = db)) as [->|]; [rewrite cell_of_insert; by destruct (cell_of db n)|].
    by apply cell_of_insert_ne. }
  apply set_spec in Hrun. destruct r as [[]|err].
  - destruct Hrun as (_ & _ & He & Ht'). unfold bind, node_now, read_clock, fill_cache, modify, mret.
    split; [simpl; lia|]. intros Hwin. simpl in Hwin.
    pose proof (coherent_write db key n e (bump_clock e') t'
      (cache_put db key value (expires_at_from ttl (clock (e_clock e'))) (cache n))) as Hwr.
    apply Hwr; clear Hwr.
    + apply Hc. eapply window_shorter; [|exact Hwin]. lia.
    + simpl. lia.
    + intros k Hne. subst t'. unfold sql_upsert. destruct (_ !! key); simpl; by rewrite lookup_insert_ne.
    + intros k Hne. simpl. by rewrite lookup_insert_ne.
    + intros v. simpl. rewrite lookup_insert_eq. intros [= <-]. left. simpl.
      assert (expiry_backs D (expires_at_from ttl (clock (e_clock e)))
        (expires_at_from ttl (clock (e_clock e')))) as Hb.
      { rewrite He. apply expires_at_from_backs; [apply clock_range| |apply clock_range].
        split; [apply clock_mono|]. apply Hwin; lia. }
      subst t'. destruct (upsert_lookup key value (expires_at_from ttl (clock (e_clock e)))
        (cell_kv (cell_of db n))) as (row & Hk & Hv & Hx).
      exists row. by rewrite Hx.
  - destruct Hrun as (_ & _ & _ & ->). by apply Hsame.
  - subst t'. by apply Hsame.
Qed.

(** Invalidating after a write that touched one row. *)
Lemma from_invalidate w db key n e e' t' :
  coherent_from w n e -> (e_clock e <= e_clock e')%nat ->
  (forall k, k <> key -> t' !! k = cell_kv (cell_of db n) !! k) ->
  coherent_from w (set_cache (cache_invalidate db key)
    (set_files <[db := mkCellDb t' (cell_user (cell_of db n))]> n)) e'.
Proof.
  intros [Hw Hc] He Hrows. split; [lia|]. intros Hwin.
  apply (coherent_write db key n e e' t' (cache_invalidate db key (cache n))); [|done|done| |].
  - apply Hc. by eapply window_shorter.
  - intros k Hne. simpl. by rewrite lookup_delete_ne.
  - intros v. simpl. by rewrite lookup_delete_eq.
Qed.

Lemma from_same w db n e e' :
  coherent_from w n e -> (e_clock e <= e_clock e')%nat ->
  coherent_from w (set_files <[db := mkCellDb (cell_kv (cell_of db n)) (cell_user (cell_of db n))]> n) e'.
Proof.
  intros Hn He. eapply from_shrink; [exact Hn|done| |done]. intros db' _.
  destruct (decide (db' = db)) as [->|]; [rewrite cell_of_insert; by destruct (cell_of db n)|].
  by apply cell_of_insert_ne.
Qed.

Lemma from_del w db key :
  preserves (coherent_from w)
    (let! deleted := on_kv db (del key) in
     do! (if deleted : bool then drop_cached db key else mret tt) in mret deleted).
Proof.
  intros n e Hn. unfold bind at 1, on_kv, zoom. rewrite del_run.
  destruct (fault _); [by apply (from_same w db n e)|].
  unfold drop_cached, bind, modify, mret. case_bool_decide as Hk.
  - apply (from_invalidate w db key n e (bump_call e) (delete key (cell_kv (cell_of db n)))); [done..|].
    intros k Hne. by rewrite lookup_delete_ne.
  - rewrite delete_id by (by apply eq_None_not_Some). by apply (from_same w db n e).
Qed.

Lemma from_expire w db key ttl :
  preserves (coherent_from w)
    (let! updated := on_kv db (expire key ttl) in
     do! (if updated : bool then drop_cached db key else mret tt) in mret updated).
Proof.
  intros n e Hn. unfold bind at 1, on_kv, zoom.
  destruct (expire key ttl _ e) as [[r t'] e'] eqn:Hrun. apply expire_rows in Hrun as [He Hr].
  destruct r as [[]|err]; unfold drop_cached, bind, modify, mret.
  - by apply (from_invalidate w db key n e e' t').
  - subst t'. by apply (from_same w db n e).
  - subst t'. by apply (from_same w db n e).
Qed.

Lemma from_incr w db key d ttl :
  preserves (coherent_from w)
    (let! value := on_kv db (incr key d ttl) in do! drop_cached db key in mret value).
Proof.
  intros n e Hn. unfold bind at 1, on_kv, zoom.
  destruct (incr key d ttl _ e) as [[r t'] e'] eqn:Hrun.
  apply (incr_rows clock_mono) in Hrun as [He Hr].
  destruct r as [v|err]; unfold drop_cached, bind, modify, mret.
  - by apply (from_invalidate w db key n e e' t').
  - destruct Hn as [Hw Hc]. split; [lia|]. intros Hwin. specialize (Hc (window_shorter _ _ _ He Hwin)).
    eapply (coherent_update db n); [exact Hc|exact He|..].
    + intros db' Hne. by rewrite cell_of_insert_ne.
    + done.
    + intros k v HX Hv. rewrite cell_of_insert. simpl.
      eapply entry_ok_decays; [done| |exact Hr|by apply Hc]. by apply clock_le.
Qed.

(** ** Every operation *)

Lemma sql_clock req q (s : SqlState U) e : e_clock (execute_sql_quota req q s e).2 = e_clock e.
Proof. rewrite execute_sql_run. by destruct (statement_effect _ _ _). Qed.

Lemma tx_clock sts q (u : U) e : e_clock (execute_transaction sts q (mkSqlState u false None) e).2 = e_clock e.
Proof.
  destruct sts as [|st l]; [done|]. rewrite sql_transaction_run by done.
  destruct (begin_tx u); [|done]. destruct (statements_effect _ _ _) as [[rs|err] u']; [by destruct (commit_tx u')|].
  by rewrite (drop_rolls_back _ e u).
Qed.

(** ** Runs *)

(** A Cell that is not vouched for may get any content. *)
Lemma from_any_file w db f : db ∈ X -> (forall db', db' <> db -> forall m : gmap DatabaseId (CellDb U), f m !! db' = m !! db') ->
  preserves (coherent_from w) (modify (E:=CombeeError) (set_files f)).
Proof.
  intros HX Hf n e [Hw Hc]. split; [done|]. intros Hwin. eapply (coherent_update db n); [by apply Hc|done|..].
  - intros db' Hne. unfold cell_of. simpl. by rewrite Hf.
  - done.
  - by intros k v HnX.
Qed.

Lemma from_remove w db err side : db ∈ X -> preserves (coherent_from w) (remove_file_set err db side).
Proof.
  intros HX. pose proof (coherent_closed w) as HI. unfold remove_file_set. pres.
  all: try by apply (pres_fallible HI).
  apply (from_any_file w db); [done|]. intros db' Hne m. by rewrite lookup_delete_ne.
Qed.

(** Requests that neither reset nor delete a Cell that is vouched for. *)
Definition spares (op : NodeOp) : Prop :=
  match op with NReset db | NDelete db => db ∈ X | _ => True end.

Lemma run_coherent w op : spares op -> preserves (coherent_from w) (run_node cfg op).
Proof.
  intros Hop. pose proof (coherent_closed w) as HI.
  destruct op; simpl; unfold discard, kv_get, kv_set, kv_del, kv_exists,
    kv_mget, kv_mset, kv_ttl, kv_expire, kv_incr, kv_scan, node_execute_sql,
    node_execute_transaction, maintenance_tick, mget_miss, reset_database, node_delete_database,
    manager_delete_database, remove_files, close_database;
    repeat first [ apply (pres_with_conn cfg HI) | apply (pres_timeout cfg HI)
      | apply from_read_fill | apply from_set_and_cache | apply from_del | apply from_expire
      | apply from_incr | apply from_lookup | apply from_fence | apply from_evict | apply from_clear
      | by apply from_remove
      | apply from_on_sql; intros; first [apply sql_clock | apply tx_clock]
      | apply from_on_kv; first [apply exists_reads | apply (ttl_reads key) | apply scan_reads
          | apply (gc_reads clock_mono)]
      | pres_step ].
Qed.

End coherence.

(** ** Cells that lose and regain trust *)

Section trust.
Context {env : Env} `{UuidText} {U : Type} `{CellFiles U} `{SqlEngine U} (cfg : DataNodeConfig).
Context (D : Z).
Implicit Types (n : Node U) (X : gset DatabaseId).

Lemma coherent_mono X Y w n e : X ⊆ Y -> coherent_from D X w n e -> coherent_from D Y w n e.
Proof. intros HXY [Hw Hc]. split; [done|]. intros Hwin db key v HY. apply (Hc Hwin). set_solver. Qed.

(** Once its entries are dropped, a Cell can be vouched for again. *)
Lemma clear_trusts X w db :
  hoare (coherent_from D X w) (clear_cache (U:=U) db) (fun _ n e => coherent_from D (X ∖ {[db]}) w n e).
Proof.
  intros n e [Hw Hc]. split; [done|]. intros Hwin db' key v HX. simpl. rewrite cache_clear_database_lookup. simpl.
  destruct (decide (db' = db)) as [->|Hne]; [done|]. intros Hv. apply (Hc Hwin db' key v); [set_solver|done].
Qed.

Definition no_entries (db : DatabaseId) n (_ : Eff) : Prop :=
  forall k, cache_inner (cache n) !! (db, k) = None.

Lemma no_entries_remove db err side : preserves (no_entries db) (remove_file_set err db side).
Proof.
  unfold remove_file_set. pres; intros n e Hn; try done; unfold fallible; by destruct (fault _).
Qed.

Lemma cleared_trusts X w db n e :
  coherent_from D (X ∪ {[db]}) w n e -> no_entries db n e -> coherent_from D (X ∖ {[db]}) w n e.
Proof.
  intros [Hw Hc] Hno. split; [done|]. intros Hwin db' key v HX Hv.
  destruct (decide (db' = db)) as [->|]; [by rewrite Hno in Hv|]. apply (Hc Hwin); [set_solver|done].
Qed.

Lemma drop_conn_ok db n e : (drop_conn (U:=U) db n e).1.1 = Ok tt.
Proof.
  unfold drop_conn, bind, gets. destruct (conns n !! db); [|done]. unfold modify, ignore.
  by destruct (checkpoint _ e) as [[r n'] e'].
Qed.

Hypothesis (HD : 0 <= D).
Hypothesis clock_mono : forall i, clock i <= clock (S i).
Hypothesis clock_range : forall i, 0 <= clock i <= I64_MAX.

(** RESET drops the entries before it touches the files: however it ends,
    none is left. *)
Lemma reset_trusts X w db :
  hoare (coherent_from D X w) (reset_database (U:=U) db) (fun _ n e => coherent_from D (X ∖ {[db]}) w n e).
Proof.
  intros n e Hn. apply (coherent_mono X (X ∪ {[db]})) in Hn; [|set_solver].
  unfold reset_database, close_database. unfold bind at 1.
  pose proof (drop_conn_ok db n e) as Hok.
  pose proof (pres_drop_conn (coherent_closed D HD (X ∪ {[db]}) clock_mono w) db n e Hn) as Hdrop.
  destruct (drop_conn db n e) as [[r n1] e1]. simpl in Hok. subst r. unfold bind, clear_cache, modify.
  set (n2 := set_cache _ n1). set (err := fun m => _).
  assert (coherent_from D (X ∪ {[db]}) w n2 e1) as Hn2 by exact (from_clear D HD (X ∪ {[db]}) clock_mono w db n1 e1 Hdrop).
  assert (no_entries db n2 e1) as Hno.
  { intros k. simpl. rewrite cache_clear_database_lookup. simpl. by rewrite decide_True. }
  pose proof (from_remove D HD (X ∪ {[db]}) clock_mono w db err ["-wal"; "-shm"; "-journal"]%string
    ltac:(set_solver) n2 e1 Hn2) as Hco.
  pose proof (no_entries_remove db err ["-wal"; "-shm"; "-journal"]%string n2 e1 Hno) as Hno'.
  destruct (remove_file_set _ _ _ n2 e1) as [[r n3] e3]. by apply cleared_trusts.
Qed.

(** Deleting a Cell drops its entries last, and only when the files are gone. *)
Lemma delete_trusts X w db :
  hoare (coherent_from D X w) (node_delete_database cfg db)
    (fun r n e => coherent_from D (if is_Ok r then X ∖ {[db]} else X ∪ {[db]}) w n e).
Proof.
  intros n e Hn. apply (coherent_mono X (X ∪ {[db]})) in Hn; [|set_solver]. revert n e Hn.
  change (hoare (coherent_from D (X ∪ {[db]}) w) (node_delete_database cfg db)
    (fun r n e => coherent_from D (if is_Ok r then X ∖ {[db]} else X ∪ {[db]}) w n e)).
  unfold node_delete_database, manager_delete_database, remove_files.
  apply (hoare_bind _ _ _ (fun _ => coherent_from D (X ∪ {[db]}) w)).
  - apply preserves_bind; [apply (pres_drop_conn (coherent_closed D HD (X ∪ {[db]}) clock_mono w))|intros _].
    apply from_remove; [done|done|set_solver].
  - intros _ n e Hn. pose proof (clear_trusts (X ∪ {[db]}) w db n e Hn) as Hclear. simpl in *.
    eapply coherent_mono; [|exact Hclear]. set_solver.
  - done.
Qed.

(** What a request of the node with a given outcome does to the Cells that
    are not vouched for. *)
Definition distrust (op : NodeOp) (ok : bool) X : gset DatabaseId :=
  match op with
  | NReset db => X ∖ {[db]}
  | NDelete db => if ok then X ∖ {[db]} else X ∪ {[db]}
  | _ => X
  end.

Lemma run_trusts X w op :
  hoare (coherent_from D X w) (run_node cfg op) (fun r n e => coherent_from D (distrust op (is_Ok r) X) w n e).
Proof.
  destruct op; try (intros n e Hn; apply (run_coherent cfg D HD X clock_mono clock_range); done).
  - apply reset_trusts.
  - apply delete_trusts.
Qed.

End trust.

(** ** Reads through the cache *)

Section reads.
Context {env : Env} `{UuidText} {U : Type} `{CellFiles U} `{SqlEngine U} (cfg : DataNodeConfig).

(** The table of a Cell while its connection is opened and closed. *)
Lemma table_closed db t i :
  closed (fun (n : Node U) e => cell_kv (cell_of db n) = t /\ (i <= e_clock e)%nat).
Proof.
  split; try done; [intros n e [? ?]; split; [done|simpl; lia]|].
  intros db' n e [Ht Hi]. split; [|done]. rewrite <- Ht. f_equal.
  unfold cell_of. simpl. destruct (decide (db' = db)) as [->|]; [by rewrite lookup_insert_eq|].
  by rewrite lookup_insert_ne.
Qed.

(** What a closure run on the connection sees, and what the caller gets. *)
Lemma with_conn_run {A} db (f : M (Node U) CombeeError A) n e r n' e' :
  with_conn cfg db f n e = (r, n', e') ->
  (exists err, r = Err err) \/
  exists n1 e1 n2 e2, cell_kv (cell_of db n1) = cell_kv (cell_of db n) /\
    (e_clock e <= e_clock e1)%nat /\ f n1 e1 = (r, n2, e2) /\ e_clock e' = e_clock e2.
Proof.
  intros Hrun. unfold with_conn, bind at 1, read_instant in Hrun. unfold bind at 1, gets in Hrun.
  pose proof (table_closed db (cell_kv (cell_of db n)) (e_clock e)) as HI.
  unfold bind at 1 in Hrun.
  set (m1 := match conns n !! db with Some _ => mret tt | None => _ end) in Hrun.
  assert (preserves (fun n0 e0 => cell_kv (cell_of db n0) = cell_kv (cell_of db n) /\
    (e_clock e <= e_clock e0)%nat) m1) as Hp.
  { unfold m1. destruct (conns n !! db); [apply preserves_ret|by apply pres_activate]. }
  specialize (Hp n (bump_instant e) (conj eq_refl (le_n _))).
  destruct (m1 n (bump_instant e)) as [[[[]|err] n1] e1].
  - destruct Hp as [Ht He]. unfold bind, attempt in Hrun. destruct (f n1 e1) as [[r2 n2] e2] eqn:Hf.
    unfold read_instant, modify, mlift in Hrun. simplify_eq. right.
    exists n1, e1, n2, e2. done.
  - simplify_eq. left. by eexists.
Qed.

Lemma kv_get_answers (db : DatabaseId) (key : string) (n : Node U) (e : Eff) :
  (forall i, fault i = None) -> is_Some (conns n !! db) ->
  (forall row, cell_kv (cell_of db n) !! key = Some row -> utf8_valid (row_value row) = true) ->
  is_Ok (kv_get cfg db key n e).1.1 = true.
Proof.
  intros Hfault [used Hopen] Htext. unfold kv_get, bind at 1, node_now, read_clock.
  unfold bind at 1, cache_lookup. destruct (cache_get _ _ _ _) as [[entry|] c]; [done|].
  unfold with_conn, bind, read_instant, gets, attempt, mret, mlift. simpl. rewrite Hopen.
  unfold on_kv, zoom. simpl.
  match goal with |- context [read_with_expiry key ?t ?e0] =>
    pose proof (read_with_expiry_answers Hfault key t e0 Htext) as Hread;
    destruct (read_with_expiry key t e0) as [[r t'] e1] end.
  by destruct r as [[[value exp]|]|err].
Qed.

(** What GET returns, from the cache or from SQLite, on a node whose cached
    entries of the Cell are backed: the live value of the key at one of its
    own clock readings; or, up to [D] seconds after the stored entry has
    expired, still the cached one. *)
Lemma kv_get_reads D (X : gset DatabaseId) (db : DatabaseId) (key : string) (n : Node U) (e : Eff) :
  (forall i, clock i <= clock (S i)) -> (forall i, 0 <= clock i <= I64_MAX) ->
  D <= I64_MAX -> coherent D X n e -> db ∉ X ->
  let '(r, _, e') := kv_get cfg db key n e in
  forall o, r = Ok o ->
    (exists i, (e_clock e <= i < e_clock e')%nat /\
       entry_value <$> o = fst <$> view (clock i) (cell_kv (cell_of db n)) !! key) \/
    (exists v left, o = Some (mkKvEntry v (Some left)) /\ 0 < left <= D /\
       view (clock (e_clock e)) (cell_kv (cell_of db n)) !! key = None).
Proof.
  intros Hmono Hrange HD Hcoh HX. destruct (kv_get cfg db key n e) as [[r n'] e'] eqn:Hrun. intros o ->.
  unfold kv_get, bind at 1, node_now, read_clock in Hrun. unfold bind at 1, cache_lookup in Hrun.
  destruct (cache_get db key (clock (e_clock e)) (cache n)) as [[entry|] c] eqn:Hc.
  - apply cache_get_Some in Hc as (v & Hv & Hx & -> & _). unfold mret in Hrun. simplify_eq.
    apply Hcoh in Hv; [|done]. specialize (Hrange (e_clock e)).
    assert (forall b, cached_expires_at v = Some b -> b <= clock (e_clock e) + D ->
      view (clock (e_clock e)) (cell_kv (cell_of db n)) !! key = None ->
      exists v0 left, Some (mkKvEntry (cached_value v) (ttl_or_remaining (cached_expires_at v) (clock (e_clock e)))) =
        Some (mkKvEntry v0 (Some left)) /\ 0 < left <= D /\
        view (clock (e_clock e)) (cell_kv (cell_of db n)) !! key = None) as Hlate.
    { intros b Hb Hle Hnone. rewrite Hb in *. simpl in *. exists (cached_value v), (b - clock (e_clock e)).
      assert (clock (e_clock e) < b) by (destruct (Z.leb_spec b (clock (e_clock e))); [done|lia]).
      unfold i64_sub. rewrite wrap_i64_id by (unfold is_i64, I64_MIN, I64_MAX in *; lia).
      rewrite Z.max_l by lia. split; [done|]. split; [lia|done]. }
    destruct Hv as [(row & Hk & Hval & Hb)|(Hk & x & Hcx & Hle)]; simpl in *.
    + destruct (row_expires_at row) as [a|] eqn:Ha, (cached_expires_at v) as [b|] eqn:Hcb; simpl in *; try done.
      * destruct (Z.leb_spec a (clock (e_clock e))) as [Hexp|Hlive].
        -- right. apply (Hlate b eq_refl); [lia|]. rewrite lookup_view, Hk. simpl. rewrite Ha. simpl.
           destruct (Z.leb_spec a (clock (e_clock e))); [done|lia].
        -- left. exists (e_clock e). split; [simpl; lia|]. rewrite lookup_view, Hk. simpl. rewrite Ha. simpl.
           destruct (Z.leb_spec a (clock (e_clock e))); [lia|]. simpl. by rewrite Hval.
      * left. exists (e_clock e). split; [simpl; lia|]. rewrite lookup_view, Hk. simpl. rewrite Ha. simpl. by rewrite Hval.
    + right. apply (Hlate x Hcx Hle). by rewrite lookup_view, Hk.
  - left. apply with_conn_run in Hrun as [[err [=]]|(n1 & e1 & n2 & e2 & Ht & He1 & Hf & He')].
    simpl in He1. unfold bind at 1, read_clock in Hf. unfold bind at 1, on_kv, zoom in Hf.
    destruct (read_with_expiry key (cell_kv (cell_of db n1)) (bump_clock e1)) as [[ro t'] e3] eqn:Hread.
    apply read_with_expiry_spec in Hread as ([Hc3 _] & Hok & _). simpl in Hc3.
    change (cell_of db (set_cache (fun _ => c) n)) with (cell_of db n) in Ht. rewrite Ht in Hok.
    exists (S (e_clock e1)).
    destruct ro as [[[value exp]|]|err]; unfold fill_cache, bind, modify, mret in Hf; simplify_eq/=;
      (split; [lia|]); by rewrite <- (Hok _ eq_refl).
Qed.

(** TTL of a persistent key: SQLite answers -1, but once the entry is
    cached the same request answers as for a key that does not exist. *)
Theorem kv_ttl_persistent_hit (db : DatabaseId) (key value : string) (row : KvRow)
    (n : Node U) (e : Eff) :
  cell_kv (cell_of db n) !! key = Some row -> row_expires_at row = None ->
  cache_inner (cache n) !! (db, key) = Some (mkCachedValue value None) ->
  fault (e_call e) = None ->
  (ttl key (cell_kv (cell_of db n)) e).1.1 = Ok (Some (-1)) /\
  (kv_ttl cfg db key n e).1.1 = Ok None.
Proof.
  intros Hk Hrow Hc Hf. split.
  - unfold ttl, bind, unix_now, read_clock. rewrite read_row_run. simpl. rewrite Hf.
    unfold sql_select_row. rewrite Hk. simpl. by rewrite Hrow.
  - unfold kv_ttl, bind, node_now, read_clock, cache_lookup, cache_get. by rewrite Hc.
Qed.

End reads.

(** The clock of the examples. *)
Lemma env_still_mono i : clock (Env:=env_still) i <= clock (Env:=env_still) (S i).
Proof. simpl. lia. Qed.
Lemma env_still_range i : 0 <= clock (Env:=env_still) i <= I64_MAX.
Proof. simpl. unfold I64_MAX. lia. Qed.
