(* ===== verification/NodeThreads.v ===== *)
(** crates/data-node under concurrency: requests as tasks that interleave.
    A request is asynchronous code: it runs up to an await, waits for the lock
    of its Cell ([manager.rs], [acquire_lock]), hands a closure to a blocking
    worker and waits for it. The closure runs with the connection table
    locked, so closures never overlap; look-ups in the cache and the checks
    before a write take no lock and fall between any two steps of a closure.
    A request can be dropped at any await (its client went away, its timer
    fired): its guard is released, its closure runs on. *)

From Stdlib Require Import ZArith Lia String Ascii.
From stdpp Require Import gmap strings list fin_maps relations.
From S2P Require Import Prelude Common Kv SqlGate Sql Cache Manager DataNode NodeInv.

(** What a request answers. *)
Inductive NodeReply :=
| RUnit
| RBool (b : bool)
| RInt (z : Z)
| ROptInt (o : option Z)
| REntry (o : option KvEntry)
| RValues (l : list (option string))
| RScan (r : RpcKvScanResult)
| RSql (r : SqlResult)
| RTx (l : list SqlResult).

(** ** Lock statistics *)

Record LockStats := mkLockStats {
  total_wait_ns : Z;
  samples : Z;
  max_wait_ns : Z;
  max_queue_depth : Z;
}.

Definition avg_wait_ns (s : LockStats) : Z :=
  if decide (samples s = 0) then 0 else total_wait_ns s / samples s.

(** The atomic counters of the manager: the snapshot's four and the number of
    requests in the queue. *)
Record LockCounters := mkLockCounters {
  lock_wait_ns : Z;
  lock_wait_samples : Z;
  lock_wait_max_ns : Z;
  lock_queue : Z;
  lock_queue_max : Z;
}.

Definition lock_stats (c : LockCounters) : LockStats :=
  mkLockStats (lock_wait_ns c) (lock_wait_samples c) (lock_wait_max_ns c) (lock_queue_max c).

Definition reset_lock_stats (_ : LockCounters) : LockCounters := mkLockCounters 0 0 0 0 0.

(** The first half of [acquire_lock], before the await. *)
Definition count_arrival (c : LockCounters) : LockCounters :=
  let queue := u64_add (lock_queue c) 1 in
  mkLockCounters (lock_wait_ns c) (lock_wait_samples c) (lock_wait_max_ns c) queue
    (Z.max (lock_queue_max c) queue).

(** The second half, once the guard is there. *)
Definition count_grant (waited : Z) (c : LockCounters) : LockCounters :=
  mkLockCounters (u64_add (lock_wait_ns c) waited) (u64_add (lock_wait_samples c) 1)
    (Z.max (lock_wait_max_ns c) waited) (wrap_u64 (lock_queue c - 1)) (lock_queue_max c).

(** ** Jobs and tasks *)

Section threads.
Context {env : Env} `{UuidText} {U : Type} `{CellFiles U} `{SqlEngine U} (cfg : DataNodeConfig).

Abbreviation NodeM := (M (Node U) CombeeError).
Abbreviation Outcome := (result CombeeError NodeReply).

(** The code of a blocking worker, cut where other tasks can observe it:
    taking and dropping the connection table's mutex, a step on the open
    connections or the cache, a step on the directory, the removal of the
    Cell's entry in [db_locks]. *)
Inductive Job :=
| JRet (r : Outcome)
| JEnter (on : option DatabaseId) (j : Job)
| JSql (m : Node U -> Eff -> Job * Node U * Eff)
| JLeave (j : Job)
| JPath (m : Node U -> Eff -> Job * Node U * Eff)
| JForget (db : DatabaseId) (j : Job).

(** The code of a request: a step without an await, or a job under the lock
    of its Cell, perhaps with a timer running ([timeout_sql]). *)
Inductive Task :=
| TRet (r : Outcome)
| TStep (m : Node U -> Eff -> Task * Node U * Eff)
| TJob (timer : option string) (db : DatabaseId) (j : Job) (k : Outcome -> Task).

(** The same code with nothing else running. *)
Fixpoint job_alone (j : Job) (n : Node U) (e : Eff) : Outcome * Node U * Eff :=
  match j with
  | JRet r => (r, n, e)
  | JEnter _ j' | JLeave j' | JForget _ j' => job_alone j' n e
  | JSql m | JPath m => match m n e with (j', n', e') => job_alone j' n' e' end
  end.

Definition timed_out (d : string) : CombeeError :=
  SqlError ("query timed out after " +:+ d +:+ " (interrupted)").

Fixpoint task_alone (t : Task) (n : Node U) (e : Eff) : Outcome * Node U * Eff :=
  match t with
  | TRet r => (r, n, e)
  | TStep m => match m n e with (t', n', e') => task_alone t' n' e' end
  | TJob timer _ j k =>
      let '(r, n1, e1) := job_alone j n e in
      match timer with
      | None => task_alone (k r) n1 e1
      | Some d =>
          let '(late, n2, e2) := fallible (fun _ => timed_out d) n1 e1 in
          task_alone (k (match late with Ok _ => r | Err err => Err err end)) n2 e2
      end
  end.

(** ** Building blocks *)

(** A step of a task; an error is an early return ([?]). *)
Definition step {A} (m : NodeM A) (k : A -> Task) : Task :=
  TStep (fun n e =>
    let '(r, n', e') := m n e in
    (match r with Ok a => k a | Err err => TRet (Err err) end, n', e')).

(** A step of a closure, of which [fin] is what follows its end. *)
Definition seg {A} (m : NodeM A) (fin : Outcome -> Job) (k : A -> Job) : Job :=
  JSql (fun n e =>
    let '(r, n', e') := m n e in
    (match r with Ok a => k a | Err err => fin (Err err) end, n', e')).

(** A step outside the mutex; an error ends the job. *)
Definition path_seg {A} (m : NodeM A) (k : A -> Job) : Job :=
  JPath (fun n e =>
    let '(r, n', e') := m n e in
    (match r with Ok a => k a | Err err => JRet (Err err) end, n', e')).

Abbreviation Closure := ((Outcome -> Job) -> Job).

(** [with_conn] before the closure and after it. *)
Definition conn_ready (db : DatabaseId) : NodeM unit :=
  let! now := read_instant in
  let! entry := gets (fun n => conns n !! db) in
  match entry with Some _ => mret tt | None => activate cfg db now end.

Definition conn_touch (db : DatabaseId) : NodeM unit :=
  let! used := read_instant in
  modify (set_conns <[db := used]>).

Definition leave (r : Outcome) : Job := JLeave (JRet r).

(** The blocking half of [with_conn]. *)
Definition conn_job (db : DatabaseId) (f : Closure) : Job :=
  JEnter (Some db)
    (seg (conn_ready db) leave (fun _ =>
       f (fun r => seg (conn_touch db) leave (fun _ => leave r)))).

Definition with_conn_task (timer : option string) (db : DatabaseId) (f : Closure) : Task :=
  TJob timer db (conn_job db f) TRet.

(** A closure of one step. *)
Definition single {A} (m : NodeM A) (reply : A -> NodeReply) : Closure :=
  fun fin => seg m fin (fun a => fin (Ok (reply a))).

(** ** The closures *)

Definition get_closure (db : DatabaseId) (key : string) : Closure := fun fin =>
  seg node_now fin (fun now =>
  seg (on_kv db (read_with_expiry key)) fin (fun row =>
  match row with
  | Some (value, expires_at) =>
      seg (fill_cache db key value expires_at) fin (fun _ =>
      fin (Ok (REntry (Some (mkKvEntry value (ttl_or_remaining expires_at now))))))
  | None => fin (Ok (REntry None))
  end)).

(** Writes the row, then computes the cached expiry from a clock reading of
    its own, then updates the cache. *)
Definition set_steps (db : DatabaseId) (key value : string) (ttl_seconds : option Z)
    (nx xx : bool) (fin : Outcome -> Job) (k : bool -> Job) : Job :=
  seg (on_kv db (set key value ttl_seconds nx xx)) fin (fun written =>
  if written : bool then
    seg node_now fin (fun now =>
    seg (fill_cache db key value (expires_at_from ttl_seconds now)) fin (fun _ => k true))
  else k false).

Definition set_closure (db : DatabaseId) (key value : string) (ttl_seconds : option Z)
    (nx xx : bool) : Closure := fun fin =>
  set_steps db key value ttl_seconds nx xx fin (fun written => fin (Ok (RBool written))).

Definition del_closure (db : DatabaseId) (key : string) : Closure := fun fin =>
  seg (on_kv db (del key)) fin (fun deleted =>
  if deleted : bool then seg (drop_cached db key) fin (fun _ => fin (Ok (RBool deleted)))
  else fin (Ok (RBool deleted))).

Fixpoint mget_steps (db : DatabaseId) (l : list (string * option string))
    (fin : Outcome -> Job) (k : list (option string) -> Job) : Job :=
  match l with
  | [] => k []
  | (_, Some v) :: l' => mget_steps db l' fin (fun out => k (Some v :: out))
  | (key, None) :: l' =>
      seg (on_kv db (read_with_expiry key)) fin (fun row =>
      match row with
      | Some (value, expires_at) =>
          seg (fill_cache db key value expires_at) fin (fun _ =>
          mget_steps db l' fin (fun out => k (Some value :: out)))
      | None => mget_steps db l' fin (fun out => k (None :: out))
      end)
  end.

Definition mget_closure (db : DatabaseId) (l : list (string * option string)) : Closure := fun fin =>
  mget_steps db l fin (fun out => fin (Ok (RValues out))).

Fixpoint mset_closure (db : DatabaseId) (items : list KvSetItem) : Closure := fun fin =>
  match items with
  | [] => fin (Ok RUnit)
  | it :: items' =>
      set_steps db (item_key it) (item_value it) (item_ttl_seconds it) false false fin (fun _ =>
      mset_closure db items' fin)
  end.

Definition expire_closure (db : DatabaseId) (key : string) (ttl_seconds : option Z) : Closure := fun fin =>
  seg (on_kv db (expire key ttl_seconds)) fin (fun updated =>
  if updated : bool then seg (drop_cached db key) fin (fun _ => fin (Ok (RBool updated)))
  else fin (Ok (RBool updated))).

Definition incr_closure (db : DatabaseId) (key : string) (delta : Z) (ttl_seconds : option Z)
    : Closure := fun fin =>
  seg (on_kv db (incr key delta ttl_seconds)) fin (fun value =>
  seg (drop_cached db key) fin (fun _ => fin (Ok (RInt value)))).

(** ** Requests *)

(** The lock-free look-ups of MGET, one after the other. *)
Fixpoint mget_lookups (db : DatabaseId) (now : Z) (keys : list string)
    (k : list (option string) -> Task) : Task :=
  match keys with
  | [] => k []
  | key :: keys' =>
      step (cache_lookup db key now) (fun hit =>
      mget_lookups db now keys' (fun out => k ((entry_value <$> hit) :: out)))
  end.

(** A read that answers from the cache or, on a miss, from SQLite. *)
Definition read_task (db : DatabaseId) (key : string) (answer : KvEntry -> NodeReply) (f : Closure) : Task :=
  step node_now (fun now =>
  step (cache_lookup db key now) (fun hit =>
  match hit with
  | Some entry => TRet (Ok (answer entry))
  | None => with_conn_task None db f
  end)).

(** Checks one item of MSET after the other. *)
Fixpoint mset_checks (items : list KvSetItem) (k : Task) : Task :=
  match items with
  | [] => k
  | it :: items' =>
      step (check_kv_size cfg (item_key it) (item_value it)) (fun _ =>
      step (check_ttl cfg (item_ttl_seconds it)) (fun _ => mset_checks items' k))
  end.

Definition close_job (db : DatabaseId) : Job :=
  JEnter (Some db) (seg (drop_conn db) leave (fun _ => JLeave (JForget db (JRet (Ok RUnit))))).

Definition delete_job (db : DatabaseId) : Job :=
  JEnter (Some db) (seg (drop_conn db) leave (fun _ => JLeave (
    path_seg (remove_files cfg db) (fun _ => JForget db (JRet (Ok RUnit)))))).

(** What follows a job of the manager: [?], then the rest. *)
Definition after (k : Task) (r : Outcome) : Task :=
  match r with Ok _ => k | Err err => TRet (Err err) end.

Definition done : Task := TRet (Ok RUnit).

Definition reset_task (db : DatabaseId) : Task :=
  TJob None db (close_job db) (after (
    step (clear_cache db) (fun _ =>
    step (remove_file_set (fun m => Internal ("reset remove file failed: " +:+ m)) db
            ["-wal"; "-shm"; "-journal"]%string) (fun _ => done)))).

Definition delete_task (db : DatabaseId) : Task :=
  TJob None db (delete_job db) (after (step (clear_cache db) (fun _ => done))).

Definition kv_get_task (db : DatabaseId) (key : string) : Task :=
  read_task db key (fun entry => REntry (Some entry)) (get_closure db key).

Definition kv_exists_task (db : DatabaseId) (key : string) : Task :=
  read_task db key (fun _ => RBool true) (single (on_kv db (exists_ key)) RBool).

Definition kv_ttl_task (db : DatabaseId) (key : string) : Task :=
  read_task db key (fun entry => ROptInt (entry_ttl_seconds entry)) (single (on_kv db (ttl key)) ROptInt).

Definition kv_mget_task (db : DatabaseId) (keys : list string) : Task :=
  step node_now (fun now => mget_lookups db now keys (fun out =>
  if forallb (fun o : option string => match o with Some _ => true | None => false end) out
  then TRet (Ok (RValues out))
  else with_conn_task None db (mget_closure db (zip keys out)))).

Definition kv_scan_task (db : DatabaseId) (prefix : string) (limit : Z) (cursor : string) : Task :=
  with_conn_task None db (single (on_kv db (scan prefix limit cursor)) RScan).

Definition kv_set_task (db : DatabaseId) (key value : string) (ttl_seconds : option Z) (nx xx : bool)
    (generation : Z) : Task :=
  step (check_generation db generation) (fun _ =>
  step (check_writable db) (fun _ =>
  step (check_ttl cfg ttl_seconds) (fun _ =>
  step (check_kv_size cfg key value) (fun _ =>
  step (check_storage cfg db value) (fun _ =>
  with_conn_task None db (set_closure db key value ttl_seconds nx xx)))))).

Definition kv_del_task (db : DatabaseId) (key : string) (generation : Z) : Task :=
  step (check_generation db generation) (fun _ =>
  step (check_writable db) (fun _ => with_conn_task None db (del_closure db key))).

Definition kv_mset_task (db : DatabaseId) (items : list KvSetItem) (generation : Z) : Task :=
  step (check_generation db generation) (fun _ =>
  step (check_writable db) (fun _ =>
  mset_checks items (with_conn_task None db (mset_closure db items)))).

Definition kv_expire_task (db : DatabaseId) (key : string) (ttl_seconds : option Z) (generation : Z) : Task :=
  step (check_generation db generation) (fun _ =>
  step (check_ttl cfg ttl_seconds) (fun _ =>
  step (check_writable db) (fun _ => with_conn_task None db (expire_closure db key ttl_seconds)))).

Definition kv_incr_task (db : DatabaseId) (key : string) (delta : Z) (ttl_seconds : option Z)
    (generation : Z) : Task :=
  step (check_generation db generation) (fun _ =>
  step (check_ttl cfg ttl_seconds) (fun _ =>
  step (check_writable db) (fun _ => with_conn_task None db (incr_closure db key delta ttl_seconds)))).

Definition execute_sql_task (db : DatabaseId) (req : SqlRequest) (generation : Z) : Task :=
  step (check_generation db generation) (fun _ =>
  step (check_writable db) (fun _ =>
  with_conn_task (sql_timeout cfg) db
    (single (on_sql db (execute_sql_quota req (Some (quota cfg)))) RSql))).

Definition execute_transaction_task (db : DatabaseId) (statements : list SqlRequest) (generation : Z) : Task :=
  step (check_generation db generation) (fun _ =>
  step (check_writable db) (fun _ =>
  with_conn_task (sql_timeout cfg) db
    (single (on_sql db (execute_transaction statements (Some (quota cfg)))) RTx))).

Definition ensure_database_task (db : DatabaseId) : Task :=
  with_conn_task None db (single (fallible SqlError) (fun _ => RUnit)).

(** The tasks of the requests; maintenance and shutdown are jobs. *)
Definition request (op : NodeOp) : option Task :=
  match op with
  | NGet db key => Some (kv_get_task db key)
  | NExists db key => Some (kv_exists_task db key)
  | NTtl db key => Some (kv_ttl_task db key)
  | NMget db keys => Some (kv_mget_task db keys)
  | NScan db prefix limit cursor => Some (kv_scan_task db prefix limit cursor)
  | NSet db key value ttl nx xx g => Some (kv_set_task db key value ttl nx xx g)
  | NDel db key g => Some (kv_del_task db key g)
  | NMset db items g => Some (kv_mset_task db items g)
  | NExpire db key ttl g => Some (kv_expire_task db key ttl g)
  | NIncr db key d ttl g => Some (kv_incr_task db key d ttl g)
  | NSql db req g => Some (execute_sql_task db req g)
  | NTx db sts g => Some (execute_transaction_task db sts g)
  | NEnsure db => Some (ensure_database_task db)
  | NReset db => Some (reset_task db)
  | NDelete db => Some (delete_task db)
  | NFence db g => Some (step (fence_cell db g) (fun _ => done))
  | NLookup db key => Some (step node_now (fun now => step (cache_lookup db key now) (fun _ => done)))
  | NEvict k => Some (step (modify (set_cache (cache_remove k))) (fun _ => done))
  | NMaintenance | NShutdown => None
  end.

(** The background jobs: a maintenance tick, and the shutdown. *)
Definition background (op : NodeOp) : option Job :=
  match op with
  | NMaintenance =>
      Some (JEnter None (seg (maintenance_tick cfg) leave (fun _ => leave (Ok RUnit))))
  | NShutdown => Some (JEnter None (seg close_all leave (fun _ => leave (Ok RUnit))))
  | _ => None
  end.

(** The sequential operation with its answer. *)
Definition replies {A} (f : A -> NodeReply) (m : NodeM A) : NodeM NodeReply :=
  let! a := m in mret (f a).

Definition run_reply (op : NodeOp) : NodeM NodeReply :=
  match op with
  | NGet db k => replies REntry (kv_get cfg db k)
  | NSet db k v ttl nx xx g => replies RBool (kv_set cfg db k v ttl nx xx g)
  | NDel db k g => replies RBool (kv_del cfg db k g)
  | NExists db k => replies RBool (kv_exists cfg db k)
  | NMget db ks => replies RValues (kv_mget cfg db ks)
  | NMset db items g => replies (fun _ => RUnit) (kv_mset cfg db items g)
  | NTtl db k => replies ROptInt (kv_ttl cfg db k)
  | NExpire db k ttl g => replies RBool (kv_expire cfg db k ttl g)
  | NIncr db k d ttl g => replies RInt (kv_incr cfg db k d ttl g)
  | NScan db p l c => replies RScan (kv_scan cfg db p l c)
  | NSql db req g => replies RSql (node_execute_sql cfg db req g)
  | NTx db sts g => replies RTx (node_execute_transaction cfg db sts g)
  | _ => replies (fun _ => RUnit) (run_node cfg op)
  end.

End threads.

(** Opens the definitions of the tasks. *)
Ltac unfold_tasks :=
  unfold kv_get_task, kv_exists_task, kv_ttl_task, kv_mget_task, kv_scan_task, kv_set_task, kv_del_task,
    kv_mset_task, kv_expire_task, kv_incr_task, execute_sql_task, execute_transaction_task,
    ensure_database_task, read_task, reset_task, delete_task, done.
