(* ===== verification/NodePrivacy.v ===== *)
(** Confidentiality between Cells: what the requests on one Cell are answered
    does not depend on the requests on the others. The development is one of
    two runs: a relation between nodes, [same_cell], which says that they look
    the same to the owner of one Cell; requests on that Cell answer alike from
    nodes so related, and requests on other Cells cannot be told from none. *)

From Stdlib Require Import ZArith Lia String Ascii.
From stdpp Require Import gmap strings list fin_maps.
From S2P Require Import Prelude Common Kv KvSpec SqlGate Sql SqlSpec Cache Manager DataNode NodeInv NodeCapacity NodeSafety NodeThreads.

(** ** Two runs of one computation *)

(** From states related by [R] the computation has the same result, and ends
    in states related by [R], also when other readings came before. *)
Definition agree {S E A} (R : S -> S -> Prop) (m : M S E A) : Prop :=
  forall s1 s2 e1 e2, R s1 s2 ->
    (m s1 e1).1.1 = (m s2 e2).1.1 /\ R (m s1 e1).1.2 (m s2 e2).1.2.

Section agree.
Context {S E : Type} {R : S -> S -> Prop}.

Lemma agree_ret {A} (a : A) : agree (E:=E) R (mret a).
Proof. by intros s1 s2 e1 e2 HR. Qed.

Lemma agree_fail {A} (err : E) : agree R (mfail (A:=A) err).
Proof. by intros s1 s2 e1 e2 HR. Qed.

Lemma agree_lift {A} (r : result E A) : agree R (mlift r).
Proof. by intros s1 s2 e1 e2 HR. Qed.

Lemma agree_gets {A} (f : S -> A) : (forall s1 s2, R s1 s2 -> f s1 = f s2) -> agree (E:=E) R (gets f).
Proof. intros Hf s1 s2 e1 e2 HR. simpl. split; [by rewrite (Hf s1 s2)|done]. Qed.

Lemma agree_modify f : (forall s1 s2, R s1 s2 -> R (f s1) (f s2)) -> agree (E:=E) R (modify f).
Proof. intros Hf s1 s2 e1 e2 HR. split; [done|]. by apply Hf. Qed.

Lemma agree_bind {A B} (m : M S E A) (k : A -> M S E B) :
  agree R m -> (forall a, agree R (k a)) -> agree R (bind m k).
Proof.
  intros Hm Hk s1 s2 e1 e2 HR. unfold bind. specialize (Hm s1 s2 e1 e2 HR).
  destruct (m s1 e1) as [[[a|err] t1] d1], (m s2 e2) as [[[b|err'] t2] d2]; simpl in Hm;
    destruct Hm as [Heq Ht]; simplify_eq; [by apply Hk | done].
Qed.

Lemma agree_attempt {A} (m : M S E A) : agree R m -> agree R (attempt m).
Proof.
  intros Hm s1 s2 e1 e2 HR. unfold attempt. specialize (Hm s1 s2 e1 e2 HR).
  destruct (m s1 e1) as [[r1 t1] d1], (m s2 e2) as [[r2 t2] d2]. simpl in *.
  split; [f_equal|]; apply Hm.
Qed.

Lemma agree_ignore {A} (m : M S E A) : agree R m -> agree R (ignore m).
Proof.
  intros Hm s1 s2 e1 e2 HR. unfold ignore. specialize (Hm s1 s2 e1 e2 HR).
  destruct (m s1 e1) as [[r1 t1] d1], (m s2 e2) as [[r2 t2] d2]. split; [done|]. apply Hm.
Qed.

Lemma agree_mfor {A} (l : list A) body : (forall x, agree R (body x)) -> agree (E:=E) R (mfor l body).
Proof. intros Hb. induction l; [apply agree_ret|]. by apply agree_bind. Qed.

Lemma agree_mmap {A B} (l : list A) (body : A -> M S E B) :
  (forall x, agree R (body x)) -> agree R (mmap l body).
Proof.
  intros Hb. induction l; [apply agree_ret|]. apply agree_bind; [done|]. intros b.
  apply agree_bind; [done|]. intros bs. apply agree_ret.
Qed.

(** A computation that sees only what the states share. *)
Lemma agree_zoom {T A} (get : S -> T) put (m : M T E A) :
  agree eq m -> (forall s1 s2, R s1 s2 -> get s1 = get s2) ->
  (forall t s1 s2, R s1 s2 -> R (put t s1) (put t s2)) -> agree R (zoom get put m).
Proof.
  intros Hm Hget Hput s1 s2 e1 e2 HR. unfold zoom.
  specialize (Hm (get s1) (get s2) e1 e2 (Hget _ _ HR)).
  destruct (m (get s1) e1) as [[r1 t1] d1], (m (get s2) e2) as [[r2 t2] d2].
  destruct Hm as [Hr Ht]. simpl in *. subst. auto.
Qed.

End agree.

(** The clock does not move and nothing fails while the request runs. *)
Definition still (env : Env) : Prop :=
  (forall n, fault n = None) /\ forall i j, clock i = clock j.

Section agree_env.
Context {env : Env} (Hstill : still env) {S E : Type} {R : S -> S -> Prop}.

Lemma agree_fallible (err : string -> E) : agree R (fallible err).
Proof using Hstill. intros s1 s2 e1 e2 HR. unfold fallible. by rewrite !(proj1 Hstill). Qed.

Lemma agree_clock : agree (E:=E) R read_clock.
Proof using Hstill. intros s1 s2 e1 e2 HR. simpl. split; [|done]. f_equal. apply Hstill. Qed.

Lemma agree_exec {A} (stmt : KvTable -> A * KvTable) : agree eq (exec stmt).
Proof using Hstill.
  apply agree_bind; [intros s1 s2 e1 e2 HR; unfold fallible; by rewrite !(proj1 Hstill)|].
  intros _ t1 t2 e1 e2 ->. by destruct (stmt t2).
Qed.

Lemma agree_query {A} (stmt : KvTable -> A) : agree eq (query stmt).
Proof using Hstill.
  apply agree_bind; [intros s1 s2 e1 e2 HR; unfold fallible; by rewrite !(proj1 Hstill)|].
  intros _. apply agree_gets. by intros ? ? ->.
Qed.

End agree_env.

Create HintDb two_runs discriminated.
#[export] Hint Resolve agree_ret agree_fail agree_lift agree_fallible agree_clock agree_exec agree_query : two_runs.

(** Splits a two-run goal along the structure of a computation. *)
Ltac agr_step :=
  match goal with
  | |- agree _ (bind _ _) => apply agree_bind; [|intros ?]
  | |- agree _ (match ?x with _ => _ end) => destruct x eqn:?
  | |- agree _ (if ?x then _ else _) => destruct x eqn:?
  | |- agree _ (mfor _ _) => apply agree_mfor; intros ?
  | |- agree _ (mmap _ _) => apply agree_mmap; intros ?
  | |- agree _ (ignore _) => apply agree_ignore
  | |- agree _ (attempt _) => apply agree_attempt
  | |- agree _ _ => solve [eauto with two_runs]
  end.
Ltac agr := repeat agr_step.

(** ** The operations on one Cell's tables *)

Section tables.
Context {env : Env} (Hstill : still env) {U : Type} `{SqlEngine U}.

Lemma agree_read_with_expiry key : agree eq (read_with_expiry key).
Proof using Hstill. unfold read_with_expiry, unix_now, read_row, del. agr. Qed.

Lemma agree_set key value t nx xx : agree eq (set key value t nx xx).
Proof using Hstill. unfold set, unix_now. agr. Qed.

Lemma agree_del key : agree eq (del key).
Proof using Hstill. unfold del. agr. Qed.

Lemma agree_exists key : agree eq (exists_ key).
Proof using Hstill. unfold exists_, unix_now, read_row. agr. Qed.

Lemma agree_ttl key : agree eq (ttl key).
Proof using Hstill. unfold ttl, unix_now, read_row. agr. Qed.

Lemma agree_expire key t : agree eq (expire key t).
Proof using Hstill. unfold expire, unix_now. agr. apply agree_exists. Qed.

Lemma agree_incr key d t : agree eq (incr key d t).
Proof using Hstill. unfold incr, unix_now, read_row, del. agr. Qed.

Lemma agree_scan prefix limit cursor : agree eq (scan prefix limit cursor).
Proof using Hstill. unfold scan, unix_now. agr. Qed.

Lemma agree_read {T E A} (f : T -> A) : agree (E:=E) eq (gets f).
Proof. apply agree_gets. by intros ? ? ->. Qed.

Lemma agree_write {T E} (f : T -> T) : agree (E:=E) eq (modify f).
Proof. apply agree_modify. by intros ? ? ->. Qed.

Lemma agree_scoped {A} (m : M (SqlState U) CombeeError A) d : agree eq m -> agree eq d -> agree eq (scoped m d).
Proof.
  intros Hm Hd s1 s2 e1 e2 ->. unfold scoped. specialize (Hm s2 s2 e1 e2 eq_refl).
  destruct (m s2 e1) as [[r1 t1] f1], (m s2 e2) as [[r2 t2] f2]. destruct Hm as [Hr Ht]. simpl in *. subst.
  specialize (Hd t2 t2 f1 f2 eq_refl). destruct (d t2 f1) as [[q1 u1] g1], (d t2 f2) as [[q2 u2] g2]. by destruct Hd.
Qed.

Lemma agree_scoped_until {A} (m : M (SqlState U) CombeeError A) d :
  agree eq m -> agree eq d -> agree eq (scoped_until_moved m d).
Proof.
  intros Hm Hd s1 s2 e1 e2 ->. unfold scoped_until_moved. specialize (Hm s2 s2 e1 e2 eq_refl).
  destruct (m s2 e1) as [[[a|err] t1] f1], (m s2 e2) as [[r2 t2] f2]; destruct Hm as [Hr Ht]; simpl in *; subst; [done|].
  specialize (Hd t2 t2 f1 f2 eq_refl). destruct (d t2 f1) as [[q1 u1] g1], (d t2 f2) as [[q2 u2] g2]. by destruct Hd.
Qed.

Lemma agree_on_data {A} (f : U -> result string A * U) : agree eq (on_data f).
Proof. intros s1 s2 e1 e2 ->. unfold on_data. by destruct (f _) as [[a|err] u]. Qed.

#[local] Hint Resolve agree_read agree_write agree_on_data : two_runs.

Lemma agree_execute_sql req q : agree eq (execute_sql_quota req q).
Proof. intros s1 s2 e1 e2 ->. rewrite !execute_sql_run. by destruct (statement_effect _ _ _). Qed.

Lemma agree_tx_statement op : agree eq (tx_statement (U:=U) op).
Proof. unfold tx_statement, authorized, tx_control, sql_fail. agr. Qed.

Lemma agree_tx_drop : agree eq (tx_drop (U:=U)).
Proof. unfold tx_drop. agr. apply agree_tx_statement. Qed.

Lemma agree_leave {A} (m : M (SqlState U) CombeeError A) : agree eq m -> agree eq (leave_user_sql m).
Proof.
  intros Hm. unfold leave_user_sql, with_guard, guard_set, user_guard_drop, set_active. agr.
  apply agree_scoped; [done|]. apply agree_write.
Qed.

Lemma agree_transaction sts q : agree eq (execute_transaction sts q).
Proof.
  unfold execute_transaction. destruct sts as [|s sts]; [apply agree_fail|].
  apply agree_bind; [apply agree_leave, agree_tx_statement|intros _].
  apply agree_bind; [|intros results; apply agree_bind; [|intros _; apply agree_ret]].
  - apply agree_scoped_until; [apply agree_mmap; intros st; apply agree_execute_sql | apply agree_tx_drop].
  - apply agree_leave, agree_scoped; [apply agree_tx_statement | apply agree_tx_drop].
Qed.

End tables.

#[export] Hint Resolve agree_read_with_expiry agree_set agree_del agree_exists agree_ttl agree_expire
  agree_incr agree_scan agree_execute_sql agree_transaction : two_runs.

(** ** Nodes that look the same to the owner of one Cell *)

Section cell.
Context {U : Type} (db : DatabaseId).
Implicit Types n : Node U.

(** A Cell with an open connection has been opened: its file is there and its
    manifest has been written. *)
Definition steady n : Prop :=
  is_Some (conns n !! db) -> is_Some (files n !! db) /\ manifests n !! db = Some (Some 1).

(** Equal in all that belongs to the Cell. Whether a connection is open on it
    is not part of this: others can have it evicted. *)
Record same_cell n1 n2 : Prop := {
  same_files : files n1 !! db = files n2 !! db;
  same_manifests : manifests n1 !! db = manifests n2 !! db;
  same_readonly : db ∈ readonly n1 <-> db ∈ readonly n2;
  same_generations : generations n1 !! db = generations n2 !! db;
  same_cached : forall k, cache_inner (cache n1) !! (db, k) = cache_inner (cache n2) !! (db, k);
  steady_l : steady n1;
  steady_r : steady n2;
}.

Definition opened n : Prop := is_Some (files n !! db) /\ manifests n !! db = Some (Some 1).

(** The same, while a critical section runs. *)
Definition same_open n1 n2 : Prop := same_cell n1 n2 /\ opened n1 /\ opened n2.

(** The same, after the connection has been closed. *)
Definition same_closed n1 n2 : Prop :=
  same_cell n1 n2 /\ conns n1 !! db = None /\ conns n2 !! db = None.

Lemma steady_opened n : opened n -> steady n.
Proof. by intros ? _. Qed.

Lemma same_cell_sym n1 n2 : same_cell n1 n2 -> same_cell n2 n1.
Proof. intros []. by split; eauto. Qed.

Lemma same_cell_follow n1 n2 n3 : same_cell n1 n2 -> same_cell n2 n3 -> same_cell n1 n3.
Proof. intros [] []. split; try done; try (etrans; eassumption). intros k. etrans; eauto. Qed.

End cell.

Section privacy.
Context {env : Env} (Hstill : still env) `{UuidText} {U : Type} `{CellFiles U} `{SqlEngine U} (cfg : DataNodeConfig).
(** SQLite never finds a file it has written itself to be damaged. *)
Context (Hsound : forall c, trims_to_ok (quick_check_result c) = true).
Context (Hunlimited : storage_hard_bytes (quota cfg) <= 0).
Context (db : DatabaseId).

Abbreviation NodeM := (M (Node U) CombeeError).
Implicit Types n : Node U.

Lemma same_cell_of n1 n2 : same_cell db n1 n2 -> cell_of db n1 = cell_of db n2.
Proof. intros HR. unfold cell_of. by rewrite (same_files db _ _ HR). Qed.

(** *** Opening *)

(** What a manifest means for opening: the error of [check_format_version]. *)
Definition version_verdict (m : option (option Z)) : result CombeeError unit :=
  match m with
  | Some (Some v) =>
      if CELL_FORMAT_VERSION <? v then
        Err (Internal ("cell " +:+ DatabaseId_to_string db +:+ " uses format_version " +:+
          i64_to_string v +:+ ", this binary supports up to " +:+
          i64_to_string CELL_FORMAT_VERSION +:+ "; upgrade required"))
      else Ok tt
  | _ => Ok tt
  end.

(** The node of [n] with the Cell opened, as far as the Cell goes. *)
Record opens_to n (r : result CombeeError unit) n' : Prop := {
  opens_result : r = version_verdict (manifests n !! db);
  opens_files : files n' !! db = Some (cell_of db n);
  opens_manifests : manifests n' !! db = if is_Ok r then Some (Some 1) else manifests n !! db;
  opens_readonly : readonly n' = readonly n;
  opens_generations : generations n' = generations n;
  opens_cache : cache n' = cache n;
  opens_conns : is_Ok r = false -> conns n' !! db = None;
}.

Lemma evict_lru_closed n e :
  conns n !! db = None ->
  exists n' e', evict_lru n e = (Ok tt, n', e') /\ conns n' !! db = None /\ files n' = files n /\
    manifests n' = manifests n /\ readonly n' = readonly n /\ generations n' = generations n /\
    cache n' = cache n.
Proof using Hstill.
  intros Hc. unfold evict_lru, bind, gets. destruct (min_by_last_used _) as [[v t]|]; [|eauto 10].
  unfold modify, ignore, checkpoint, fallible. rewrite (proj1 Hstill). eexists _, _. split; [done|].
  simpl. split; [|done]. by apply lookup_delete_None; right.
Qed.

Lemma open_run n e : exists e', open_ db n e = (Ok tt, set_files <[db := cell_of db n]> n, e').
Proof using Hstill Hsound.
  unfold open_, init_schema, quick_check, bind, fallible, modify, gets. rewrite !(proj1 Hstill).
  rewrite Hsound. by eexists.
Qed.

Lemma write_manifest_run n e :
  write_manifest cfg db n e = (Ok tt, set_manifests <[db := Some 1]> n, bump_call (bump_clock e)).
Proof using Hstill. unfold write_manifest, bind, read_clock, fallible. by rewrite (proj1 Hstill). Qed.

Lemma activate_opens now n e :
  conns n !! db = None ->
  exists r n' e', activate cfg db now n e = (r, n', e') /\ opens_to n r n'.
Proof using Hstill Hsound.
  intros Hc. unfold activate. unfold bind at 1, gets at 1. unfold bind at 1.
  assert (exists n1 e1, (if (max_active cfg <=? size (conns n))%nat then evict_lru else mret tt) n e
      = (Ok tt, n1, e1) /\ conns n1 !! db = None /\ files n1 = files n /\ manifests n1 = manifests n /\
      readonly n1 = readonly n /\ generations n1 = generations n /\ cache n1 = cache n)
    as (n1 & e1 & -> & Hc1 & Hf1 & Hm1 & Hr1 & Hg1 & Ha1).
  { destruct (_ <=? _)%nat; [by apply evict_lru_closed | by eexists n, e]. }
  destruct (open_run n1 e1) as [e2 Hopen]. unfold bind at 1, attempt. rewrite Hopen.
  unfold bind at 1, check_format_version. unfold bind at 1, gets at 1. simpl. rewrite Hm1.
  assert (cell_of db n1 = cell_of db n) as Hcell by (unfold cell_of; by rewrite Hf1).
  destruct (version_verdict (manifests n !! db)) as [[]|err] eqn:Hv; unfold version_verdict in Hv.
  - destruct (manifests n !! db) as [[v|]|] eqn:Hm; [destruct (_ <? v) eqn:Hlt; [done|]| |]; simpl;
      unfold bind, modify, ignore; rewrite write_manifest_run; simpl;
      (eexists _, _, _; split; [done|]; split; simpl;
        [unfold version_verdict; rewrite Hm, ?Hlt; done
        | by rewrite lookup_insert_eq, Hcell | by rewrite lookup_insert_eq | done..]).
  - destruct (manifests n !! db) as [[v|]|] eqn:Hm; [destruct (_ <? v) eqn:Hlt; [|done]| done | done]; simpl.
    injection Hv as <-. eexists _, _, _. split; [done|]. split; simpl;
      [unfold version_verdict; rewrite Hm, Hlt; done
      | by rewrite lookup_insert_eq, Hcell | by rewrite Hm1 | done..].
Qed.

(** The first half of [with_conn], whether or not the Cell is open. *)
Lemma entry_opens now n e :
  steady db n ->
  exists r n' e',
    (match conns n !! db with Some _ => mret tt | None => activate cfg db now end) n e = (r, n', e') /\
    opens_to n r n'.
Proof using Hstill Hsound.
  intros Hn. destruct (conns n !! db) as [t|] eqn:Hc; [|by apply activate_opens].
  destruct Hn as [[c Hf] Hm]; [by rewrite Hc|]. eexists _, n, e. split; [done|].
  split; try done; [by rewrite Hm | unfold cell_of; by rewrite Hf].
Qed.

Lemma opens_same n1 n2 r1 r2 n1' n2' :
  same_cell db n1 n2 -> opens_to n1 r1 n1' -> opens_to n2 r2 n2' ->
  r1 = r2 /\ if is_Ok r1 then same_open db n1' n2' else same_cell db n1' n2'.
Proof.
  intros HR [A1 B1 C1 D1 E1 F1 G1] [A2 B2 C2 D2 E2 F2 G2].
  assert (r1 = r2) as -> by (by rewrite A1, A2, (same_manifests db _ _ HR)). split; [done|].
  assert (steady db n1' /\ steady db n2') as [Hs1 Hs2].
  { destruct (is_Ok r2); [split; apply steady_opened; split; eauto|].
    split; intros Hopen; [rewrite G1 in Hopen by done | rewrite G2 in Hopen by done]; by destruct Hopen. }
  assert (same_cell db n1' n2') as HR'.
  { split; [by rewrite B1, B2, (same_cell_of n1 n2 HR) | | | | | done | done].
    - rewrite C1, C2. by destruct (is_Ok r2); [|apply HR].
    - rewrite D1, D2. apply HR.
    - rewrite E1, E2. apply HR.
    - rewrite F1, F2. apply HR. }
  destruct (is_Ok r2); [|done]. split; [done|]. split; split; eauto.
Qed.

Lemma with_conn_answer {A} (f : NodeM A) n e :
  with_conn cfg db f n e =
  let '(r, n1, e1) := (match conns n !! db with
      Some _ => mret tt | None => activate cfg db (instant (e_instant e)) end) n (bump_instant e) in
  match r with
  | Ok _ => let '(x, n2, e2) := f n1 e1 in (x, set_conns <[db := instant (e_instant e2)]> n2, bump_instant e2)
  | Err err => (Err err, n1, e1)
  end.
Proof.
  unfold with_conn, bind, read_instant, gets, attempt, modify, mlift. simpl.
  destruct (conns n !! db); [simpl; by destruct (f n (bump_instant e)) as [[x n2] e2]|].
  destruct (activate _ _ _ n _) as [[[[]|err] n1] e1]; [|done]. by destruct (f n1 e1) as [[x n2] e2].
Qed.

Lemma same_cell_used t1 t2 n1 n2 :
  same_open db n1 n2 -> same_cell db (set_conns <[db := t1]> n1) (set_conns <[db := t2]> n2).
Proof. intros ([] & Ho1 & Ho2). split; try done; by apply steady_opened. Qed.

Lemma agree_with_conn {A} (f : NodeM A) :
  agree (same_open db) f -> agree (same_cell db) (with_conn cfg db f).
Proof using Hstill Hsound.
  intros Hf n1 n2 e1 e2 HR. rewrite !with_conn_answer.
  destruct (entry_opens (instant (e_instant e1)) n1 (bump_instant e1)) as (r1 & m1 & d1 & -> & Ho1); [apply HR|].
  destruct (entry_opens (instant (e_instant e2)) n2 (bump_instant e2)) as (r2 & m2 & d2 & -> & Ho2); [apply HR|].
  destruct (opens_same _ _ _ _ _ _ HR Ho1 Ho2) as [-> Hm]. destruct r2 as [[]|err]; [|done]. simpl in Hm.
  specialize (Hf m1 m2 d1 d2 Hm).
  destruct (f m1 d1) as [[x k1] f1], (f m2 d2) as [[y k2] f2]. destruct Hf as [Hx Hk]. simpl in *.
  split; [done|]. by apply same_cell_used.
Qed.

(** *** The steps of a request *)

(** The relations that a request goes through. *)
Definition cell_rel (R : Node U -> Node U -> Prop) : Prop :=
  R = same_cell db \/ R = same_open db.

Lemma cell_rel_same R n1 n2 : cell_rel R -> R n1 n2 -> same_cell db n1 n2.
Proof. intros [-> | ->]; [done|]. by intros []. Qed.

Lemma agree_check_generation g : agree (same_cell (U:=U) db) (check_generation db g).
Proof.
  unfold check_generation. apply agree_bind; [|intros; agr]. apply agree_gets. intros n1 n2 HR.
  by rewrite (same_generations db _ _ HR).
Qed.

Lemma agree_check_writable : agree (same_cell (U:=U) db) (check_writable db).
Proof.
  unfold check_writable. apply agree_bind; [|intros; agr]. apply agree_gets. intros n1 n2 HR.
  unfold is_readonly. apply bool_decide_ext, HR.
Qed.

Lemma agree_check_ttl t : agree (same_cell (U:=U) db) (check_ttl cfg t).
Proof. unfold check_ttl. agr. Qed.

Lemma agree_check_kv_size k v : agree (same_cell (U:=U) db) (check_kv_size cfg k v).
Proof. unfold check_kv_size. agr. Qed.

(** The length of the main file may differ; without a hard limit it is only
    logged. *)
Lemma agree_check_storage v : agree (same_cell (U:=U) db) (check_storage cfg db v).
Proof using Hunlimited.
  unfold check_storage. rewrite (proj2 (Z.ltb_ge 0 _) Hunlimited). apply agree_bind; [apply agree_ret|]. intros _.
  destruct (0 <? _); [|apply agree_ret]. by intros n1 n2 e1 e2 HR.
Qed.

Lemma agree_cache_change R (f : KvCache -> KvCache) :
  cell_rel R ->
  (forall c1 c2, (forall k, cache_inner c1 !! (db, k) = cache_inner c2 !! (db, k)) ->
    forall k, cache_inner (f c1) !! (db, k) = cache_inner (f c2) !! (db, k)) ->
  agree (E:=CombeeError) R (modify (set_cache f)).
Proof.
  intros [-> | ->] Hf; apply agree_modify; intros n1 n2 HR.
  - destruct HR. split; try done. by apply Hf.
  - destruct HR as ([] & Ho1 & Ho2). split; [|done]. split; try done. by apply Hf.
Qed.

Lemma cache_put_same key v x c1 c2 k :
  (forall k, cache_inner c1 !! (db, k) = cache_inner c2 !! (db, k)) ->
  cache_inner (cache_put db key v x c1) !! (db, k) = cache_inner (cache_put db key v x c2) !! (db, k).
Proof. intros Hc. simpl. by rewrite !lookup_insert, Hc. Qed.

Lemma cache_remove_same key c1 c2 k :
  (forall k, cache_inner c1 !! (db, k) = cache_inner c2 !! (db, k)) ->
  cache_inner (cache_remove (db, key) c1) !! (db, k) = cache_inner (cache_remove (db, key) c2) !! (db, k).
Proof. intros Hc. simpl. by rewrite !lookup_delete, Hc. Qed.

Lemma agree_fill R key v x : cell_rel R -> agree R (fill_cache db key v x).
Proof. intros HR. apply agree_cache_change; [done|]. intros c1 c2 Hc k. by apply cache_put_same. Qed.

Lemma agree_drop R key : cell_rel R -> agree R (drop_cached db key).
Proof. intros HR. apply agree_cache_change; [done|]. intros c1 c2 Hc k. by apply cache_remove_same. Qed.

Lemma cache_get_same key now c1 c2 :
  (forall k, cache_inner c1 !! (db, k) = cache_inner c2 !! (db, k)) ->
  (cache_get db key now c1).1 = (cache_get db key now c2).1 /\
  forall k, cache_inner (cache_get db key now c1).2 !! (db, k) =
    cache_inner (cache_get db key now c2).2 !! (db, k).
Proof.
  intros Hc. unfold cache_get. rewrite <- (Hc key).
  destruct (cache_inner c1 !! (db, key)) as [v|]; [destruct (negb _)|]; (split; [done|]); try done.
  intros k. by apply cache_remove_same.
Qed.

Lemma agree_lookup key now : agree (same_cell (U:=U) db) (cache_lookup db key now).
Proof.
  intros n1 n2 e1 e2 HR. unfold cache_lookup.
  destruct (cache_get_same key now (cache n1) (cache n2)) as [H1' H2']; [apply HR|].
  destruct (cache_get db key now (cache n1)) as [r1 c1], (cache_get db key now (cache n2)) as [r2 c2].
  simpl in *. subst. split; [done|]. destruct HR. by split.
Qed.

Lemma same_open_files c n1 n2 :
  same_open db n1 n2 -> same_open db (set_files <[db := c]> n1) (set_files <[db := c]> n2).
Proof.
  intros ([] & [_ Hm1] & [_ Hm2]).
  assert (opened db (set_files <[db := c]> n1)) by (split; [simpl; rewrite lookup_insert_eq; eauto|done]).
  assert (opened db (set_files <[db := c]> n2)) by (split; [simpl; rewrite lookup_insert_eq; eauto|done]).
  split; [|done]. split; try done; [simpl; by rewrite !lookup_insert_eq | by apply steady_opened..].
Qed.

Lemma agree_on_kv {A} (m : M KvTable CombeeError A) : agree eq m -> agree (same_open (U:=U) db) (on_kv db m).
Proof.
  intros Hm. apply agree_zoom; [done| |].
  - intros n1 n2 [HR _]. by rewrite (same_cell_of n1 n2 HR).
  - intros t n1 n2 HR. rewrite (same_cell_of n1 n2 (proj1 HR)). by apply same_open_files.
Qed.

Lemma agree_on_sql {A} (m : M (SqlState U) CombeeError A) : agree eq m -> agree (same_open (U:=U) db) (on_sql db m).
Proof.
  intros Hm. apply agree_zoom; [done| |].
  - intros n1 n2 [HR _]. by rewrite (same_cell_of n1 n2 HR).
  - intros t n1 n2 HR. rewrite (same_cell_of n1 n2 (proj1 HR)). by apply same_open_files.
Qed.

Lemma agree_timeout {A} (m : NodeM A) : agree (same_cell (U:=U) db) m -> agree (same_cell (U:=U) db) (timeout_sql cfg m).
Proof using Hstill. intros Hm. unfold timeout_sql. agr. Qed.

#[local] Hint Resolve agree_check_generation agree_check_writable agree_check_ttl agree_check_kv_size
  agree_check_storage agree_lookup agree_on_kv agree_on_sql agree_timeout agree_with_conn : two_runs.

(** *** Closing and removing *)

Lemma drop_conn_run n e :
  exists n' e', drop_conn db n e = (Ok tt, n', e') /\ conns n' !! db = None /\ files n' = files n /\
    manifests n' = manifests n /\ readonly n' = readonly n /\ generations n' = generations n /\
    cache n' = cache n.
Proof using Hstill.
  unfold drop_conn, bind, gets. destruct (conns n !! db) as [t|] eqn:Hc; [|by eexists n, e].
  unfold modify, ignore, checkpoint, fallible. rewrite (proj1 Hstill). eexists _, _. split; [done|].
  split; [|done]. apply lookup_delete_eq.
Qed.

(** After closing, the rest runs from closed connections. *)
Lemma agree_after_drop {A} (k : NodeM A) :
  agree (same_closed db) k -> agree (same_cell db) (do! drop_conn db in k).
Proof using Hstill.
  intros Hk n1 n2 e1 e2 HR. unfold bind.
  destruct (drop_conn_run n1 e1) as (m1 & d1 & -> & Hc1 & Hf1 & Hm1 & Hr1 & Hg1 & Ha1).
  destruct (drop_conn_run n2 e2) as (m2 & d2 & -> & Hc2 & Hf2 & Hm2 & Hr2 & Hg2 & Ha2).
  assert (same_closed db m1 m2) as HR'.
  { split; [|done]. destruct HR.
    split; rewrite ?Hf1, ?Hf2, ?Hm1, ?Hm2, ?Hr1, ?Hr2, ?Hg1, ?Hg2, ?Ha1, ?Ha2; try done;
      unfold steady; rewrite ?Hc1, ?Hc2; by intros []. }
  destruct (Hk m1 m2 d1 d2 HR') as [Hr [Hc _]]. auto.
Qed.

Lemma agree_clear : agree (same_closed (U:=U) db) (clear_cache db).
Proof.
  apply agree_modify. intros n1 n2 ([] & Hc1 & Hc2). split; [|done]. split; try done.
  intros k. simpl. rewrite !cache_clear_database_lookup. by rewrite !decide_True.
Qed.

Lemma agree_remove_file_set err side : agree (same_closed (U:=U) db) (remove_file_set err db side).
Proof using Hstill.
  unfold remove_file_set. apply agree_bind.
  { apply agree_gets. intros n1 n2 [HR _]. apply HR. }
  intros found. apply agree_bind; [|intros ?; agr]. destruct found; [|apply agree_ret].
  apply agree_bind; [by apply agree_fallible|]. intros ?. apply agree_modify.
  intros n1 n2 ([] & Hc1 & Hc2). split; [|done].
  split; try done; simpl; [by rewrite !lookup_delete_eq | unfold steady; simpl; rewrite ?Hc1, ?Hc2; by intros []..].
Qed.

#[local] Hint Resolve agree_clear agree_remove_file_set : two_runs.

(** *** Requests on the Cell *)

Lemma agree_set_and_cache k v t nx xx : agree (same_open (U:=U) db) (set_and_cache db k v t nx xx).
Proof using Hstill.
  unfold set_and_cache, node_now. agr. apply agree_fill. by right.
Qed.

Lemma agree_reset : agree (same_cell (U:=U) db) (reset_database db).
Proof using Hstill. unfold reset_database, close_database. apply agree_after_drop. agr. Qed.

Lemma agree_delete : agree (same_cell (U:=U) db) (node_delete_database cfg db).
Proof using Hstill.
  intros n1 n2 e1 e2. unfold node_delete_database, manager_delete_database. rewrite !bind_assoc.
  revert n1 n2 e1 e2. change (agree (same_cell (U:=U) db)
    (do! drop_conn db in do! remove_files cfg db in clear_cache db)).
  apply agree_after_drop. unfold remove_files. agr.
Qed.

Lemma agree_fence g : agree (same_cell (U:=U) db) (fence_cell db g).
Proof. apply agree_modify. intros n1 n2 []. split; try done. simpl. by rewrite !lookup_insert_eq. Qed.

(** A request on the Cell answers alike from nodes that are the same to it. *)
Lemma agree_own op : op_db op = Some db -> agree (same_cell (U:=U) db) (run_reply cfg op).
Proof using Hstill Hsound Hunlimited.
  intros Hop. destruct op; simplify_eq/=; unfold replies, discard; (apply agree_bind; [|intros ?; agr]);
    unfold kv_get, kv_set, kv_del, kv_exists, kv_mget, mget_miss, kv_mset, kv_ttl, kv_expire, kv_incr, kv_scan,
      node_execute_sql, node_execute_transaction, ensure_database, node_now;
    repeat first [ apply agree_timeout | apply agree_with_conn | apply agree_set_and_cache
      | apply agree_fill; by right | apply agree_drop; by right
      | apply agree_reset | apply agree_delete | apply agree_fence | agr_step ].
Qed.

(** *** Requests on other Cells *)

Section others.
Context (n0 : Node U).

Definition aside n (_ : Eff) : Prop :=
  manifests n !! db = manifests n0 !! db /\ (db ∈ readonly n <-> db ∈ readonly n0) /\
  (is_Some (conns n !! db) -> is_Some (conns n0 !! db)).

Lemma aside_fallible err : preserves aside (fallible (E:=CombeeError) err).
Proof. intros n e Hn. unfold fallible. by destruct (fault _). Qed.
Lemma aside_next_call : preserves aside (next_call (E:=CombeeError)).
Proof. by intros n e Hn. Qed.
Lemma aside_clock : preserves aside (read_clock (E:=CombeeError)).
Proof. by intros n e Hn. Qed.
Lemma aside_instant : preserves aside (read_instant (E:=CombeeError)).
Proof. by intros n e Hn. Qed.

(** Closing any connection, opening one on another Cell. *)
Lemma aside_conns f : (forall m : gmap DatabaseId Z, is_Some (f m !! db) -> is_Some (m !! db)) ->
  preserves aside (modify (E:=CombeeError) (set_conns f)).
Proof. intros Hf n e (P & Q & R). split; [done|]. split; [done|]. intros Hs. by apply R, Hf. Qed.

Lemma aside_close id : preserves aside (modify (E:=CombeeError) (set_conns (delete id))).
Proof.
  apply aside_conns. intros m. destruct (decide (id = db)) as [->|]; [rewrite lookup_delete_eq|by rewrite lookup_delete_ne].
  by intros [].
Qed.

Lemma aside_keep f : (forall n, manifests (f n) = manifests n) -> (forall n, readonly (f n) = readonly n) ->
  (forall n, conns (f n) = conns n) -> preserves aside (modify (E:=CombeeError) f).
Proof. intros F1 F2 F3 n e Hn. unfold modify, aside. by rewrite F1, F2, F3. Qed.

Lemma aside_on_kv {A} id (m : M KvTable CombeeError A) : preserves aside (on_kv id m).
Proof. intros n e Hn. unfold on_kv, zoom. by destruct (m _ _) as [[r t] e1]. Qed.

Lemma aside_on_sql {A} id (m : M (SqlState U) CombeeError A) : preserves aside (on_sql id m).
Proof. intros n e Hn. unfold on_sql, zoom. by destruct (m _ _) as [[r t] e1]. Qed.

Lemma aside_lookup id k now : preserves aside (cache_lookup id k now).
Proof. intros n e Hn. unfold cache_lookup. by destruct (cache_get _ _ _ _). Qed.

Context (other : DatabaseId) (Hne : other <> db).

Lemma aside_open : preserves aside (modify (E:=CombeeError) (set_manifests <[other := Some 1]>)).
Proof using Hne. intros n e (P & Q & R). split; [|done]. simpl. by rewrite lookup_insert_ne. Qed.

Lemma aside_mark : preserves aside (mark_readonly other).
Proof using Hne. intros n e (P & Q & R). split; [done|]. split; [|done]. simpl. rewrite <- Q. clear -Hne. set_solver. Qed.

Lemma aside_use t : preserves aside (modify (E:=CombeeError) (set_conns <[other := t]>)).
Proof using Hne. apply aside_conns. intros m. by rewrite lookup_insert_ne. Qed.

#[local] Hint Resolve aside_fallible aside_next_call aside_clock aside_instant aside_close aside_on_kv aside_on_sql
  aside_lookup aside_open aside_mark aside_use : combee.

Lemma aside_with_conn {A} (f : NodeM A) : preserves aside f -> preserves aside (with_conn cfg other f).
Proof using Hne.
  intros Hf. unfold with_conn, activate, evict_lru, checkpoint, open_, init_schema, quick_check,
    check_format_version, write_manifest.
  repeat first [ pres_step | by apply aside_keep ].
Qed.

Lemma aside_run op : op_db op = Some other -> preserves aside (run_node cfg op).
Proof using Hne.
  destruct op; intros [= ->]; simpl; unfold discard, kv_get, kv_set, kv_del, kv_exists, kv_mget,
    kv_mset, kv_ttl, kv_expire, kv_incr, kv_scan, node_execute_sql, node_execute_transaction,
    timeout_sql, ensure_database, reset_database, node_delete_database, manager_delete_database,
    remove_files, remove_file_set, close_database, drop_conn, check_generation, check_writable, check_ttl,
    check_kv_size, check_storage, storage_bytes, mget_miss, node_now, checkpoint, set_and_cache, fill_cache, drop_cached,
    clear_cache, fence_cell;
    repeat first [ apply aside_with_conn | by apply aside_keep | pres_step ].
Qed.

End others.

Lemma aside_shutdown n0 : preserves (aside n0) close_all.
Proof.
  unfold close_all. pres; [|apply aside_fallible]. apply aside_conns. intros m. rewrite lookup_empty. by intros [].
Qed.

Lemma replies_state {A} (f : A -> NodeReply) (m : NodeM A) n e : (replies f m n e).1.2 = (m n e).1.2.
Proof. unfold replies, bind. by destruct (m n e) as [[[a|err] n'] e']. Qed.

Lemma discard_state {A} (m : NodeM A) n e : (discard m n e).1.2 = (m n e).1.2.
Proof. unfold discard, bind. by destruct (m n e) as [[[a|err] n'] e']. Qed.

Lemma reply_state op n e : (run_reply cfg op n e).1.2 = (run_node cfg op n e).1.2.
Proof. destruct op; unfold run_reply, run_node; by rewrite replies_state, ?discard_state. Qed.

(** The requests of the Cell's owner. *)
Definition concerns (op : NodeOp) : bool := bool_decide (op_db op = Some db).

Lemma agree_concerned op : concerns op = true -> agree (same_cell (U:=U) db) (run_reply cfg op).
Proof using Hstill Hsound Hunlimited. intros Hop%bool_decide_eq_true. by apply agree_own. Qed.

(** What the node does by itself that the owner may notice: the collector of
    expired keys, and the cache that makes room at the expense of the Cell. *)
Definition disturbs (op : NodeOp) : bool :=
  match op with
  | NMaintenance => true
  | NEvict k => bool_decide (k.1 = db)
  | _ => false
  end.

(** A request that does not concern the Cell cannot be told from none. *)
Lemma unconcerned_same op n e :
  concerns op = false -> disturbs op = false -> steady db n ->
  same_cell db n (run_reply cfg op n e).1.2.
Proof.
  intros Hop Hmt Hn. rewrite reply_state.
  assert (aside n (run_node cfg op n e).1.2 e /\ same_other db n (run_node cfg op n e).1.2 e)
    as [(P & Q & R) (F & G & C)].
  { assert (aside n n e /\ same_other db n n e) as [Ha Ho] by done.
    assert (forall m : NodeM unit, preserves (aside n) m -> preserves (same_other db n) m ->
      aside n (m n e).1.2 e /\ same_other db n (m n e).1.2 e) as Hboth.
    { intros m Hm1 Hm2. specialize (Hm1 n e Ha). specialize (Hm2 n e Ho).
      by destruct (m n e) as [[r n'] e']. }
    destruct (op_db op) as [other|] eqn:Hdb.
    - assert (other <> db) as Hne by (apply bool_decide_eq_false in Hop; congruence).
      apply Hboth; [by apply aside_run with (other := other) | by apply other_run with (db := other)].
    - destruct op as [| | | | | | | | | | | | | | | | | | |[id key]]; try done; apply Hboth.
      + apply aside_shutdown.
      + unfold run_node, close_all, checkpoint. repeat first [apply other_conns | apply other_fallible | pres_step].
      + by apply aside_keep.
      + simpl in Hmt. apply bool_decide_eq_false in Hmt. by apply (other_drop id db n). }
  split; try done; [intros Hopen; rewrite P, F; apply Hn, R, Hopen].
Qed.

End privacy.

(** ** Histories *)

(** A request with the readings it makes of clocks and calls. *)
Abbreviation Event := (Env * NodeOp)%type.

Section histories.
Context `{UuidText} {U : Type} `{CellFiles U} `{SqlEngine U} (cfg : DataNodeConfig).
Implicit Types (n : Node U) (l : list Event).

Definition run_event (ev : Event) n : result CombeeError NodeReply * Node U :=
  (run_reply (env:=ev.1) cfg ev.2 n eff0).1.

(** The node after a history. *)
Fixpoint after l n : Node U :=
  match l with [] => n | ev :: l' => after l' (run_event ev n).2 end.

(** What the owner of a Cell is answered in the course of a history. *)
Fixpoint answers (db : DatabaseId) l n : list (result CombeeError NodeReply) :=
  match l with
  | [] => []
  | ev :: l' =>
      (if concerns db ev.2 then [(run_event ev n).1] else []) ++ answers db l' (run_event ev n).2
  end.

(** The part of a history that concerns a Cell. *)
Definition purge (db : DatabaseId) l : list Event := filter (fun ev => concerns db ev.2 = true) l.

(** Each request runs within one second without a fault, the collector of
    expired keys does not run, and the cache has room for what it holds of the
    Cell. *)
Definition calm (db : DatabaseId) l : Prop := Forall (fun ev => still ev.1 /\ disturbs db ev.2 = false) l.

Context (Hsound : forall c, trims_to_ok (quick_check_result c) = true).
Context (Hunlimited : storage_hard_bytes (quota cfg) <= 0).

Lemma unwinding db l n1 n2 :
  calm db l -> same_cell db n1 n2 ->
  answers db l n1 = answers db (purge db l) n2 /\ same_cell db (after l n1) (after (purge db l) n2).
Proof using Hsound Hunlimited.
  revert n1 n2. induction l as [|[env op] l IH]; intros n1 n2 Hcalm HR; [done|].
  apply Forall_cons in Hcalm as [[Henv Hop] Hcalm]. unfold purge. rewrite filter_cons. simpl in *.
  fold (purge db l). destruct (concerns db op) eqn:Hcon.
  - rewrite decide_True by done. simpl. rewrite Hcon. unfold run_event. simpl.
    destruct (agree_concerned Henv cfg Hsound Hunlimited db op Hcon n1 n2 eff0 eff0 HR) as [Hr Hn].
    destruct (IH _ _ Hcalm Hn) as [Ha Hend]. rewrite Hr, Ha. auto.
  - rewrite decide_False by done. apply IH; [done|]. eapply same_cell_follow; [|exact HR].
    apply same_cell_sym, (unconcerned_same (env:=env) cfg db op n1 eff0 Hcon Hop). apply HR.
Qed.

(** C13: Non-interference between Cells on a node: two histories that differ
    only in what was asked of other Cells, from nodes that differ only in what
    belongs to other Cells, give the owner of a Cell the same answers, errors
    included, and leave the Cell the same. The other requests may have opened,
    evicted, reset, deleted, fenced or filled anything of theirs in between.
    Conditions: each request runs within one second and without a fault, files
    pass SQLite's quick check, no hard storage limit is set (the file length it
    is compared with shrinks and grows with checkpoints, which others cause),
    the cache evicts no entry of the Cell, and the collector of expired keys
    does not run; that it would give the others away is [collector_channel]. *)
Theorem cell_noninterference (db : DatabaseId) l1 l2 n1 n2 :
  calm db l1 -> calm db l2 -> purge db l1 = purge db l2 -> same_cell db n1 n2 ->
  answers db l1 n1 = answers db l2 n2 /\ same_cell db (after l1 n1) (after l2 n2).
Proof using Hsound Hunlimited.
  intros H1' H2' Hpurge HR. destruct (unwinding db l1 n1 n2 H1' HR) as [Ha1 Hs1].
  destruct (unwinding db l2 n2 n2 H2') as [Ha2 Hs2].
  { eapply same_cell_follow; [apply same_cell_sym|]; exact HR. }
  rewrite Ha1, Hpurge, Ha2. split; [done|]. rewrite Hpurge in Hs1.
  eapply same_cell_follow; [exact Hs1 | by apply same_cell_sym].
Qed.

End histories.

(** ** A concrete pair of histories *)

(** Requests at a given second. *)
Definition at_second (t : Z) : Env := {|
  clock _ := t; instant i := t * 10 + Z.of_nat i; fault _ := None; uuid_v4 := N.of_nat |}.

Lemma at_second_still t : still (at_second t).
Proof. done. Qed.

Definition quiet_history : list Event :=
  [(at_second 1000, NSet cell_a "k" "v" None false false 0); (at_second 1002, NGet cell_a "k")].

(** A node that keeps one connection: each request on the other Cell evicts. *)
Definition busy_history : list Event :=
  [(at_second 1000, NSet cell_a "k" "v" None false false 0); (at_second 1001, NSet cell_b "k" "w" None false false 0);
   (at_second 1001, NFence cell_b 3); (at_second 1002, NGet cell_a "k"); (at_second 1003, NDelete cell_b)].

Lemma cell_noninterference_witness :
  answers (H:=decimal_uuid_text) (H0:=plain_files) (H1:=no_engine) sample_config cell_a busy_history Node_new =
  answers (H:=decimal_uuid_text) (H0:=plain_files) (H1:=no_engine) sample_config cell_a quiet_history Node_new.
Proof.
  apply (cell_noninterference (H:=decimal_uuid_text) (H0:=plain_files) (H1:=no_engine) sample_config).
  - reflexivity.
  - discriminate.
  - repeat constructor.
  - repeat constructor.
  - reflexivity.
  - split; try reflexivity; intros [t Ht]; discriminate Ht.
Defined.

Example busy_history_answers :
  answers (H:=decimal_uuid_text) (H0:=plain_files) (H1:=no_engine) sample_config cell_a busy_history Node_new =
  [Ok (RBool true); Ok (REntry (Some (mkKvEntry "v" None)))].
Proof. vm_compute. reflexivity. Qed.

(** ** The collector *)

(** Two histories in which the collector of expired keys runs once. *)
Definition collected (other : list Event) : list Event :=
  [(at_second 1000, NSet cell_a "k" "v" (Some 5) false false 0)] ++ other ++
  [(at_second 1010, NMaintenance); (at_second 1011, NSet cell_a "k" "w" None true false 0)].

(** The condition on the collector is needed: it visits only Cells that are
    open, and SET NX counts a row that has expired and was not collected. So
    whether SET NX succeeds tells one tenant whether another one's requests
    have evicted the connection. *)
Theorem collector_channel :
  answers (H:=decimal_uuid_text) (H0:=plain_files) (H1:=no_engine) sample_config cell_a
    (collected []) Node_new = [Ok (RBool true); Ok (RBool true)] /\
  answers (H:=decimal_uuid_text) (H0:=plain_files) (H1:=no_engine) sample_config cell_a
    (collected [(at_second 1001, NGet cell_b "x")]) Node_new = [Ok (RBool true); Ok (RBool false)].
Proof. vm_compute. auto. Qed.
