(* ===== verification/NodeWorld.v ===== *)
(** The data node as a machine of tasks and jobs ([NodeThreads]): what one
    scheduling step does. A step is named by an [Action]; [exec] refuses an
    action that is not enabled, so a schedule is a list of actions. *)

From Stdlib Require Import ZArith Lia String Ascii.
From stdpp Require Import gmap strings list fin_maps relations.
From S2P Require Import Prelude Common Kv SqlGate Sql Cache Manager DataNode NodeInv NodeThreads.

Arguments JRet {U}.
Arguments JEnter {U}.
Arguments JSql {U}.
Arguments JLeave {U}.
Arguments JPath {U}.
Arguments JForget {U}.
Arguments TRet {U}.
Arguments TStep {U}.
Arguments TJob {U}.

Abbreviation Outcome := (result CombeeError NodeReply).

(** Where a request is. *)
Inductive TaskState (U : Type) :=
| Ready (t : Task (U:=U))
(** waiting for the lock object [lk], which it got from [db_locks] *)
| Waiting (lk : nat) (since : Z) (timer : option string) (db : DatabaseId) (j : Job (U:=U))
    (k : Outcome -> Task (U:=U))
(** holding the guard of [lk], waiting for its worker *)
| Joining (lk : nat) (job : nat) (timer : option string) (db : DatabaseId)
    (k : Outcome -> Task (U:=U))
| Answered (r : Outcome)
(** the future was dropped *)
| Dropped.
Arguments Ready {U}.
Arguments Waiting {U}.
Arguments Joining {U}.
Arguments Answered {U}.
Arguments Dropped {U}.

(** Who holds the connection table: the job, the Cell its closure runs on,
    and the clock reading at which it got it. *)
Record Holder := mkHolder { h_job : nat; h_db : option DatabaseId; h_since : nat }.

Record World (U : Type) := mkWorld {
  w_node : Node U;
  (** files that were removed while a connection had them open *)
  w_unlinked : gmap DatabaseId (CellDb U);
  w_eff : Eff;
  w_locks : gmap DatabaseId nat;
  w_owner : gmap nat nat;
  w_mutex : option Holder;
  w_tasks : gmap nat (TaskState U);
  w_jobs : gmap nat (Job (U:=U));
  w_interrupted : gset nat;
  w_counters : LockCounters;
  w_fresh : nat;
}.
Arguments mkWorld {U}.
Arguments w_node {U}.
Arguments w_unlinked {U}.
Arguments w_eff {U}.
Arguments w_locks {U}.
Arguments w_owner {U}.
Arguments w_mutex {U}.
Arguments w_tasks {U}.
Arguments w_jobs {U}.
Arguments w_interrupted {U}.
Arguments w_counters {U}.
Arguments w_fresh {U}.

Inductive Action :=
| Spawn (tid : nat) (op : NodeOp)
| Background (op : NodeOp)
(** a step of a request's own code; at a job it arrives at the Cell's lock *)
| Advance (tid : nat)
| Grant (tid : nat)
| Work (job : nat)
| Join (tid : nat)
| Timer (tid : nat)
| Drop (tid : nat)
| ResetStats.

Section world.
Context {env : Env} `{UuidText} {U : Type} `{CellFiles U} `{SqlEngine U} (cfg : DataNodeConfig).
Implicit Types w : World U.

Definition set_node (n : Node U) (u : gmap DatabaseId (CellDb U)) (e : Eff) w : World U :=
  mkWorld n u e (w_locks w) (w_owner w) (w_mutex w) (w_tasks w) (w_jobs w) (w_interrupted w)
    (w_counters w) (w_fresh w).
Definition set_task (tid : nat) (s : TaskState U) w : World U :=
  mkWorld (w_node w) (w_unlinked w) (w_eff w) (w_locks w) (w_owner w) (w_mutex w)
    (<[tid := s]> (w_tasks w)) (w_jobs w) (w_interrupted w) (w_counters w) (w_fresh w).
Definition set_jobs (f : gmap nat (Job (U:=U)) -> gmap nat (Job (U:=U))) w : World U :=
  mkWorld (w_node w) (w_unlinked w) (w_eff w) (w_locks w) (w_owner w) (w_mutex w) (w_tasks w)
    (f (w_jobs w)) (w_interrupted w) (w_counters w) (w_fresh w).
Definition set_locks (f : gmap DatabaseId nat -> gmap DatabaseId nat) w : World U :=
  mkWorld (w_node w) (w_unlinked w) (w_eff w) (f (w_locks w)) (w_owner w) (w_mutex w) (w_tasks w)
    (w_jobs w) (w_interrupted w) (w_counters w) (w_fresh w).
Definition set_owner (f : gmap nat nat -> gmap nat nat) w : World U :=
  mkWorld (w_node w) (w_unlinked w) (w_eff w) (w_locks w) (f (w_owner w)) (w_mutex w) (w_tasks w)
    (w_jobs w) (w_interrupted w) (w_counters w) (w_fresh w).
Definition set_mutex (h : option Holder) w : World U :=
  mkWorld (w_node w) (w_unlinked w) (w_eff w) (w_locks w) (w_owner w) h (w_tasks w) (w_jobs w)
    (w_interrupted w) (w_counters w) (w_fresh w).
Definition set_interrupted (f : gset nat -> gset nat) w : World U :=
  mkWorld (w_node w) (w_unlinked w) (w_eff w) (w_locks w) (w_owner w) (w_mutex w) (w_tasks w)
    (w_jobs w) (f (w_interrupted w)) (w_counters w) (w_fresh w).
Definition set_counters (f : LockCounters -> LockCounters) w : World U :=
  mkWorld (w_node w) (w_unlinked w) (w_eff w) (w_locks w) (w_owner w) (w_mutex w) (w_tasks w)
    (w_jobs w) (w_interrupted w) (f (w_counters w)) (w_fresh w).
Definition bump_fresh w : World U :=
  mkWorld (w_node w) (w_unlinked w) (w_eff w) (w_locks w) (w_owner w) (w_mutex w) (w_tasks w)
    (w_jobs w) (w_interrupted w) (w_counters w) (S (w_fresh w)).

Definition world0 : World U :=
  mkWorld Node_new ∅ eff0 ∅ ∅ None ∅ ∅ ∅ (mkLockCounters 0 0 0 0 0) 0.

(** ** Files, names and connections *)

(** A step on the open connections: one whose file was removed still reads
    and writes that file, until it is closed. *)
Definition on_conns {A} (m : Node U -> Eff -> A * Node U * Eff) w : A * World U :=
  let u := w_unlinked w in
  let '(a, n', e') := m (set_files (fun f => u ∪ f) (w_node w)) (w_eff w) in
  let named := filter (fun p => u !! p.1 <> None) (files (w_node w))
                 ∪ filter (fun p => u !! p.1 = None) (files n') in
  let open_ones := filter (fun p => u !! p.1 <> None /\ conns n' !! p.1 <> None) (files n') in
  (a, set_node (set_files (fun _ => named) n') open_ones e' w).

(** A step on the directory: a file that is removed while a connection has it
    open lives on without a name. *)
Definition on_paths {A} (m : Node U -> Eff -> A * Node U * Eff) w : A * World U :=
  let '(a, n', e') := m (w_node w) (w_eff w) in
  let gone := filter (fun p => files n' !! p.1 = None /\ conns n' !! p.1 <> None)
                (files (w_node w)) in
  (a, set_node n' (w_unlinked w ∪ gone) e' w).

(** ** The locks of the Cells *)

(** [db_lock]: the lock object [db_locks] has for the Cell, or a new one. *)
Definition db_lock (db : DatabaseId) w : nat * World U :=
  match w_locks w !! db with
  | Some lk => (lk, w)
  | None => (w_fresh w, bump_fresh (set_locks <[db := w_fresh w]> w))
  end.

(** [acquire_lock] up to its await, *)
Definition arrive (tid : nat) (timer : option string) (db : DatabaseId) (j : Job) (k : Outcome -> Task)
    w : World U :=
  let w1 := set_counters count_arrival w in
  let '(lk, w2) := db_lock db w1 in
  let t0 := instant (e_instant (w_eff w2)) in
  set_task tid (Waiting lk t0 timer db j k)
    (set_node (w_node w2) (w_unlinked w2) (bump_instant (w_eff w2)) w2).

(** and from there on: the guard is the task's, its closure goes to a worker. *)
Definition grant (tid lk : nat) (since : Z) (timer : option string) (db : DatabaseId) (j : Job)
    (k : Outcome -> Task) w : World U :=
  let waited := wrap_u64 (Z.max 0 (instant (e_instant (w_eff w)) - since)) in
  let job := w_fresh w in
  set_task tid (Joining lk job timer db k)
    (set_jobs <[job := j]> (set_owner <[lk := tid]> (set_counters (count_grant waited)
      (set_node (w_node w) (w_unlinked w) (bump_instant (w_eff w)) (bump_fresh w))))).

(** The guard is dropped. *)
Definition release (lk : nat) w : World U := set_owner (delete lk) w.

(** [interrupt]: hits the statement that runs on the Cell's connection. *)
Definition interrupt (db : DatabaseId) w : World U :=
  match w_mutex w with
  | Some h =>
      if decide (h_db h = Some db /\ db ∈ interrupts (w_node w) /\ conns (w_node w) !! db <> None)
      then set_interrupted (fun s => {[h_job h]} ∪ s) w else w
  | None => w
  end.

(** ** Steps *)

Definition advance (tid : nat) w : option (World U) :=
  match w_tasks w !! tid with
  | Some (Ready (TRet r)) => Some (set_task tid (Answered r) w)
  | Some (Ready (TStep m)) => let '(t, w') := on_paths m w in Some (set_task tid (Ready t) w')
  | Some (Ready (TJob timer db j k)) => Some (arrive tid timer db j k w)
  | _ => None
  end.

(** The mutex is taken when it is free; a step of a closure needs it. *)
Definition work (job : nat) w : option (World U) :=
  match w_jobs w !! job with
  | Some (JEnter on j) =>
      match w_mutex w with
      | None => Some (set_jobs <[job := j]> (set_mutex (Some (mkHolder job on (e_clock (w_eff w)))) w))
      | Some _ => None
      end
  | Some (JSql m) =>
      if decide (h_job <$> w_mutex w = Some job) then
        let '(j, w') := on_conns m w in Some (set_jobs <[job := j]> w')
      else None
  | Some (JLeave j) =>
      if decide (h_job <$> w_mutex w = Some job) then
        Some (set_jobs <[job := j]> (set_mutex None w))
      else None
  | Some (JPath m) => let '(j, w') := on_paths m w in Some (set_jobs <[job := j]> w')
  | Some (JForget db j) => Some (set_jobs <[job := j]> (set_locks (delete db) w))
  | _ => None
  end.

Definition join (tid : nat) w : option (World U) :=
  match w_tasks w !! tid with
  | Some (Joining lk job _ _ k) =>
      match w_jobs w !! job with
      | Some (JRet r) => Some (set_task tid (Ready (k r)) (release lk (set_jobs (delete job) w)))
      | _ => None
      end
  | _ => None
  end.

(** The timer of [timeout_sql] fires: the future is dropped, the Cell's
    running statement interrupted, the caller told. *)
Definition fire (tid : nat) w : option (World U) :=
  match w_tasks w !! tid with
  | Some (Waiting _ _ (Some d) db _ k) =>
      Some (interrupt db (set_task tid (Ready (k (Err (timed_out d)))) w))
  | Some (Joining lk _ (Some d) db k) =>
      Some (interrupt db (set_task tid (Ready (k (Err (timed_out d)))) (release lk w)))
  | _ => None
  end.

(** The server drops the request's future. *)
Definition drop (tid : nat) w : option (World U) :=
  match w_tasks w !! tid with
  | Some (Ready _) | Some (Waiting _ _ _ _ _ _) => Some (set_task tid Dropped w)
  | Some (Joining lk _ _ _ _) => Some (set_task tid Dropped (release lk w))
  | _ => None
  end.

Definition exec (a : Action) w : option (World U) :=
  match a with
  | Spawn tid op =>
      match w_tasks w !! tid, request cfg op with
      | None, Some t => Some (set_task tid (Ready t) w)
      | _, _ => None
      end
  | Background op =>
      j ← background cfg op; Some (bump_fresh (set_jobs <[w_fresh w := j]> w))
  | Advance tid => advance tid w
  | Grant tid =>
      match w_tasks w !! tid with
      | Some (Waiting lk since timer db j k) =>
          match w_owner w !! lk with
          | None => Some (grant tid lk since timer db j k w)
          | Some _ => None
          end
      | _ => None
      end
  | Work job => work job w
  | Join tid => join tid w
  | Timer tid => fire tid w
  | Drop tid => drop tid w
  | ResetStats => Some (set_counters reset_lock_stats w)
  end.

Fixpoint run_schedule (l : list Action) w : option (World U) :=
  match l with
  | [] => Some w
  | a :: l' => w' ← exec a w; run_schedule l' w'
  end.

Definition world_step w w' : Prop := exists a, exec a w = Some w'.

(** The worlds a node can be in. *)
Definition world_reachable w : Prop := rtc world_step world0 w.

Lemma run_schedule_rtc l w w' : run_schedule l w = Some w' -> rtc world_step w w'.
Proof.
  revert w. induction l as [|a l IH]; intros w; simpl; [intros [= ->]; apply rtc_refl|].
  destruct (exec a w) as [w1|] eqn:Ha; simpl; [|done]. intros Hl.
  eapply rtc_l; [by exists a|by apply IH].
Qed.

End world.
