(* ===== verification/NodeThreadsSpec.v ===== *)
(** What the tasks of [NodeThreads] do when nothing else runs: cut into steps,
    every request still is the operation of [DataNode]. *)

From Stdlib Require Import ZArith Lia String Ascii Setoid Morphisms.
From stdpp Require Import gmap strings list fin_maps relations.
From S2P Require Import Prelude Common Kv SqlGate Sql Cache Manager DataNode NodeInv NodeThreads NodeWorld.
From S2P Require Import NodeCapacity.

(** ** Computations up to what they do *)

Definition meq {S E A} (m m' : M S E A) : Prop := forall s e, m s e = m' s e.
Infix "≈" := meq (at level 70, no associativity) : combee_scope.

#[export] Instance meq_equivalence {S E A} : Equivalence (meq (S:=S) (E:=E) (A:=A)).
Proof.
  split; [by intros m s e|by intros m m' Hm s e; rewrite Hm|].
  intros m1 m2 m3 H12 H23 s e. by rewrite H12.
Qed.

#[export] Instance bind_proper {S E A B} :
  Proper (meq ==> pointwise_relation A meq ==> meq) (bind (S:=S) (E:=E) (A:=A) (B:=B)).
Proof.
  intros m m' Hm k k' Hk s e. unfold bind. rewrite Hm.
  destruct (m' s e) as [[[a|err] s1] e1]; [apply Hk|done].
Qed.

#[export] Instance attempt_proper {S E A} : Proper (meq ==> meq) (attempt (S:=S) (E:=E) (A:=A)).
Proof. intros m m' Hm s e. unfold attempt. by rewrite Hm. Qed.

Section laws.
Context {S E : Type}.

Lemma bind_assoc_eq {A B C} (m : M S E A) (f : A -> M S E B) (k : B -> M S E C) :
  bind (bind m f) k ≈ bind m (fun a => bind (f a) k).
Proof. intros s e. apply bind_assoc. Qed.

Lemma bind_ret_eq {A B} (a : A) (k : A -> M S E B) : bind (mret a) k ≈ k a.
Proof. done. Qed.

Lemma bind_mret_r {A} (m : M S E A) : bind m mret ≈ m.
Proof. intros s e. unfold bind, mret. by destruct (m s e) as [[[]]]. Qed.

Lemma bind_if {A B} (b : bool) (m m' : M S E A) (k : A -> M S E B) :
  bind (if b then m else m') k ≈ (if b then bind m k else bind m' k).
Proof. by destruct b. Qed.

End laws.

Section alone.
Context {env : Env} `{UuidText} {U : Type} `{CellFiles U} `{SqlEngine U} (cfg : DataNodeConfig).

Abbreviation NodeM := (M (Node U) CombeeError).
Abbreviation Closure := ((Outcome -> Job (U:=U)) -> Job (U:=U)).

(** ** Closures *)

(** The closure in steps does what [m] does. *)
Definition implements (f : Closure) (m : NodeM NodeReply) : Prop :=
  forall fin, job_alone (f fin) ≈ bind (attempt m) (fun r => job_alone (fin r)).

Lemma implements_ret r : implements (fun fin => fin (Ok r)) (mret r).
Proof. by intros fin s e. Qed.

Lemma implements_seg {A} (m : NodeM A) (g : A -> Closure) (h : A -> NodeM NodeReply) :
  (forall a, implements (g a) (h a)) ->
  implements (fun fin => seg m fin (fun a => g a fin)) (bind m h).
Proof.
  intros Hg fin s e. unfold seg, bind at 1, attempt, bind. simpl.
  destruct (m s e) as [[[a|err] s1] e1]; [|done]. rewrite (Hg a fin s1 e1). done.
Qed.

Lemma implements_proper f m m' : m ≈ m' -> implements f m -> implements f m'.
Proof. intros Hm Hf fin. by rewrite <- Hm. Qed.

Lemma implements_single {A} (m : NodeM A) reply : implements (single m reply) (replies reply m).
Proof. apply implements_seg. intros a. apply implements_ret. Qed.

Lemma implements_get db key :
  implements (get_closure db key) (replies REntry (
    let! now := node_now in
    let! row := on_kv db (read_with_expiry key) in
    match row with
    | Some (value, expires_at) =>
        do! fill_cache db key value expires_at in
        mret (Some (mkKvEntry value (ttl_or_remaining expires_at now)))
    | None => mret None
    end)).
Proof.
  eapply implements_proper; [symmetry; unfold replies; rewrite bind_assoc_eq; reflexivity|].
  apply implements_seg. intros now.
  eapply implements_proper; [symmetry; rewrite bind_assoc_eq; reflexivity|].
  apply implements_seg. intros [[v x]|]; [|apply implements_ret].
  eapply implements_proper; [symmetry; rewrite bind_assoc_eq; reflexivity|].
  apply (implements_seg (fill_cache db key v x)). intros _. apply implements_ret.
Qed.

Lemma implements_set_steps db key value ttl nx xx (g : bool -> Closure) h :
  (forall b, implements (g b) (h b)) ->
  implements (fun fin => set_steps db key value ttl nx xx fin (fun b => g b fin))
    (bind (set_and_cache db key value ttl nx xx) h).
Proof.
  intros Hg. eapply implements_proper; [symmetry; unfold set_and_cache; rewrite bind_assoc_eq; reflexivity|].
  apply implements_seg. intros [].
  - eapply implements_proper; [symmetry; rewrite !bind_assoc_eq; reflexivity|].
    apply implements_seg. intros now.
    apply (implements_seg (fill_cache db key value (expires_at_from ttl now))). intros _. apply Hg.
  - apply Hg.
Qed.

(** A step, then a change of the cache when it did something. *)
Lemma implements_write {A} (m : NodeM A) (c : A -> bool) (m' : NodeM unit) (reply : A -> NodeReply) :
  implements (fun fin => seg m fin (fun a =>
      if c a then seg m' fin (fun _ => fin (Ok (reply a))) else fin (Ok (reply a))))
    (replies reply (let! a := m in do! (if c a then m' else mret tt) in mret a)).
Proof.
  eapply implements_proper; [symmetry; unfold replies; rewrite bind_assoc_eq; reflexivity|].
  apply (implements_seg m (fun a fin => if c a then seg m' fin (fun _ => fin (Ok (reply a)))
    else fin (Ok (reply a)))). intros a. destruct (c a).
  - eapply implements_proper; [symmetry; rewrite bind_assoc_eq; reflexivity|].
    apply (implements_seg m'). intros _. apply implements_ret.
  - apply implements_ret.
Qed.

Lemma implements_mget_steps db l (g : list (option string) -> Closure) h :
  (forall out, implements (g out) (h out)) ->
  implements (fun fin => mget_steps db l fin (fun out => g out fin))
    (bind (mmap l (fun ko => mget_miss db ko.1 ko.2)) h).
Proof.
  revert g h. induction l as [|[key [v|]] l IH]; intros g h Hg; [exact (Hg [])|..].
  - eapply implements_proper.
    { symmetry. cbn [mmap]. rewrite bind_assoc_eq. cbn [mget_miss fst snd]. rewrite bind_ret_eq, bind_assoc_eq.
      reflexivity. }
    apply (IH (fun out => g (Some v :: out))). intros out. apply Hg.
  - eapply implements_proper.
    { symmetry. cbn [mmap]. rewrite bind_assoc_eq. cbn [mget_miss fst snd]. rewrite bind_assoc_eq. reflexivity. }
    apply implements_seg. intros [[v x]|].
    + eapply implements_proper; [symmetry; rewrite bind_assoc_eq; reflexivity|].
      apply (implements_seg (fill_cache db key v x)). intros _.
      eapply implements_proper; [symmetry; rewrite bind_ret_eq, bind_assoc_eq; reflexivity|].
      apply (IH (fun out => g (Some v :: out))). intros out. apply Hg.
    + eapply implements_proper; [symmetry; rewrite bind_ret_eq, bind_assoc_eq; reflexivity|].
      apply (IH (fun out => g (None :: out))). intros out. apply Hg.
Qed.

Lemma implements_mset db items :
  implements (mset_closure db items) (replies (fun _ => RUnit) (mfor items (fun it =>
    do! set_and_cache db (item_key it) (item_value it) (item_ttl_seconds it) false false in mret tt))).
Proof.
  induction items as [|it items IH]; [apply implements_ret|].
  eapply implements_proper.
  { symmetry. unfold replies. cbn [mfor]. rewrite !bind_assoc_eq. reflexivity. }
  apply (implements_set_steps _ _ _ _ _ _ (fun _ => mset_closure db items)).
  intros b. exact IH.
Qed.

(** ** Jobs and tasks *)

Lemma conn_job_alone db (f : Closure) m :
  implements f m -> job_alone (conn_job cfg db f) ≈ with_conn cfg db m.
Proof.
  intros Hf s e. unfold conn_job. cbn [job_alone].
  assert (with_conn cfg db m ≈ (do! conn_ready cfg db in
    let! r := attempt m in do! conn_touch db in mlift r)) as Hw.
  { unfold with_conn, conn_ready, conn_touch. rewrite bind_assoc_eq. apply bind_proper; [done|intros now].
    rewrite bind_assoc_eq. apply bind_proper; [done|intros entry]. apply bind_proper; [done|intros _].
    apply bind_proper; [done|intros r]. by rewrite bind_assoc_eq. }
  rewrite (Hw s e).
  unfold seg at 1, bind at 1. cbn [job_alone].
  destruct (conn_ready cfg db s e) as [[[[]|err] s1] e1]; [|done]. rewrite (Hf _ s1 e1).
  unfold bind, attempt. by destruct (m s1 e1) as [[r s2] e2].
Qed.

Lemma step_alone {A} (m : NodeM A) k : task_alone (step m k) ≈ bind m (fun a => task_alone (k a)).
Proof. intros s e. unfold step, bind. cbn [task_alone]. by destruct (m s e) as [[[]]]. Qed.

(** [timeout_sql], with or without a timer. *)
Definition timer_around {A} (timer : option string) (fut : NodeM A) : NodeM A :=
  match timer with
  | Some d =>
      let! r := attempt fut in
      do! fallible (fun _ => timed_out d) in
      mlift r
  | None => fut
  end.

Lemma with_conn_task_alone timer db (f : Closure) m :
  implements f m -> task_alone (with_conn_task cfg timer db f) ≈ timer_around timer (with_conn cfg db m).
Proof.
  intros Hf s e. unfold with_conn_task. cbn [task_alone]. rewrite (conn_job_alone db f m Hf s e).
  destruct timer as [d|]; cbn [timer_around]; unfold bind, attempt;
    destruct (with_conn cfg db m s e) as [[r s1] e1]; [|done].
  unfold fallible. by destruct (fault _).
Qed.

Lemma replies_bind {A B} (f : B -> NodeReply) (m : NodeM A) k :
  replies f (bind m k) ≈ bind m (fun a => replies f (k a)).
Proof. unfold replies. apply bind_assoc_eq. Qed.

Lemma replies_with_conn {A} (f : A -> NodeReply) db m :
  replies f (with_conn cfg db m) ≈ with_conn cfg db (replies f m).
Proof.
  unfold replies, with_conn. rewrite !bind_assoc_eq. apply bind_proper; [done|intros now].
  rewrite !bind_assoc_eq. apply bind_proper; [done|intros entry].
  rewrite !bind_assoc_eq. apply bind_proper; [done|intros _]. intros s e.
  unfold bind, attempt, read_instant, modify, mlift, mret. by destruct (m s e) as [[[]]].
Qed.

Lemma replies_timer {A} (f : A -> NodeReply) timer m :
  replies f (timer_around timer m) ≈ timer_around timer (replies f m).
Proof.
  destruct timer as [d|]; [|done]. intros s e. unfold replies, timer_around, bind, attempt, mlift, mret.
  destruct (m s e) as [[[a|err] s1] e1]; unfold fallible; by destruct (fault _).
Qed.

#[local] Instance timer_proper {A} timer : Proper (meq ==> meq) (timer_around (A:=A) timer).
Proof. intros m m' Hm s e. unfold timer_around. destruct timer; [|apply Hm]. unfold attempt, bind. by rewrite Hm. Qed.

#[local] Instance replies_proper {A} f : Proper (meq ==> meq) (replies (U:=U) (A:=A) f).
Proof. intros m m' Hm s e. unfold replies, bind. by rewrite Hm. Qed.

Lemma conn_task_replies {A} timer db (f : Closure) (reply : A -> NodeReply) m :
  implements f (replies reply m) ->
  task_alone (with_conn_task cfg timer db f) ≈ replies reply (timer_around timer (with_conn cfg db m)).
Proof. intros Hf. rewrite (with_conn_task_alone timer db f _ Hf). by rewrite replies_timer, replies_with_conn. Qed.

Lemma read_task_alone {A} db key answer (f : Closure) (reply : A -> NodeReply) (of_entry : KvEntry -> A) m :
  implements f (replies reply m) -> (forall entry, answer entry = reply (of_entry entry)) ->
  task_alone (read_task cfg db key answer f) ≈ replies reply (
    let! now := node_now in
    let! hit := cache_lookup db key now in
    match hit with Some entry => mret (of_entry entry) | None => with_conn cfg db m end).
Proof.
  intros Hf Ha. unfold read_task. rewrite step_alone, replies_bind.
  apply bind_proper; [done|intros now]. rewrite step_alone, replies_bind.
  apply bind_proper; [done|intros [entry|]].
  - intros s e. cbn [task_alone]. by rewrite Ha.
  - exact (conn_task_replies None db f reply m Hf).
Qed.

Lemma mget_lookups_alone db now keys (k : list (option string) -> Task (U:=U)) :
  task_alone (mget_lookups db now keys k) ≈
  bind (mmap keys (fun key => let! hit := cache_lookup (U:=U) db key now in mret (entry_value <$> hit)))
    (fun out => task_alone (k out)).
Proof.
  revert k. induction keys as [|key keys IH]; intros k; [done|]. cbn [mget_lookups mmap].
  rewrite step_alone, !bind_assoc_eq. apply bind_proper; [done|intros hit].
  rewrite IH, bind_ret_eq, bind_assoc_eq. reflexivity.
Qed.

Lemma mset_checks_alone items (k : Task (U:=U)) :
  task_alone (mset_checks cfg items k) ≈
  (do! mfor items (fun it =>
     do! check_kv_size cfg (item_key it) (item_value it) in check_ttl cfg (item_ttl_seconds it)) in
   task_alone k).
Proof.
  induction items as [|it items IH]; [done|]. cbn [mset_checks mfor].
  rewrite step_alone, !bind_assoc_eq. apply bind_proper; [done|intros _].
  rewrite step_alone. apply bind_proper; [done|intros _]. apply IH.
Qed.

(** Peels one check off a request. *)
Ltac peel := rewrite step_alone, replies_bind; apply bind_proper; [reflexivity|intros ?].

Lemma close_job_alone db : job_alone (close_job (U:=U) db) ≈ replies (fun _ => RUnit) (close_database db).
Proof.
  intros s e. unfold close_job, close_database, replies, seg, bind. cbn [job_alone].
  by destruct (drop_conn db s e) as [[[]]].
Qed.

Lemma delete_job_alone db :
  job_alone (delete_job (U:=U) cfg db) ≈ replies (fun _ => RUnit) (manager_delete_database cfg db).
Proof.
  intros s e. unfold delete_job, manager_delete_database, replies, seg, path_seg, bind.
  cbn [job_alone]. destruct (drop_conn db s e) as [[[]] ]; [|done]. cbn [job_alone]. by destruct (remove_files cfg db _ _) as [[[]]].
Qed.

Lemma after_alone db (j : Job) (m : NodeM unit) (k : Task) (m' : NodeM unit) :
  job_alone j ≈ replies (fun _ => RUnit) m -> task_alone k ≈ replies (fun _ => RUnit) m' ->
  task_alone (TJob None db j (after k)) ≈ replies (fun _ => RUnit) (do! m in m').
Proof.
  intros Hj Hk s e. cbn [task_alone]. rewrite Hj, replies_bind. unfold replies at 1, bind.
  destruct (m s e) as [[[[]|err] s1] e1]; [apply Hk|done].
Qed.

Lemma step_done (m : NodeM unit) : task_alone (step m (fun _ => done)) ≈ replies (fun _ => RUnit) m.
Proof. rewrite step_alone. reflexivity. Qed.

(** Cut at its awaits and at every point where another task could see it,
    each request still computes the operation of the data node: run with
    nothing in between it has the same answer and the same effects, timer,
    early returns and failed statements included. *)
Theorem request_alone (op : NodeOp) (n : Node U) (e : Eff) :
  (forall t, request cfg op = Some t -> task_alone t n e = run_reply cfg op n e) /\
  (forall j, background cfg op = Some j -> job_alone j n e = run_reply cfg op n e).
Proof.
  split; [intros t Ht|intros j Hj].
  - revert n e. change (task_alone t ≈ run_reply cfg op).
    destruct op; simpl in Ht; try discriminate Ht; injection Ht as <-; unfold run_reply;
      unfold kv_set_task, kv_del_task, kv_mset_task, kv_expire_task, kv_incr_task, execute_sql_task,
      execute_transaction_task, kv_mget_task, reset_task, delete_task.
    + apply (read_task_alone db key _ _ REntry Some); [apply implements_get|done].
    + unfold kv_set. do 5 peel. apply (conn_task_replies None), implements_set_steps. intros. apply implements_ret.
    + unfold kv_del. do 2 peel. apply (conn_task_replies None).
      apply (implements_write _ (fun b => b) (drop_cached db key) RBool).
    + apply (read_task_alone db key _ _ RBool (fun _ => true)); [apply implements_single|done].
    + unfold kv_mget. peel. rewrite mget_lookups_alone, replies_bind. apply bind_proper; [done|intros out].
      destruct (forallb _ out); [done|]. apply (conn_task_replies None).
      apply implements_mget_steps. intros. apply implements_ret.
    + unfold kv_mset. do 2 peel. rewrite mset_checks_alone, replies_bind. apply bind_proper; [done|intros _].
      apply (conn_task_replies None), implements_mset.
    + apply (read_task_alone db key _ _ ROptInt entry_ttl_seconds); [apply implements_single|done].
    + unfold kv_expire. do 3 peel. apply (conn_task_replies None).
      apply (implements_write _ (fun b => b) (drop_cached db key) RBool).
    + unfold kv_incr. do 3 peel. apply (conn_task_replies None).
      apply (implements_write _ (fun _ => true) (drop_cached db key) RInt).
    + apply (conn_task_replies None), implements_single.
    + unfold node_execute_sql. do 2 peel. apply (conn_task_replies (sql_timeout cfg)), implements_single.
    + unfold node_execute_transaction. do 2 peel. apply (conn_task_replies (sql_timeout cfg)), implements_single.
    + apply (conn_task_replies None), implements_single.
    + apply after_alone; [apply close_job_alone|]. peel. apply step_done.
    + apply after_alone; [apply delete_job_alone|]. apply step_done.
    + apply step_done.
    + unfold run_node, discard. peel. rewrite step_alone. unfold replies. rewrite bind_assoc_eq. reflexivity.
    + apply step_done.
  - destruct op; simpl in Hj; try discriminate Hj; injection Hj as <-;
      unfold run_reply, run_node, replies, seg, bind; cbn [job_alone].
    + by destruct (maintenance_tick cfg n e) as [[[]]].
    + by destruct (close_all n e) as [[[]]].
Qed.
End alone.
