(* ===== verification/NodeWorldSpec.v ===== *)
(** The machine of [NodeWorld]: locks exclude, nothing deadlocks, every
    request comes to its end. *)

From Stdlib Require Import ZArith Lia String Ascii Wellfounded.
From stdpp Require Import gmap strings list fin_maps relations.
From S2P Require Import Prelude Common Kv SqlGate Sql Cache Manager DataNode NodeInv NodeThreads NodeWorld.

(** ** The shape of jobs *)

Section shape.
Context {U : Type}.
Implicit Types j : Job (U:=U).

(** A job that does not hold the connection table, and one that does: it
    gives it back before it ends. *)
Inductive outside : Job (U:=U) -> Prop :=
| outside_ret r : outside (JRet r)
| outside_enter on j : inside j -> outside (JEnter on j)
| outside_path m : (forall n e, outside (m n e).1.1) -> outside (JPath m)
| outside_forget db j : outside j -> outside (JForget db j)
with inside : Job (U:=U) -> Prop :=
| inside_sql m : (forall n e, inside (m n e).1.1) -> inside (JSql m)
| inside_leave j : outside j -> inside (JLeave j).

(** Every job in the code of a task starts outside. *)
Inductive well_locked : Task (U:=U) -> Prop :=
| wl_ret r : well_locked (TRet r)
| wl_step m : (forall n e, well_locked (m n e).1.1) -> well_locked (TStep m)
| wl_job timer db j k : outside j -> (forall r, well_locked (k r)) -> well_locked (TJob timer db j k).

End shape.

Create HintDb threads discriminated.
#[export] Hint Constructors outside inside well_locked : threads.

Section requests.
Context {env : Env} `{UuidText} {U : Type} `{CellFiles U} `{SqlEngine U} (cfg : DataNodeConfig).

Abbreviation NodeM := (M (Node U) CombeeError).

Lemma inside_seg {A} (m : NodeM A) fin k :
  (forall r, inside (fin r)) -> (forall a, inside (k a)) -> inside (seg m fin k).
Proof. intros Hf Hk. constructor. intros n e. by destruct (m n e) as [[[]]]; simpl. Qed.

Lemma outside_path_seg {A} (m : NodeM A) k : (forall a, outside (k a)) -> outside (path_seg m k).
Proof. intros Hk. constructor. intros n e. destruct (m n e) as [[[]]]; simpl; [done|constructor]. Qed.

Lemma inside_leave_ret r : inside (leave (U:=U) r).
Proof. repeat constructor. Qed.

Lemma well_locked_step {A} (m : NodeM A) k : (forall a, well_locked (k a)) -> well_locked (step m k).
Proof. intros Hk. constructor. intros n e. destruct (m n e) as [[[]]]; simpl; [done|constructor]. Qed.

(** A closure keeps the connection table as long as what follows it does. *)
Definition closure_ok (f : (Outcome -> Job (U:=U)) -> Job (U:=U)) : Prop :=
  forall fin, (forall r, inside (fin r)) -> inside (f fin).

Lemma outside_conn_job db f : closure_ok f -> outside (conn_job cfg db f).
Proof.
  intros Hf. constructor. apply inside_seg; [apply inside_leave_ret|intros _].
  apply Hf. intros r. apply inside_seg; intros; apply inside_leave_ret.
Qed.

Lemma well_locked_conn timer db f : closure_ok f -> well_locked (with_conn_task cfg timer db f).
Proof. intros Hf. constructor; [by apply outside_conn_job|constructor]. Qed.

#[local] Hint Resolve inside_seg inside_leave_ret well_locked_step well_locked_conn
  outside_path_seg outside_conn_job wl_ret : threads.

Ltac closure := intros fin Hfin; repeat first
  [ apply Hfin | apply inside_seg; [exact Hfin|intros ?]
  | match goal with |- inside (match ?x with _ => _ end) => destruct x end ].

Lemma set_steps_inside db key value ttl nx xx fin k :
  (forall r, inside (fin r)) -> (forall b, inside (k b)) ->
  inside (set_steps (U:=U) db key value ttl nx xx fin k).
Proof.
  intros Hf Hk. unfold set_steps. apply inside_seg; [done|]. intros []; [|done].
  apply inside_seg; [done|intros now]. by apply inside_seg.
Qed.

Lemma single_ok {A} (m : NodeM A) reply : closure_ok (single m reply).
Proof. unfold single. closure. Qed.
Lemma get_closure_ok db key : closure_ok (get_closure db key).
Proof. unfold get_closure. closure. Qed.
Lemma set_closure_ok db key value ttl nx xx : closure_ok (set_closure db key value ttl nx xx).
Proof. intros fin Hfin. by apply set_steps_inside. Qed.
Lemma del_closure_ok db key : closure_ok (del_closure db key).
Proof. unfold del_closure. closure. Qed.
Lemma expire_closure_ok db key ttl : closure_ok (expire_closure db key ttl).
Proof. unfold expire_closure. closure. Qed.
Lemma incr_closure_ok db key d ttl : closure_ok (incr_closure db key d ttl).
Proof. unfold incr_closure. closure. Qed.

Lemma mget_closure_ok db l : closure_ok (mget_closure db l).
Proof.
  intros fin Hfin. unfold mget_closure.
  assert (forall k, (forall out, inside (k out)) -> inside (mget_steps db l fin k)) as Hl; [|by apply Hl].
  induction l as [|[key [v|]] l IH]; intros k Hk; simpl; [done|by apply IH|].
  apply inside_seg; [done|]. intros [[v x]|]; [apply inside_seg; [done|intros _]|]; by apply IH.
Qed.

Lemma mset_closure_ok db items : closure_ok (mset_closure db items).
Proof.
  induction items as [|it items IH]; intros fin Hfin; simpl; [done|].
  apply set_steps_inside; [done|]. intros _. by apply IH.
Qed.

#[local] Hint Resolve single_ok get_closure_ok set_closure_ok del_closure_ok expire_closure_ok
  incr_closure_ok mget_closure_ok mset_closure_ok : threads.

Lemma outside_close_job db : outside (close_job (U:=U) db).
Proof. constructor. apply inside_seg; [apply inside_leave_ret|intros _]. repeat constructor. Qed.

Lemma outside_delete_job db : outside (delete_job (U:=U) cfg db).
Proof.
  constructor. apply inside_seg; [apply inside_leave_ret|intros _]. constructor.
  apply outside_path_seg. intros _. repeat constructor.
Qed.

Lemma well_locked_after k r : well_locked k -> well_locked (after (U:=U) k r).
Proof. destruct r; [done|constructor]. Qed.

Lemma well_locked_lookups db now keys (k : list (option string) -> Task (U:=U)) :
  (forall out, well_locked (k out)) -> well_locked (mget_lookups db now keys k).
Proof.
  revert k. induction keys as [|key keys IH]; intros k Hk; simpl; [done|].
  apply well_locked_step. intros hit. apply IH. intros out. apply Hk.
Qed.

Lemma well_locked_checks items (k : Task (U:=U)) : well_locked k -> well_locked (mset_checks cfg items k).
Proof.
  intros Hk. induction items as [|it items IH]; simpl; [done|].
  apply well_locked_step. intros _. by apply well_locked_step.
Qed.

Lemma request_well_locked op t : request cfg op = Some t -> well_locked t.
Proof.
  destruct op; simpl; intros [= <-]; unfold_tasks;
    repeat first [apply well_locked_step; intros ? | apply well_locked_lookups; intros ?
      | apply well_locked_checks | by auto with threads
      | match goal with |- well_locked (match ?x with _ => _ end) => destruct x end].
  - constructor; [apply outside_close_job|]. intros r. apply well_locked_after. auto 6 with threads.
  - constructor; [apply outside_delete_job|]. intros r. apply well_locked_after. auto 6 with threads.
Qed.

Lemma background_outside op j : background cfg op = Some j -> outside j.
Proof.
  destruct op; simpl; intros [= <-]; constructor; apply inside_seg; intros; apply inside_leave_ret.
Qed.

End requests.

(** ** The invariant of the machine *)

Section invariant.
Context {env : Env} `{UuidText} {U : Type} `{CellFiles U} `{SqlEngine U} (cfg : DataNodeConfig).
Implicit Types w : World U.

Definition state_ok (s : TaskState U) : Prop :=
  match s with
  | Ready t => well_locked t
  | Waiting _ _ _ _ j k => outside j /\ forall r, well_locked (k r)
  | Joining _ _ _ _ k => forall r, well_locked (k r)
  | Answered _ | Dropped => True
  end.

(** The guard a request holds, and the worker it waits for. *)
Definition guard_of (s : TaskState U) : option nat :=
  match s with Joining lk _ _ _ _ => Some lk | _ => None end.
Definition worker_of (s : TaskState U) : option nat :=
  match s with Joining _ job _ _ _ => Some job | _ => None end.

Record world_inv w : Prop := {
  wi_guard : forall tid s lk, w_tasks w !! tid = Some s -> guard_of s = Some lk ->
    w_owner w !! lk = Some tid;
  wi_owner : forall lk tid, w_owner w !! lk = Some tid ->
    exists s, w_tasks w !! tid = Some s /\ guard_of s = Some lk;
  wi_worker : forall tid s job, w_tasks w !! tid = Some s -> worker_of s = Some job ->
    is_Some (w_jobs w !! job) /\
    (forall tid' s', w_tasks w !! tid' = Some s' -> worker_of s' = Some job -> tid' = tid);
  wi_tasks : forall tid s, w_tasks w !! tid = Some s -> state_ok s;
  wi_jobs : forall job j, w_jobs w !! job = Some j ->
    if decide (h_job <$> w_mutex w = Some job) then inside j else outside j;
  wi_mutex : forall h, w_mutex w = Some h -> is_Some (w_jobs w !! h_job h);
  wi_fresh : forall job, is_Some (w_jobs w !! job) -> (job < w_fresh w)%nat;
}.

Lemma world0_inv : world_inv (world0 (U:=U)).
Proof. split; intros *; simpl; rewrite ?lookup_empty; try done. Qed.

(** A request moves between states without a guard. *)
Lemma inv_set_task tid s w :
  world_inv w -> guard_of s = None -> worker_of s = None -> state_ok s ->
  (forall s0, w_tasks w !! tid = Some s0 -> guard_of s0 = None) ->
  world_inv (set_task tid s w).
Proof.
  intros [I1 I2 I3 I4 I5 I6 I7] Hg Hw Hok Hold. split; simpl; try done.
  - intros tid' s' lk [[<- <-]|[? ?]]%lookup_insert_Some ?; [congruence|eauto].
  - intros lk tid' Ho. destruct (I2 _ _ Ho) as (s' & Hs & Hlk). exists s'. split; [|done].
    rewrite lookup_insert_ne; [done|]. intros <-. rewrite (Hold _ Hs) in Hlk. done.
  - intros tid' s' job [[<- <-]|[? Hs]]%lookup_insert_Some ?; [congruence|].
    split; [by eapply I3|]. intros tid2 s2 [[<- <-]|[? ?]]%lookup_insert_Some ?; [congruence|].
    by eapply I3.
  - intros tid' s' [[<- <-]|[? ?]]%lookup_insert_Some; eauto.
Qed.

(** A request drops its guard. *)
Lemma inv_release tid lk job timer db k s w :
  world_inv w -> w_tasks w !! tid = Some (Joining lk job timer db k) ->
  guard_of s = None -> worker_of s = None -> state_ok s ->
  world_inv (set_task tid s (release lk w)).
Proof.
  intros [I1 I2 I3 I4 I5 I6 I7] Ht Hg Hw Hok. split; simpl; try done.
  - intros tid' s' lk' [[<- <-]|[? Hs]]%lookup_insert_Some Hlk; [congruence|].
    rewrite lookup_delete_ne; [eauto|]. intros <-. pose proof (I1 _ _ _ Hs Hlk).
    pose proof (I1 _ _ _ Ht eq_refl). congruence.
  - intros lk' tid' [Hne Ho]%lookup_delete_Some. destruct (I2 _ _ Ho) as (s' & Hs & Hlk).
    exists s'. split; [|done]. rewrite lookup_insert_ne; [done|]. intros <-. simplify_eq/=.
  - intros tid' s' job' [[<- <-]|[? Hs]]%lookup_insert_Some ?; [congruence|].
    split; [by eapply I3|]. intros tid2 s2 [[<- <-]|[? ?]]%lookup_insert_Some ?; [congruence|].
    by eapply I3.
  - intros tid' s' [[<- <-]|[? ?]]%lookup_insert_Some; eauto.
Qed.

(** Node, counters and interrupts are no business of the locks. *)
Lemma inv_same w w' :
  w_owner w' = w_owner w -> w_tasks w' = w_tasks w -> w_jobs w' = w_jobs w ->
  w_mutex w' = w_mutex w -> (w_fresh w <= w_fresh w')%nat ->
  world_inv w -> world_inv w'.
Proof.
  intros Ho Ht Hj Hm Hf [I1 I2 I3 I4 I5 I6 I7]. split; rewrite ?Ho, ?Ht, ?Hj, ?Hm; try done.
  intros job Hs. specialize (I7 job Hs). lia.
Qed.

Lemma on_conns_same {A} (m : Node U -> Eff -> A * Node U * Eff) w :
  let w' := (on_conns m w).2 in
  w_owner w' = w_owner w /\ w_tasks w' = w_tasks w /\ w_jobs w' = w_jobs w /\
  w_mutex w' = w_mutex w /\ w_fresh w' = w_fresh w /\ w_locks w' = w_locks w /\
  w_counters w' = w_counters w.
Proof. unfold on_conns. by destruct (m _ _) as [[a n'] e']. Qed.

Lemma on_paths_same {A} (m : Node U -> Eff -> A * Node U * Eff) w :
  let w' := (on_paths m w).2 in
  w_owner w' = w_owner w /\ w_tasks w' = w_tasks w /\ w_jobs w' = w_jobs w /\
  w_mutex w' = w_mutex w /\ w_fresh w' = w_fresh w /\ w_locks w' = w_locks w /\
  w_counters w' = w_counters w.
Proof. unfold on_paths. by destruct (m _ _) as [[a n'] e']. Qed.

Lemma on_conns_inv {A} (m : Node U -> Eff -> A * Node U * Eff) w :
  world_inv w -> world_inv (on_conns m w).2.
Proof. destruct (on_conns_same m w) as (? & ? & ? & ? & Hf & _). apply inv_same; try done. by rewrite Hf. Qed.

Lemma on_paths_inv {A} (m : Node U -> Eff -> A * Node U * Eff) w :
  world_inv w -> world_inv (on_paths m w).2.
Proof. destruct (on_paths_same m w) as (? & ? & ? & ? & Hf & _). apply inv_same; try done. by rewrite Hf. Qed.

Lemma interrupt_same db w :
  let w' := interrupt db w in
  w_owner w' = w_owner w /\ w_tasks w' = w_tasks w /\ w_jobs w' = w_jobs w /\
  w_mutex w' = w_mutex w /\ w_fresh w' = w_fresh w /\ w_locks w' = w_locks w /\
  w_counters w' = w_counters w.
Proof. unfold interrupt. destruct (w_mutex w) as [h|] eqn:Hm; [|done]. by destruct (decide _); simpl. Qed.

Lemma interrupt_inv db w : world_inv w -> world_inv (interrupt db w).
Proof. destruct (interrupt_same db w) as (? & ? & ? & ? & Hf & _). apply inv_same; try done. by rewrite Hf. Qed.

(** A job moves on, the mutex as it was. *)
Lemma inv_set_job job j j' w :
  world_inv w -> w_jobs w !! job = Some j ->
  (if decide (h_job <$> w_mutex w = Some job) then inside j' else outside j') ->
  world_inv (set_jobs <[job := j']> w).
Proof.
  intros [I1 I2 I3 I4 I5 I6 I7] Hj Hok. split; simpl; try done.
  - intros tid s job' Hs Hw. destruct (I3 _ _ _ Hs Hw) as [Hsome Hinj]. split; [|done].
    apply lookup_insert_is_Some. destruct (decide (job = job')); auto.
  - intros job' j1 [[<- <-]|[? ?]]%lookup_insert_Some; [done|by apply I5].
  - intros h Hh. apply lookup_insert_is_Some. destruct (decide (job = h_job h)); auto.
  - intros job' [->|[_ Hs]]%lookup_insert_is_Some; apply I7; [by eexists|done].
Qed.

(** A job takes the mutex, or gives it back. *)
Lemma inv_mutex_job job j j' mo w :
  world_inv w -> w_jobs w !! job = Some j ->
  (forall h, w_mutex w = Some h -> h_job h = job) ->
  match mo with Some h => h_job h = job /\ inside j' | None => outside j' end ->
  world_inv (set_jobs <[job := j']> (set_mutex mo w)).
Proof.
  intros [I1 I2 I3 I4 I5 I6 I7] Hj Hm Hmo. split; simpl; try done.
  - intros tid s job' Hs Hw. destruct (I3 _ _ _ Hs Hw) as [Hsome Hinj]. split; [|done].
    apply lookup_insert_is_Some. destruct (decide (job = job')); auto.
  - intros job' j1 [[<- <-]|[Hne Hj1]]%lookup_insert_Some.
    + destruct mo as [h|]; simpl; [|done]. destruct Hmo as [-> ?]. by rewrite decide_True.
    + specialize (I5 _ _ Hj1). rewrite decide_False in I5.
      * rewrite decide_False; [done|]. destruct mo as [h|]; simpl; [|done]. destruct Hmo as [-> _]. congruence.
      * destruct (w_mutex w) as [h|]; simpl; [|done]. specialize (Hm h eq_refl). congruence.
  - intros h ->. destruct Hmo as [-> _]. apply lookup_insert_is_Some. by left.
  - intros job' [->|[_ Hs]]%lookup_insert_is_Some; apply I7; [by eexists|done].
Qed.

Lemma work_inv job w w' : world_inv w -> work job w = Some w' -> world_inv w'.
Proof.
  intros HI. unfold work. destruct (w_jobs w !! job) as [[r|on j|m|j|m|db j]|] eqn:Hj; try done;
    pose proof (wi_jobs w HI _ _ Hj) as Hok.
  - destruct (w_mutex w) as [h|] eqn:Hm; [done|]. intros [= <-]. simpl in Hok.
    apply (inv_mutex_job job (JEnter on j)); [done|done|by rewrite Hm|]. split; [done|]. by inversion Hok.
  - destruct (decide _) as [Hd|]; [|done]. pose proof (on_conns_inv m w HI) as HI'.
    pose proof (on_conns_same m w) as (_ & _ & Hjobs & Hmx & _). unfold on_conns in *.
    inversion Hok as [m' Hin|]; subst. specialize (Hin (set_files (fun f => w_unlinked w ∪ f) (w_node w)) (w_eff w)).
    destruct (m _ _) as [[j n'] e']. simpl in *. intros [= <-].
    apply (inv_set_job job (JSql m)); [done|by simpl|]. simpl. by rewrite decide_True.
  - destruct (decide _) as [Hd|]; [|done]. intros [= <-].
    apply (inv_mutex_job job (JLeave j)); [done|done| |by inversion Hok].
    intros h Hm. rewrite Hm in Hd. simpl in Hd. congruence.
  - pose proof (on_paths_inv m w HI) as HI'. unfold on_paths in *.
    destruct (decide (h_job <$> w_mutex w = Some job)) as [|Hd]; [by inversion Hok|].
    inversion Hok as [| |m' Hout|]; subst. specialize (Hout (w_node w) (w_eff w)).
    destruct (m _ _) as [[j n'] e']. simpl in *. intros [= <-].
    apply (inv_set_job job (JPath m)); [done|by simpl|]. simpl. by rewrite decide_False.
  - destruct (decide (h_job <$> w_mutex w = Some job)) as [|Hd]; [by inversion Hok|]. intros [= <-].
    apply (inv_set_job job (JForget db j)); [by apply (inv_same w)|done|]. simpl.
    rewrite decide_False by done. by inversion Hok.
Qed.

Lemma advance_inv tid w w' : world_inv w -> advance tid w = Some w' -> world_inv w'.
Proof.
  intros HI. unfold advance. destruct (w_tasks w !! tid) as [[[r|m|timer db j k]| | | |]|] eqn:Ht; try done;
    pose proof (wi_tasks w HI _ _ Ht) as Hok; simpl in Hok.
  - intros [= <-]. apply inv_set_task; try done. intros s0. rewrite Ht. by intros [= <-].
  - pose proof (on_paths_inv m w HI) as HI'. pose proof (on_paths_same m w) as (_ & Htasks & _).
    unfold on_paths in *. inversion Hok as [|m' Hm|]; subst. specialize (Hm (w_node w) (w_eff w)).
    destruct (m _ _) as [[t n'] e']. simpl in *. intros [= <-].
    apply inv_set_task; try done. intros s0. simpl. rewrite Ht. by intros [= <-].
  - intros [= <-]. inversion Hok; subst. unfold arrive, db_lock.
    assert (forall w1, world_inv w1 -> w_tasks w1 = w_tasks w ->
      forall lk t0, world_inv (set_task tid (Waiting lk t0 timer db j k) w1)) as Hset.
    { intros w1 HI1 Htasks lk t0. apply inv_set_task; try done. intros s0. rewrite Htasks, Ht. by intros [= <-]. }
    simpl. destruct (w_locks w !! db) as [lk|]; apply Hset; try done;
      (apply (inv_same w); [done..| |done]; simpl; lia).
Qed.

Lemma grant_inv tid lk since timer db j k w :
  world_inv w -> w_tasks w !! tid = Some (Waiting lk since timer db j k) -> w_owner w !! lk = None ->
  world_inv (grant tid lk since timer db j k w).
Proof.
  intros HI Ht Ho. pose proof (wi_tasks w HI _ _ Ht) as [Hj Hk]. destruct HI as [I1 I2 I3 I4 I5 I6 I7].
  assert (w_jobs w !! w_fresh w = None) as Hfresh.
  { destruct (w_jobs w !! w_fresh w) eqn:E; [|done]. specialize (I7 (w_fresh w) ltac:(by eexists)). lia. }
  assert (forall tid' s job, w_tasks w !! tid' = Some s -> worker_of s = Some job -> job <> w_fresh w) as Hnew.
  { intros tid' s job Hs Hw ->. destruct (I3 _ _ _ Hs Hw) as [[? ?] _]. congruence. }
  split; simpl.
  - intros tid' s lk' [[<- <-]|[Hne Hs]]%lookup_insert_Some Hg.
    + simpl in Hg. injection Hg as ->. apply lookup_insert_eq.
    + rewrite lookup_insert_ne; [eauto|]. intros <-. pose proof (I1 _ _ _ Hs Hg). congruence.
  - intros lk' tid' [[<- <-]|[Hne Hs]]%lookup_insert_Some.
    + eexists. by rewrite lookup_insert_eq.
    + destruct (I2 _ _ Hs) as (s & Hs' & Hg). exists s. split; [|done].
      rewrite lookup_insert_ne; [done|]. intros <-. simplify_eq/=.
  - intros tid' s job [[<- <-]|[Hne Hs]]%lookup_insert_Some Hw; simpl in Hw.
    + injection Hw as <-. split; [rewrite lookup_insert_eq; by eexists|].
      intros tid2 s2 [[<- <-]|[Hne2 Hs2]]%lookup_insert_Some Hw2; [done|]. by destruct (Hnew _ _ _ Hs2 Hw2).
    + destruct (I3 _ _ _ Hs Hw) as [Hsome Hinj]. split.
      { apply lookup_insert_is_Some. destruct (decide (w_fresh w = job)); auto. }
      intros tid2 s2 [[<- <-]|[Hne2 Hs2]]%lookup_insert_Some Hw2; [|by eapply Hinj].
      simpl in Hw2. destruct (Hnew _ _ _ Hs Hw). congruence.
  - intros tid' s [[<- <-]|[Hne Hs]]%lookup_insert_Some; [done|eauto].
  - intros job j' [[<- <-]|[Hne Hs]]%lookup_insert_Some; [|by apply I5]. rewrite decide_False; [done|].
    destruct (w_mutex w) as [h|]; simpl; [|done]. destruct (I6 h eq_refl) as [? ?]. congruence.
  - intros h Hm. apply lookup_insert_is_Some. destruct (I6 h Hm) as [? ?].
    right. split; [|by eexists]. intros Heq. rewrite Heq in Hfresh. congruence.
  - intros job [<-|[_ Hs]]%lookup_insert_is_Some; [lia|]. specialize (I7 job Hs). lia.
Qed.

Lemma join_inv tid w w' : world_inv w -> join tid w = Some w' -> world_inv w'.
Proof.
  intros HI. unfold join. destruct (w_tasks w !! tid) as [[| |lk job timer db k| |]|] eqn:Ht; try done.
  destruct (w_jobs w !! job) as [[r| | | | |]|] eqn:Hj; try done. intros [= <-].
  pose proof (wi_tasks w HI _ _ Ht) as Hk. simpl in Hk.
  pose proof (wi_jobs w HI _ _ Hj) as Hok.
  destruct (decide (h_job <$> w_mutex w = Some job)) as [|Hd]; [by inversion Hok|].
  assert (world_inv (set_task tid (Ready (k r)) (release lk w))) as [I1 I2 I3 I4 I5 I6 I7].
  { eapply inv_release; try done. apply Hk. }
  destruct (wi_worker w HI _ _ _ Ht eq_refl) as [_ Hinj].
  split; simpl in *; try done.
  - intros tid' s' job' Hs Hw. destruct (I3 _ _ _ Hs Hw) as [Hsome Hi]. split; [|done].
    rewrite lookup_delete_ne; [done|]. intros <-.
    apply lookup_insert_Some in Hs as [[<- <-]|[Hne Hs]]; [done|]. by destruct (Hinj _ _ Hs Hw).
  - intros job' j' [_ Hs]%lookup_delete_Some. by apply I5.
  - intros h Hm. rewrite lookup_delete_ne; [eauto|]. intros Heq. rewrite Hm in Hd. simpl in Hd. congruence.
  - intros job' [? [_ Hs]%lookup_delete_Some]. apply I7. by eexists.
Qed.

Lemma exec_inv a w w' : world_inv w -> exec cfg a w = Some w' -> world_inv w'.
Proof.
  intros HI. destruct a as [tid op|op|tid|tid|job|tid|tid|tid|]; simpl.
  - destruct (w_tasks w !! tid) eqn:Ht; [done|]. destruct (request cfg op) as [t|] eqn:Hr; [|done].
    intros [= <-]. apply inv_set_task; try done; [by eapply request_well_locked|]. intros s0. by rewrite Ht.
  - destruct (background cfg op) as [j|] eqn:Hb; [|done]. simpl. intros [= <-]. apply background_outside in Hb.
    pose proof HI as [I1 I2 I3 I4 I5 I6 I7].
    assert (w_jobs w !! w_fresh w = None) as Hfresh.
    { destruct (w_jobs w !! w_fresh w) eqn:E; [|done]. specialize (I7 (w_fresh w) ltac:(by eexists)). lia. }
    split; simpl; try done.
    + intros tid s job Hs Hw. destruct (I3 _ _ _ Hs Hw) as [Hsome Hinj]. split; [|done].
      apply lookup_insert_is_Some. destruct (decide (w_fresh w = job)); auto.
    + intros job j' [[<- <-]|[Hne Hs]]%lookup_insert_Some; [|by apply I5]. rewrite decide_False; [done|].
      destruct (w_mutex w) as [h|]; simpl; [|done]. destruct (I6 h eq_refl) as [? ?]. congruence.
    + intros h Hm. apply lookup_insert_is_Some. destruct (I6 h Hm) as [? ?].
      right. split; [|by eexists]. intros Heq. rewrite Heq in Hfresh. congruence.
    + intros job [<-|[_ Hs]]%lookup_insert_is_Some; [lia|]. specialize (I7 job Hs). lia.
  - by apply advance_inv.
  - destruct (w_tasks w !! tid) as [[| | | |]|] eqn:Ht; try done.
    destruct (w_owner w !! lk) eqn:Ho; [done|]. intros [= <-]. by apply grant_inv.
  - by apply work_inv.
  - by apply join_inv.
  - unfold fire. destruct (w_tasks w !! tid) as [[|lk since [d|] db j k|lk job [d|] db k| |]|] eqn:Ht; try done;
      pose proof (wi_tasks w HI _ _ Ht) as Hok; simpl in Hok; intros [= <-]; apply interrupt_inv.
    + apply inv_set_task; try done; [apply Hok|]. intros s0. rewrite Ht. by intros [= <-].
    + eapply inv_release; try done. apply Hok.
  - unfold drop. destruct (w_tasks w !! tid) as [[|lk since [d|] db j k|lk job [d|] db k| |]|] eqn:Ht; try done;
      intros [= <-]; first [by eapply inv_release | apply inv_set_task; try done; intros s0; rewrite Ht; by intros [= <-]].
  - intros [= <-]. by apply (inv_same w).
Qed.

Lemma reachable_inv w : world_reachable cfg w -> world_inv w.
Proof.
  unfold world_reachable.
  assert (forall w1 w2, rtc (world_step cfg) w1 w2 -> world_inv w1 -> world_inv w2) as Hrtc.
  { intros w1 w2 Hr. induction Hr as [|w1 w2 w3 [a Ha] _ IH]; [done|]. intros HI. by eapply IH, exec_inv. }
  intros Hr. exact (Hrtc _ _ Hr world0_inv).
Qed.

(** ** Exclusion *)

(** The lock object a request has taken from [db_locks], and its Cell. *)
Definition lock_of (s : TaskState U) : option (DatabaseId * nat) :=
  match s with
  | Waiting lk _ _ db _ _ | Joining lk _ _ db _ => Some (db, lk)
  | _ => None
  end.

(** Runs in which [db_locks] loses no entry. *)
Definition keeping_step w w' : Prop := world_step cfg w w' /\ w_locks w ⊆ w_locks w'.

Lemma exec_lock_of a w w' tid s p :
  exec cfg a w = Some w' -> w_tasks w' !! tid = Some s -> lock_of s = Some p ->
  (exists s0, w_tasks w !! tid = Some s0 /\ lock_of s0 = Some p) \/ w_locks w' !! p.1 = Some p.2.
Proof.
  intros Hex Hs Hp.
  assert (forall tid0 s0 w0, w_tasks w0 = w_tasks w -> w_tasks (set_task tid0 s0 w0) !! tid = Some s ->
    lock_of s0 = None \/ (exists s1, w_tasks w !! tid0 = Some s1 /\ lock_of s1 = lock_of s0) ->
    exists s1, w_tasks w !! tid = Some s1 /\ lock_of s1 = Some p) as Hset.
  { intros tid0 s0 w0 Hw0. simpl. rewrite Hw0. intros [[<- <-]|[? ?]]%lookup_insert_Some Hor; [|eauto].
    destruct Hor as [?|(s1 & ? & Heq)]; [congruence|]. exists s1. by rewrite Heq. }
  destruct a as [tid0 op|op|tid0|tid0|job|tid0|tid0|tid0|]; simpl in Hex.
  - destruct (w_tasks w !! tid0); [done|]. destruct (request cfg op); [|done]. injection Hex as <-.
    left. eapply Hset; [|exact Hs|]; auto.
  - destruct (background cfg op); [|done]. simpl in Hex. injection Hex as <-. left. by eexists.
  - unfold advance in Hex. destruct (w_tasks w !! tid0) as [[[r|m|timer db j k]| | | |]|] eqn:Ht; try done.
    + injection Hex as <-. left. eapply Hset; [|exact Hs|]; auto.
    + pose proof (on_paths_same m w) as (_ & Htasks & _). destruct (on_paths m w) as [t w1].
      injection Hex as <-. left. eapply Hset; [|exact Hs|]; auto.
    + injection Hex as <-. unfold arrive, db_lock in *. simpl in *.
      destruct (w_locks w !! db) as [lk|] eqn:Hl; simpl in *;
        (apply lookup_insert_Some in Hs as [[<- <-]|[? ?]]; [|by eauto]); simpl in Hp; injection Hp as <-; right;
        [done|apply lookup_insert_eq].
  - destruct (w_tasks w !! tid0) as [[| | | |]|] eqn:Ht; try done. destruct (w_owner w !! lk); [done|].
    injection Hex as <-. left. eapply Hset; [|exact Hs|]; [done|]. right. by eexists.
  - left. exists s. split; [|done]. revert Hs. unfold work in Hex.
    destruct (w_jobs w !! job) as [[r|on j|m|j|m|db j]|]; try done.
    + destruct (w_mutex w); [done|]. by injection Hex as <-.
    + destruct (decide _); [|done]. pose proof (on_conns_same m w) as (_ & Htasks & _).
      destruct (on_conns m w). injection Hex as <-. simpl in *. by rewrite Htasks.
    + destruct (decide _); [|done]. by injection Hex as <-.
    + pose proof (on_paths_same m w) as (_ & Htasks & _).
      destruct (on_paths m w). injection Hex as <-. simpl in *. by rewrite Htasks.
    + by injection Hex as <-.
  - unfold join in Hex. destruct (w_tasks w !! tid0) as [[| | | |]|] eqn:Ht; try done.
    destruct (w_jobs w !! job) as [[]|]; try done. injection Hex as <-. left. eapply Hset; [|exact Hs|]; auto.
  - left. unfold fire in Hex.
    destruct (w_tasks w !! tid0) as [[|lk since [d|] db j k|lk job [d|] db k| |]|] eqn:Ht; try done;
      injection Hex as <-; revert Hs; match goal with |- context [interrupt ?d ?w1] =>
        destruct (interrupt_same d w1) as (_ & -> & _) end; intros Hs; (eapply Hset; [|exact Hs|]; auto).
  - left. unfold drop in Hex.
    destruct (w_tasks w !! tid0) as [[|lk since timer db j k|lk job timer db k| |]|] eqn:Ht; try done;
      injection Hex as <-; (eapply Hset; [|exact Hs|]; auto).
  - injection Hex as <-. left. by eexists.
Qed.

Lemma keeping_locks w1 w2 :
  rtc keeping_step w1 w2 ->
  (forall tid s p, w_tasks w1 !! tid = Some s -> lock_of s = Some p -> w_locks w1 !! p.1 = Some p.2) ->
  forall tid s p, w_tasks w2 !! tid = Some s -> lock_of s = Some p -> w_locks w2 !! p.1 = Some p.2.
Proof.
  intros Hr. induction Hr as [|w1 w2 w3 [[a Ha] Hsub] _ IH]; [done|]. intros Hi. apply IH.
  intros tid s p Hs Hp. destruct (exec_lock_of a w1 w2 tid s p Ha Hs Hp) as [(s0 & Hs0 & Hp0)|]; [|done].
  eapply lookup_weaken; [|exact Hsub]. by eapply Hi.
Qed.

Lemma keeping_reachable w : rtc keeping_step world0 w -> world_reachable cfg w.
Proof. apply rtc_subrel. by intros w1 w2 [? _]. Qed.

(** C19: the per-Cell lock excludes. However requests interleave, two of them
    never hold the guard of the same lock object, and as long as no entry of
    [db_locks] was removed, two requests for the same Cell never hold a guard
    at the same time. *)
Theorem cell_lock_excludes w tid tid' s s' lk :
  w_tasks w !! tid = Some s -> w_tasks w !! tid' = Some s' ->
  guard_of s = Some lk ->
  (world_reachable cfg w -> guard_of s' = Some lk -> tid = tid') /\
  (rtc keeping_step world0 w -> is_Some (guard_of s') -> fst <$> lock_of s' = fst <$> lock_of s -> tid = tid').
Proof.
  intros Hs Hs' Hg. 
  assert (world_reachable cfg w -> guard_of s' = Some lk -> tid = tid') as Hex.
  { intros Hr Hg'. apply reachable_inv in Hr.
    pose proof (wi_guard w Hr _ _ _ Hs Hg). pose proof (wi_guard w Hr _ _ _ Hs' Hg'). congruence. }
  split; [done|]. intros Hr [lk' Hg'] Hdb. apply Hex; [by apply keeping_reachable|].
  pose proof (keeping_locks world0 w Hr) as Hl. specialize (Hl ltac:(done)).
  destruct s as [| |? ? ? db ?| |]; simplify_eq/=. destruct s' as [| |? ? ? db' ?| |]; simplify_eq/=.
  pose proof (Hl _ _ _ Hs eq_refl) as E1. pose proof (Hl _ _ _ Hs' eq_refl) as E2. simpl in *. congruence.
Qed.

(** ** Progress *)

(** The steps that need neither a new request nor a timer nor a client that
    goes away. *)
Definition progress w w' : Prop :=
  exists a, match a with Advance _ | Grant _ | Work _ | Join _ => True | _ => False end /\
    exec cfg a w = Some w'.

Definition settled w : Prop :=
  (forall tid s, w_tasks w !! tid = Some s -> match s with Answered _ | Dropped => True | _ => False end) /\
  (forall job j, w_jobs w !! job = Some j -> exists r, j = JRet r) /\ w_mutex w = None.

Lemma inside_works job w : world_inv w -> h_job <$> w_mutex w = Some job -> exists w', work job w = Some w'.
Proof.
  intros HI Hm. destruct (w_mutex w) as [h|] eqn:Hh; [|done]. simpl in Hm. injection Hm as <-.
  destruct (wi_mutex w HI h Hh) as [j Hj]. pose proof (wi_jobs w HI _ _ Hj) as Hok.
  rewrite Hh in Hok. simpl in Hok. rewrite decide_True in Hok by done. unfold work. rewrite Hj, Hh. simpl.
  inversion Hok; subst; rewrite decide_True by done; [destruct (on_conns m w)|]; by eexists.
Qed.

Lemma outside_works job j w : w_mutex w = None -> w_jobs w !! job = Some j -> outside j ->
  (exists r, j = JRet r) \/ exists w', work job w = Some w'.
Proof.
  intros Hm Hj Hok. unfold work. rewrite Hj, Hm.
  inversion Hok; subst; [by left; eexists|..]; right; [by eexists|destruct (on_paths m w); by eexists|by eexists].
Qed.

(** Whether some element of a finite map has a decidable property. *)
Lemma map_find {V} (P : V -> Prop) `{!forall v, Decision (P v)} (m : gmap nat V) :
  (exists k v, m !! k = Some v /\ P v) \/ forall k v, m !! k = Some v -> ~ P v.
Proof.
  induction m as [|k v m Hk IH] using map_ind; [by right|].
  destruct (decide (P v)) as [Hv|Hv]; [left; exists k, v; by rewrite lookup_insert_eq|].
  destruct IH as [(k' & v' & Hk' & Hv')|IH].
  - left. exists k', v'. split; [|done]. rewrite lookup_insert_ne; [done|]. congruence.
  - right. intros k' v' [[<- <-]|[_ ?]]%lookup_insert_Some; [done|eauto].
Qed.

Definition is_ret (j : Job (U:=U)) : bool := match j with JRet _ => true | _ => false end.
Definition phase (s : TaskState U) : nat :=
  match s with Ready _ => 1 | Waiting _ _ _ _ _ _ => 2 | Joining _ _ _ _ _ => 3 | _ => 0 end%nat.

Lemma settled_or_progress w : world_inv w -> settled w \/ exists w', progress w w'.
Proof.
  intros HI. destruct (w_mutex w) as [h|] eqn:Hm.
  { right. destruct (inside_works (h_job h) w HI) as [w' Hw]; [by rewrite Hm|]. exists w', (Work (h_job h)). done. }
  destruct (map_find (fun j => is_ret j = false) (w_jobs w)) as [(job & j & Hj & Hr)|Hjobs].
  { right. pose proof (wi_jobs w HI _ _ Hj) as Hok. rewrite Hm in Hok. simpl in Hok.
    destruct (outside_works job j w Hm Hj Hok) as [[r ->]|[w' Hw]]; [done|]. by exists w', (Work job). }
  assert (forall job j, w_jobs w !! job = Some j -> exists r, j = JRet r) as Hret.
  { intros job j Hj. specialize (Hjobs _ _ Hj). destruct j; try done. by eexists. }
  destruct (map_find (fun s => phase s = 3%nat) (w_tasks w)) as [(tid & s & Hs & Hp)|Hjoin].
  { right. destruct s as [| |lk job timer db k| |]; try done.
    destruct (wi_worker w HI _ _ _ Hs eq_refl) as [[j Hj] _]. destruct (Hret _ _ Hj) as [r ->].
    eexists _, (Join tid). split; [done|]. simpl. unfold join. by rewrite Hs, Hj. }
  destruct (map_find (fun s => phase s = 2%nat) (w_tasks w)) as [(tid & s & Hs & Hp)|Hwait].
  { right. destruct s as [|lk since timer db j k| | |]; try done.
    eexists _, (Grant tid). split; [done|]. simpl. rewrite Hs. destruct (w_owner w !! lk) as [tid'|] eqn:Ho; [|done].
    destruct (wi_owner w HI _ _ Ho) as (s' & Hs' & Hg). specialize (Hjoin _ _ Hs'). by destruct s'. }
  destruct (map_find (fun s => phase s = 1%nat) (w_tasks w)) as [(tid & s & Hs & Hp)|Hready].
  { right. destruct s as [t| | | |]; try done.
    destruct t as [r|m|timer db j k]; [|destruct (on_paths m w) as [t w1] eqn:Hon|];
      eexists _, (Advance tid); (split; [done|]); simpl; unfold advance; rewrite Hs, ?Hon; done. }
  left. split; [|done]. intros tid s Hs. specialize (Hjoin _ _ Hs). specialize (Hwait _ _ Hs).
  specialize (Hready _ _ Hs). by destruct s.
Qed.

End invariant.

(** ** Termination *)

(** One entry of a finite map goes down. *)
Definition map_down {V} (R : V -> V -> Prop) (m' m : gmap nat V) : Prop :=
  exists k v v', m !! k = Some v /\ R v' v /\ m' = <[k := v']> m.

Lemma map_down_insert {V} (R : V -> V -> Prop) k (m : gmap nat V) :
  Acc (map_down R) m -> forall v, Acc R v -> m !! k = None -> Acc (map_down R) (<[k := v]> m).
Proof.
  intros Hm. induction Hm as [m _ IHm]. intros v Hv. induction Hv as [v Hv IHv]. intros Hk.
  constructor. intros m' (k' & u & u' & Hu & HR & ->).
  apply lookup_insert_Some in Hu as [[<- <-]|[Hne Hu]].
  - rewrite insert_insert_eq. by apply IHv.
  - rewrite insert_insert_ne by done. apply IHm.
    + by exists k', u, u'.
    + by constructor.
    + by rewrite lookup_insert_ne.
Qed.

Lemma map_down_wf {V} (R : V -> V -> Prop) : well_founded R -> well_founded (map_down R).
Proof.
  intros HR m. induction m as [|k v m Hk IH] using map_ind.
  - constructor. intros m' (k & v & v' & Hk & _). by rewrite lookup_empty in Hk.
  - by apply map_down_insert.
Qed.

Section termination.
Context {env : Env} `{UuidText} {U : Type} `{CellFiles U} `{SqlEngine U} (cfg : DataNodeConfig).

(** What a job, a request, is one step later. *)
Inductive job_down : Job (U:=U) -> Job (U:=U) -> Prop :=
| job_down_enter on j : job_down j (JEnter on j)
| job_down_leave j : job_down j (JLeave j)
| job_down_forget db j : job_down j (JForget db j)
| job_down_sql m n e : job_down (m n e).1.1 (JSql m)
| job_down_path m n e : job_down (m n e).1.1 (JPath m).

Inductive state_down : TaskState U -> TaskState U -> Prop :=
| down_ret r : state_down (Answered r) (Ready (TRet r))
| down_step m n e : state_down (Ready (m n e).1.1) (Ready (TStep m))
| down_arrive lk t0 timer db j k : state_down (Waiting lk t0 timer db j k) (Ready (TJob timer db j k))
| down_grant lk t0 job timer db j k :
    state_down (Joining lk job timer db k) (Waiting lk t0 timer db j k)
| down_join lk job timer db k r : state_down (Ready (k r)) (Joining lk job timer db k).

(** Induction on the code of a job and of a request. *)
Lemma job_code_ind (P : Job (U:=U) -> Prop) :
  (forall r, P (JRet r)) -> (forall on j, P j -> P (JEnter on j)) ->
  (forall m, (forall n e, P (m n e).1.1) -> P (JSql m)) -> (forall j, P j -> P (JLeave j)) ->
  (forall m, (forall n e, P (m n e).1.1) -> P (JPath m)) -> (forall db j, P j -> P (JForget db j)) ->
  forall j, P j.
Proof.
  intros Hret Henter Hsql Hleave Hpath Hforget. exact (fix go j : P j :=
    match j with
    | JRet r => Hret r
    | JEnter on j => Henter on j (go j)
    | JSql m => Hsql m (fun n e => match m n e as p return P p.1.1 with (j', _, _) => go j' end)
    | JLeave j => Hleave j (go j)
    | JPath m => Hpath m (fun n e => match m n e as p return P p.1.1 with (j', _, _) => go j' end)
    | JForget db j => Hforget db j (go j)
    end).
Qed.

Lemma task_code_ind (P : Task (U:=U) -> Prop) :
  (forall r, P (TRet r)) -> (forall m, (forall n e, P (m n e).1.1) -> P (TStep m)) ->
  (forall timer db j k, (forall r, P (k r)) -> P (TJob timer db j k)) -> forall t, P t.
Proof.
  intros Hret Hstep Hjob. exact (fix go t : P t :=
    match t with
    | TRet r => Hret r
    | TStep m => Hstep m (fun n e => match m n e as p return P p.1.1 with (t', _, _) => go t' end)
    | TJob timer db j k => Hjob timer db j k (fun r => go (k r))
    end).
Qed.

Lemma job_down_wf : well_founded job_down.
Proof. intros j. induction j using job_code_ind; constructor; intros j' Hj; inversion Hj; subst; auto. Qed.

Lemma state_down_wf : well_founded state_down.
Proof.
  assert (forall s, (forall s', ~ state_down s' s) -> Acc state_down s) as Hend.
  { intros s Hs. constructor. intros s' Hs'. by destruct (Hs s'). }
  assert (forall lk job timer db k, (forall r, Acc state_down (Ready (k r))) ->
    Acc state_down (Joining lk job timer db k)) as Hjoin.
  { intros lk job timer db k Hk. constructor. intros s' Hs'. inversion Hs'; subst; auto. }
  assert (forall lk t0 timer db j k, (forall r, Acc state_down (Ready (k r))) ->
    Acc state_down (Waiting lk t0 timer db j k)) as Hwait.
  { intros lk t0 timer db j k Hk. constructor. intros s' Hs'. inversion Hs'; subst; auto. }
  assert (forall t, Acc state_down (Ready t)) as Hready.
  { intros t. induction t using task_code_ind; constructor; intros s' Hs'; inversion Hs'; subst; auto.
    apply Hend. intros s'' Hs''. inversion Hs''. }
  intros [t|lk t0 timer db j k|lk job timer db k|r|]; auto; apply Hend; intros s' Hs'; inversion Hs'.
Qed.

(** A step of progress: a request goes down, or the requests stay and a job
    goes down. *)
Lemma progress_down w w' : progress cfg w w' ->
  map_down state_down (w_tasks w') (w_tasks w) \/
  w_tasks w' = w_tasks w /\ map_down job_down (w_jobs w') (w_jobs w).
Proof.
  intros (a & Ha & Hex). destruct a as [| |tid|tid|job|tid| | |]; try done; simpl in Hex.
  - left. unfold advance in Hex. destruct (w_tasks w !! tid) as [[[r|m|timer db j k]| | | |]|] eqn:Ht; try done.
    + injection Hex as <-. eexists _, _, _. split; [exact Ht|]. split; [constructor|done].
    + unfold on_paths in Hex. pose proof (down_step m (w_node w) (w_eff w)) as Hd.
      destruct (m _ _) as [[t n'] e']. injection Hex as <-. by eexists _, _, _.
    + injection Hex as <-. unfold arrive, db_lock. simpl. destruct (w_locks w !! db);
        (eexists _, _, _; split; [exact Ht|]; split; [constructor|done]).
  - left. destruct (w_tasks w !! tid) as [[| | | |]|] eqn:Ht; try done. destruct (w_owner w !! lk); [done|].
    injection Hex as <-. eexists _, _, _. split; [exact Ht|]. split; [constructor|done].
  - right. unfold work in Hex. destruct (w_jobs w !! job) as [[r|on j|m|j|m|db j]|] eqn:Hj; try done.
    + destruct (w_mutex w); [done|]. injection Hex as <-. split; [done|].
      eexists _, _, _. split; [exact Hj|]. split; [constructor|done].
    + destruct (decide _); [|done]. unfold on_conns in Hex.
      pose proof (job_down_sql m (set_files (fun f => w_unlinked w ∪ f) (w_node w)) (w_eff w)) as Hd.
      destruct (m _ _) as [[j n'] e']. injection Hex as <-. split; [done|]. by eexists _, _, _.
    + destruct (decide _); [|done]. injection Hex as <-. split; [done|].
      eexists _, _, _. split; [exact Hj|]. split; [constructor|done].
    + unfold on_paths in Hex. pose proof (job_down_path m (w_node w) (w_eff w)) as Hd.
      destruct (m _ _) as [[j n'] e']. injection Hex as <-. split; [done|]. by eexists _, _, _.
    + injection Hex as <-. split; [done|]. eexists _, _, _. split; [exact Hj|]. split; [constructor|done].
  - left. unfold join in Hex. destruct (w_tasks w !! tid) as [[| | | |]|] eqn:Ht; try done.
    destruct (w_jobs w !! job) as [[]|]; try done. injection Hex as <-.
    eexists _, _, _. split; [exact Ht|]. split; [constructor|done].
Qed.

Lemma progress_wf : well_founded (fun w' w => progress cfg w w').
Proof.
  assert (forall t, Acc (map_down state_down) t -> forall j, Acc (map_down job_down) j ->
    forall w, w_tasks w = t -> w_jobs w = j -> Acc (fun w' w => progress cfg w w') w) as Hacc.
  { intros t Ht. induction Ht as [t _ IHt]. intros j Hj. induction Hj as [j _ IHj]. intros w <- <-.
    constructor. intros w' [Hd|[Heq Hd]]%progress_down.
    - eapply IHt; [exact Hd|apply (map_down_wf _ job_down_wf)|done..].
    - by eapply IHj. }
  intros w. eapply Hacc; [apply (map_down_wf _ state_down_wf)|apply (map_down_wf _ job_down_wf)|done..].
Qed.

(** C18: the node neither deadlocks nor spins. From any world it can be in,
    every run of steps that does not add work is finite, and a run that cannot
    go on has answered or dropped every request, ended every worker and freed
    the connection table; and such a run exists. *)
Theorem requests_settle w :
  world_reachable cfg w ->
  Acc (fun w' w => progress cfg w w') w /\
  (forall w', rtc (progress cfg) w w' -> settled w' \/ exists w'', progress cfg w' w'') /\
  exists w', rtc (progress cfg) w w' /\ settled w'.
Proof.
  intros Hr. apply reachable_inv in Hr.
  assert (forall w1 w2, rtc (progress cfg) w1 w2 -> world_inv w1 -> world_inv w2) as Hinv.
  { intros w1 w2 Hw. induction Hw as [|w1 w2 w3 (a & _ & Ha) _ IH]; [done|]. intros HI. by eapply IH, exec_inv. }
  split; [apply progress_wf|]. split; [intros w' Hw; by apply settled_or_progress, (Hinv w)|].
  revert Hr. induction (progress_wf w) as [w _ IH]. intros HI.
  destruct (settled_or_progress cfg w HI) as [Hs|[w1 Hw1]]; [exists w; split; [apply rtc_refl|done]|].
  destruct (IH w1 Hw1) as (w2 & Hw2 & Hs); [|exists w2; split; [by eapply rtc_l|done]].
  eapply Hinv; [by apply rtc_once|done].
Qed.

End termination.
