(* ===== verification/NodeInterleave.v ===== *)
(** Cache coherence when requests interleave: look-ups that take no lock fall
    between the SQLite write and the cache update of another request's
    closure. The machine is that of [NodeWorld]. *)

From Stdlib Require Import ZArith Lia String Ascii.
From stdpp Require Import gmap strings list fin_maps relations.
From S2P Require Import Prelude Common Kv KvSpec SqlGate Sql Cache Manager DataNode NodeInv NodeCapacity Coherence NodeThreads NodeWorld NodeWorldSpec.

Section interleave.
Context {env : Env} `{UuidText} {U : Type} `{CellFiles U} `{SqlEngine U} (cfg : DataNodeConfig).
Context (D : Z) (HD : 0 <= D) (X : gset DatabaseId).
Hypothesis clock_mono : forall i, clock i <= clock (S i).
Hypothesis clock_range : forall i, 0 <= clock i <= I64_MAX.

Abbreviation NodeM := (M (Node U) CombeeError).
Implicit Types n : Node U.
Implicit Types w : World U.

(** ** A closure and the rest of the world *)

(** The readings from [i0] on that were taken so far lie within [D] seconds. *)
Definition within (i0 m : nat) : Prop := forall i, (i0 <= i < m)%nat -> clock i <= clock i0 + D.

(** A key the running closure has written and not yet brought to the cache:
    the key, a reading taken before it was written, and what is known of the
    table. *)
Record Pending := mkPending { p_key : string; p_at : nat; p_table : KvTable -> Prop }.

(** Between two steps of a closure on the Cell [on] that began at reading
    [i0]: coherence, but for the pending key and the Cells of [X]. *)
Definition mid (i0 : nat) (on : option DatabaseId) (x : option Pending) n (e : Eff) : Prop :=
  (i0 <= e_clock e)%nat /\
  match x with
  | None => coherent D X n e
  | Some p => exists db, on = Some db /\ (i0 <= p_at p <= e_clock e)%nat /\
      coherent D X (set_cache (cache_remove (db, p_key p)) n) e /\
      (db ∉ X -> p_table p (cell_kv (cell_of db n)))
  end.

Lemma within_window i0 m s0 : (i0 <= s0)%nat -> within i0 m -> window D s0 m.
Proof.
  intros Hi0 Hw i Hi Hm. specialize (Hw (S i) ltac:(lia)).
  pose proof (clock_le clock_mono i0 i ltac:(lia)). lia.
Qed.

(** Steps of other tasks drop entries at most; the files they replace or
    remove are those of Cells of [X]. *)
Definition harmless n (e : Eff) n' (e' : Eff) : Prop :=
  (forall db, db ∉ X -> files n' !! db = files n !! db) /\ (e_clock e <= e_clock e')%nat /\
  forall k v, cache_inner (cache n') !! k = Some v -> cache_inner (cache n) !! k = Some v.

Lemma cell_of_agree n n' db : files n' !! db = files n !! db -> cell_of db n' = cell_of db n.
Proof. unfold cell_of. by intros ->. Qed.

Lemma harmless_coherent n e n' e' : harmless n e n' e' -> coherent D X n e -> coherent D X n' e'.
Proof.
  intros (Hf & He & Hc) Hn. eapply (coherent_shrink D HD X clock_mono n); [done..| |done].
  intros db HX. by apply cell_of_agree, Hf.
Qed.

Lemma mid_harmless i0 on x n e n' e' : harmless n e n' e' -> mid i0 on x n e -> mid i0 on x n' e'.
Proof.
  intros Hh [Hi Hx]. pose proof Hh as (Hf & He & Hc). split; [lia|]. destruct x as [p|].
  - destruct Hx as (db & -> & Hp & Hcoh & Ht). exists db. split; [done|]. split; [lia|]. split.
    + eapply harmless_coherent; [|exact Hcoh]. split; [done|]. split; [done|]. intros k v. simpl.
      intros [Hne Hk]%lookup_delete_Some. apply lookup_delete_Some. auto.
    + intros HX. rewrite (cell_of_agree n n'); auto.
  - by eapply harmless_coherent.
Qed.

(** What a closure does to coherence, step by step, when it is quick enough. *)
Inductive safe_out : Job (U:=U) -> Prop :=
| safe_ret r : safe_out (JRet r)
| safe_enter on j : (forall i0, safe_in i0 on None j) -> safe_out (JEnter on j)
| safe_path m : (forall n e, harmless n e (m n e).1.2 (m n e).2 /\ safe_out (m n e).1.1) -> safe_out (JPath m)
| safe_forget db j : safe_out j -> safe_out (JForget db j)
with safe_in : nat -> option DatabaseId -> option Pending -> Job (U:=U) -> Prop :=
| safe_sql i0 on x m :
    (forall n e, mid i0 on x n e -> within i0 (e_clock (m n e).2) ->
       exists x', mid i0 on x' (m n e).1.2 (m n e).2 /\ safe_in i0 on x' (m n e).1.1) ->
    safe_in i0 on x (JSql m)
| safe_leave i0 on j : safe_out j -> safe_in i0 on None (JLeave j).

Inductive safe_task : Task (U:=U) -> Prop :=
| safe_tret r : safe_task (TRet r)
| safe_tstep m :
    (forall n e, harmless n e (m n e).1.2 (m n e).2 /\ safe_task (m n e).1.1) -> safe_task (TStep m)
| safe_tjob timer db j k : safe_out j -> (forall r, safe_task (k r)) -> safe_task (TJob timer db j k).

(** ** Closures *)

(** A step that leaves a pending key behind, or takes care of it. *)
Lemma safe_seg {A} i0 on x (m : NodeM A) fin k :
  (forall n e, mid i0 on x n e ->
     let '(r, n', e') := m n e in
     within i0 (e_clock e') ->
     match r with
     | Ok a => exists x', mid i0 on x' n' e' /\ safe_in i0 on x' (k a)
     | Err _ => mid i0 on None n' e'
     end) ->
  (forall r, safe_in i0 on None (fin r)) ->
  safe_in i0 on x (seg m fin k).
Proof.
  intros Hm Hfin. constructor. intros n e Hn. specialize (Hm n e Hn).
  destruct (m n e) as [[[a|err] n'] e']; simpl; [done|]. intros Hw. exists None. auto.
Qed.

(** What preserves coherence in a sequential run does so in a closure. *)
Lemma mid_from {A} i0 on (m : NodeM A) n e r n' e' :
  (forall s0, preserves (coherent_from D X s0) m) -> mid i0 on None n e ->
  m n e = (r, n', e') -> within i0 (e_clock e') -> mid i0 on None n' e'.
Proof.
  intros Hm [Hi Hc] Hrun Hw.
  assert (coherent_from D X (e_clock e) n e) as Hf by (split; [done|by intros _]).
  destruct (hoare_run _ _ _ _ _ _ _ _ (Hm (e_clock e)) Hf Hrun) as [Hle Hco].
  split; [lia|]. apply Hco. eapply within_window; [exact Hi|exact Hw].
Qed.

Lemma safe_seg_pres {A} i0 on (m : NodeM A) fin k :
  (forall s0, preserves (coherent_from D X s0) m) ->
  (forall r, safe_in i0 on None (fin r)) -> (forall a, safe_in i0 on None (k a)) ->
  safe_in i0 on None (seg m fin k).
Proof.
  intros Hm Hfin Hk. apply safe_seg; [|done]. intros n e Hn.
  destruct (m n e) as [[r n'] e'] eqn:Hrun. intros Hw.
  pose proof (mid_from i0 on m n e r n' e' Hm Hn Hrun Hw) as Hmid. destruct r; [|done]. by exists None.
Qed.

(** The pending key reaches the cache, *)
Lemma safe_fill i0 db p value exp fin k :
  (forall t, p_table p t -> exists row, t !! p_key p = Some row /\ row_value row = value /\
     expiry_backs D (row_expires_at row) exp) ->
  (forall r, safe_in i0 (Some db) None (fin r)) -> safe_in i0 (Some db) None (k tt) ->
  safe_in i0 (Some db) (Some p) (seg (fill_cache db (p_key p) value exp) fin k).
Proof.
  intros Hp Hfin Hk. apply safe_seg; [|done]. intros n e [Hi (db' & [= <-] & Hat & Hc & Ht)] Hw.
  exists None. split; [|done]. split; [done|]. intros db' k' v HX. simpl.
  destruct (decide ((db, p_key p) = (db', k'))) as [[= <- <-]|Hne].
  - rewrite lookup_insert_eq. intros [= <-]. left. apply (Hp _ (Ht HX)).
  - rewrite lookup_insert_ne by done. intros Hv. apply (Hc db' k' v); [done|]. simpl.
    by rewrite lookup_delete_ne.
Qed.

(** Or leaves it. *)
Lemma safe_drop i0 db p fin k :
  (forall r, safe_in i0 (Some db) None (fin r)) -> safe_in i0 (Some db) None (k tt) ->
  safe_in i0 (Some db) (Some p) (seg (drop_cached db (p_key p)) fin k).
Proof.
  intros Hfin Hk. apply safe_seg; [|done]. intros n e [Hi (db' & [= <-] & Hat & Hc & Ht)] Hw.
  by exists None.
Qed.

(** A statement that changed one row of the Cell. *)
Lemma mid_write i0 db key n e e' t' at_ (P : KvTable -> Prop) :
  mid i0 (Some db) None n e -> (i0 <= at_ <= e_clock e')%nat -> (e_clock e <= e_clock e')%nat ->
  (forall k, k <> key -> t' !! k = cell_kv (cell_of db n) !! k) -> P t' ->
  mid i0 (Some db) (Some (mkPending key at_ P))
    (set_files <[db := mkCellDb t' (cell_user (cell_of db n))]> n) e'.
Proof.
  intros [Hi Hc] Hat He Hrows HP. split; [lia|]. exists db. split; [done|]. split; [done|]. split.
  - apply (coherent_write D HD X clock_mono db key n e e' t' (cache_remove (db, key) (cache n))); [done..| |].
    + intros k Hne. simpl. by rewrite lookup_delete_ne.
    + intros v. simpl. by rewrite lookup_delete_eq.
  - intros _. simpl. by rewrite cell_of_insert.
Qed.

Lemma mid_same i0 db n e e' :
  mid i0 (Some db) None n e -> (e_clock e <= e_clock e')%nat ->
  mid i0 (Some db) None
    (set_files <[db := mkCellDb (cell_kv (cell_of db n)) (cell_user (cell_of db n))]> n) e'.
Proof.
  intros [Hi Hc] He. split; [lia|]. eapply (coherent_shrink D HD X clock_mono n); [done..| |done].
  intros db' _. destruct (decide (db' = db)) as [->|]; [rewrite cell_of_insert; by destruct (cell_of db n)|].
  by apply cell_of_insert_ne.
Qed.

(** Reading a row and caching it, then [k]. *)
Lemma safe_read_fill i0 db key fin (some : string -> option Z -> Job) (none : Job) :
  (forall r, safe_in i0 (Some db) None (fin r)) ->
  (forall v x, safe_in i0 (Some db) None (some v x)) -> safe_in i0 (Some db) None none ->
  safe_in i0 (Some db) None (seg (on_kv db (read_with_expiry key)) fin (fun row =>
    match row with
    | Some (value, exp) => seg (fill_cache db key value exp) fin (fun _ => some value exp)
    | None => none
    end)).
Proof.
  intros Hfin Hk Hnone. apply safe_seg; [|done]. intros n e Hn. destruct (on_kv db _ n e) as [[r n'] e'] eqn:Hrun.
  intros Hw. pose proof (fun s0 => from_on_kv D HD X clock_mono s0 db (read_with_expiry key)
    (read_with_expiry_reads clock_mono key)) as Hpres.
  pose proof (mid_from i0 (Some db) _ n e r n' e' Hpres Hn Hrun Hw) as Hmid.
  destruct r as [[[value exp]|]|err]; [|by exists None|done].
  unfold on_kv, zoom in Hrun. destruct (read_with_expiry key _ e) as [[r t'] e1] eqn:Hread. simplify_eq.
  apply read_with_expiry_spec in Hread as ([He _] & Hok & Hf & Hkk). specialize (Hok _ eq_refl).
  exists (Some (mkPending key i0 (fun t => exists row, t !! key = Some row /\ row_value row = value /\
    row_expires_at row = exp))). split.
  - destruct Hmid as [Hi Hc]. split; [done|]. exists db. split; [done|]. split; [simpl; lia|]. split.
    + eapply harmless_coherent; [|exact Hc]. split; [done|]. split; [done|]. simpl.
      intros k0 v [_ Hv]%lookup_delete_Some. done.
    + intros _. simpl. rewrite cell_of_insert. simpl. rewrite lookup_view in Hok.
      destruct (cell_kv (cell_of db n) !! key) as [row|]; simpl in Hok; [|done].
      destruct (is_expired (row_expires_at row) _) eqn:Hx; [done|]. injection Hok as -> ->.
      destruct Hkk as [->|(row' & [= <-] & _ & Hx')]; [by exists row|congruence].
  - apply (safe_fill i0 db (mkPending key i0 _)); [|done|done]. simpl.
    intros t (row & Hrow & Hv & Hx). exists row. split; [done|]. split; [done|]. rewrite Hx.
    destruct exp; simpl; [lia|done].
Qed.

Lemma safe_set_steps i0 db key value ttl nx xx fin k :
  (forall r, safe_in i0 (Some db) None (fin r)) -> (forall b, safe_in i0 (Some db) None (k b)) ->
  safe_in i0 (Some db) None (set_steps db key value ttl nx xx fin k).
Proof.
  intros Hfin Hk. unfold set_steps. apply safe_seg; [|done]. intros n e Hn. unfold on_kv, zoom.
  destruct (set key value ttl nx xx (cell_kv (cell_of db n)) e) as [[r t'] e'] eqn:Hrun. intros _.
  pose proof (set_clock _ _ _ _ _ _ _ _ _ _ Hrun) as Hle.
  apply set_spec in Hrun. destruct r as [[]|err].
  - destruct Hrun as (_ & _ & He & Ht').
    exists (Some (mkPending key (e_clock e) (fun t => exists row, t !! key = Some row /\
      row_value row = value /\ row_expires_at row = expires_at_from ttl (clock (e_clock e))))). split.
    + apply mid_write with (e := e); [done|destruct Hn; lia|lia| |].
      * intros k' Hne. subst t'. unfold sql_upsert. destruct (_ !! key); simpl; by rewrite lookup_insert_ne.
      * subst t'. apply upsert_lookup.
    + set (i := e_clock e). apply safe_seg; [|done].
      intros n1 e1 [Hi (db' & [= <-] & Hat & Hc & Ht)] Hw. simpl in Hat, Ht, Hw.
      exists (Some (mkPending key i (fun t => exists row, t !! key = Some row /\ row_value row = value /\
        expiry_backs D (row_expires_at row) (expires_at_from ttl (clock (e_clock e1)))))). split.
      * split; [simpl; lia|]. exists db. split; [done|]. split; [simpl; lia|]. split.
        { eapply harmless_coherent; [|exact Hc]. by repeat split; simpl; try lia. }
        intros HX. destruct (Ht HX) as (row & Hrow & Hv & Hx). exists row. split; [done|]. split; [done|]. rewrite Hx.
        apply expires_at_from_backs; [apply clock_range| |apply clock_range].
        pose proof (clock_le clock_mono i (e_clock e1) ltac:(lia)).
        pose proof (clock_le clock_mono i0 i ltac:(lia)).
        specialize (Hw (e_clock e1) ltac:(lia)). lia.
      * apply (safe_fill i0 db (mkPending key i _)); [|done|done]. done.
  - destruct Hrun as (_ & _ & _ & ->). exists None. split; [|done]. by apply (mid_same i0 db n e).
  - subst t'. by apply (mid_same i0 db n e).
Qed.

(** A statement that may change one row, then the entry is dropped. *)
Lemma safe_write_drop {A} i0 db key (m : M KvTable CombeeError A) (c : A -> bool) fin (k : A -> Job) :
  (forall t e r t' e', m t e = (r, t', e') ->
     (e_clock e <= e_clock e')%nat /\
     match r with
     | Ok a => if c a then forall k, k <> key -> t' !! k = t !! k else t' = t
     | Err _ => decays (clock (e_clock e')) t t'
     end) ->
  (forall r, safe_in i0 (Some db) None (fin r)) -> (forall a, safe_in i0 (Some db) None (k a)) ->
  safe_in i0 (Some db) None (seg (on_kv db m) fin (fun a =>
    if c a then seg (drop_cached db key) fin (fun _ => k a) else k a)).
Proof.
  intros Hm Hfin Hk. apply safe_seg; [|done]. intros n e Hn. unfold on_kv, zoom.
  destruct (m (cell_kv (cell_of db n)) e) as [[r t'] e'] eqn:Hrun. intros _.
  apply Hm in Hrun as [He Hr]. destruct r as [a|err].
  - destruct (c a) eqn:Hca.
    + exists (Some (mkPending key i0 (fun _ => True))). split; [|by apply (safe_drop i0 db (mkPending key i0 _))].
      destruct Hn as [Hi Hc]. apply mid_write with (e := e); [done|lia|done..].
    + subst t'. exists None. split; [|done]. by apply (mid_same i0 db n e).
  - destruct Hn as [Hi Hc]. split; [lia|]. eapply (coherent_update D HD X clock_mono db n); [exact Hc|exact He|..].
    + intros db' Hne. by rewrite cell_of_insert_ne.
    + done.
    + intros k' v HX Hv. rewrite cell_of_insert. simpl.
      eapply entry_ok_decays; [done| |exact Hr|by apply Hc]. by apply clock_le.
Qed.

Definition closure_safe (db : DatabaseId) (f : (Outcome -> Job (U:=U)) -> Job (U:=U)) : Prop :=
  forall i0 fin, (forall r, safe_in i0 (Some db) None (fin r)) -> safe_in i0 (Some db) None (f fin).

Lemma single_safe {A} db (m : NodeM A) reply :
  (forall s0, preserves (coherent_from D X s0) m) -> closure_safe db (single m reply).
Proof. intros Hm i0 fin Hfin. by apply safe_seg_pres. Qed.

Lemma get_safe db key : closure_safe db (get_closure db key).
Proof.
  intros i0 fin Hfin. unfold get_closure. apply safe_seg_pres; [|done|].
  { intros s0. apply (pres_node_now (coherent_closed D HD X clock_mono s0)). }
  intros now. apply (safe_read_fill i0 db key fin (fun value exp =>
    fin (Ok (REntry (Some (mkKvEntry value (ttl_or_remaining exp now))))))); intros; apply Hfin.
Qed.

Lemma set_safe db key value ttl nx xx : closure_safe db (set_closure db key value ttl nx xx).
Proof. intros i0 fin Hfin. apply safe_set_steps; [done|]. intros b. apply Hfin. Qed.

Lemma del_safe db key : closure_safe db (del_closure db key).
Proof.
  intros i0 fin Hfin. apply (safe_write_drop i0 db key (del key) (fun b => b)); [|done|intros; apply Hfin].
  intros t e r t' e'. rewrite del_run. destruct (fault _); intros [= <- <- <-]; (split; [simpl; lia|]).
  - apply decays_refl.
  - case_bool_decide as Hk; [intros k Hne; by rewrite lookup_delete_ne|].
    apply delete_id. by apply eq_None_not_Some.
Qed.

Lemma expire_safe db key ttl : closure_safe db (expire_closure db key ttl).
Proof.
  intros i0 fin Hfin. apply (safe_write_drop i0 db key (expire key ttl) (fun b => b)); [|done|intros; apply Hfin].
  intros t e r t' e' Hrun. apply expire_rows in Hrun as [He Hr]. split; [done|].
  destruct r as [[]|err]; [done|done|]. subst t'. apply decays_refl.
Qed.

Lemma incr_safe db key d ttl : closure_safe db (incr_closure db key d ttl).
Proof.
  intros i0 fin Hfin.
  apply (safe_write_drop i0 db key (incr key d ttl) (fun _ => true) fin (fun v => fin (Ok (RInt v))));
    [|done|intros; apply Hfin].
  intros t e r t' e'. apply (incr_rows clock_mono).
Qed.

Lemma mget_safe db l : closure_safe db (mget_closure db l).
Proof.
  intros i0 fin Hfin. unfold mget_closure.
  assert (forall k, (forall out, safe_in i0 (Some db) None (k out)) ->
    safe_in i0 (Some db) None (mget_steps db l fin k)) as Hl; [|apply Hl; intros; apply Hfin].
  induction l as [|[key [v|]] l IH]; intros k Hk; simpl; [done|by apply IH|].
  apply (safe_read_fill i0 db key fin (fun v _ => mget_steps db l fin (fun out => k (Some v :: out))));
    [done|intros; by apply IH|by apply IH].
Qed.

Lemma mset_safe db items : closure_safe db (mset_closure db items).
Proof.
  induction items as [|it items IH]; intros i0 fin Hfin; simpl; [done|].
  apply safe_set_steps; [done|]. intros _. by apply IH.
Qed.

(** ** Requests *)

Lemma safe_conn_task timer db f : closure_safe db f -> safe_task (with_conn_task cfg timer db f).
Proof.
  intros Hf. constructor; [|constructor]. constructor. intros i0.
  assert (forall r : Outcome, safe_in i0 (Some db) None (leave r)) as Hleave by (intros; repeat constructor).
  pose proof (coherent_closed D HD X clock_mono (U:=U)) as HI.
  apply safe_seg_pres; [|done|intros _; apply Hf; intros r; apply safe_seg_pres; [|done|done]]; intros s0.
  - unfold conn_ready. pres; first [apply (pres_instant (HI s0)) | apply (pres_activate cfg (HI s0))].
  - unfold conn_touch. pres; first [apply (pres_instant (HI s0)) | apply (pres_set_conns (HI s0))].
Qed.

(** The steps of requests outside their closures. *)
Definition step_harmless {A} (m : NodeM A) : Prop :=
  forall n e, let '(_, n', e') := m n e in harmless n e n' e'.

Lemma harmless_refl n e : harmless n e n e.
Proof. by repeat split. Qed.

Lemma safe_step {A} (m : NodeM A) k : step_harmless m -> (forall a, safe_task (k a)) -> safe_task (step m k).
Proof.
  intros Hm Hk. constructor. intros n e. specialize (Hm n e).
  destruct (m n e) as [[[a|err] n'] e']; simpl; (split; [done|]); [done|constructor].
Qed.

(** A step that only looks. *)
Lemma harmless_check {A} (m : NodeM A) : (forall n e, (m n e).1.2 = n /\ (m n e).2 = e) -> step_harmless m.
Proof.
  intros Hm n e. specialize (Hm n e). destruct (m n e) as [[r n'] e']. simpl in Hm. destruct Hm as [-> ->].
  apply harmless_refl.
Qed.

Lemma harmless_generation db g : step_harmless (check_generation db g).
Proof. apply harmless_check. intros n e. unfold check_generation, bind, gets. by destruct (decide _). Qed.
Lemma harmless_writable db : step_harmless (check_writable db).
Proof. apply harmless_check. intros n e. unfold check_writable, bind, gets. by destruct (is_readonly _ _). Qed.
Lemma harmless_ttl ttl : step_harmless (check_ttl cfg ttl).
Proof. apply harmless_check. intros n e. unfold check_ttl. destruct ttl; [|done]. by destruct (_ && _). Qed.
Lemma harmless_size k v : step_harmless (check_kv_size cfg k v).
Proof. apply harmless_check. intros n e. unfold check_kv_size. destruct (_ && _); [done|]. by destruct (_ && _). Qed.
Lemma harmless_storage db v : step_harmless (check_storage cfg db v).
Proof.
  intros n e. unfold check_storage, storage_bytes, next_call, bind, gets.
  destruct (0 <? _); [destruct (_ <? _)|]; try done; by destruct (0 <? _).
Qed.
Lemma harmless_now : step_harmless node_now.
Proof. intros n e. split; [done|]. split; [simpl; lia|done]. Qed.
Lemma harmless_fence db g : step_harmless (fence_cell db g).
Proof. intros n e. by repeat split. Qed.
Lemma harmless_evict k : step_harmless (modify (set_cache (cache_remove k))).
Proof. intros n e. split; [done|]. split; [done|]. simpl. by intros k' v [_ ?]%lookup_delete_Some. Qed.
Lemma harmless_lookup db key now : step_harmless (cache_lookup db key now).
Proof.
  intros n e. unfold cache_lookup. pose proof (cache_get_inner db key now (cache n)) as Hg.
  destruct (cache_get db key now (cache n)) as [r c]. simpl in Hg. split; [done|]. split; [done|]. simpl. intros k v.
  destruct Hg as [-> | ->]; [done|]. by intros [_ ?]%lookup_delete_Some.
Qed.

Lemma harmless_clear db : step_harmless (clear_cache db).
Proof.
  intros n e. split; [done|]. split; [done|]. simpl. intros k v. rewrite cache_clear_database_lookup.
  by destruct (decide _).
Qed.

(** The files of a Cell of [X] may go. *)
Lemma harmless_bind {A B} (m : NodeM A) (k : A -> NodeM B) :
  step_harmless m -> (forall a, step_harmless (k a)) -> step_harmless (bind m k).
Proof.
  intros Hm Hk n e. unfold bind. specialize (Hm n e). destruct (m n e) as [[[a|err] n1] e1]; [|done].
  specialize (Hk a n1 e1). destruct (k a n1 e1) as [[r n2] e2]. destruct Hm as (F1 & E1 & K1), Hk as (F2 & E2 & K2).
  split; [|split; [lia|auto]]. intros db HX. by rewrite F2, F1.
Qed.

Lemma harmless_fallible err : step_harmless (fallible err).
Proof. intros n e. unfold fallible. by destruct (fault _). Qed.

Lemma harmless_remove err db side : db ∈ X -> step_harmless (remove_file_set err db side).
Proof.
  intros HX. unfold remove_file_set. apply harmless_bind; [by apply harmless_check|]. intros found.
  apply harmless_bind; [destruct found|intros _].
  - apply harmless_bind; [apply harmless_fallible|intros _ n e]. split; [|done]. intros db' HX'. simpl.
    apply lookup_delete_ne. by intros ->.
  - by apply harmless_check.
  - induction side as [|s side IH]; [by apply harmless_check|]. simpl.
    apply harmless_bind; [apply harmless_fallible|done].
Qed.

Lemma safe_lookups db now keys (k : list (option string) -> Task) :
  (forall out, safe_task (k out)) -> safe_task (mget_lookups db now keys k).
Proof.
  revert k. induction keys as [|key keys IH]; intros k Hk; simpl; [done|].
  apply safe_step; [apply harmless_lookup|]. intros hit. apply IH. intros out. apply Hk.
Qed.

Lemma safe_checks items (k : Task) : safe_task k -> safe_task (mset_checks cfg items k).
Proof.
  intros Hk. induction items as [|it items IH]; simpl; [done|].
  apply safe_step; [apply harmless_size|]. intros _. by apply safe_step; [apply harmless_ttl|].
Qed.

#[local] Hint Resolve harmless_generation harmless_writable harmless_ttl harmless_size harmless_storage
  harmless_now harmless_fence harmless_evict harmless_lookup harmless_clear harmless_remove : threads.

Lemma close_safe (db : DatabaseId) j : safe_out j ->
  safe_out (JEnter (Some db) (seg (drop_conn db) leave (fun _ => JLeave j))).
Proof.
  intros Hj. constructor. intros i0. apply safe_seg_pres; [|intros; repeat constructor|by constructor].
  intros s0. apply (pres_drop_conn (coherent_closed D HD X clock_mono s0)).
Qed.

Lemma reset_safe db : db ∈ X -> safe_task (reset_task db).
Proof.
  intros HX. constructor; [apply close_safe; repeat constructor|]. intros [r|err]; [|constructor].
  apply safe_step; [apply harmless_clear|intros _]. apply safe_step; [by apply harmless_remove|]. constructor.
Qed.

Lemma delete_safe db : db ∈ X -> safe_task (delete_task cfg db).
Proof.
  intros HX. constructor.
  - apply close_safe. constructor. intros n e. pose proof (harmless_remove
      (fun m => Internal ("remove " +:+ db_path cfg db +:+ ": " +:+ m)) db ["-wal"; "-shm"]%string HX n e) as Hr.
    unfold remove_files. destruct (remove_file_set _ _ _ n e) as [[[a|err] n'] e']; simpl; (split; [done|]);
      repeat constructor.
  - intros [r|err]; [|constructor]. apply safe_step; [apply harmless_clear|constructor].
Qed.

Lemma request_safe op t : spares X op -> request cfg op = Some t -> safe_task t.
Proof.
  pose proof (coherent_closed D HD X clock_mono (U:=U)) as HI.
  intros Hop. destruct op; simpl; intros [= <-];
    try (by apply reset_safe); try (by apply delete_safe); unfold_tasks;
    repeat first [apply safe_step; [by auto with threads|intros ?] | apply safe_lookups; intros ?
      | apply safe_checks | apply safe_conn_task
      | match goal with |- safe_task (match ?x with _ => _ end) => destruct x end
      | apply safe_tret].
  - apply get_safe.
  - apply set_safe.
  - apply del_safe.
  - apply single_safe. intros s0. apply (from_on_kv D HD X clock_mono). apply exists_reads.
  - apply mget_safe.
  - apply mset_safe.
  - apply single_safe. intros s0. apply (from_on_kv D HD X clock_mono). apply (ttl_reads key).
  - apply expire_safe.
  - apply incr_safe.
  - apply single_safe. intros s0. apply (from_on_kv D HD X clock_mono). apply scan_reads.
  - apply single_safe. intros s0. apply (from_on_sql D HD X clock_mono). intros. apply sql_clock.
  - apply single_safe. intros s0. apply (from_on_sql D HD X clock_mono). intros. apply tx_clock.
  - apply single_safe. intros s0. apply (pres_fallible (HI s0)).
Qed.

Lemma background_safe op j : background cfg op = Some j -> safe_out j.
Proof.
  assert (forall i0 (r : Outcome), safe_in i0 None None (leave r)) as Hleave by (intros; repeat constructor).
  destruct op; simpl; intros [= <-]; constructor; intros i0; (apply safe_seg_pres; [intros s0|by auto|by auto]).
  - exact (run_coherent cfg D HD X clock_mono clock_range s0 NMaintenance I).
  - exact (run_coherent cfg D HD X clock_mono clock_range s0 NShutdown I).
Qed.

(** ** The machine *)

(** A closure that holds the connection table has been at it for at most [D]
    seconds. *)
Definition timely w : Prop :=
  forall h, w_mutex w = Some h -> within (h_since h) (e_clock (w_eff w)).

(** Steps in which only Cells of [X] are reset or deleted. *)
Definition sparing (a : Action) : Prop :=
  match a with Spawn _ op => spares X op | _ => True end.

Definition cell_step w w' : Prop :=
  exists a, sparing a /\ exec cfg a w = Some w' /\ timely w'.

Definition state_safe (s : TaskState U) : Prop :=
  match s with
  | Ready t => safe_task t
  | Waiting _ _ _ _ j k => safe_out j /\ forall r, safe_task (k r)
  | Joining _ _ _ _ k => forall r, safe_task (k r)
  | Answered _ | Dropped => True
  end.

Record world_coherent w : Prop := {
  wc_linked : forall db, db ∉ X -> w_unlinked w !! db = None;
  wc_free : w_mutex w = None -> coherent D X (w_node w) (w_eff w);
  wc_held : forall h, w_mutex w = Some h ->
    exists x j, w_jobs w !! h_job h = Some j /\
      mid (h_since h) (h_db h) x (w_node w) (w_eff w) /\ safe_in (h_since h) (h_db h) x j;
  wc_tasks : forall tid s, w_tasks w !! tid = Some s -> state_safe s;
  wc_jobs : forall job j, w_jobs w !! job = Some j -> h_job <$> w_mutex w <> Some job -> safe_out j;
}.

(** A harmless change of the node. *)
Lemma coherent_set_node n' u e' w :
  (forall db, db ∉ X -> u !! db = None) -> harmless (w_node w) (w_eff w) n' e' ->
  world_coherent w -> world_coherent (set_node n' u e' w).
Proof.
  intros Hu Hh [C1 C2 C3 C4 C5]. split; simpl; try done.
  - intros Hm. eapply harmless_coherent; [exact Hh|by apply C2].
  - intros h Hm. destruct (C3 h Hm) as (x & j & Hj & Hmid & Hs). exists x, j. split; [done|].
    split; [|done]. by eapply mid_harmless.
Qed.

Lemma coherent_set_task tid s w : state_safe s -> world_coherent w -> world_coherent (set_task tid s w).
Proof.
  intros Hs [C1 C2 C3 C4 C5]. split; simpl; try done.
  intros tid' s' [[<- <-]|[_ ?]]%lookup_insert_Some; [done|by eapply C4].
Qed.

(** Locks, guards and counters are no business of the cache. *)
Lemma coherent_same w w' :
  w_node w' = w_node w -> w_unlinked w' = w_unlinked w -> w_eff w' = w_eff w -> w_mutex w' = w_mutex w ->
  w_tasks w' = w_tasks w -> w_jobs w' = w_jobs w -> world_coherent w -> world_coherent w'.
Proof.
  intros Hn Hu He Hm Ht Hj [C1 C2 C3 C4 C5]. split; rewrite ?Hn, ?Hu, ?He, ?Hm, ?Ht, ?Hj; done.
Qed.

Lemma coherent_interrupt db w : world_coherent w -> world_coherent (interrupt db w).
Proof.
  intros HC. unfold interrupt. destruct (w_mutex w) as [h|] eqn:Hm; [|done].
  destruct (decide _); [|done]. by apply (coherent_same w).
Qed.

Lemma coherent_set_job job j w :
  safe_out j -> h_job <$> w_mutex w <> Some job -> world_coherent w -> world_coherent (set_jobs <[job := j]> w).
Proof.
  intros Hj Hnew [C1 C2 C3 C4 C5]. split; simpl; try done.
  - intros h Hm. destruct (C3 h Hm) as (x & j' & Hj' & Hrest). exists x, j'. split; [|done].
    rewrite lookup_insert_ne; [done|]. intros ->. by rewrite Hm in Hnew.
  - intros job' j' [[<- <-]|[_ ?]]%lookup_insert_Some Hne; [done|by eapply C5].
Qed.

Lemma coherent_add_job job j w :
  safe_out j -> w_jobs w !! job = None -> world_coherent w -> world_coherent (set_jobs <[job := j]> w).
Proof.
  intros Hj Hnew HC. apply coherent_set_job; [done| |done]. intros Hm.
  destruct (w_mutex w) as [h|] eqn:Hh; [|done]. injection Hm as <-.
  destruct (wc_held w HC h Hh) as (x & j' & Hj' & _). congruence.
Qed.

Lemma on_paths_linked {A} (m : Node U -> Eff -> A * Node U * Eff) w a n' e' :
  (forall db, db ∉ X -> w_unlinked w !! db = None) -> m (w_node w) (w_eff w) = (a, n', e') ->
  (forall db, db ∉ X -> files n' !! db = files (w_node w) !! db) ->
  exists u, on_paths m w = (a, set_node n' u e' w) /\ forall db, db ∉ X -> u !! db = None.
Proof.
  intros Hu Hm Hf. eexists. unfold on_paths. rewrite Hm. split; [reflexivity|]. intros db HX.
  apply lookup_union_None. split; [by apply Hu|]. apply map_lookup_filter_None. right.
  intros c Hc [Hn _]. simpl in Hn. rewrite Hf in Hn by done. congruence.
Qed.

(** What the open connections see of the files, and what they leave, differs
    from the files at their paths for Cells of [X] only. *)
Lemma on_conns_linked {A} (m : Node U -> Eff -> A * Node U * Eff) w :
  (forall db, db ∉ X -> w_unlinked w !! db = None) ->
  let n := set_files (fun f => w_unlinked w ∪ f) (w_node w) in
  exists n' u, on_conns m w = ((m n (w_eff w)).1.1, set_node n' u (m n (w_eff w)).2 w) /\
    (forall db, db ∉ X -> u !! db = None) /\ harmless (w_node w) (w_eff w) n (w_eff w) /\
    harmless (m n (w_eff w)).1.2 (m n (w_eff w)).2 n' (m n (w_eff w)).2.
Proof.
  intros Hu n. unfold on_conns. fold n. destruct (m n (w_eff w)) as [[a n1] e1]. simpl.
  eexists _, _. split; [reflexivity|]. split; [|split].
  - intros db HX. apply map_lookup_filter_None. right. intros c _ [Hn _]. simpl in Hn. by rewrite Hu in Hn.
  - split; [|done]. intros db HX. simpl. rewrite lookup_union, Hu by done. by destruct (_ !! db).
  - split; [|done]. intros db HX. simpl. rewrite lookup_union, (proj2 (map_lookup_filter_None _ _ _)).
    + rewrite (left_id_L None _). destruct (files n1 !! db) as [c|] eqn:Hc.
      * apply map_lookup_filter_Some. split; [done|]. simpl. by apply Hu.
      * apply map_lookup_filter_None. by left.
    + right. intros c _ Hn. simpl in Hn. by rewrite Hu in Hn.
Qed.

Lemma work_coherent job w w' :
  world_coherent w -> world_inv w -> work job w = Some w' -> timely w' -> world_coherent w'.
Proof.
  intros HC HI. pose proof HC as [C1 C2 C3 C4 C5]. unfold work.
  destruct (w_jobs w !! job) as [[r|on j|m|j|m|db j]|] eqn:Hj; try done.
  - destruct (w_mutex w) as [h|] eqn:Hm; [done|]. intros [= <-] _.
    pose proof (C5 _ _ Hj ltac:(done)) as Hs. inversion Hs as [|on' j' Hin| |]; subst.
    split; simpl; try done.
    + intros h [= <-]. simpl. exists None, j. rewrite lookup_insert_eq. split; [done|].
      split; [|apply Hin]. split; [done|]. by apply C2.
    + intros job' j' [[<- <-]|[_ ?]]%lookup_insert_Some Hne; [done|by eapply C5].
  - destruct (w_mutex w) as [h|] eqn:Hm; [|done]. simpl. destruct (decide _) as [[= <-]|]; [|done].
    destruct (C3 h eq_refl) as (x & j0 & Hj0 & Hmid & Hs). simplify_eq.
    inversion Hs as [i0 on x' m' Hstep|]; subst.
    destruct (on_conns_linked m w C1) as (n' & u & Heq & Hu & Hbefore & Hafter).
    specialize (Hstep _ _ (mid_harmless _ _ _ _ _ _ _ Hbefore Hmid)). rewrite Heq.
    destruct (m _ (w_eff w)) as [[j n1] e'] eqn:Hrun. simpl in Hstep, Hafter |- *. intros [= <-] Ht.
    specialize (Ht h). simpl in Ht. destruct (Hstep (Ht Hm)) as (x' & Hmid1 & Hs').
    pose proof (mid_harmless _ _ _ _ _ _ _ Hafter Hmid1) as Hmid'. split; simpl; try done.
    + by rewrite Hm.
    + intros h' Hm'. rewrite Hm in Hm'. injection Hm' as <-. exists x', j. by rewrite lookup_insert_eq.
    + intros job' j' [[<- <-]|[_ ?]]%lookup_insert_Some Hne; [by rewrite Hm in Hne|].
      eapply C5; [done|]. by rewrite Hm in Hne.
  - destruct (w_mutex w) as [h|] eqn:Hm; [|done]. simpl. destruct (decide _) as [[= <-]|]; [|done].
    destruct (C3 h eq_refl) as (x & j0 & Hj0 & Hmid & Hs). simplify_eq. intros [= <-] _.
    inversion Hs as [|i0 on j' Hout]; subst. split; simpl; try done.
    + intros _. apply Hmid.
    + intros job' j' [[<- <-]|[Hne ?]]%lookup_insert_Some _; [done|]. eapply C5; [done|]. simpl. congruence.
  - assert (h_job <$> w_mutex w <> Some job) as Hd.
    { intros Hd. pose proof (wi_jobs w HI _ _ Hj) as Hin. rewrite decide_True in Hin by done. inversion Hin. }
    pose proof (C5 _ _ Hj Hd) as Hs. inversion Hs as [| |m' Hm|]; subst. specialize (Hm (w_node w) (w_eff w)).
    destruct (m (w_node w) (w_eff w)) as [[j n'] e'] eqn:Hrun. simpl in Hm. destruct Hm as [Hh Hsafe].
    destruct (on_paths_linked m w j n' e' C1 Hrun (proj1 Hh)) as (u & -> & Hu). intros [= <-] _.
    apply (coherent_set_job job j); [done|done|]. by apply coherent_set_node.
  - assert (h_job <$> w_mutex w <> Some job) as Hd.
    { intros Hd. pose proof (wi_jobs w HI _ _ Hj) as Hin. rewrite decide_True in Hin by done. inversion Hin. }
    pose proof (C5 _ _ Hj Hd) as Hs. inversion Hs; subst. intros [= <-] _.
    apply (coherent_set_job job j); [done|done|]. by apply (coherent_same w).
Qed.

Lemma advance_coherent tid w w' : world_coherent w -> advance tid w = Some w' -> world_coherent w'.
Proof.
  intros HC. unfold advance. destruct (w_tasks w !! tid) as [[[r|m|timer db j k]| | | |]|] eqn:Ht; try done;
    pose proof (wc_tasks w HC _ _ Ht) as Hs; simpl in Hs.
  - intros [= <-]. by apply coherent_set_task.
  - inversion Hs as [|m' Hm|]; subst. specialize (Hm (w_node w) (w_eff w)).
    destruct (m (w_node w) (w_eff w)) as [[t n'] e'] eqn:Hrun. simpl in Hm. destruct Hm as [Hh Hsafe].
    destruct (on_paths_linked m w t n' e' (wc_linked w HC) Hrun (proj1 Hh)) as (u & -> & Hu). intros [= <-].
    apply coherent_set_task; [done|]. by apply coherent_set_node.
  - intros [= <-]. inversion Hs; subst. unfold arrive.
    assert (forall lk w1, world_coherent w1 -> world_coherent (set_task tid
      (Waiting lk (instant (e_instant (w_eff w1))) timer db j k)
      (set_node (w_node w1) (w_unlinked w1) (bump_instant (w_eff w1)) w1))) as Hset.
    { intros lk w1 HC1. apply coherent_set_task; [done|]. apply coherent_set_node; [apply HC1|done|done]. }
    unfold db_lock. simpl. destruct (w_locks w !! db); apply Hset; by apply (coherent_same w).
Qed.

Lemma exec_coherent a w w' :
  world_coherent w -> world_inv w -> sparing a -> exec cfg a w = Some w' -> timely w' ->
  world_coherent w'.
Proof.
  intros HC HI Ha Hex Ht. pose proof HC as [C1 C2 C3 C4 C5].
  assert (forall j, w_fresh w = j -> w_jobs w !! j = None) as Hfresh.
  { intros ? <-. destruct (w_jobs w !! w_fresh w) eqn:E; [|done].
    pose proof (wi_fresh w HI (w_fresh w) ltac:(by eexists)). lia. }
  destruct a as [tid op|op|tid|tid|job|tid|tid|tid|]; simpl in Hex, Ha.
  - destruct (w_tasks w !! tid); [done|]. destruct (request cfg op) as [t|] eqn:Hr; [|done]. injection Hex as <-.
    apply coherent_set_task; [|done]. by eapply request_safe.
  - destruct (background cfg op) as [j|] eqn:Hb; [|done]. simpl in Hex. injection Hex as <-.
    apply (coherent_same (set_jobs <[w_fresh w := j]> w)); try done.
    apply coherent_add_job; [by eapply background_safe|by apply Hfresh|done].
  - by eapply advance_coherent.
  - destruct (w_tasks w !! tid) as [[|lk since timer db j k| | |]|] eqn:Htid; try done.
    destruct (w_owner w !! lk); [done|]. injection Hex as <-.
    destruct (C4 _ _ Htid) as [Hj Hk]. unfold grant. apply coherent_set_task; [done|].
    apply coherent_add_job; [done|by apply Hfresh|].
    apply (coherent_same (set_node (w_node w) (w_unlinked w) (bump_instant (w_eff w)) w)); try done.
  - by eapply work_coherent.
  - unfold join in Hex. destruct (w_tasks w !! tid) as [[| |lk job timer db k| |]|] eqn:Htid; try done.
    destruct (w_jobs w !! job) as [[r| | | | |]|] eqn:Hj; try done. injection Hex as <-.
    apply coherent_set_task; [apply (C4 _ _ Htid)|]. apply (coherent_same (set_jobs (delete job) w)); try done.
    split; simpl; try done.
    + intros h Hm. destruct (C3 h Hm) as (x & j' & Hj' & Hrest). exists x, j'. split; [|done].
      rewrite lookup_delete_ne; [done|]. intros ->. simplify_eq. destruct Hrest as [_ Hs]. inversion Hs.
    + intros job' j' [_ ?]%lookup_delete_Some. by eapply C5.
  - unfold fire in Hex.
    destruct (w_tasks w !! tid) as [[|lk since [d|] db j k|lk job [d|] db k| |]|] eqn:Htid; try done;
      injection Hex as <-; pose proof (C4 _ _ Htid) as Hs; simpl in Hs; apply coherent_interrupt;
      (apply coherent_set_task; [apply Hs|]); by apply (coherent_same w).
  - unfold drop in Hex.
    destruct (w_tasks w !! tid) as [[|lk since timer db j k|lk job timer db k| |]|] eqn:Htid; try done;
      injection Hex as <-; apply coherent_set_task; try done; by apply (coherent_same w).
  - injection Hex as <-. by apply (coherent_same w).
Qed.

Lemma cell_steps_coherent w : rtc cell_step world0 w -> world_coherent w /\ world_inv w.
Proof.
  assert (forall w1 w2, rtc cell_step w1 w2 -> world_coherent w1 /\ world_inv w1 ->
    world_coherent w2 /\ world_inv w2) as Hrtc.
  { intros w1 w2 Hr. induction Hr as [|w1 w2 w3 (a & Ha & Hex & Ht) _ IH]; [done|]. intros [HC HI].
    apply IH. split; [by eapply exec_coherent|by eapply exec_inv]. }
  intros Hr. apply (Hrtc _ _ Hr). split; [|apply world0_inv]. by split.
Qed.

End interleave.

Section statement.
Context {env : Env} `{UuidText} {U : Type} `{CellFiles U} `{SqlEngine U} (cfg : DataNodeConfig).


End statement.
