(* ===== verification/NodeRaces.v ===== *)
(** What interleaving can do to the data node: the schedules under which a
    request escapes fencing, is interrupted in place of another, or writes to
    a file a reset has already removed; and what holds nevertheless. *)

From Stdlib Require Import ZArith Lia String Ascii.
From stdpp Require Import gmap strings list fin_maps relations.
From S2P Require Import Prelude Common Kv KvSpec SqlGate Sql Cache Manager DataNode NodeInv NodeCapacity Coherence NodeThreads NodeWorld NodeWorldSpec NodeThreadsSpec NodeInterleave.

Section races.
Context {env : Env} `{UuidText} {U : Type} `{CellFiles U} `{SqlEngine U} (cfg : DataNodeConfig).
Implicit Types w : World U.

(** ** The queue counter *)

Definition waits (s : TaskState U) : Z := match s with Waiting _ _ _ _ _ _ => 1 | _ => 0 end.

(** The requests that wait for a lock. *)
Definition waiting w : Z := map_sum (fun _ s => waits s) (w_tasks w).

Definition patient (a : Action) : bool :=
  match a with Timer _ | Drop _ | ResetStats => false | _ => true end.

Definition patient_step w w' : Prop := exists a, patient a = true /\ exec cfg a w = Some w'.

Lemma waiting_set_task tid s w :
  waiting (set_task tid s w) = waits s + waiting w - from_option waits 0 (w_tasks w !! tid).
Proof. unfold waiting. simpl. apply map_sum_insert. Qed.

Lemma wrap_u64_step a b : wrap_u64 (wrap_u64 a + b) = wrap_u64 (a + b).
Proof. unfold wrap_u64. by rewrite Zplus_mod_idemp_l. Qed.

Lemma patient_queue w w' :
  patient_step w w' -> lock_queue (w_counters w) = wrap_u64 (waiting w) ->
  lock_queue (w_counters w') = wrap_u64 (waiting w').
Proof.
  intros (a & Ha & Hex) Hq. destruct a as [tid op|op|tid|tid|job|tid| | |]; try done; simpl in Hex.
  - destruct (w_tasks w !! tid) eqn:Ht; [done|]. destruct (request cfg op); [|done]. injection Hex as <-.
    rewrite waiting_set_task, Ht. simpl. rewrite Hq. f_equal; lia.
  - destruct (background cfg op); [|done]. simpl in Hex. by injection Hex as <-.
  - unfold advance in Hex. destruct (w_tasks w !! tid) as [[[r|m|timer db j k]| | | |]|] eqn:Ht; try done.
    + injection Hex as <-. rewrite waiting_set_task, Ht. simpl. rewrite Hq. f_equal; lia.
    + pose proof (on_paths_same m w) as (_ & Htasks & _ & _ & _ & _ & Hc). destruct (on_paths m w) as [t w1].
      injection Hex as <-. simpl in *. rewrite waiting_set_task. unfold waiting.
      rewrite Htasks, Ht, Hc. simpl. rewrite Hq. f_equal; unfold waiting; lia.
    + injection Hex as <-. unfold arrive, db_lock. simpl. destruct (w_locks w !! db); simpl;
        rewrite waiting_set_task; simpl; rewrite Ht; simpl; unfold u64_add; rewrite Hq, wrap_u64_step;
        f_equal; unfold waiting; simpl; lia.
  - destruct (w_tasks w !! tid) as [[|lk since timer db j k| | |]|] eqn:Ht; try done.
    destruct (w_owner w !! lk); [done|]. injection Hex as <-. unfold grant. rewrite waiting_set_task. simpl.
    rewrite Ht. simpl. rewrite Hq. replace (wrap_u64 (waiting w) - 1) with (wrap_u64 (waiting w) + -1) by lia.
    rewrite wrap_u64_step. f_equal; unfold waiting; simpl; lia.
  - unfold work in Hex. destruct (w_jobs w !! job) as [[r|on j|m|j|m|db j]|] eqn:Hj; try done.
    + destruct (w_mutex w); [done|]. by injection Hex as <-.
    + destruct (decide _); [|done]. pose proof (on_conns_same m w) as (_ & Ht & _ & _ & _ & _ & Hc).
      destruct (on_conns m w) as [j w1]. injection Hex as <-. simpl in *. unfold waiting. simpl. by rewrite Ht, Hc.
    + destruct (decide _); [|done]. by injection Hex as <-.
    + pose proof (on_paths_same m w) as (_ & Ht & _ & _ & _ & _ & Hc).
      destruct (on_paths m w) as [j w1]. injection Hex as <-. simpl in *. unfold waiting. simpl. by rewrite Ht, Hc.
    + by injection Hex as <-.
  - unfold join in Hex. destruct (w_tasks w !! tid) as [[| |lk job timer db k| |]|] eqn:Ht; try done.
    destruct (w_jobs w !! job) as [[]|]; try done. injection Hex as <-. rewrite waiting_set_task. simpl.
    rewrite Ht. simpl. rewrite Hq. f_equal; unfold waiting; simpl; lia.
Qed.

(** While no request is dropped or times out, the queue counter is the
    number of requests that wait for a lock, modulo the counter's width. *)
Theorem lock_queue_counts w :
  rtc patient_step world0 w -> lock_queue (w_counters w) = wrap_u64 (waiting w).
Proof.
  intros Hr. assert (lock_queue (w_counters (world0 (U:=U))) = wrap_u64 (waiting world0)) as H0' by done.
  revert H0'. induction Hr as [|w1 w2 w3 Hs _ IH]; [done|]. intros Hq. by apply IH, (patient_queue w1).
Qed.

(** ** Interrupts *)

(** A timer interrupts at most the closure that holds the connection
    table, and only when that closure runs on the Cell of the request that
    timed out. *)
Theorem timer_interrupts_own_cell w w' tid job :
  exec cfg (Timer tid) w = Some w' ->
  job ∈ w_interrupted w' -> job ∈ w_interrupted w \/
  exists s h db, w_tasks w !! tid = Some s /\ fst <$> lock_of s = Some db /\
    w_mutex w = Some h /\ h_job h = job /\ h_db h = Some db.
Proof.
  simpl. unfold fire, interrupt.
  destruct (w_tasks w !! tid) as [[|lk since [d|] db j k|lk job' [d|] db k| |]|] eqn:Ht; try done;
    intros [= <-]; simpl; (destruct (w_mutex w) as [h|] eqn:Hm; [|by left]);
    (destruct (decide _) as [(Hdb & _)|]; [|by left]); simpl;
    (intros [->%elem_of_singleton|?]%elem_of_union; [|by left]);
    right; eexists _, h, db; by split.
Qed.

(** ** Fencing *)

(** A write that starts on a fenced Cell with another generation is
    refused by its first step, which changes nothing. *)
Theorem fence_stops_new_writes w w' w'' tid op db g cur :
  op_db op = Some db -> op_generation op = Some g ->
  generations (w_node w) !! db = Some cur -> g <> cur ->
  exec cfg (Spawn tid op) w = Some w' -> exec cfg (Advance tid) w' = Some w'' ->
  (exists err, w_tasks w'' !! tid = Some (Ready (TRet (Err (Forbidden err))))) /\
  w_node w'' = w_node w /\ w_jobs w'' = w_jobs w /\ w_eff w'' = w_eff w.
Proof.
  intros Hdb Hg Hcur Hne Hspawn Hadv. cbn [exec] in *.
  destruct (w_tasks w !! tid) eqn:Ht; [done|]. destruct (request cfg op) as [t|] eqn:Hr; [|done].
  injection Hspawn as <-. unfold advance in Hadv. cbn [w_tasks set_task] in Hadv. rewrite lookup_insert_eq in Hadv.
  assert (exists k, t = step (check_generation db g) k) as [k ->].
  { destruct op; simplify_eq/=; by eexists. }
  unfold step, on_paths, check_generation, bind, gets, mfail in Hadv. simpl in Hadv. rewrite Hcur in Hadv. simpl in Hadv.
  rewrite decide_True in Hadv by done. simplify_eq/=. rewrite lookup_insert_eq. eauto.
Qed.

End races.

(** ** Concrete schedules *)

Definition test_config : DataNodeConfig := mkDataNodeConfig "/data" 1 3600 (Some "30s"%string) QuotaConfig_default.

Definition at_node (cfg : DataNodeConfig) : list Action -> option (World unit) := fun l =>
  run_schedule (env:=env_still) (H:=decimal_uuid_text) (H0:=plain_files) (H1:=no_engine) cfg l world0.

(** The answer of a request, and a row of a Cell's file. *)
Definition answer (tid : nat) (w : World unit) : option Outcome :=
  match w_tasks w !! tid with Some (Answered r) => Some r | _ => None end.
Definition stored (db : DatabaseId) (key : string) (w : World unit) : option string :=
  row_value <$> cell_kv (cell_of (H0:=plain_files) db (w_node w)) !! key.

(** What can be seen of the world a schedule leads to. *)
Definition after_run {A} (l : list Action) (view : World unit -> A) : option A :=
  view <$> at_node test_config l.

Definition times (k : nat) (a : Action) : list Action := replicate k a.

Definition set_op (v : string) : NodeOp := NSet cell_a "k" v None false false 0.

(** A whole SET: five checks, the lock, the closure on worker [job]. *)
Definition whole_set (tid job : nat) (v : string) : list Action :=
  [Spawn tid (set_op v)] ++ times 6 (Advance tid) ++ [Grant tid] ++ times 7 (Work job) ++ [Join tid; Advance tid].


(** SET passes its checks, a fence arrives, SET goes on. *)
Definition before_fence : list Action := [Spawn 1 (set_op "v1")] ++ times 5 (Advance 1).
Definition the_fence : list Action := [Spawn 2 (NFence cell_a 1)] ++ times 2 (Advance 2).
Definition after_fence : list Action :=
  [Advance 1; Grant 1] ++ times 7 (Work 1) ++ [Join 1; Advance 1].

(** Fencing does not wait for the writes it has already let in. There is
    a run in which the fence of a Cell is acknowledged while a write of the
    old generation, past its checks, has not touched SQLite, and the write
    then commits and is acknowledged. *)
Theorem fence_race :
  let fenced := before_fence ++ the_fence in
  after_run fenced (fun w => (answer 2 w, generations (w_node w) !! cell_a, stored cell_a "k" w))
    = Some (Some (Ok RUnit), Some 1, None) /\
  after_run (fenced ++ after_fence) (fun w => (answer 1 w, stored cell_a "k" w))
    = Some (Some (Ok (RBool true)), Some "v1"%string).
Proof. by repeat split; vm_compute. Qed.

Definition get_op : NodeOp := NGet cell_a "k".

(** A RESET up to the point where it has closed the connection and cleared the
    cache, a GET that opens the Cell again, the rest of the RESET. *)
Definition reset_first_half : list Action :=
  [Spawn 2 (NReset cell_a); Advance 2; Grant 2] ++ times 4 (Work 2) ++ [Join 2; Advance 2].
Definition get_between : list Action :=
  [Spawn 3 get_op] ++ times 3 (Advance 3) ++ [Grant 3] ++ times 7 (Work 4) ++ [Join 3; Advance 3].
Definition reset_second_half : list Action := times 2 (Advance 2).
Definition get_after : list Action := [Spawn 4 get_op] ++ times 3 (Advance 4).
(** Another Cell is opened, and the only connection there may be goes to it;
    then the cache loses its entry, and the Cell is read again. *)
Definition open_other : list Action :=
  [Spawn 6 (NEnsure cell_b); Advance 6; Grant 6] ++ times 5 (Work 7) ++ [Join 6; Advance 6].
Definition read_again : list Action :=
  [Spawn 7 (NEvict (cell_a, "k"%string))] ++ times 2 (Advance 7) ++
  [Spawn 8 get_op] ++ times 3 (Advance 8) ++ [Grant 8] ++ times 6 (Work 8) ++ [Join 8; Advance 8].

Definition reset_run : list Action :=
  whole_set 1 1 "old" ++ reset_first_half ++ get_between ++ reset_second_half ++ get_after ++
  whole_set 5 5 "new" ++ open_other ++ read_again.

(** RESET removes the files of a Cell without its lock. There is a run in
    which a read slips in between, opens the old file again and fills the
    cache: after the RESET was acknowledged a GET still returns the old value,
    a SET is acknowledged but goes to the removed file, and once that
    connection is closed the acknowledged write is gone. *)
Theorem reset_race :
  after_run reset_run (fun w => (answer 2 w, answer 4 w))
    = Some (Some (Ok RUnit), Some (Ok (REntry (Some (mkKvEntry "old" None))))) /\
  after_run reset_run (fun w => (answer 5 w, answer 8 w, stored cell_a "k" w))
    = Some (Some (Ok (RBool true)), Some (Ok (REntry None)), None).
Proof. by repeat split; vm_compute. Qed.

(** A request waits for a Cell's lock while a RESET that holds it removes it
    from [db_locks]; the next request gets a new lock. *)
Definition split_run : list Action :=
  [Spawn 1 (NReset cell_a); Advance 1; Grant 1; Spawn 2 (NEnsure cell_a); Advance 2] ++
  times 4 (Work 1) ++ [Join 1; Grant 2; Spawn 3 (NEnsure cell_a); Advance 3; Grant 3].

Definition guard_at (tid : nat) (w : World unit) : option (DatabaseId * nat) :=
  s ← w_tasks w !! tid; match s with Joining lk _ _ db _ => Some (db, lk) | _ => None end.

(** Closing a Cell breaks the lock in two. There is a run in which two
    requests for the same Cell hold its guard at the same time, because a
    close has removed the lock object the first one was waiting for. *)
Theorem close_splits_lock :
  after_run split_run (fun w => (guard_at 2 w, guard_at 3 w))
    = Some (Some (cell_a, 0%nat), Some (cell_a, 3%nat)).
Proof. by repeat split; vm_compute. Qed.

Definition sql_op : NodeOp := NSql cell_a (mkSqlRequest "SELECT 1" []) 0.

(** One statement runs, a second one waits for the lock. *)
Definition two_statements : list Action :=
  [Spawn 1 sql_op] ++ times 3 (Advance 1) ++ [Grant 1; Work 1; Work 1] ++
  [Spawn 2 sql_op] ++ times 3 (Advance 2).

(** A timer that fires for a waiting request interrupts another one.
    There is a run in which the first statement runs on the Cell, the second
    has waited its full time for the lock, and its timer interrupts the
    first, whose own timer has not fired. *)
Theorem interrupt_race :
  after_run two_statements (fun w => (elements (w_interrupted w), guard_at 1 w, guard_at 2 w))
    = Some ([], Some (cell_a, 0%nat), None) /\
  after_run (two_statements ++ [Timer 2; Advance 2])
      (fun w => (elements (w_interrupted w), guard_at 1 w, answer 2 w))
    = Some ([1%nat], Some (cell_a, 0%nat), Some (Err (timed_out "30s"))).
Proof. by repeat split; vm_compute. Qed.

(** The queue counter keeps a request that was dropped while it waited. *)
Lemma dropped_request_stays_queued :
  after_run (two_statements ++ [Drop 2]) (fun w => (waiting w, lock_queue (w_counters w))) = Some (0, 1).
Proof. by repeat split; vm_compute. Qed.

(** ** The theorems at concrete worlds *)

Lemma after_run_world {A} l (view : World unit -> A) a :
  after_run l view = Some a ->
  exists w, at_node test_config l = Some w /\ view w = a /\
    world_reachable (env:=env_still) (H:=decimal_uuid_text) (H0:=plain_files) (H1:=no_engine) test_config w.
Proof.
  unfold after_run. destruct (at_node test_config l) as [w|] eqn:Hw; [|done]. intros [= <-].
  exists w. split; [done|]. split; [done|]. exact (run_schedule_rtc test_config _ _ _ Hw).
Qed.

Lemma run_schedule_steps {env : Env} `{UuidText} {U} `{CellFiles U} `{SqlEngine U} cfg (R : World U -> World U -> Prop)
    (good : Action -> bool) l w w' :
  (forall a w1 w2, good a = true -> exec cfg a w1 = Some w2 -> R w1 w2) ->
  forallb good l = true -> run_schedule cfg l w = Some w' -> rtc R w w'.
Proof.
  intros HR. revert w. induction l as [|a l IH]; intros w; simpl; [intros _ [= ->]; apply rtc_refl|].
  intros [Ha Hl]%andb_true_iff. destruct (exec cfg a w) as [w1|] eqn:Hex; simpl; [|done]. intros Hrun.
  eapply rtc_l; [by eapply HR|by apply IH].
Qed.

Lemma guard_at_task tid (w : World unit) db lk :
  guard_at tid w = Some (db, lk) -> exists s, w_tasks w !! tid = Some s /\ guard_of s = Some lk.
Proof.
  unfold guard_at. destruct (w_tasks w !! tid) as [s|]; simpl; [|done]. intros Hs. exists s. split; [done|].
  by destruct s; simplify_eq.
Qed.

Lemma request_alone_witness :
  exists t, request (env:=env_still) (H:=decimal_uuid_text) (H0:=plain_files) (H1:=no_engine)
      test_config (set_op "v1") = Some t /\
    task_alone (env:=env_still) t Node_new eff0 =
    run_reply (env:=env_still) (H:=decimal_uuid_text) (H0:=plain_files) (H1:=no_engine)
      test_config (set_op "v1") Node_new eff0.
Proof.
  eexists. split; [reflexivity|].
  exact (proj1 (request_alone (env:=env_still) (H:=decimal_uuid_text) (H0:=plain_files) (H1:=no_engine)
    test_config (set_op "v1") Node_new eff0) _ eq_refl).
Defined.

Lemma cell_lock_excludes_witness :
  exists (w : World unit) s, w_tasks w !! 1%nat = Some s /\ is_Some (guard_of s) /\
    forall tid' s', w_tasks w !! tid' = Some s' -> guard_of s' = guard_of s -> 1%nat = tid'.
Proof.
  destruct (after_run_world two_statements (guard_at 1) (Some (cell_a, 0%nat))) as (w & _ & Hg & Hr);
    [vm_compute; reflexivity|].
  destruct (guard_at_task 1 w _ _ Hg) as (s & Hs & Hlk). exists w, s. split; [exact Hs|].
  split; [rewrite Hlk; by eexists|]. intros tid' s' Hs' Heq. rewrite Hlk in Heq.
  exact (proj1 (cell_lock_excludes (env:=env_still) (H:=decimal_uuid_text) (H0:=plain_files) (H1:=no_engine)
    test_config w 1 tid' s s' 0 Hs Hs' Hlk) Hr Heq).
Defined.

Lemma requests_settle_witness :
  exists w w' : World unit, w_mutex w <> None /\
    rtc (progress (env:=env_still) (H:=decimal_uuid_text) (H0:=plain_files) (H1:=no_engine) test_config) w w' /\
    settled w'.
Proof.
  destruct (after_run_world two_statements (fun w => bool_decide (w_mutex w = None)) false) as (w & _ & Hm & Hr);
    [vm_compute; reflexivity|].
  destruct (requests_settle (env:=env_still) (H:=decimal_uuid_text) (H0:=plain_files) (H1:=no_engine)
    test_config w Hr) as (_ & _ & w' & Hw' & Hs).
  exists w, w'. split; [by apply bool_decide_eq_false in Hm|]. by split.
Defined.

Lemma still_timely (w : World unit) : timely (env:=env_still) 0 w.
Proof. intros h _ i _. simpl. lia. Qed.

(** A SET on one Cell and then a whole RESET of another, the one Cell of [X]. *)
Definition set_and_reset : list Action :=
  whole_set 1 1 "v1" ++ [Spawn 2 (NReset cell_b); Advance 2; Grant 2] ++ times 4 (Work 3) ++ [Join 2] ++
  times 3 (Advance 2).

Definition spares_a (a : Action) : bool :=
  match a with Spawn _ (NReset db) | Spawn _ (NDelete db) => bool_decide (db = cell_b) | _ => true end.

Lemma spares_a_sparing a : spares_a a = true -> sparing {[cell_b]} a.
Proof.
  destruct a as [tid op| | | | | | | |]; [|done..]. destruct op; try done; simpl;
    intros ->%bool_decide_eq_true; apply elem_of_singleton; reflexivity.
Qed.


Lemma lock_queue_counts_witness :
  exists w : World unit, waiting w = 1 /\ lock_queue (w_counters w) = 1.
Proof.
  destruct (after_run_world two_statements waiting 1) as (w & Hw & Hv & _); [vm_compute; reflexivity|].
  exists w. split; [exact Hv|].
  rewrite (lock_queue_counts (env:=env_still) (H:=decimal_uuid_text) (H0:=plain_files) (H1:=no_engine) test_config w).
  - rewrite Hv. reflexivity.
  - refine (run_schedule_steps test_config _ patient _ world0 w _ _ Hw); [|reflexivity].
    intros a w1 w2 Ha Hex. exact (ex_intro _ a (conj Ha Hex)).
Defined.

Lemma at_node_snoc l a (w w' : World unit) :
  at_node test_config l = Some w -> at_node test_config (l ++ [a]) = Some w' ->
  exec (env:=env_still) (H:=decimal_uuid_text) (H0:=plain_files) (H1:=no_engine) test_config a w = Some w'.
Proof.
  unfold at_node. generalize (world0 (U:=unit)) as w0. induction l as [|b l IH]; intros w0; cbn [run_schedule app].
  - intros [= ->]. destruct (exec _ a w) as [w1|]; simpl; [|done]. by intros [= ->].
  - destruct (exec _ b w0) as [w1|]; simpl; [|done]. apply IH.
Qed.

Lemma timer_interrupts_own_cell_witness :
  exists (w : World unit) s h db, w_tasks w !! 2%nat = Some s /\ fst <$> lock_of s = Some db /\
    w_mutex w = Some h /\ h_job h = 1%nat /\ h_db h = Some db.
Proof.
  destruct (after_run_world two_statements (fun w => elements (w_interrupted w)) []) as (w & Hw & Hn & _);
    [vm_compute; reflexivity|].
  destruct (after_run_world (two_statements ++ [Timer 2]) (fun w => bool_decide (1%nat ∈ w_interrupted w)) true)
    as (w' & Hw' & Hi & _); [vm_compute; reflexivity|]. apply bool_decide_eq_true in Hi.
  destruct (timer_interrupts_own_cell (env:=env_still) (H:=decimal_uuid_text) (H0:=plain_files) (H1:=no_engine)
    test_config w w' 2 1 (at_node_snoc _ _ _ _ Hw Hw') Hi) as [Hold|Hnew]; [|exists w; exact Hnew].
  apply elem_of_elements in Hold. rewrite Hn in Hold. exact (False_ind _ (not_elem_of_nil _ Hold)).
Defined.

Lemma fence_stops_new_writes_witness :
  exists (w : World unit) err, w_tasks w !! 9%nat = Some (Ready (TRet (Err (Forbidden err)))).
Proof.
  destruct (after_run_world the_fence (fun w => generations (w_node w) !! cell_a) (Some 1)) as (w & Hw & Hg & _);
    [vm_compute; reflexivity|].
  destruct (after_run_world (the_fence ++ [Spawn 9 (set_op "v2")]) (fun _ => tt) tt) as (w1 & Hw1 & _);
    [vm_compute; reflexivity|].
  destruct (after_run_world ((the_fence ++ [Spawn 9 (set_op "v2")]) ++ [Advance 9]) (fun _ => tt) tt)
    as (w2 & Hw2 & _); [vm_compute; reflexivity|].
  destruct (fence_stops_new_writes (env:=env_still) (H:=decimal_uuid_text) (H0:=plain_files) (H1:=no_engine)
    test_config w w1 w2 9 (set_op "v2") cell_a 0 1 eq_refl eq_refl Hg ltac:(done)
    (at_node_snoc _ _ _ _ Hw Hw1) (at_node_snoc _ _ _ _ Hw1 Hw2)) as [[err He] _].
  by exists w2, err.
Defined.
