(* ===== verification/Catalog.v ===== *)
(** crates/metadata/src/store.rs: the directory half of [InMemoryStore]: Cells
    and their names, tenants, API keys, data nodes, leases, configuration,
    idempotency keys and the waitlist. Every operation runs under the store's
    mutex, so each is one transition of the state. *)

From Stdlib Require Import ZArith Lia String Ascii.
From stdpp Require Import gmap strings list fin_maps sorting.
From S2P Require Import Prelude Common.

Inductive DatabaseState := Created | Active | Deleting.

#[export] Instance DatabaseState_eq_dec : EqDecision DatabaseState.
Proof. solve_decision. Defined.

Definition state_as_str (s : DatabaseState) : string :=
  match s with Created => "created" | Active => "active" | Deleting => "deleting" end%string.

Definition state_parse (s : string) : Result DatabaseState :=
  if decide (s = "created"%string) then Ok Created
  else if decide (s = "active"%string) then Ok Active
  else if decide (s = "deleting"%string) then Ok Deleting
  else Err (Internal ("invalid database state: " +:+ s)).

Record TenantRecord := mkTenantRecord {
  t_id : TenantId;
  t_created_at : Z;
  t_status : string;
}.

Record ApiKeyRecord := mkApiKeyRecord {
  k_id : N;
  k_tenant : TenantId;
  k_name : string;
  k_hash : string;
  k_created_at : Z;
  k_revoked_at : option Z;
}.

Record DataNodeRecord := mkDataNodeRecord {
  dn_id : NodeId;
  dn_addr : string;
  dn_capacity : Z;
  dn_active_conns : Z;
  dn_last_heartbeat_at : Z;
  dn_created_at : Z;
}.

Record DatabaseRecord := mkDatabaseRecord {
  db_id : DatabaseId;
  db_name : string;
  db_tenant : TenantId;
  db_state : DatabaseState;
  db_created_at : Z;
  db_storage_node : option NodeId;
  db_replica_node : option NodeId;
  db_generation : Z;
}.

Record WaitlistEntry := mkWaitlistEntry { w_email : string; w_created_at : Z }.

(** The directory fields of [InMemoryInner]. *)
Record Catalog := mkCatalog {
  databases : gmap (TenantId * DatabaseId) DatabaseRecord;
  name_index : gmap (TenantId * string) DatabaseId;
  tenants : gmap TenantId TenantRecord;
  api_keys : gmap N ApiKeyRecord;
  data_nodes : gmap NodeId DataNodeRecord;
  leases : gmap string (N * Z);
  config : gmap string string;
  idempotency : gmap string (TenantId * string);
  waitlist : list WaitlistEntry;
}.

Definition Catalog_empty : Catalog := mkCatalog ∅ ∅ ∅ ∅ ∅ ∅ ∅ ∅ [].

Definition with_databases f (c : Catalog) : Catalog :=
  mkCatalog (f (databases c)) (name_index c) (tenants c) (api_keys c) (data_nodes c) (leases c)
    (config c) (idempotency c) (waitlist c).
Definition with_names f (c : Catalog) : Catalog :=
  mkCatalog (databases c) (f (name_index c)) (tenants c) (api_keys c) (data_nodes c) (leases c)
    (config c) (idempotency c) (waitlist c).
Definition with_tenants f (c : Catalog) : Catalog :=
  mkCatalog (databases c) (name_index c) (f (tenants c)) (api_keys c) (data_nodes c) (leases c)
    (config c) (idempotency c) (waitlist c).
Definition with_api_keys f (c : Catalog) : Catalog :=
  mkCatalog (databases c) (name_index c) (tenants c) (f (api_keys c)) (data_nodes c) (leases c)
    (config c) (idempotency c) (waitlist c).
Definition with_data_nodes f (c : Catalog) : Catalog :=
  mkCatalog (databases c) (name_index c) (tenants c) (api_keys c) (f (data_nodes c)) (leases c)
    (config c) (idempotency c) (waitlist c).
Definition with_leases f (c : Catalog) : Catalog :=
  mkCatalog (databases c) (name_index c) (tenants c) (api_keys c) (data_nodes c) (f (leases c))
    (config c) (idempotency c) (waitlist c).
Definition with_config f (c : Catalog) : Catalog :=
  mkCatalog (databases c) (name_index c) (tenants c) (api_keys c) (data_nodes c) (leases c)
    (f (config c)) (idempotency c) (waitlist c).
Definition with_idempotency f (c : Catalog) : Catalog :=
  mkCatalog (databases c) (name_index c) (tenants c) (api_keys c) (data_nodes c) (leases c)
    (config c) (f (idempotency c)) (waitlist c).
Definition with_waitlist f (c : Catalog) : Catalog :=
  mkCatalog (databases c) (name_index c) (tenants c) (api_keys c) (data_nodes c) (leases c)
    (config c) (idempotency c) (f (waitlist c)).

(** [sort_by_key] with a pair of numbers as key. *)
Definition lex_le (a b : Z * Z) : Prop := a.1 < b.1 \/ (a.1 = b.1 /\ a.2 <= b.2).
#[export] Instance lex_le_dec : RelDecision lex_le.
Proof. intros a b. unfold lex_le. apply _. Defined.

Definition by_key {A} (key : A -> Z * Z) (a b : A) : Prop := lex_le (key a) (key b).
#[export] Instance by_key_dec {A} (key : A -> Z * Z) : RelDecision (by_key key).
Proof. intros a b. unfold by_key. apply _. Defined.

Definition sort_by_key {A} (key : A -> Z * Z) (l : list A) : list A := merge_sort (by_key key) l.

Definition values {K V} `{Countable K} (m : gmap K V) : list V := (map_to_list m).*2.

Fixpoint strip_dashes (s : string) : string :=
  match s with
  | EmptyString => EmptyString
  | String.String c rest =>
      if decide (c = "-"%char) then strip_dashes rest else String.String c (strip_dashes rest)
  end.

Section catalog.
Context {env : Env} `{UuidText}.

Abbreviation CatM := (M Catalog CombeeError).

(** [now_unix] as [u64] seconds. *)
Definition now_unix : CatM Z := read_clock.

Definition default_name (id : DatabaseId) : string :=
  let hex := strip_dashes (DatabaseId_to_string id) in
  "cell-" +:+ (if decide (8 <= String.length hex)%nat then String.substring 0 8 hex else EmptyString).

Definition insert_record (rec : DatabaseRecord) : CatM DatabaseRecord :=
  do! modify (with_names <[(db_tenant rec, db_name rec) := db_id rec]>) in
  do! modify (with_databases <[(db_tenant rec, db_id rec) := rec]>) in
  mret rec.

Definition create_database (tenant : TenantId) (id : DatabaseId) (storage_node : option NodeId)
    (name : option string) : CatM DatabaseRecord :=
  let! existing := gets (fun c => databases c !! (tenant, id)) in
  match existing with
  | Some _ => mfail (DatabaseAlreadyExists id)
  | None =>
      let! name :=
        match name with
        | Some n =>
            let! taken := gets (fun c => name_index c !! (tenant, n)) in
            match taken with
            | Some _ => mfail (CellAlreadyExists n)
            | None => mret n
            end
        | None => mret (default_name id)
        end in
      let! now := now_unix in
      insert_record (mkDatabaseRecord id name tenant Created now storage_node None 0)
  end.

Definition get_database (tenant : TenantId) (id : DatabaseId) : CatM DatabaseRecord :=
  let! r := gets (fun c => databases c !! (tenant, id)) in
  match r with Some rec => mret rec | None => mfail (DatabaseNotFound id) end.

(** An unknown name is reported with a made-up id. *)
Definition get_database_by_name (tenant : TenantId) (name : string) : CatM DatabaseRecord :=
  let! id := gets (fun c => name_index c !! (tenant, name)) in
  match id with
  | Some id => get_database tenant id
  | None => let! fresh := DatabaseId_new in mfail (DatabaseNotFound fresh)
  end.

Definition ensure_database_by_name (tenant : TenantId) (name : string) (storage_node : option NodeId)
    : CatM (DatabaseRecord * bool) :=
  let! id := gets (fun c => name_index c !! (tenant, name)) in
  match id with
  | Some id => let! rec := get_database tenant id in mret (rec, false)
  | None =>
      let! id := DatabaseId_new in
      let! now := now_unix in
      let! rec := insert_record (mkDatabaseRecord id name tenant Created now storage_node None 0) in
      mret (rec, true)
  end.

Definition put_record (tenant : TenantId) (id : DatabaseId) (rec : DatabaseRecord) : CatM unit :=
  modify (with_databases <[(tenant, id) := rec]>).

Definition rename_database (tenant : TenantId) (id : DatabaseId) (new_name : string)
    : CatM DatabaseRecord :=
  let! rec := get_database tenant id in
  let old_name := db_name rec in
  let! taken := gets (fun c => name_index c !! (tenant, new_name)) in
  match taken with
  | Some _ => mfail (CellNameConflict new_name)
  | None =>
      let rec := mkDatabaseRecord (db_id rec) new_name (db_tenant rec) (db_state rec)
        (db_created_at rec) (db_storage_node rec) (db_replica_node rec) (db_generation rec) in
      do! modify (with_names (delete (tenant, old_name))) in
      do! modify (with_names <[(tenant, new_name) := id]>) in
      do! put_record tenant id rec in
      mret rec
  end.

(** [rec.generation += 1], an [i64]. *)
Definition bump_generation (storage replica : option NodeId) (rec : DatabaseRecord) : DatabaseRecord :=
  mkDatabaseRecord (db_id rec) (db_name rec) (db_tenant rec) (db_state rec) (db_created_at rec)
    storage replica (i64_add (db_generation rec) 1).

Definition store_reset_database (tenant : TenantId) (id : DatabaseId) : CatM DatabaseRecord :=
  let! rec := get_database tenant id in
  let rec := bump_generation (db_storage_node rec) (db_replica_node rec) rec in
  do! put_record tenant id rec in
  mret rec.

(** The first record with the id, in the map's order. *)
Definition get_database_by_id (id : DatabaseId) : CatM DatabaseRecord :=
  let! r := gets (fun c => List.find (fun rec => bool_decide (db_id rec = id)) (values (databases c))) in
  match r with Some rec => mret rec | None => mfail (DatabaseNotFound id) end.

Definition record_key (r : DatabaseRecord) : Z * Z := (db_created_at r, Z.of_N (database_uuid (db_id r))).
Definition id_key (r : DatabaseRecord) : Z * Z := (Z.of_N (database_uuid (db_id r)), 0).

Definition list_databases (tenant : TenantId) : CatM (list DatabaseRecord) :=
  gets (fun c => sort_by_key record_key
    (filter (fun kv => kv.1.1 = tenant) (map_to_list (databases c))).*2).

Definition list_databases_all : CatM (list DatabaseRecord) :=
  gets (fun c => sort_by_key record_key (values (databases c))).

Definition list_all_databases : CatM (list DatabaseRecord) :=
  gets (fun c => sort_by_key id_key (values (databases c))).

(** [name_index.retain(|_, v| *v != id)]: over the names of all tenants. *)
Definition store_delete_database (tenant : TenantId) (id : DatabaseId) : CatM unit :=
  let! existing := gets (fun c => databases c !! (tenant, id)) in
  match existing with
  | None => mfail (DatabaseNotFound id)
  | Some _ =>
      do! modify (with_databases (delete (tenant, id))) in
      modify (with_names (filter (fun kv => kv.2 <> id)))
  end.

Definition set_database_state (tenant : TenantId) (id : DatabaseId) (state : DatabaseState) : CatM unit :=
  let! rec := get_database tenant id in
  put_record tenant id (mkDatabaseRecord (db_id rec) (db_name rec) (db_tenant rec) state
    (db_created_at rec) (db_storage_node rec) (db_replica_node rec) (db_generation rec)).

Definition set_replica_node (tenant : TenantId) (id : DatabaseId) (replica : option NodeId)
    : CatM DatabaseRecord :=
  let! rec := get_database tenant id in
  let rec := mkDatabaseRecord (db_id rec) (db_name rec) (db_tenant rec) (db_state rec)
    (db_created_at rec) (db_storage_node rec) replica (db_generation rec) in
  do! put_record tenant id rec in
  mret rec.

Definition list_replicas_of (node : NodeId) : CatM (list DatabaseRecord) :=
  gets (fun c => sort_by_key id_key
    (filter (fun r => db_replica_node r = Some node) (values (databases c)))).

Definition promote_replica (tenant : TenantId) (id : DatabaseId) : CatM DatabaseRecord :=
  let! rec := get_database tenant id in
  match db_replica_node rec with
  | None => mfail (Internal ("cell " +:+ DatabaseId_to_string id +:+ " has no replica to promote"))
  | Some replica =>
      let rec := bump_generation (Some replica) None rec in
      do! put_record tenant id rec in
      mret rec
  end.

Definition migrate_database (tenant : TenantId) (id : DatabaseId) (new_node : NodeId)
    : CatM DatabaseRecord :=
  let! rec := get_database tenant id in
  let rec := bump_generation (Some new_node) (db_replica_node rec) rec in
  do! put_record tenant id rec in
  mret rec.

(** ** Tenants and API keys *)

Definition create_tenant (tenant : TenantId) : CatM TenantRecord :=
  let! now := now_unix in
  let rec := mkTenantRecord tenant now "active" in
  do! modify (with_tenants <[tenant := rec]>) in
  mret rec.

Definition list_tenants : CatM (list TenantRecord) :=
  gets (fun c => sort_by_key (fun t => (t_created_at t, 0)) (values (tenants c))).

Definition create_api_key (tenant : TenantId) (key_hash name : string) : CatM ApiKeyRecord :=
  let! id := fresh_uuid in
  let! now := now_unix in
  let rec := mkApiKeyRecord id tenant name key_hash now None in
  do! modify (with_api_keys <[id := rec]>) in
  mret rec.

Definition key_matches (key_hash : string) (k : ApiKeyRecord) : bool :=
  bool_decide (k_hash k = key_hash) && bool_decide (k_revoked_at k = None).

Definition lookup_api_key_by_hash (key_hash : string) : CatM (option ApiKeyRecord) :=
  gets (fun c => List.find (key_matches key_hash) (values (api_keys c))).

(** [hash] is [combee_common::api_key::hash], SHA-256 in hexadecimal. *)
Definition bootstrap_api_keys (hash : string -> string) (keys : list string) : CatM unit :=
  mfor keys (fun key =>
    let! known := lookup_api_key_by_hash (hash key) in
    match known with
    | Some _ => mret tt
    | None =>
        let! tenant := TenantId_new in
        do! create_tenant tenant in
        do! create_api_key tenant (hash key) "bootstrap" in
        mret tt
    end).

Definition list_api_keys (tenant : TenantId) : CatM (list ApiKeyRecord) :=
  gets (fun c => sort_by_key (fun k => (k_created_at k, 0))
    (filter (fun k => k_tenant k = tenant) (values (api_keys c)))).

Definition revoke_api_key (tenant : TenantId) (key_id : N) : CatM unit :=
  let! k := gets (fun c => api_keys c !! key_id) in
  match k with
  | None => mfail ApiKeyNotFound
  | Some k =>
      if decide (k_tenant k <> tenant) then mfail ApiKeyNotFound else
      let! now := now_unix in
      modify (with_api_keys <[key_id := mkApiKeyRecord (k_id k) (k_tenant k) (k_name k) (k_hash k)
        (k_created_at k) (Some now)]>)
  end.

(** ** Data nodes *)

Definition upsert_data_node (id : NodeId) (addr : string) (capacity : Z) : CatM unit :=
  let! now := now_unix in
  let! known := gets (fun c => data_nodes c !! id) in
  match known with
  | Some rec =>
      modify (with_data_nodes <[id := mkDataNodeRecord (dn_id rec) addr capacity
        (dn_active_conns rec) now (dn_created_at rec)]>)
  | None => modify (with_data_nodes <[id := mkDataNodeRecord id addr capacity 0 now now]>)
  end.

Definition heartbeat_data_node (id : NodeId) (active_conns : Z) : CatM bool :=
  let! known := gets (fun c => data_nodes c !! id) in
  match known with
  | Some rec =>
      let! now := now_unix in
      do! modify (with_data_nodes <[id := mkDataNodeRecord (dn_id rec) (dn_addr rec)
        (dn_capacity rec) active_conns now (dn_created_at rec)]>) in
      mret true
  | None => mret false
  end.

Definition unregister_data_node (id : NodeId) : CatM bool :=
  let! known := gets (fun c => data_nodes c !! id) in
  do! modify (with_data_nodes (delete id)) in
  mret (match known with Some _ => true | None => false end).

Definition list_data_nodes : CatM (list DataNodeRecord) := gets (fun c => values (data_nodes c)).

(** ** Leases, configuration, idempotency, waitlist *)

Definition try_acquire_lease (name : string) (owner : N) (now ttl_secs : Z) : CatM bool :=
  let! cur := gets (fun c => leases c !! name) in
  let held := match cur with
              | Some (cur, exp) => bool_decide (cur = owner) || (exp <? now)
              | None => true
              end in
  do! (if held then modify (with_leases <[name := (owner, i64_add now ttl_secs)]>) else mret tt) in
  mret held.

Definition get_config (key : string) : CatM (option string) := gets (fun c => config c !! key).

Definition set_config (key value : string) : CatM unit := modify (with_config <[key := value]>).

Definition save_idempotency (key : string) (tenant : TenantId) (payload : string)
    : CatM (option string) :=
  let! existing := gets (fun c => idempotency c !! key) in
  match existing with
  | Some (_, p) => mret (Some p)
  | None => do! modify (with_idempotency <[key := (tenant, payload)]>) in mret None
  end.

Definition create_waitlist_entry (email : string) (now : Z) : CatM unit :=
  let! known := gets (fun c => forallb (fun e => negb (bool_decide (w_email e = email))) (waitlist c)) in
  if known then modify (with_waitlist (fun l => l ++ [mkWaitlistEntry email now])) else mret tt.

Definition clamp_page (limit : Z) : nat := Z.to_nat (Z.min 1000 (Z.max 1 limit)).

Definition list_waitlist (limit : Z) : CatM (list WaitlistEntry) :=
  gets (fun c => take (clamp_page limit) (sort_by_key (fun e => (w_created_at e, 0)) (waitlist c))).

Definition create_databases_batch (tenant : TenantId) (ids : list DatabaseId) : CatM unit :=
  mfor ids (fun id => do! create_database tenant id None None in mret tt).

End catalog.
