(* ===== verification/CatalogSpec.v ===== *)
(** What the metadata directory guarantees: names and records stay in step,
    tenants do not see or touch each other's Cells, and generations only grow. *)

From Stdlib Require Import ZArith Lia String Ascii.
From stdpp Require Import gmap strings list fin_maps sorting.
From S2P Require Import Prelude Common Catalog.

(** ** Requests as data *)

Inductive CatOp :=
| CCreate (tenant : TenantId) (id : DatabaseId) (node : option NodeId) (name : option string)
| CEnsure (tenant : TenantId) (name : string) (node : option NodeId)
| CRename (tenant : TenantId) (id : DatabaseId) (new_name : string)
| CReset (tenant : TenantId) (id : DatabaseId)
| CDelete (tenant : TenantId) (id : DatabaseId)
| CState (tenant : TenantId) (id : DatabaseId) (state : DatabaseState)
| CReplica (tenant : TenantId) (id : DatabaseId) (replica : option NodeId)
| CPromote (tenant : TenantId) (id : DatabaseId)
| CMigrate (tenant : TenantId) (id : DatabaseId) (node : NodeId)
| CTenant (tenant : TenantId)
| CApiKey (tenant : TenantId) (hash name : string)
| CRevoke (tenant : TenantId) (key : N)
| CNode (id : NodeId) (addr : string) (capacity : Z)
| CHeartbeat (id : NodeId) (conns : Z)
| CUnregister (id : NodeId)
| CLease (name : string) (owner : N) (now ttl : Z)
| CConfig (key value : string)
| CIdempotency (key : string) (tenant : TenantId) (payload : string)
| CWaitlist (email : string) (now : Z).

(** The tenant whose Cells an operation is about. *)
Definition cat_tenant (op : CatOp) : option TenantId :=
  match op with
  | CCreate t _ _ _ | CEnsure t _ _ | CRename t _ _ | CReset t _ | CDelete t _ | CState t _ _
  | CReplica t _ _ | CPromote t _ | CMigrate t _ _ => Some t
  | _ => None
  end.

Section catalog_ops.
Context {env : Env} `{UuidText}.

Definition forget {A} (m : M Catalog CombeeError A) : M Catalog CombeeError unit :=
  let! _ := m in mret tt.

Definition run_cat (op : CatOp) : M Catalog CombeeError unit :=
  match op with
  | CCreate t id node name => forget (create_database t id node name)
  | CEnsure t name node => forget (ensure_database_by_name t name node)
  | CRename t id n => forget (rename_database t id n)
  | CReset t id => forget (store_reset_database t id)
  | CDelete t id => store_delete_database t id
  | CState t id s => set_database_state t id s
  | CReplica t id r => forget (set_replica_node t id r)
  | CPromote t id => forget (promote_replica t id)
  | CMigrate t id n => forget (migrate_database t id n)
  | CTenant t => forget (create_tenant t)
  | CApiKey t h n => forget (create_api_key t h n)
  | CRevoke t k => revoke_api_key t k
  | CNode id a cap => upsert_data_node id a cap
  | CHeartbeat id n => forget (heartbeat_data_node id n)
  | CUnregister id => forget (unregister_data_node id)
  | CLease n o now ttl => forget (try_acquire_lease n o now ttl)
  | CConfig k v => set_config k v
  | CIdempotency k t p => forget (save_idempotency k t p)
  | CWaitlist e now => create_waitlist_entry e now
  end.

(** What one operation does to the records of Cells and their names. *)
Inductive db_change (c c' : Catalog) (e : Eff) : CatOp -> Prop :=
| change_none op :
    databases c' = databases c -> name_index c' = name_index c -> db_change c c' e op
| change_add op rec :
    databases c !! (db_tenant rec, db_id rec) = None ->
    (op = CCreate (db_tenant rec) (db_id rec) (db_storage_node rec) (Some (db_name rec)) /\
       name_index c !! (db_tenant rec, db_name rec) = None \/
     op = CCreate (db_tenant rec) (db_id rec) (db_storage_node rec) None /\
       db_name rec = default_name (db_id rec) \/
     op = CEnsure (db_tenant rec) (db_name rec) (db_storage_node rec) /\
       db_id rec = mkDatabaseId (uuid_v4 (e_uuid e)) /\
       name_index c !! (db_tenant rec, db_name rec) = None) ->
    databases c' = <[(db_tenant rec, db_id rec) := rec]> (databases c) ->
    name_index c' = <[(db_tenant rec, db_name rec) := db_id rec]> (name_index c) ->
    db_change c c' e op
| change_update op t id rec rec' :
    cat_tenant op = Some t -> databases c !! (t, id) = Some rec ->
    db_id rec' = db_id rec -> db_tenant rec' = db_tenant rec -> db_name rec' = db_name rec ->
    (db_generation rec' = db_generation rec \/ db_generation rec' = i64_add (db_generation rec) 1) ->
    databases c' = <[(t, id) := rec']> (databases c) -> name_index c' = name_index c ->
    db_change c c' e op
| change_rename t id n rec rec' :
    databases c !! (t, id) = Some rec -> name_index c !! (t, n) = None ->
    db_id rec' = db_id rec -> db_tenant rec' = db_tenant rec -> db_name rec' = n ->
    db_generation rec' = db_generation rec ->
    databases c' = <[(t, id) := rec']> (databases c) ->
    name_index c' = <[(t, n) := id]> (delete (t, db_name rec) (name_index c)) ->
    db_change c c' e (CRename t id n)
| change_delete t id rec :
    databases c !! (t, id) = Some rec ->
    databases c' = delete (t, id) (databases c) ->
    name_index c' = filter (fun kv => kv.2 <> id) (name_index c) ->
    db_change c c' e (CDelete t id).

Ltac cat_unfold :=
  unfold forget, create_database, ensure_database_by_name, rename_database, store_reset_database,
    store_delete_database, set_database_state, set_replica_node, promote_replica, migrate_database,
    get_database, insert_record, put_record, create_tenant, create_api_key, revoke_api_key,
    upsert_data_node, heartbeat_data_node, unregister_data_node, try_acquire_lease, set_config,
    save_idempotency, create_waitlist_entry, now_unix, DatabaseId_new, fresh_uuid, read_clock,
    bind, gets, modify, mret, mfail.

(** A new record under the name it carries, with generation 0. *)
Lemma run_create t id node name c e :
  let '(_, c', _) := run_cat (CCreate t id node name) c e in db_change c c' e (CCreate t id node name).
Proof.
  simpl. cat_unfold. destruct (databases c !! (t, id)) eqn:Hdb; [by apply change_none|].
  destruct name as [n|].
  - destruct (name_index c !! (t, n)) eqn:Hn; [by apply change_none|].
    apply (change_add c _ e _ (mkDatabaseRecord id n t Created (clock (e_clock e)) node None 0)); auto.
  - apply (change_add c _ e _ (mkDatabaseRecord id (default_name id) t Created (clock (e_clock e)) node None 0));
      auto.
Qed.

Lemma run_ensure t name node c e :
  databases c !! (t, mkDatabaseId (uuid_v4 (e_uuid e))) = None ->
  let '(_, c', _) := run_cat (CEnsure t name node) c e in db_change c c' e (CEnsure t name node).
Proof.
  intros Hfresh. simpl. cat_unfold. destruct (name_index c !! (t, name)) as [id|] eqn:Hn.
  - destruct (databases c !! (t, id)); by apply change_none.
  - apply (change_add c _ e _ (mkDatabaseRecord (mkDatabaseId (uuid_v4 (e_uuid e))) name t Created
      (clock (e_clock (bump_uuid e))) node None 0)); auto.
Qed.

Lemma run_change op c e :
  (forall t name node, op = CEnsure t name node ->
     databases c !! (t, mkDatabaseId (uuid_v4 (e_uuid e))) = None) ->
  let '(_, c', _) := run_cat op c e in db_change c c' e op.
Proof.
  intros Hens. destruct op; [apply run_create|apply run_ensure; by eapply Hens|..]; simpl; cat_unfold;
    try by apply change_none.
  - destruct (databases c !! (tenant, id)) as [rec|] eqn:Hdb; [|by apply change_none].
    destruct (name_index c !! (tenant, new_name)) eqn:Hn; [by apply change_none|].
    eapply change_rename; [exact Hdb|exact Hn| | | | |reflexivity|reflexivity]; done.
  - destruct (databases c !! (tenant, id)) as [rec|] eqn:Hdb; [|by apply change_none].
    eapply change_update; [reflexivity|exact Hdb| | | | |reflexivity|reflexivity]; simpl; auto.
  - destruct (databases c !! (tenant, id)) as [rec|] eqn:Hdb; [|by apply change_none].
    by eapply change_delete.
  - destruct (databases c !! (tenant, id)) as [rec|] eqn:Hdb; [|by apply change_none].
    eapply change_update; [reflexivity|exact Hdb| | | | |reflexivity|reflexivity]; simpl; auto.
  - destruct (databases c !! (tenant, id)) as [rec|] eqn:Hdb; [|by apply change_none].
    eapply change_update; [reflexivity|exact Hdb| | | | |reflexivity|reflexivity]; simpl; auto.
  - destruct (databases c !! (tenant, id)) as [rec|] eqn:Hdb; [|by apply change_none].
    destruct (db_replica_node rec); [|by apply change_none].
    eapply change_update; [reflexivity|exact Hdb| | | | |reflexivity|reflexivity]; simpl; auto.
  - destruct (databases c !! (tenant, id)) as [rec|] eqn:Hdb; [|by apply change_none].
    eapply change_update; [reflexivity|exact Hdb| | | | |reflexivity|reflexivity]; simpl; auto.
  - destruct (api_keys c !! key); [destruct (decide _)|]; by apply change_none.
  - destruct (data_nodes c !! id); by apply change_none.
  - destruct (data_nodes c !! id); by apply change_none.
  - destruct (match leases c !! name with Some _ => _ | None => _ end); by apply change_none.
  - destruct (idempotency c !! key) as [[]|]; by apply change_none.
  - destruct (forallb _ _); by apply change_none.
Qed.

(** ** Names and records *)

(** Every name leads to a record that carries it; every record can be found
    by the name it carries; an id belongs to one tenant. *)
Record catalog_ok (c : Catalog) : Prop := {
  name_has_record : forall t n id, name_index c !! (t, n) = Some id ->
    exists rec, databases c !! (t, id) = Some rec /\ db_name rec = n;
  record_has_name : forall t id rec, databases c !! (t, id) = Some rec ->
    db_id rec = id /\ db_tenant rec = t /\ name_index c !! (t, db_name rec) = Some id;
  id_has_tenant : forall t1 t2 id r1 r2, databases c !! (t1, id) = Some r1 ->
    databases c !! (t2, id) = Some r2 -> t1 = t2;
}.

(** An id that is new is new for every tenant, and the name made from it is
    not taken. *)
Definition fresh_request (c : Catalog) (e : Eff) (op : CatOp) : Prop :=
  match op with
  | CCreate t id _ name =>
      (forall t', t' <> t -> databases c !! (t', id) = None) /\
      (name = None -> databases c !! (t, id) = None -> name_index c !! (t, default_name id) = None)
  | CEnsure _ _ _ => forall t', databases c !! (t', mkDatabaseId (uuid_v4 (e_uuid e))) = None
  | _ => True
  end.

Lemma catalog_ok_add c c' rec :
  catalog_ok c ->
  (forall t', databases c !! (t', db_id rec) = None) ->
  name_index c !! (db_tenant rec, db_name rec) = None ->
  databases c' = <[(db_tenant rec, db_id rec) := rec]> (databases c) ->
  name_index c' = <[(db_tenant rec, db_name rec) := db_id rec]> (name_index c) ->
  catalog_ok c'.
Proof.
  intros [HA HB HC] Hfresh Hname Hdb Hn. split.
  - intros t n id. rewrite Hn, Hdb.
    destruct (decide ((db_tenant rec, db_name rec) = (t, n))) as [[= <- <-]|Hne].
    + rewrite lookup_insert_eq. intros [= <-]. exists rec. by rewrite lookup_insert_eq.
    + rewrite lookup_insert_ne by done. intros Hid. apply HA in Hid as (r & Hr & <-).
      exists r. rewrite lookup_insert_ne; [done|]. intros [= <- <-]. by rewrite Hfresh in Hr.
  - intros t id r. rewrite Hn, Hdb.
    destruct (decide ((db_tenant rec, db_id rec) = (t, id))) as [[= <- <-]|Hne].
    + rewrite lookup_insert_eq. intros [= <-]. by rewrite lookup_insert_eq.
    + rewrite lookup_insert_ne by done. intros Hr. apply HB in Hr as (H1 & H2 & H3).
      split; [done|]. split; [done|]. rewrite lookup_insert_ne; [done|]. intros [= <- Heq].
      rewrite <- Heq in H3. congruence.
  - assert (forall t id r, databases c' !! (t, id) = Some r ->
      (t, id) = (db_tenant rec, db_id rec) \/ databases c !! (t, id) = Some r) as Hcase.
    { intros t id r. rewrite Hdb, lookup_insert_Some. naive_solver. }
    intros t1 t2 id r1 r2 H1 H2. apply Hcase in H1 as [E1|H1]; apply Hcase in H2 as [E2|H2];
      simplify_eq; try done; [by rewrite Hfresh in H2|by rewrite Hfresh in H1|by eapply HC].
Qed.

Lemma catalog_ok_update c c' t id rec rec' :
  catalog_ok c -> databases c !! (t, id) = Some rec ->
  db_id rec' = db_id rec -> db_tenant rec' = db_tenant rec -> db_name rec' = db_name rec ->
  databases c' = <[(t, id) := rec']> (databases c) -> name_index c' = name_index c ->
  catalog_ok c'.
Proof.
  intros [HA HB HC] Hrec Hid Ht Hnm Hdb Hn.
  assert (forall t' id', is_Some (databases c' !! (t', id')) -> is_Some (databases c !! (t', id'))) as Hdom.
  { intros t' id'. rewrite Hdb. destruct (decide ((t, id) = (t', id'))) as [[= <- <-]|].
    - intros _. by rewrite Hrec. - by rewrite lookup_insert_ne. }
  split.
  - intros t' n id'. rewrite Hn. intros Hi. apply HA in Hi as (r & Hr & Hname). rewrite Hdb.
    destruct (decide ((t, id) = (t', id'))) as [[= <- <-]|Hne].
    + exists rec'. rewrite lookup_insert_eq. split; [done|]. congruence.
    + exists r. by rewrite lookup_insert_ne.
  - intros t' id' r. rewrite Hn, Hdb. destruct (decide ((t, id) = (t', id'))) as [[= <- <-]|Hne].
    + rewrite lookup_insert_eq. intros [= <-]. apply HB in Hrec as (? & ? & ?). by rewrite Hid, Ht, Hnm.
    + rewrite lookup_insert_ne by done. apply HB.
  - intros t1 t2 id' r1 r2 H1 H2. destruct (Hdom t1 id') as [x Hx]; [by eexists|].
    destruct (Hdom t2 id') as [y Hy]; [by eexists|]. by eapply HC.
Qed.

Lemma catalog_ok_rename c c' t id n rec rec' :
  catalog_ok c -> databases c !! (t, id) = Some rec -> name_index c !! (t, n) = None ->
  db_id rec' = db_id rec -> db_tenant rec' = db_tenant rec -> db_name rec' = n ->
  databases c' = <[(t, id) := rec']> (databases c) ->
  name_index c' = <[(t, n) := id]> (delete (t, db_name rec) (name_index c)) ->
  catalog_ok c'.
Proof.
  intros [HA HB HC] Hrec Hfree Hid Ht <- Hdb Hn. pose proof (HB _ _ _ Hrec) as (Hi & Htt & Hown). split.
  - intros t' n' id'. rewrite Hn, Hdb.
    destruct (decide ((t, db_name rec') = (t', n'))) as [[= <- <-]|Hne].
    + rewrite lookup_insert_eq. intros [= <-]. exists rec'. by rewrite lookup_insert_eq.
    + rewrite lookup_insert_ne by done. intros Hl. apply lookup_delete_Some in Hl as [Hnd Hl].
      apply HA in Hl as (r & Hr & <-). exists r. rewrite lookup_insert_ne; [done|].
      intros [= <- <-]. congruence.
  - intros t' id' r. rewrite Hn, Hdb. destruct (decide ((t, id) = (t', id'))) as [[= <- <-]|Hne].
    + rewrite lookup_insert_eq. intros [= <-]. rewrite lookup_insert_eq. by rewrite Hid, Ht.
    + rewrite lookup_insert_ne by done. intros Hr. pose proof (HB _ _ _ Hr) as (H1 & H2 & H3).
      split; [done|]. split; [done|]. rewrite lookup_insert_ne.
      * apply lookup_delete_Some. split; [|done]. intros [= <- Heq]. rewrite Heq in Hown. congruence.
      * intros [= <- Heq]. rewrite Heq in Hfree. congruence.
  - intros t1 t2 id'. rewrite Hdb. intros r1 r2 H1 H2.
    assert (forall t', is_Some (<[(t, id) := rec']> (databases c) !! (t', id')) ->
      is_Some (databases c !! (t', id'))) as Hdom.
    { intros t'. destruct (decide ((t, id) = (t', id'))) as [[= <- <-]|]; [by rewrite Hrec|].
      by rewrite lookup_insert_ne. }
    destruct (Hdom t1) as [x Hx]; [by eexists|]. destruct (Hdom t2) as [y Hy]; [by eexists|]. by eapply HC.
Qed.

Lemma catalog_ok_delete c c' t id rec :
  catalog_ok c -> databases c !! (t, id) = Some rec ->
  databases c' = delete (t, id) (databases c) ->
  name_index c' = filter (fun kv => kv.2 <> id) (name_index c) ->
  catalog_ok c'.
Proof.
  intros [HA HB HC] Hrec Hdb Hn. split.
  - intros t' n id'. rewrite Hn, Hdb, map_lookup_filter_Some. simpl. intros [Hi Hne].
    apply HA in Hi as (r & Hr & Hnm). exists r. rewrite lookup_delete_ne by congruence. done.
  - intros t' id' r. rewrite Hn, Hdb, lookup_delete_Some. intros [Hne Hr].
    pose proof (HB _ _ _ Hr) as (H1 & H2 & H3). split; [done|]. split; [done|].
    apply map_lookup_filter_Some. split; [done|]. simpl. intros ->. apply Hne.
    by rewrite (HC _ _ _ _ _ Hrec Hr).
  - intros t1 t2 id' r1 r2. rewrite Hdb, !lookup_delete_Some. intros [_ H1] [_ H2]. by eapply HC.
Qed.

Lemma run_cat_ok op c e :
  catalog_ok c -> fresh_request c e op -> catalog_ok (run_cat op c e).1.2.
Proof.
  intros Hok Hfresh. pose proof (run_change op c e) as Hch.
  destruct (run_cat op c e) as [[r c'] e']. simpl.
  assert (db_change c c' e op) as Hd.
  { apply Hch. intros t name node ->. apply Hfresh. }
  destruct Hd as [op Hdb Hn|op rec Hnone Hop Hdb Hn|op t id rec rec' _ Hrec H1 H2 H3 _ Hdb Hn
    |t id n rec rec' Hrec Hfree H1 H2 H3 _ Hdb Hn|t id rec Hrec Hdb Hn].
  - destruct Hok as [HA HB HC]. split; intros *; rewrite ?Hdb, ?Hn; [apply HA|apply HB|apply HC].
  - destruct Hop as [[-> Hname]|[[-> Hname]|(-> & Hid & Hname)]]; simpl in Hfresh.
    + destruct Hfresh as [Hf _]. eapply catalog_ok_add; [exact Hok| |exact Hname|exact Hdb|exact Hn].
      intros t'. destruct (decide (t' = db_tenant rec)) as [->|]; auto.
    + destruct Hfresh as [Hf Hdef]. eapply catalog_ok_add; [exact Hok| | |exact Hdb|exact Hn].
      * intros t'. destruct (decide (t' = db_tenant rec)) as [->|]; auto.
      * rewrite Hname. by apply Hdef.
    + eapply catalog_ok_add; [exact Hok| |exact Hname|exact Hdb|exact Hn].
      intros t'. rewrite Hid. apply Hfresh.
  - by eapply catalog_ok_update.
  - by eapply catalog_ok_rename.
  - by eapply catalog_ok_delete.
Qed.

End catalog_ops.

(** ** Properties *)

Section catalog_properties.
Context {env : Env} `{UuidText}.

(** Any sequence of requests that keep ids fresh. *)
Inductive cat_reachable : Catalog -> Eff -> Prop :=
| cat_init e : cat_reachable Catalog_empty e
| cat_step c e op r c' e' :
    cat_reachable c e -> fresh_request c e op -> run_cat op c e = (r, c', e') -> cat_reachable c' e'.

Lemma cat_reachable_ok c e : cat_reachable c e -> catalog_ok c.
Proof.
  induction 1 as [|c e op r c' e' _ IH Hf Hrun]; [split; by intros *|].
  pose proof (run_cat_ok op c e IH Hf) as Hok. by rewrite Hrun in Hok.
Qed.

(** In every reachable directory, looking a Cell up by name is exact: it
    succeeds for the name of every record of the tenant and returns that
    record, and whatever it returns is the tenant's and carries the name. So
    names are unique within a tenant. *)
Theorem name_lookup_exact (c : Catalog) (e : Eff) (t : TenantId) :
  cat_reachable c e ->
  (forall id rec, databases c !! (t, id) = Some rec ->
     get_database_by_name t (db_name rec) c e = (Ok rec, c, e)) /\
  (forall n rec c' e', get_database_by_name t n c e = (Ok rec, c', e') ->
     db_name rec = n /\ db_tenant rec = t /\ databases c !! (t, db_id rec) = Some rec).
Proof.
  intros Hr. apply cat_reachable_ok in Hr as [HA HB _].
  unfold get_database_by_name, get_database, bind, gets, mret, mfail. split.
  - intros id rec Hrec. apply HB in Hrec as Hb. destruct Hb as (_ & _ & ->). by rewrite Hrec.
  - intros n rec c' e'. destruct (name_index c !! (t, n)) as [id|] eqn:Hn; [|by intros [=]].
    apply HA in Hn as (r & Hrec & Hname). rewrite Hrec. intros [= <- _ _].
    apply HB in Hrec as Hb. destruct Hb as (Hid & Ht & _). by rewrite Hid.
Qed.

(** Tenant isolation: an operation for one tenant leaves every record of
    every other tenant as it was, and, a deletion apart, their names too; a
    lookup or a listing for a tenant returns records of that tenant only. *)
Theorem tenants_isolated (op : CatOp) (t other : TenantId) (c : Catalog) (e : Eff) :
  cat_tenant op = Some t -> other <> t ->
  let c' := (run_cat op c e).1.2 in
  (forall id, databases c' !! (other, id) = databases c !! (other, id)) /\
  ((forall id, op <> CDelete t id) -> forall n, name_index c' !! (other, n) = name_index c !! (other, n)) /\
  (forall rec, Ok rec = (list_databases other c' e).1.1 ->
     Forall (fun r => exists id, databases c' !! (other, id) = Some r) rec).
Proof.
  intros Ht Hne c'.
  assert ((forall id, databases c' !! (other, id) = databases c !! (other, id)) /\
    ((forall id, op <> CDelete t id) -> forall n, name_index c' !! (other, n) = name_index c !! (other, n))) as [H1 H2].
  { subst c'. destruct op; simplify_eq/=;
      unfold forget, create_database, ensure_database_by_name, rename_database, store_reset_database,
        store_delete_database, set_database_state, set_replica_node, promote_replica, migrate_database,
        get_database, insert_record, put_record, now_unix, DatabaseId_new, fresh_uuid, read_clock,
        bind, gets, modify, mret, mfail;
      repeat (case_match; simplify_eq/=; try (split; by intros));
      (split; [intros; simpl; rewrite ?lookup_insert_ne, ?lookup_delete_ne by congruence; done|]);
      intros Hd nm; simpl; try (rewrite ?lookup_insert_ne by congruence; rewrite ?lookup_delete_ne by congruence; done).
    by destruct (Hd id). }
  split; [exact H1|]. split; [exact H2|]. intros l. unfold list_databases, gets. simpl. intros [= ->].
  apply Forall_forall. intros r Hr. unfold sort_by_key in Hr. rewrite merge_sort_Permutation in Hr.
  apply list_elem_of_fmap in Hr as ([[t' id] r'] & -> & Hin).
  apply list_elem_of_filter in Hin as [Hk Hin]. apply elem_of_map_to_list in Hin. simpl in *. subst.
  by exists id.
Qed.

(** The generation of a Cell, by which writes are fenced, never goes
    back: an operation leaves it or adds one, and promoting a replica,
    migrating and resetting add one. *)
Theorem generation_monotone (op : CatOp) (t : TenantId) (id : DatabaseId) (rec rec' : DatabaseRecord)
    (c : Catalog) (e : Eff) :
  fresh_request c e op ->
  databases c !! (t, id) = Some rec -> databases (run_cat op c e).1.2 !! (t, id) = Some rec' ->
  is_i64 (db_generation rec + 1) ->
  (db_generation rec' = db_generation rec \/ db_generation rec' = db_generation rec + 1) /\
  ((op = CReset t id \/ op = CPromote t id \/ exists n, op = CMigrate t id n) ->
   is_Ok (run_cat op c e).1.1 = true -> db_generation rec' = db_generation rec + 1).
Proof.
  intros Hfresh Hrec Hrec' Hi64. split.
  - pose proof (run_change op c e) as Hch. destruct (run_cat op c e) as [[r c'] e'].
    assert (db_change c c' e op) as Hd by (apply Hch; intros t0 name node ->; apply Hfresh).
    simpl in Hrec'. rewrite <- (wrap_i64_id (db_generation rec + 1)) by done.
    assert (forall t0 id0 r0 r0', databases c !! (t0, id0) = Some r0 ->
      (db_generation r0' = db_generation r0 \/ db_generation r0' = i64_add (db_generation r0) 1) ->
      databases c' = <[(t0, id0) := r0']> (databases c) ->
      db_generation rec' = db_generation rec \/ db_generation rec' = wrap_i64 (db_generation rec + 1)) as Hup.
    { intros t0 id0 r0 r0' Hr0 Hg Hdb. rewrite Hdb in Hrec'.
      apply lookup_insert_Some in Hrec' as [[[= -> ->] <-]|[_ Hr]]; [|left; congruence].
      rewrite Hr0 in Hrec. injection Hrec as ->. exact Hg. }
    destruct Hd as [op Hdb _|op rec0 Hnone _ Hdb _|op t0 id0 rec0 rec0' _ Hr0 _ _ _ Hg Hdb _
      |t0 id0 n rec0 rec0' Hr0 _ _ _ _ Hg Hdb _|t0 id0 rec0 Hr0 Hdb _].
    + left. congruence.
    + left. rewrite Hdb in Hrec'. rewrite lookup_insert_ne in Hrec'; [congruence|].
      intros Heq. rewrite Heq in Hnone. congruence.
    + by eapply Hup.
    + eapply Hup; [exact Hr0|by left|exact Hdb].
    + left. rewrite Hdb in Hrec'. apply lookup_delete_Some in Hrec' as [_ Hr]. congruence.
  - rewrite <- (wrap_i64_id (db_generation rec + 1)) by done.
    intros [-> |[-> |[n ->]]]; revert Hrec'; simpl; unfold forget, store_reset_database, promote_replica,
      migrate_database, get_database, put_record, bind, gets, modify, mret, mfail; rewrite Hrec;
      try (destruct (db_replica_node rec); [|done]); simpl; rewrite lookup_insert_eq; by intros [= <-].
Qed.

(** A Cell created without a name takes [cell-] and eight digits of its
    id without looking whether the name is free: the Cell that had the name
    can no longer be found by it, though its record still carries it. *)
Theorem default_name_steals (t : TenantId) (id other : DatabaseId) (rec : DatabaseRecord)
    (c : Catalog) (e : Eff) :
  databases c !! (t, id) = None -> databases c !! (t, other) = Some rec -> other <> id ->
  db_name rec = default_name id -> name_index c !! (t, default_name id) = Some other ->
  let c' := (create_database t id None None c e).1.2 in
  databases c' !! (t, other) = Some rec /\
  exists rec', get_database_by_name t (db_name rec) c' e = (Ok rec', c', e) /\ db_id rec' = id.
Proof.
  intros Hnew Hrec Hne Hname Hidx c'. subst c'.
  unfold create_database, get_database_by_name, get_database, insert_record, now_unix, read_clock, bind, gets,
    modify, mret, mfail. rewrite Hnew. simpl. split.
  - by rewrite lookup_insert_ne by congruence.
  - rewrite Hname, lookup_insert_eq. simpl. rewrite lookup_insert_eq. by eexists.
Qed.

(** The directory removes a deleted Cell's id from the names of all
    tenants: a tenant whose Cell has the same id keeps its record but can no
    longer find it by name. *)
Theorem delete_removes_foreign_name (t other : TenantId) (id : DatabaseId) (r1 r2 : DatabaseRecord)
    (c : Catalog) (e : Eff) :
  databases c !! (t, id) = Some r1 -> databases c !! (other, id) = Some r2 -> other <> t ->
  name_index c !! (other, db_name r2) = Some id ->
  let c' := (store_delete_database t id c e).1.2 in
  databases c' !! (other, id) = Some r2 /\ name_index c' !! (other, db_name r2) = None.
Proof.
  intros H1 H2 Hne Hn c'. subst c'. unfold store_delete_database, bind, gets, modify. rewrite H1. simpl.
  split; [by rewrite lookup_delete_ne by congruence|].
  apply map_lookup_filter_None. right. intros x Hx. rewrite Hn in Hx. simplify_eq/=. by intros [].
Qed.

End catalog_properties.

(** ** Concrete instances *)

Definition acme : TenantId := mkTenantId 1.
Definition globex : TenantId := mkTenantId 2.
Definition sample_record (t : TenantId) (n : N) (name : string) : DatabaseRecord :=
  mkDatabaseRecord (mkDatabaseId n) name t Created 1000 None None 0.
Definition sample_catalog (l : list DatabaseRecord) : Catalog :=
  mkCatalog (list_to_map ((fun r => ((db_tenant r, db_id r), r)) <$> l))
    (list_to_map ((fun r => ((db_tenant r, db_name r), db_id r)) <$> l)) ∅ ∅ ∅ ∅ ∅ ∅ [].

Lemma name_lookup_exact_witness :
  get_database_by_name (env:=env_still) acme "main" (sample_catalog [sample_record acme 5 "main"])
    (bump_clock eff0)
  = (Ok (sample_record acme 5 "main"), sample_catalog [sample_record acme 5 "main"], bump_clock eff0).
Proof.
  destruct (name_lookup_exact (env:=env_still) (H:=decimal_uuid_text)
    (sample_catalog [sample_record acme 5 "main"]) (bump_clock eff0) acme) as [Hfind _].
  - eapply (cat_step Catalog_empty eff0 (CCreate acme (mkDatabaseId 5) None (Some "main"%string)));
      [constructor | split; [intros; reflexivity | intros [=]] | reflexivity].
  - apply (Hfind (mkDatabaseId 5) (sample_record acme 5 "main")). reflexivity.
Defined.

Lemma tenants_isolated_witness :
  databases (run_cat (env:=env_still) (H:=decimal_uuid_text) (CDelete acme (mkDatabaseId 5))
    (sample_catalog [sample_record acme 5 "main"; sample_record globex 6 "main"]) eff0).1.2
    !! (globex, mkDatabaseId 6) = Some (sample_record globex 6 "main").
Proof.
  destruct (tenants_isolated (env:=env_still) (H:=decimal_uuid_text) (CDelete acme (mkDatabaseId 5))
    acme globex (sample_catalog [sample_record acme 5 "main"; sample_record globex 6 "main"]) eff0)
    as [Hdb _]; [reflexivity | discriminate |].
  rewrite Hdb. reflexivity.
Defined.

Lemma generation_monotone_witness : i64_add 0 1 = 0 + 1.
Proof.
  destruct (generation_monotone (env:=env_still) (H:=decimal_uuid_text) (CReset acme (mkDatabaseId 5))
    acme (mkDatabaseId 5) (sample_record acme 5 "main")
    (bump_generation None None (sample_record acme 5 "main"))
    (sample_catalog [sample_record acme 5 "main"]) eff0) as [_ Hplus];
    [exact I | reflexivity | reflexivity | vm_compute; split; discriminate |].
  exact (Hplus (or_introl eq_refl) eq_refl).
Defined.

Lemma default_name_steals_witness :
  let id := mkDatabaseId 123456789 in
  exists rec', get_database_by_name (env:=env_still) acme "cell-12345678"
      (create_database (env:=env_still) (H:=decimal_uuid_text) acme id None None
        (sample_catalog [sample_record acme 5 "cell-12345678"]) eff0).1.2 eff0
    = (Ok rec', (create_database (env:=env_still) (H:=decimal_uuid_text) acme id None None
        (sample_catalog [sample_record acme 5 "cell-12345678"]) eff0).1.2, eff0) /\ db_id rec' = id.
Proof.
  apply (default_name_steals (env:=env_still) (H:=decimal_uuid_text) acme (mkDatabaseId 123456789)
    (mkDatabaseId 5) (sample_record acme 5 "cell-12345678"));
    [reflexivity | reflexivity | discriminate | reflexivity | reflexivity].
Defined.

Lemma delete_removes_foreign_name_witness :
  name_index (store_delete_database acme (mkDatabaseId 5)
    (sample_catalog [sample_record acme 5 "main"; sample_record globex 5 "logs"]) eff0).1.2
    !! (globex, "logs"%string) = None.
Proof.
  apply (delete_removes_foreign_name acme globex (mkDatabaseId 5)
    (sample_record acme 5 "main") (sample_record globex 5 "logs"));
    [reflexivity | reflexivity | discriminate | reflexivity].
Defined.
