(* ===== verification/CatalogAccess.v ===== *)
(** API keys, leases and idempotency keys of the metadata store over time. *)

From Stdlib Require Import ZArith Lia String Ascii.
From stdpp Require Import gmap strings list fin_maps.
From S2P Require Import Prelude Common Catalog CatalogSpec.

Section access.
Context {env : Env} `{UuidText}.

(** The directory after a list of requests. *)
Definition cat_run (ops : list CatOp) (s : Catalog * Eff) : Catalog * Eff :=
  foldl (fun s op => let '(_, c', e') := run_cat op s.1 s.2 in (c', e')) s ops.

(** What an operation does to the API keys. *)
Lemma run_cat_keys op c e :
  let '(_, c', e') := run_cat op c e in
  (e_uuid e <= e_uuid e')%nat /\
  (api_keys c' = api_keys c \/
   (exists k, api_keys c' = <[uuid_v4 (e_uuid e) := k]> (api_keys c) /\
      k_id k = uuid_v4 (e_uuid e) /\ k_revoked_at k = None) \/
   (exists id k k', api_keys c !! id = Some k /\ api_keys c' = <[id := k']> (api_keys c) /\
      k_id k' = k_id k /\ k_revoked_at k' <> None)).
Proof.
  destruct op; simpl;
    unfold forget, create_database, ensure_database_by_name, rename_database, store_reset_database,
      store_delete_database, set_database_state, set_replica_node, promote_replica, migrate_database,
      get_database, insert_record, put_record, create_tenant, create_api_key, revoke_api_key,
      upsert_data_node, heartbeat_data_node, unregister_data_node, try_acquire_lease, set_config,
      save_idempotency, create_waitlist_entry, now_unix, DatabaseId_new, fresh_uuid, read_clock,
      bind, gets, modify, mret, mfail; repeat case_match; simplify_eq/=;
    (split; [lia|]); eauto.
  - right; left. eexists. split; [done|]. done.
  - right; right. eexists _, _, _. split; [eassumption|]. by split.
Qed.

Definition keys_filed (c : Catalog) : Prop := forall id k, api_keys c !! id = Some k -> k_id k = id.

Lemma keys_filed_run op c e : keys_filed c -> keys_filed (run_cat op c e).1.2.
Proof.
  intros Hf. pose proof (run_cat_keys op c e) as Hk. destruct (run_cat op c e) as [[r c'] e']. simpl.
  destruct Hk as [_ [Heq|[(k & Heq & Hid & _)|(id & k & k' & Hk & Heq & Hid & _)]]]; intros id0 k0; rewrite Heq.
  - apply Hf.
  - intros [[<- <-]|[_ Hl]]%lookup_insert_Some; [done|by apply Hf].
  - intros [[<- <-]|[_ Hl]]%lookup_insert_Some; [rewrite Hid; by apply Hf|by apply Hf].
Qed.

(** The key is there and revoked, and no later uuid repeats its id. *)
Definition revoked (id : N) (s : Catalog * Eff) : Prop :=
  keys_filed s.1 /\ (exists k, api_keys s.1 !! id = Some k /\ k_revoked_at k <> None) /\
  (forall j, (e_uuid s.2 <= j)%nat -> uuid_v4 j <> id).

Lemma revoked_run id ops s : revoked id s -> revoked id (cat_run ops s).
Proof.
  revert s. induction ops as [|op ops IH]; intros [c e] Hs; [done|]. simpl.
  pose proof (run_cat_keys op c e) as Hk. pose proof (keys_filed_run op c e) as Hf.
  destruct Hs as (Hfiled & (k & Hkey & Hrev) & Hnew). simpl in *. specialize (Hf Hfiled).
  destruct (run_cat op c e) as [[r c'] e']. simpl in *. apply IH. destruct Hk as [He Hk].
  split; [done|]. simpl. split; [|intros j Hj; apply Hnew; lia].
  destruct Hk as [Heq|[(k1 & Heq & _)|(id1 & k1 & k1' & Hk1 & Heq & _ & Hr)]]; rewrite Heq.
  - by exists k.
  - exists k. rewrite lookup_insert_ne; [done|]. apply Hnew. lia.
  - destruct (decide (id1 = id)) as [->|]; [exists k1'; by rewrite lookup_insert_eq|].
    exists k. by rewrite lookup_insert_ne.
Qed.

Lemma find_values {K V} `{Countable K} (f : V -> bool) (m : gmap K V) v :
  List.find f (values m) = Some v -> f v = true /\ exists k, m !! k = Some v.
Proof.
  intros Hf. apply List.find_some in Hf as [Hin Hv]. split; [done|].
  apply list_elem_of_In, list_elem_of_fmap in Hin as ([k v'] & -> & Hin).
  apply elem_of_map_to_list in Hin. by exists k.
Qed.

(** C37: a revoked API key is dead: once a revocation has succeeded, then after
    any further requests no hash leads to it any more; only its owner can
    revoke it. *)
Theorem revoked_key_dead (t : TenantId) (id : N) (c c1 : Catalog) (e e1 : Eff) (ops : list CatOp)
    (hash : string) :
  keys_filed c -> revoke_api_key t id c e = (Ok tt, c1, e1) ->
  (forall j, (e_uuid e1 <= j)%nat -> uuid_v4 j <> id) ->
  (exists k, api_keys c !! id = Some k /\ k_tenant k = t) /\
  let '(c2, e2) := cat_run ops (c1, e1) in
  forall r, lookup_api_key_by_hash hash c2 e2 = (Ok (Some r), c2, e2) ->
    k_id r <> id /\ k_hash r = hash /\ k_revoked_at r = None.
Proof.
  intros Hfiled Hrev Hnew.
  assert (exists k, api_keys c !! id = Some k /\ k_tenant k = t /\
    api_keys c1 = <[id := mkApiKeyRecord (k_id k) (k_tenant k) (k_name k) (k_hash k)
      (k_created_at k) (Some (clock (e_clock e)))]> (api_keys c)) as (k & Hk & Ht & Hc1).
  { revert Hrev. unfold revoke_api_key, now_unix, read_clock, bind, gets, modify, mfail.
    destruct (api_keys c !! id) as [k|]; [|done]. destruct (decide _) as [|Hd]; [done|].
    apply dec_stable in Hd. intros [= <- <-]. by exists k. }
  split; [by exists k|].
  assert (revoked id (c1, e1)) as Hr.
  { split; [|split; [|done]]; simpl.
    - intros id0 k0. rewrite Hc1. intros [[<- <-]|[_ Hl]]%lookup_insert_Some; [simpl; by apply Hfiled|by apply Hfiled].
    - eexists. rewrite Hc1, lookup_insert_eq. split; [done|]. done. }
  apply (revoked_run id ops) in Hr. destruct (cat_run ops (c1, e1)) as [c2 e2].
  destruct Hr as (Hf2 & (k2 & Hk2 & Hrv) & _). simpl in *. intros r.
  unfold lookup_api_key_by_hash, gets. intros [= Hfind].
  apply find_values in Hfind as [Hm [id' Hid']]. unfold key_matches in Hm.
  apply andb_true_iff in Hm as [Hh%bool_decide_eq_true Hn%bool_decide_eq_true].
  split; [|done]. intros Heq. apply Hf2 in Hid' as Hkid. rewrite Heq in Hkid. subst id'.
  rewrite Hk2 in Hid'. by simplify_eq.
Qed.

(** ** Leases *)

(** Attempts on one lease: owner, time and length of each. *)
Fixpoint attempts (name : string) (l : list (N * Z * Z)) (c : Catalog) (e : Eff)
    : list (Result bool) * Catalog :=
  match l with
  | [] => ([], c)
  | (owner, now, ttl) :: l' =>
      let '(r, c1, e1) := try_acquire_lease name owner now ttl c e in
      let '(rs, c2) := attempts name l' c1 e1 in (r :: rs, c2)
  end.

(** Mutual exclusion of a lease's holders: once an owner holds a
    lease, every attempt by anyone else up to the end of the lease is
    refused, however many there are and in whatever order they come, and the
    holder's lease stands. *)
Theorem lease_exclusive (name : string) (owner : N) (now ttl : Z) (c : Catalog) (e : Eff)
    (l : list (N * Z * Z)) :
  is_i64 (now + ttl) ->
  let '(r, c1, e1) := try_acquire_lease name owner now ttl c e in
  r = Ok true ->
  Forall (fun '(o, t, _) => o <> owner /\ t <= now + ttl) l ->
  let '(rs, c2) := attempts name l c1 e1 in
  Forall (fun r => r = Ok false) rs /\ leases c2 !! name = Some (owner, now + ttl).
Proof.
  intros Hi. destruct (try_acquire_lease name owner now ttl c e) as [[r c1] e1] eqn:Hacq.
  intros -> Hl.
  assert (leases c1 !! name = Some (owner, now + ttl)) as Hheld.
  { revert Hacq. unfold try_acquire_lease, bind, gets, modify, mret.
    destruct (match leases c !! name with Some _ => _ | None => _ end); intros [= <- <-]; simpl.
    rewrite lookup_insert_eq. unfold i64_add. by rewrite wrap_i64_id. }
  clear Hacq. revert c1 e1 Hheld. induction Hl as [|[[o t] tt] l [Ho Ht] _ IH]; intros c1 e1 Hheld; [done|].
  simpl. assert (try_acquire_lease name o t tt c1 e1 = (Ok false, c1, e1)) as ->.
  { unfold try_acquire_lease, bind, gets, mret. rewrite Hheld. rewrite bool_decide_eq_false_2 by congruence.
    destruct (Z.ltb_spec (now + ttl) t); [lia|done]. }
  specialize (IH c1 e1 Hheld). destruct (attempts name l c1 e1) as [rs c2].
  destruct IH as [Hrs Hc2]. split; [by constructor|done].
Qed.

(** An idempotency key belongs to whoever used it first: every later
    request with the same key gets the first request's payload, whichever
    tenant sends it. *)
Theorem idempotency_first_wins (key : string) (t1 t2 : TenantId) (p1 p2 : string)
    (c : Catalog) (e : Eff) (ops : list CatOp) :
  idempotency c !! key = None ->
  let '(_, c1, e1) := save_idempotency key t1 p1 c e in
  let '(c2, e2) := cat_run ops (c1, e1) in
  (save_idempotency key t2 p2 c2 e2).1.1 = Ok (Some p1).
Proof.
  intros Hnone. unfold save_idempotency at 1, bind, gets, modify, mret. rewrite Hnone.
  assert (forall ops s, idempotency s.1 !! key = Some (t1, p1) ->
    idempotency (cat_run ops s).1 !! key = Some (t1, p1)) as Hkeep.
  { clear ops. induction ops as [|op ops IH]; intros [c0 e0] Hs; [done|]. simpl.
    assert (let '(_, c', _) := run_cat op c0 e0 in idempotency c' !! key = Some (t1, p1)) as Hstep.
    { destruct op; simpl;
        unfold forget, create_database, ensure_database_by_name, rename_database, store_reset_database,
          store_delete_database, set_database_state, set_replica_node, promote_replica, migrate_database,
          get_database, insert_record, put_record, create_tenant, create_api_key, revoke_api_key,
          upsert_data_node, heartbeat_data_node, unregister_data_node, try_acquire_lease, set_config,
          save_idempotency, create_waitlist_entry, now_unix, DatabaseId_new, fresh_uuid, read_clock,
          bind, gets, modify, mret, mfail; repeat case_match; simplify_eq/=; try done.
      rewrite lookup_insert_ne; [done|]. intros ->. congruence. }
    destruct (run_cat op c0 e0) as [[r c'] e']. by apply IH. }
  set (c1 := with_idempotency _ c). specialize (Hkeep ops (c1, e)).
  destruct (cat_run ops (c1, e)) as [c2 e2]. simpl in Hkeep.
  unfold save_idempotency, bind, gets, mret. rewrite Hkeep; [done|].
  subst c1. simpl. apply lookup_insert_eq.
Qed.

End access.

Definition tenant_a : TenantId := mkTenantId 1.
Definition tenant_b : TenantId := mkTenantId 2.

Lemma revoked_key_dead_witness :
  let k := mkApiKeyRecord 7 tenant_a "ci" "h" 5 None in
  let c := with_api_keys (fun _ => {[7%N := k]}) Catalog_empty in
  exists k', api_keys c !! 7%N = Some k' /\ k_tenant k' = tenant_a.
Proof.
  intros k c. apply (revoked_key_dead (env:=env_still) (H:=decimal_uuid_text) tenant_a 7 c
    (with_api_keys (fun _ => {[7%N := mkApiKeyRecord 7 tenant_a "ci" "h" 5 (Some 1000)]}) Catalog_empty)
    (mkEff 0 0 0 8) (mkEff 1 0 0 8) [] "h").
  - intros id k0 Hk. unfold c in Hk. simpl in Hk. apply lookup_singleton_Some in Hk as [<- <-]. reflexivity.
  - reflexivity.
  - intros j Hj. simpl in *. lia.
Defined.

Lemma lease_exclusive_witness :
  Forall (fun r => r = Ok false) [Ok (E:=CombeeError) false] /\
  leases (attempts "settle" [(2%N, 1050, 60)]
    (with_leases (fun _ => {["settle"%string := (1%N, 1060)]}) Catalog_empty) eff0).2 !! "settle"%string
    = Some (1%N, 1060).
Proof.
  exact (lease_exclusive "settle" 1 1000 60 Catalog_empty eff0 [(2%N, 1050, 60)]
    ltac:(vm_compute; split; discriminate) eq_refl
    ltac:(repeat constructor; [discriminate | vm_compute; discriminate])).
Defined.

Lemma idempotency_first_wins_witness :
  (save_idempotency "k" tenant_b "y"
    (with_idempotency (fun _ => {["k"%string := (tenant_a, "x"%string)]}) Catalog_empty) eff0).1.1
  = Ok (Some "x"%string).
Proof.
  exact (idempotency_first_wins (env:=env_still) (H:=decimal_uuid_text) "k" tenant_a tenant_b "x" "y"
    Catalog_empty eff0 [] eq_refl).
Defined.
