(* ===== verification/Ledger.v ===== *)
(** crates/metadata/src/store.rs: the accounting half of [InMemoryStore]:
    usage buckets, pricing versions, credit accounts, the append-only ledger
    and vouchers. *)

From Stdlib Require Import ZArith Lia String Ascii.
From stdpp Require Import gmap strings list fin_maps sorting.
From S2P Require Import Prelude Common Kv Catalog.

Record Ledger := mkLedger {
  usage : gmap UsageKey Z;
  pricing_versions : gmap Z PricingVersion;
  pricing_rules : gmap Z (list PricingRule);
  credit_accounts : gmap TenantId CreditAccount;
  credit_transactions : gmap N CreditTransaction;
  credit_txn_by_ref : gmap string N;
  vouchers : gmap N CreditVoucher;
  voucher_by_hash : gmap string N;
}.

Definition Ledger_empty : Ledger := mkLedger ∅ ∅ ∅ ∅ ∅ ∅ ∅ ∅.

Definition with_usage f (l : Ledger) : Ledger :=
  mkLedger (f (usage l)) (pricing_versions l) (pricing_rules l) (credit_accounts l)
    (credit_transactions l) (credit_txn_by_ref l) (vouchers l) (voucher_by_hash l).
Definition with_pricing f g (l : Ledger) : Ledger :=
  mkLedger (usage l) (f (pricing_versions l)) (g (pricing_rules l)) (credit_accounts l)
    (credit_transactions l) (credit_txn_by_ref l) (vouchers l) (voucher_by_hash l).
Definition with_accounts f (l : Ledger) : Ledger :=
  mkLedger (usage l) (pricing_versions l) (pricing_rules l) (f (credit_accounts l))
    (credit_transactions l) (credit_txn_by_ref l) (vouchers l) (voucher_by_hash l).
Definition with_transactions f (l : Ledger) : Ledger :=
  mkLedger (usage l) (pricing_versions l) (pricing_rules l) (credit_accounts l)
    (f (credit_transactions l)) (credit_txn_by_ref l) (vouchers l) (voucher_by_hash l).
Definition with_refs f (l : Ledger) : Ledger :=
  mkLedger (usage l) (pricing_versions l) (pricing_rules l) (credit_accounts l)
    (credit_transactions l) (f (credit_txn_by_ref l)) (vouchers l) (voucher_by_hash l).
Definition with_vouchers f (l : Ledger) : Ledger :=
  mkLedger (usage l) (pricing_versions l) (pricing_rules l) (credit_accounts l)
    (credit_transactions l) (credit_txn_by_ref l) (f (vouchers l)) (voucher_by_hash l).
Definition with_voucher_hashes f (l : Ledger) : Ledger :=
  mkLedger (usage l) (pricing_versions l) (pricing_rules l) (credit_accounts l)
    (credit_transactions l) (credit_txn_by_ref l) (vouchers l) (f (voucher_by_hash l)).

(** ** credit.rs: voucher codes *)

Definition ALPHABET : string := "ABCDEFGHJKMNPQRSTUVWXYZ23456789".

Section ledger.
Context {env : Env} `{UuidText}.
(** SHA-256, as 32 bytes in hexadecimal. *)
Variable sha256 : string -> string.

Abbreviation LedM := (M Ledger CombeeError).

Definition led_now : LedM Z := read_clock.

(** One draw of the thread's random generator below the alphabet's length. *)
Definition draw_char {S} : M S CombeeError string :=
  let! r := fresh_uuid in
  mret (String.substring (N.to_nat (r mod N.of_nat (String.length ALPHABET))) 1 ALPHABET).

Definition generate_voucher_code {S} : M S CombeeError string :=
  let! chars := mmap (seq 0 12) (fun i =>
    let! c := draw_char in
    mret ((if (0 <? i)%nat && (i mod 4 =? 0)%nat then "-" else EmptyString) +:+ c)) in
  mret (foldl String.append "CMB-" chars).

(** The first 16 of the 32 bytes. *)
Definition hash_voucher_code (code : string) : string := String.substring 0 32 (sha256 code).

(** ** Usage *)

(** [+= delta] on a [u64]. *)
Definition usage_add (key : UsageKey) (delta : Z) : LedM unit :=
  modify (with_usage (fun u => <[key := u64_add (default 0 (u !! key)) delta]> u)).

Definition usage_set (key : UsageKey) (value : Z) : LedM unit :=
  modify (with_usage <[key := value]>).

Definition usage_selected (tenant : TenantId) (cell : option DatabaseId) (metric : option UsageMetric)
    (from_bucket to_bucket : Z) (k : UsageKey) : bool :=
  bool_decide (uk_tenant k = tenant) &&
  match cell with Some c => bool_decide (uk_cell k = Some c) | None => true end &&
  match metric with Some m => bool_decide (uk_metric k = m) | None => true end &&
  (from_bucket <=? uk_bucket k) && (uk_bucket k <=? to_bucket).

(** [sort_by_key(|b| (b.bucket_start, b.metric.as_str().to_string(), b.cell_id))];
    no Cell comes before every Cell. *)
Definition cell_rank (cell : option DatabaseId) : Z :=
  match cell with None => -1 | Some c => Z.of_N (database_uuid c) end.

Definition usage_leb (a b : UsageBucket) : bool :=
  match ub_bucket a ?= ub_bucket b with
  | Lt => true
  | Gt => false
  | Eq =>
      match String.compare (metric_as_str (ub_metric a)) (metric_as_str (ub_metric b)) with
      | Lt => true
      | Gt => false
      | Eq => cell_rank (ub_cell a) <=? cell_rank (ub_cell b)
      end
  end.

Definition usage_le (a b : UsageBucket) : Prop := usage_leb a b = true.
#[export] Instance usage_le_dec : RelDecision usage_le.
Proof. intros a b. unfold usage_le. apply _. Defined.

Definition query_usage (tenant : TenantId) (cell : option DatabaseId) (metric : option UsageMetric)
    (from_bucket to_bucket : Z) : LedM (list UsageBucket) :=
  gets (fun l => merge_sort usage_le
    ((fun kv => mkUsageBucket (uk_tenant kv.1) (uk_cell kv.1) (uk_metric kv.1) (uk_bucket kv.1) kv.2) <$>
     filter (fun kv => usage_selected tenant cell metric from_bucket to_bucket kv.1 = true)
       (map_to_list (usage l)))).

(** ** Pricing *)

Definition max_version (m : gmap Z PricingVersion) : option Z :=
  match (map_to_list m).*1 with
  | [] => None
  | v :: vs => Some (foldr Z.max v vs)
  end.

Definition create_pricing_version (rules : list PricingRule) : LedM PricingVersion :=
  let! latest := gets (fun l => max_version (pricing_versions l)) in
  let version := i64_add (default 0 latest) 1 in
  let! now := led_now in
  let rec := mkPricingVersion version PricingActive now now in
  do! modify (with_pricing
    (fun vs => <[version := rec]>
       ((fun v => mkPricingVersion (pv_version v) PricingInactive (pv_effective_at v) (pv_created_at v)) <$> vs))
    <[version := rules]>) in
  mret rec.

Definition is_active (kv : Z * PricingVersion) : bool := bool_decide (pv_status kv.2 = PricingActive).

Definition get_active_pricing : LedM (PricingVersion * list PricingRule) :=
  gets (fun l =>
    match List.find is_active (map_to_list (pricing_versions l)) with
    | Some (v, rec) => (rec, default [] (pricing_rules l !! v))
    | None => (mkPricingVersion 0 PricingActive 0 0, [])
    end).

Definition list_pricing_versions : LedM (list PricingVersion) :=
  gets (fun l => sort_by_key (fun v => (pv_version v, 0)) (values (pricing_versions l))).

(** ** Credits *)

Definition get_credit_account (tenant : TenantId) : LedM CreditAccount :=
  let! acc := gets (fun l => credit_accounts l !! tenant) in
  match acc with
  | Some a => mret a
  | None =>
      let! now := led_now in
      let a := mkAccount tenant 0 0 now in
      do! modify (with_accounts <[tenant := a]>) in
      mret a
  end.

(** The newest first; [limit] entries, of those whose id is below [before]. *)
Definition list_credit_transactions (tenant : TenantId) (limit : Z) (before : option N)
    : LedM (list CreditTransaction) :=
  gets (fun l => take (clamp_page limit)
    (sort_by_key (fun t => (- txn_created_at t, - Z.of_N (txn_id t)))
      (filter (fun t => bool_decide (txn_tenant t = tenant) && from_option (fun b => (txn_id t <? b)%N) true before = true)
        (values (credit_transactions l))))).

Definition lookup_reference (reference : string) (l : Ledger) : option CreditTransaction :=
  id ← credit_txn_by_ref l !! reference; credit_transactions l !! id.

Definition find_transaction_by_reference (reference : string) : LedM (option CreditTransaction) :=
  gets (lookup_reference reference).

(** Adds to a tenant's balance, saturating. *)
Definition credit (tenant : TenantId) (amount updated_at : Z) : LedM Z :=
  let! acc := get_credit_account tenant in
  let balance := i64_saturating_add (balance_units acc) amount in
  do! modify (with_accounts <[tenant := mkAccount (acc_tenant acc) balance (reserved_units acc) updated_at]>) in
  mret balance.

Definition record_transaction (txn : CreditTransaction) : LedM unit :=
  do! (match reference_id txn with
       | Some r => modify (with_refs <[r := txn_id txn]>)
       | None => mret tt
       end) in
  modify (with_transactions <[txn_id txn := txn]>).

Definition append_credit_transaction (txn : CreditTransaction) : LedM CreditTransaction :=
  let! existing := gets (fun l => r ← reference_id txn; lookup_reference r l) in
  match existing with
  | Some t => mret t
  | None =>
      let! acc := get_credit_account (txn_tenant txn) in
      let! now := led_now in
      let balance := i64_saturating_add (balance_units acc) (amount_units txn) in
      do! modify (with_accounts <[txn_tenant txn :=
            mkAccount (acc_tenant acc) balance (reserved_units acc) now]>) in
      let txn := mkTxn (txn_id txn) (txn_tenant txn) (txn_type txn) (amount_units txn)
        (pricing_version txn) (reference_id txn) (description txn) (txn_created_at txn) (Some balance) in
      do! record_transaction txn in
      mret txn
  end.

(** ** Vouchers *)

Definition create_voucher (amount : Z) (campaign : option string) (expires_at : option Z)
    : LedM (string * CreditVoucher) :=
  let! code := generate_voucher_code in
  let code_hash := hash_voucher_code code in
  let! id := fresh_uuid in
  let! now := led_now in
  let v := mkVoucher id code_hash amount VoucherActive campaign now expires_at None None in
  do! modify (with_voucher_hashes <[code_hash := id]>) in
  do! modify (with_vouchers <[id := v]>) in
  mret (code, v).

Definition create_vouchers (amount : Z) (count : nat) (campaign : option string)
    (expires_at : option Z) : LedM (list (string * CreditVoucher)) :=
  mmap (replicate count tt) (fun _ => create_voucher amount campaign expires_at).

Definition voucher_reference (code_hash : string) : string := "voucher:" +:+ code_hash.

Definition redeem_voucher (code_hash : string) (tenant : TenantId) (now : Z) : LedM Z :=
  let not_found := InvalidRequest "voucher not found" in
  let! id := gets (fun l => voucher_by_hash l !! code_hash) in
  match id with
  | None => mfail not_found
  | Some id =>
      let! v := gets (fun l => vouchers l !! id) in
      match v with
      | None => mfail not_found
      | Some v =>
          if decide (v_status v <> VoucherActive) then
            mfail (InvalidRequest "voucher already used or revoked")
          else if from_option (fun x => x <? now) false (v_expires_at v) then
            mfail (InvalidRequest "voucher expired")
          else
            let amount := v_amount_units v in
            do! modify (with_vouchers <[id := mkVoucher (v_id v) (v_code_hash v) amount VoucherUsed
                  (v_campaign v) (v_created_at v) (v_expires_at v) (Some tenant) (Some now)]>) in
            let! balance := credit tenant amount now in
            let! txn_id := fresh_uuid in
            do! record_transaction (mkTxn txn_id tenant Voucher amount None
                  (Some (voucher_reference code_hash)) (Some "voucher redemption"%string) now (Some balance)) in
            mret amount
      end
  end.

Definition list_vouchers (limit : Z) : LedM (list CreditVoucher) :=
  gets (fun l => take (clamp_page limit) (sort_by_key (fun v => (v_created_at v, 0)) (values (vouchers l)))).

End ledger.
