(* ===== verification/LedgerSpec.v ===== *)
(** What the accounting store guarantees: balances are the sums of the ledger,
    a reference is settled once, a voucher pays once, and one pricing version
    is active. *)

From Stdlib Require Import ZArith Lia String Ascii.
From stdpp Require Import gmap strings list fin_maps sorting.
From S2P Require Import Prelude Common Kv Catalog Ledger.

Inductive LedOp :=
| LUsageAdd (key : UsageKey) (delta : Z)
| LUsageSet (key : UsageKey) (value : Z)
| LPricing (rules : list PricingRule)
| LAccount (tenant : TenantId)
| LAppend (txn : CreditTransaction)
| LVouchers (amount : Z) (count : nat) (campaign : option string) (expires_at : option Z)
| LRedeem (code_hash : string) (tenant : TenantId) (now : Z).

Section ledger_ops.
Context {env : Env} (sha256 : string -> string).

Abbreviation LedM := (M Ledger CombeeError).

Definition drop_result {A} (m : LedM A) : LedM unit := let! _ := m in mret tt.

Definition run_led (op : LedOp) : LedM unit :=
  match op with
  | LUsageAdd k d => usage_add k d
  | LUsageSet k v => usage_set k v
  | LPricing rules => drop_result (create_pricing_version rules)
  | LAccount t => drop_result (get_credit_account t)
  | LAppend txn => drop_result (append_credit_transaction txn)
  | LVouchers a n c x => drop_result (create_vouchers sha256 a n c x)
  | LRedeem h t now => drop_result (redeem_voucher h t now)
  end.

Definition led_run (ops : list LedOp) (s : Ledger * Eff) : Ledger * Eff :=
  foldl (fun s op => let '(_, l', e') := run_led op s.1 s.2 in (l', e')) s ops.

(** ** The books *)

Definition balance (l : Ledger) (t : TenantId) : Z :=
  from_option balance_units 0 (credit_accounts l !! t).

Definition tenant_amount (t : TenantId) (_ : N) (x : CreditTransaction) : Z :=
  if decide (txn_tenant x = t) then amount_units x else 0.

Definition tenant_total (l : Ledger) (t : TenantId) : Z :=
  map_sum (tenant_amount t) (credit_transactions l).

Record ledger_ok (l : Ledger) : Prop := {
  books_balance : forall t, balance l t = tenant_total l t;
  refs_lead : forall r id, credit_txn_by_ref l !! r = Some id ->
    exists x, credit_transactions l !! id = Some x /\ reference_id x = Some r;
}.

(** A new entry has a new id, and the balance it leads to fits an [i64]. *)
Definition entry_fits (l : Ledger) (id : N) (t : TenantId) (amount : Z) : Prop :=
  credit_transactions l !! id = None /\ is_i64 (balance l t + amount).

Definition admissible (l : Ledger) (e : Eff) (op : LedOp) : Prop :=
  match op with
  | LAppend txn =>
      (exists r x, reference_id txn = Some r /\ lookup_reference r l = Some x) \/
      entry_fits l (txn_id txn) (txn_tenant txn) (amount_units txn)
  | LRedeem h t _ =>
      forall id v, voucher_by_hash l !! h = Some id -> vouchers l !! id = Some v ->
        entry_fits l (uuid_v4 (e_uuid e)) t (v_amount_units v)
  | _ => True
  end.

(** An entry and its effect on the account. *)
Lemma ledger_ok_entry l l' x :
  ledger_ok l -> credit_transactions l !! txn_id x = None ->
  credit_transactions l' = <[txn_id x := x]> (credit_transactions l) ->
  credit_txn_by_ref l' = match reference_id x with
    | Some r => <[r := txn_id x]> (credit_txn_by_ref l) | None => credit_txn_by_ref l end ->
  (forall t, balance l' t = balance l t + tenant_amount t (txn_id x) x) ->
  ledger_ok l'.
Proof.
  intros [Hb Hr] Hnew Htx Hrefs Hbal. split.
  - intros t. unfold tenant_total. rewrite Htx, map_sum_insert_None by done. rewrite Hbal, Hb.
    unfold tenant_total. lia.
  - intros r id. rewrite Hrefs, Htx. intros Hid.
    assert (credit_txn_by_ref l !! r = Some id \/ reference_id x = Some r /\ id = txn_id x) as Hcase.
    { destruct (reference_id x) as [r0|]; [|by left].
      apply lookup_insert_Some in Hid as [[-> <-]|[_ Hid]]; [by right|by left]. }
    destruct Hcase as [Hold|[Href ->]].
    + apply Hr in Hold as (y & Hy & Hyr). exists y. rewrite lookup_insert_ne; [done|]. congruence.
    + exists x. by rewrite lookup_insert_eq.
Qed.

Lemma get_credit_account_run t l e :
  exists l' e', get_credit_account t l e =
      (Ok (default (mkAccount t 0 0 (clock (e_clock e))) (credit_accounts l !! t)), l', e') /\
    credit_transactions l' = credit_transactions l /\ credit_txn_by_ref l' = credit_txn_by_ref l /\
    vouchers l' = vouchers l /\ voucher_by_hash l' = voucher_by_hash l /\ e_uuid e' = e_uuid e /\
    (forall t', balance l' t' = balance l t').
Proof.
  unfold get_credit_account, bind, gets, mret, led_now, read_clock, modify.
  destruct (credit_accounts l !! t) as [a|] eqn:Ha.
  - eexists _, _. split; [done|]. done.
  - eexists _, _. split; [done|]. do 5 (split; [done|]). intros t'. unfold balance. simpl.
    destruct (decide (t = t')) as [<-|]; [by rewrite lookup_insert_eq, Ha|by rewrite lookup_insert_ne].
Qed.

Lemma default_balance l t now :
  balance_units (default (mkAccount t 0 0 now) (credit_accounts l !! t)) = balance l t.
Proof. unfold balance. by destruct (credit_accounts l !! t). Qed.

(** Appending an entry whose reference is not settled yet. *)
Lemma append_new_run txn l e :
  (r ← reference_id txn; lookup_reference r l) = None ->
  exists l' e', append_credit_transaction txn l e =
      (Ok (mkTxn (txn_id txn) (txn_tenant txn) (txn_type txn) (amount_units txn) (pricing_version txn)
        (reference_id txn) (description txn) (txn_created_at txn)
        (Some (i64_saturating_add (balance l (txn_tenant txn)) (amount_units txn)))), l', e') /\
    (exists x, credit_transactions l' = <[txn_id txn := x]> (credit_transactions l) /\
       txn_id x = txn_id txn /\ txn_tenant x = txn_tenant txn /\ amount_units x = amount_units txn /\
       reference_id x = reference_id txn) /\
    credit_txn_by_ref l' = match reference_id txn with
      | Some r => <[r := txn_id txn]> (credit_txn_by_ref l) | None => credit_txn_by_ref l end /\
    vouchers l' = vouchers l /\ voucher_by_hash l' = voucher_by_hash l /\ e_uuid e' = e_uuid e /\
    (forall t, balance l' t = if decide (t = txn_tenant txn)
       then i64_saturating_add (balance l t) (amount_units txn) else balance l t).
Proof.
  intros Hnone. unfold append_credit_transaction, bind at 1, gets. rewrite Hnone.
  destruct (get_credit_account_run (txn_tenant txn) l e) as (l1 & e1 & Hg & Ht & Hr & Hv & Hh & Hu & Hbal).
  unfold bind at 1. rewrite Hg.
  unfold bind, led_now, read_clock, modify, record_transaction, mret.
  assert (forall t, from_option balance_units 0
    (<[txn_tenant txn := mkAccount
        (acc_tenant (default (mkAccount (txn_tenant txn) 0 0 (clock (e_clock e))) (credit_accounts l !! txn_tenant txn)))
        (i64_saturating_add (balance l (txn_tenant txn)) (amount_units txn))
        (reserved_units (default (mkAccount (txn_tenant txn) 0 0 (clock (e_clock e))) (credit_accounts l !! txn_tenant txn)))
        (clock (e_clock e1))]> (credit_accounts l1) !! t) =
    if decide (t = txn_tenant txn) then i64_saturating_add (balance l t) (amount_units txn) else balance l t) as Hb2.
  { intros t. destruct (decide (t = txn_tenant txn)) as [->|Hne].
    - by rewrite lookup_insert_eq.
    - rewrite lookup_insert_ne by done. apply Hbal. }
  rewrite !default_balance. simpl.
  destruct (reference_id txn) as [r|]; (eexists _, _; split; [reflexivity|]); simpl;
    rewrite Ht, Hr, Hv, Hh; (split; [eexists; split; [reflexivity|done]|]); do 4 (split; [done|]);
    exact Hb2.
Qed.

(** Redeeming: refused without effect, or paid out once. *)
Definition redeemed (h : string) (t : TenantId) (now : Z) (l : Ledger) (e : Eff) (l' : Ledger) (e' : Eff)
    (id : N) (v : CreditVoucher) (x : CreditTransaction) : Prop :=
  voucher_by_hash l !! h = Some id /\ vouchers l !! id = Some v /\ v_status v = VoucherActive /\
  vouchers l' = <[id := mkVoucher (v_id v) (v_code_hash v) (v_amount_units v) VoucherUsed (v_campaign v)
    (v_created_at v) (v_expires_at v) (Some t) (Some now)]> (vouchers l) /\
  voucher_by_hash l' = voucher_by_hash l /\ e_uuid e' = S (e_uuid e) /\
  credit_transactions l' = <[uuid_v4 (e_uuid e) := x]> (credit_transactions l) /\
  txn_id x = uuid_v4 (e_uuid e) /\ txn_tenant x = t /\ amount_units x = v_amount_units v /\
  reference_id x = Some (voucher_reference h) /\
  credit_txn_by_ref l' = <[voucher_reference h := uuid_v4 (e_uuid e)]> (credit_txn_by_ref l) /\
  (forall t', balance l' t' = if decide (t' = t)
     then i64_saturating_add (balance l t') (v_amount_units v) else balance l t').

Lemma redeem_run h t now l e r l' e' :
  redeem_voucher h t now l e = (r, l', e') ->
  (exists err, r = Err err /\ l' = l /\ e' = e) \/
  exists id v x, r = Ok (v_amount_units v) /\ redeemed h t now l e l' e' id v x.
Proof.
  unfold redeem_voucher, bind at 1, gets at 1.
  destruct (voucher_by_hash l !! h) as [id|] eqn:Hh; [|intros [= <- <- <-]; left; by eexists].
  unfold bind at 1, gets at 1.
  destruct (vouchers l !! id) as [v|] eqn:Hv; [|intros [= <- <- <-]; left; by eexists].
  destruct (decide (v_status v <> VoucherActive)) as [|Hst]; [intros [= <- <- <-]; left; by eexists|].
  apply dec_stable in Hst.
  destruct (from_option _ false (v_expires_at v)); [intros [= <- <- <-]; left; by eexists|].
  unfold bind at 1, modify at 1. unfold bind at 1, credit. unfold bind at 1.
  set (l1 := with_vouchers _ l).
  destruct (get_credit_account_run t l1 e) as (l2 & e2 & Hg & Ht & Hr & Hv2 & Hh2 & Hu & Hbal).
  rewrite Hg. unfold bind, modify, mret, fresh_uuid, record_transaction. simpl.
  rewrite (default_balance l t). intros [= <- <- <-]. right. eexists id, v, _. split; [done|].
  unfold redeemed. simpl. rewrite Hu, Ht, Hr, Hv2, Hh2. repeat (split; [done|]).
  intros t'. unfold balance at 1. simpl. destruct (decide (t' = t)) as [->|Hne].
  - by rewrite lookup_insert_eq.
  - rewrite lookup_insert_ne by done. exact (Hbal t').
Qed.

(** Making vouchers touches vouchers only. *)
Lemma create_vouchers_books (b : Ledger) a n c x :
  preserves (fun l (_ : Eff) => credit_transactions l = credit_transactions b /\
    credit_txn_by_ref l = credit_txn_by_ref b /\ credit_accounts l = credit_accounts b)
    (create_vouchers sha256 a n c x).
Proof.
  unfold create_vouchers, create_voucher, generate_voucher_code, draw_char, led_now. pres; by intros l e Hl.
Qed.

Lemma run_led_ok op l e : ledger_ok l -> admissible l e op -> ledger_ok (run_led op l e).1.2.
Proof.
  intros Hok Hadm.
  assert (forall l', credit_transactions l' = credit_transactions l ->
    credit_txn_by_ref l' = credit_txn_by_ref l -> (forall t, balance l' t = balance l t) -> ledger_ok l') as Hsame.
  { intros l' Ht Hr Hb. destruct Hok as [HB HR]. split.
    - intros t. unfold tenant_total. rewrite Hb, Ht. apply HB.
    - intros r id. rewrite Hr, Ht. apply HR. }
  destruct op; simpl; try (by apply Hsame).
  - unfold drop_result, bind. destruct (get_credit_account_run tenant l e) as (l1 & e1 & -> & Ht & Hr & _ & _ & _ & Hb).
    by apply Hsame.
  - unfold drop_result, bind at 1.
    destruct (r ← reference_id txn; lookup_reference r l) as [x|] eqn:Hdup.
    + unfold append_credit_transaction, bind, gets. by rewrite Hdup.
    + destruct (append_new_run txn l e Hdup) as (l1 & e1 & -> & (x & Htx & Hid & Htn & Ham & Href) & Hrefs & _ & _ & _ & Hb).
      simpl in Hadm. destruct Hadm as [(r & y & Hr & Hy)|[Hnew Hfit]].
      { rewrite Hr in Hdup. simpl in Hdup. congruence. }
      apply (ledger_ok_entry l l1 x Hok).
      * by rewrite Hid.
      * by rewrite Hid.
      * by rewrite Href, Hid.
      * intros t. rewrite Hb. unfold tenant_amount. rewrite Htn, Ham.
        destruct (decide (t = txn_tenant txn)) as [->|Hne].
        -- rewrite decide_True by done. by apply i64_saturating_add_id.
        -- rewrite decide_False by congruence. lia.
  - unfold drop_result, bind.
    pose proof (create_vouchers_books l amount count campaign expires_at l e (conj eq_refl (conj eq_refl eq_refl))) as Hp.
    destruct (create_vouchers sha256 amount count campaign expires_at l e) as [[[?|?] l1] e1];
      destruct Hp as (Ht & Hr & Ha); simpl; (apply Hsame; [done|done|]); intros t; unfold balance; by rewrite Ha.
  - unfold drop_result, bind.
    destruct (redeem_voucher code_hash tenant now l e) as [[r l1] e1] eqn:Hrun.
    apply redeem_run in Hrun as [(err & -> & -> & ->)|(id & v & x & -> & Hh & Hv & Hst & _ & _ & _ & Htx
      & Hid & Htn & Ham & Href & Hrefs & Hb)]; [done|].
    destruct (Hadm id v Hh Hv) as [Hnew Hfit]. apply (ledger_ok_entry l l1 x Hok).
    + by rewrite Hid.
    + by rewrite Hid.
    + by rewrite Href, Hid.
    + intros t. rewrite Hb. unfold tenant_amount. rewrite Htn, Ham.
      destruct (decide (t = tenant)) as [->|Hne].
      * rewrite decide_True by done. by apply i64_saturating_add_id.
      * rewrite decide_False by congruence. lia.
Qed.

(** Requests, each admissible where it runs. *)
Inductive led_reachable : Ledger -> Eff -> Prop :=
| led_init e : led_reachable Ledger_empty e
| led_step l e op r l' e' :
    led_reachable l e -> admissible l e op -> run_led op l e = (r, l', e') -> led_reachable l' e'.

Lemma led_reachable_ok l e : led_reachable l e -> ledger_ok l.
Proof.
  induction 1 as [|l e op r l' e' _ IH Hadm Hrun].
  - split; [intros t; unfold balance, tenant_total; simpl; by rewrite map_sum_empty|by intros *].
  - pose proof (run_led_ok op l e IH Hadm) as Hok. by rewrite Hrun in Hok.
Qed.

(** C22: the books balance: after any requests, the balance of every tenant is
    the sum of the amounts of its ledger entries, as long as entry ids are new
    and balances fit 64 bits. *)
Theorem balance_is_ledger_sum (l : Ledger) (e : Eff) (t : TenantId) :
  led_reachable l e ->
  from_option balance_units 0 (credit_accounts l !! t) =
  map_sum (fun _ x => if decide (txn_tenant x = t) then amount_units x else 0) (credit_transactions l).
Proof. intros Hr. apply (books_balance _ (led_reachable_ok _ _ Hr)). Qed.

(** ** Settled once *)

Definition settled (r : string) (l : Ledger) : Prop :=
  exists x, lookup_reference r l = Some x /\ reference_id x = Some r.

Lemma settled_run r op l e : ledger_ok l -> admissible l e op -> settled r l ->
  settled r (run_led op l e).1.2.
Proof.
  intros Hok Hadm (x & Hx & Href). pose proof (run_led_ok op l e Hok Hadm) as Hok'.
  enough (is_Some (credit_txn_by_ref (run_led op l e).1.2 !! r)) as [id Hid].
  { apply (refs_lead _ Hok') in Hid as Hl. destruct Hl as (y & Hy & Hyr). exists y. split; [|done].
    unfold lookup_reference. by rewrite Hid. }
  unfold lookup_reference in Hx. destruct (credit_txn_by_ref l !! r) as [id|] eqn:Hid; [|done].
  clear Hok'. destruct op; simpl; unfold drop_result, bind; try (by rewrite Hid).
  - destruct (get_credit_account_run tenant l e) as (l1 & e1 & -> & _ & Hr & _). simpl. by rewrite Hr, Hid.
  - destruct (r' ← reference_id txn; lookup_reference r' l) as [y|] eqn:Hdup.
    + unfold append_credit_transaction, bind, gets. rewrite Hdup. simpl. by rewrite Hid.
    + destruct (append_new_run txn l e Hdup) as (l1 & e1 & -> & _ & Hr & _). simpl. rewrite Hr.
      destruct (reference_id txn); [|by rewrite Hid]. rewrite lookup_insert_is_Some. rewrite Hid.
      destruct (decide (s = r)); [by left|right]; eauto.
  - pose proof (create_vouchers_books l amount count campaign expires_at l e (conj eq_refl (conj eq_refl eq_refl))) as Hp.
    destruct (create_vouchers sha256 amount count campaign expires_at l e) as [[[?|?] l1] e1];
      destruct Hp as (_ & Hr & _); simpl; by rewrite Hr, Hid.
  - destruct (redeem_voucher code_hash tenant now l e) as [[r1 l1] e1] eqn:Hrun.
    apply redeem_run in Hrun as [(err & -> & -> & ->)|(? & ? & ? & -> & _ & _ & _ & _ & _ & _ & _ & _ & _
      & _ & _ & Hr & _)]; simpl; [by rewrite Hid|]. rewrite Hr, lookup_insert_is_Some, Hid.
    destruct (decide (voucher_reference code_hash = r)); [by left|right]; eauto.
Qed.

(** Requests that are admissible one after the other. *)
Fixpoint admissible_all (ops : list LedOp) (s : Ledger * Eff) : Prop :=
  match ops with
  | [] => True
  | op :: ops' => admissible s.1 s.2 op /\
      admissible_all ops' (let '(_, l', e') := run_led op s.1 s.2 in (l', e'))
  end.

(** A reference is settled once: after an entry with a reference was
    appended, then after any further requests, appending again under the same
    reference, with whatever amount, returns an entry already in the ledger
    and changes nothing. *)
Theorem append_idempotent (txn again : CreditTransaction) (r : string) (l : Ledger) (e : Eff)
    (ops : list LedOp) :
  ledger_ok l -> admissible l e (LAppend txn) -> reference_id txn = Some r ->
  reference_id again = Some r ->
  let s1 := (let '(_, l1, e1) := run_led (LAppend txn) l e in (l1, e1)) in
  admissible_all ops s1 ->
  let '(l2, e2) := led_run ops s1 in
  exists x, append_credit_transaction again l2 e2 = (Ok x, l2, e2) /\ reference_id x = Some r.
Proof.
  intros Hok Hadm Href Hag s1 Hops.
  assert (ledger_ok s1.1 /\ settled r s1.1) as [Hok1 Hset].
  { subst s1. pose proof (run_led_ok (LAppend txn) l e Hok Hadm) as Hok1.
    destruct (run_led (LAppend txn) l e) as [[r0 l1] e1] eqn:Hrun. simpl in Hok1. split; [done|].
    simpl in *. unfold drop_result, bind in Hrun. rewrite Href in *. simpl in *.
    destruct (lookup_reference r l) as [y|] eqn:Hdup.
    - unfold append_credit_transaction, bind, gets in Hrun. rewrite Href in Hrun. simpl in Hrun.
      rewrite Hdup in Hrun. unfold mret in Hrun. simplify_eq.
      unfold lookup_reference in Hdup. destruct (credit_txn_by_ref l1 !! r) as [id|] eqn:Hid; [|done].
      apply (refs_lead _ Hok) in Hid as Hl. destruct Hl as (z & Hz & Hzr). exists z. split; [|done].
      unfold lookup_reference. by rewrite Hid.
    - destruct (append_new_run txn l e) as (l2 & e2 & Hap & _ & Hr & _); [by rewrite Href|].
      rewrite Hap in Hrun. unfold mret in Hrun. simplify_eq.
      rewrite Href in Hr. assert (credit_txn_by_ref l1 !! r = Some (txn_id txn)) as Hid
        by (rewrite Hr; apply lookup_insert_eq).
      apply (refs_lead _ Hok1) in Hid as Hl. destruct Hl as (z & Hz & Hzr). exists z. split; [|done].
      unfold lookup_reference. by rewrite Hid. }
  clearbody s1. revert s1 Hok1 Hset Hops. induction ops as [|op ops IH]; intros [l1 e1] Hok1 Hset Hops.
  - simpl. destruct Hset as (x & Hx & Hxr). exists x. split; [|done].
    unfold append_credit_transaction, bind, gets. rewrite Hag. simpl. simpl in Hx. by rewrite Hx.
  - simpl in Hops. destruct Hops as [Hadm1 Hops]. simpl. apply IH; [..|exact Hops].
    + pose proof (run_led_ok op l1 e1 Hok1 Hadm1) as H1. by destruct (run_led op l1 e1) as [[? ?] ?].
    + pose proof (settled_run r op l1 e1 Hok1 Hadm1 Hset) as H1. by destruct (run_led op l1 e1) as [[? ?] ?].
Qed.

(** ** Vouchers *)

(** The voucher is spent, and no later uuid repeats its id. *)
Definition spent (id : N) (l : Ledger) (e : Eff) : Prop :=
  (exists v, vouchers l !! id = Some v /\ v_status v <> VoucherActive) /\
  (forall j, (e_uuid e <= j)%nat -> uuid_v4 j <> id).

Lemma spent_later id l e e' : (e_uuid e <= e_uuid e')%nat -> spent id l e -> spent id l e'.
Proof. intros He [Hv Hj]. split; [done|]. intros j Hle. apply Hj. lia. Qed.

Lemma pres_spent_uuid id : preserves (spent id) (fresh_uuid (E:=CombeeError)).
Proof. intros l e Hs. eapply spent_later; [|exact Hs]. simpl. lia. Qed.

Lemma spent_create_voucher id a c x : preserves (spent id) (create_voucher sha256 a c x).
Proof.
  unfold create_voucher. apply preserves_bind.
  - unfold generate_voucher_code, draw_char. pres. apply pres_spent_uuid.
  - intros code l e Hs. unfold bind, fresh_uuid, led_now, read_clock, modify, mret.
    pose proof (spent_later id l e (bump_clock (bump_uuid e)) ltac:(simpl; lia) Hs) as [[v [Hv Hst]] Hj].
    split; [|done]. exists v. simpl. rewrite lookup_insert_ne; [done|].
    destruct Hs as [_ Hj0]. apply Hj0. done.
Qed.

Lemma spent_run id op l e : spent id l e ->
  let '(_, l', e') := run_led op l e in spent id l' e'.
Proof.
  intros Hs. assert (forall l' e', vouchers l' = vouchers l -> e_uuid e' = e_uuid e -> spent id l' e') as Hsame.
  { intros l' e' Hv He. destruct Hs as [(v & Hk & Hst) Hj]. split; [exists v; by rewrite Hv|].
    rewrite He. done. }
  destruct op; simpl; try (by apply Hsame); unfold drop_result, bind.
  - destruct (get_credit_account_run tenant l e) as (l1 & e1 & -> & _ & _ & Hv & _ & Hu & _). by apply Hsame.
  - destruct (r ← reference_id txn; lookup_reference r l) as [y|] eqn:Hdup.
    + unfold append_credit_transaction, bind, gets. by rewrite Hdup.
    + destruct (append_new_run txn l e Hdup) as (l1 & e1 & -> & _ & _ & Hv & _ & Hu & _). by apply Hsame.
  - assert (preserves (spent id) (create_vouchers sha256 amount count campaign expires_at)) as Hp.
    { unfold create_vouchers. apply preserves_mmap. intros _. apply spent_create_voucher. }
    specialize (Hp l e Hs). by destruct (create_vouchers _ _ _ _ _ l e) as [[[?|?] l1] e1].
  - destruct (redeem_voucher code_hash tenant now l e) as [[r l1] e1] eqn:Hrun.
    apply redeem_run in Hrun as [(err & -> & -> & ->)|(id' & v & x & -> & Hh & Hv & Hst & Hv' & _ & Hu & _)]; [done|].
    destruct Hs as [(w & Hw & Hws) Hj]. split; [|intros j Hle; apply Hj; unfold mret in *; simpl in *; lia].
    unfold mret. rewrite Hv'. exists w. rewrite lookup_insert_ne; [done|]. intros ->. congruence.
Qed.

Lemma spent_led_run id ops s : spent id s.1 s.2 -> spent id (led_run ops s).1 (led_run ops s).2.
Proof.
  revert s. induction ops as [|op ops IH]; intros [l e] Hs; [done|]. simpl. apply IH.
  pose proof (spent_run id op l e Hs) as H1. by destruct (run_led op l e) as [[? ?] ?].
Qed.

Lemma redeem_succeeds_iff h t now id v l e :
  voucher_by_hash l !! h = Some id -> vouchers l !! id = Some v ->
  is_Ok (redeem_voucher h t now l e).1.1 = true <->
  v_status v = VoucherActive /\ from_option (fun x => now <= x) True (v_expires_at v).
Proof.
  intros Hh Hv. unfold redeem_voucher, bind at 1, gets at 1. rewrite Hh. unfold bind at 1, gets at 1.
  rewrite Hv. destruct (decide (v_status v <> VoucherActive)) as [|Hst]; [naive_solver|].
  apply dec_stable in Hst. rewrite Hst.
  assert (from_option (fun x => x <? now) false (v_expires_at v) = false <->
          from_option (fun x => now <= x) True (v_expires_at v)) as Hx.
  { destruct (v_expires_at v); simpl; [lia|done]. }
  destruct (from_option (fun x => x <? now) _ _); [naive_solver|].
  split; [intros _; split; [done|]; by apply Hx|]. intros _.
  unfold bind at 1, modify at 1. unfold bind at 1, credit. unfold bind at 1.
  destruct (get_credit_account_run t (with_vouchers <[id := mkVoucher (v_id v) (v_code_hash v)
    (v_amount_units v) VoucherUsed (v_campaign v) (v_created_at v) (v_expires_at v) (Some t) (Some now)]> l) e)
    as (l2 & e2 & Hg & _).
  by rewrite Hg.
Qed.

(** C23: a voucher pays once: redeeming it succeeds exactly when it is active
    and not past its date; then its amount is credited to the tenant, and
    after any further requests every attempt to redeem the same voucher, by
    any tenant and at any time, is refused and changes nothing. *)
Theorem voucher_pays_once (h : string) (t : TenantId) (now : Z) (id : N) (v : CreditVoucher)
    (l : Ledger) (e : Eff) (ops : list LedOp) :
  voucher_by_hash l !! h = Some id -> vouchers l !! id = Some v ->
  let '(r, l1, e1) := redeem_voucher h t now l e in
  (is_Ok r = true <->
   v_status v = VoucherActive /\ from_option (fun x => now <= x) True (v_expires_at v)) /\
  (is_Ok r = true ->
   r = Ok (v_amount_units v) /\
   balance l1 t = i64_saturating_add (balance l t) (v_amount_units v) /\
   ((forall j, (e_uuid e1 <= j)%nat -> uuid_v4 j <> id) ->
    let '(l2, e2) := led_run ops (l1, e1) in
    forall h' t' now', voucher_by_hash l2 !! h' = Some id ->
      exists err, redeem_voucher h' t' now' l2 e2 = (Err err, l2, e2))).
Proof.
  intros Hh Hv. pose proof (redeem_succeeds_iff h t now id v l e Hh Hv) as Hiff.
  destruct (redeem_voucher h t now l e) as [[r l1] e1] eqn:Hrun. split; [done|]. clear Hiff.
  apply redeem_run in Hrun as [(err & -> & _)|(id' & v' & x & -> & Hh1 & Hv1 & Hst & Hv' & _ & Hu
    & _ & _ & _ & _ & _ & _ & Hb)]; [done|]. simplify_eq. intros _.
  split; [done|]. split; [rewrite Hb; by rewrite decide_True|].
  intros Hj. assert (spent id l1 e1) as Hs.
  { split; [|done]. eexists. rewrite Hv', lookup_insert_eq. split; [done|]. done. }
  apply (spent_led_run id ops (l1, e1)) in Hs. destruct (led_run ops (l1, e1)) as [l2 e2]. simpl in Hs.
  destruct Hs as [(w & Hw & Hws) _]. intros h' t' now' Hh'.
  unfold redeem_voucher, bind, gets. rewrite Hh', Hw. rewrite decide_True by done. by eexists.
Qed.

(** ** Pricing *)

Lemma max_version_ge m v : is_Some (m !! v) -> exists w, max_version m = Some w /\ v <= w.
Proof.
  intros [p Hp]. apply elem_of_map_to_list in Hp. unfold max_version.
  assert (v ∈ (map_to_list m).*1) as Hin by (apply list_elem_of_fmap; by exists (v, p)).
  destruct ((map_to_list m).*1) as [|v0 vs]; [by apply elem_of_nil in Hin|]. eexists. split; [done|].
  clear Hp. induction vs as [|u vs IH]; simpl.
  - apply list_elem_of_singleton in Hin. lia.
  - apply elem_of_cons in Hin as [->|Hin]; [|apply elem_of_cons in Hin as [->|Hin]]; try lia.
    + assert (v0 ∈ v0 :: vs) as H0 by set_solver. specialize (IH H0). lia.
    + assert (v ∈ v0 :: vs) as H0 by set_solver. specialize (IH H0). lia.
Qed.

Lemma fresh_version l : is_i64 (default 0 (max_version (pricing_versions l)) + 1) ->
  pricing_versions l !! i64_add (default 0 (max_version (pricing_versions l))) 1 = None.
Proof.
  intros Hi. unfold i64_add. rewrite wrap_i64_id by done.
  destruct (pricing_versions l !! _) eqn:Hv; [|done]. exfalso.
  destruct (max_version_ge (pricing_versions l) (default 0 (max_version (pricing_versions l)) + 1))
    as (w & Hw & Hle); [by eexists|]. rewrite Hw in Hle. simpl in Hle. lia.
Qed.

(** Publishing prices is a clean switch: the new version has a number no
    earlier version had, it alone is active, the active pricing read back is
    exactly the rules given, and the rules of earlier versions are kept. *)
Theorem pricing_switch (rules : list PricingRule) (l : Ledger) (e : Eff) :
  is_i64 (default 0 (max_version (pricing_versions l)) + 1) ->
  exists rec l', create_pricing_version rules l e = (Ok rec, l', bump_clock e) /\
    pricing_versions l !! pv_version rec = None /\
    (forall v p, pricing_versions l' !! v = Some p -> pv_status p = PricingActive <-> v = pv_version rec) /\
    (get_active_pricing l' (bump_clock e)).1.1 = Ok (rec, rules) /\
    (forall v, v <> pv_version rec -> pricing_rules l' !! v = pricing_rules l !! v).
Proof.
  intros Hi. pose proof (fresh_version l Hi) as Hfresh.
  unfold create_pricing_version, bind, gets, led_now, read_clock, modify, mret.
  set (version := i64_add _ 1) in *. eexists _, _. split; [reflexivity|]. simpl.
  split; [done|].
  set (rec := mkPricingVersion version PricingActive (clock (e_clock e)) (clock (e_clock e))).
  assert (forall v p, <[version := rec]> ((fun v => mkPricingVersion (pv_version v) PricingInactive
    (pv_effective_at v) (pv_created_at v)) <$> pricing_versions l) !! v = Some p ->
    (pv_status p = PricingActive <-> v = version)) as Hact.
  { intros v p [[<- <-]|[Hne Hp]]%lookup_insert_Some; [done|]. rewrite lookup_fmap in Hp.
    destruct (pricing_versions l !! v); simplify_eq/=. split; [done|congruence]. }
  split; [exact Hact|]. split; [|intros v Hne; by rewrite lookup_insert_ne].
  unfold get_active_pricing, gets. simpl.
  match goal with |- context [List.find is_active (map_to_list ?m)] => set (vs := m) in *; destruct (List.find is_active (map_to_list vs)) as [[v p]|] eqn:Hf end.
  - apply List.find_some in Hf as [Hin Hs]. apply list_elem_of_In, elem_of_map_to_list in Hin.
    unfold is_active in Hs. apply bool_decide_eq_true in Hs. simpl in Hs.
    apply (Hact v p Hin) in Hs. subst v. unfold vs in Hin. rewrite lookup_insert_eq in Hin.
    injection Hin as <-. by rewrite lookup_insert_eq.
  - exfalso. assert ((version, rec) ∈ map_to_list vs) as Hin
      by (apply elem_of_map_to_list; unfold vs; apply lookup_insert_eq).
    apply list_elem_of_In in Hin. by apply (List.find_none _ _ Hf) in Hin.
Qed.

End ledger_ops.

(** ** Concrete instances *)

Definition ledger_tenant : TenantId := mkTenantId 1.
Definition grant (id : N) (amount : Z) (r : string) : CreditTransaction :=
  mkTxn id ledger_tenant Grant amount None (Some r) None 1000 None.

Lemma append_idempotent_witness :
  let s1 := (let '(_, l1, e1) := run_led (env:=env_still) id (LAppend (grant 7 100 "g"))
               Ledger_empty eff0 in (l1, e1)) in
  let '(l2, e2) := led_run (env:=env_still) id [] s1 in
  exists x, append_credit_transaction (env:=env_still) (grant 8 900 "g") l2 e2 = (Ok x, l2, e2) /\
    reference_id x = Some "g"%string.
Proof.
  apply (append_idempotent (env:=env_still) id (grant 7 100 "g") (grant 8 900 "g") "g").
  - split; [intros t; reflexivity | intros r i Hr; discriminate Hr].
  - right. split; [reflexivity | vm_compute; split; discriminate].
  - reflexivity.
  - reflexivity.
  - exact I.
Defined.

Lemma balance_is_ledger_sum_witness :
  let s := (let '(_, l, e) := run_led (env:=env_still) id (LAppend (grant 7 100 "g")) Ledger_empty eff0
            in (l, e)) in
  from_option balance_units 0 (credit_accounts s.1 !! ledger_tenant) =
  map_sum (fun _ x => if decide (txn_tenant x = ledger_tenant) then amount_units x else 0)
    (credit_transactions s.1).
Proof.
  intros s. apply (balance_is_ledger_sum (env:=env_still) id s.1 s.2).
  eapply (led_step _ Ledger_empty eff0 (LAppend (grant 7 100 "g"))).
  - constructor.
  - right. split; [reflexivity | vm_compute; split; discriminate].
  - reflexivity.
Defined.

Definition voucher_ledger : Ledger :=
  mkLedger ∅ ∅ ∅ ∅ ∅ ∅ {[50%N := mkVoucher 50 "h" 500 VoucherActive None 10 None None None]}
    {["h"%string := 50%N]}.

Lemma voucher_pays_once_witness :
  let '(r, l1, e1) := redeem_voucher (env:=env_still) "h" ledger_tenant 1000 voucher_ledger (mkEff 0 0 0 60) in
  r = Ok 500 /\ balance l1 ledger_tenant = 500 /\
  exists err, redeem_voucher (env:=env_still) "h" ledger_tenant 2000 l1 e1 = (Err err, l1, e1).
Proof.
  destruct (voucher_pays_once (env:=env_still) id "h" ledger_tenant 1000 50
    (mkVoucher 50 "h" 500 VoucherActive None 10 None None None) voucher_ledger
    (mkEff 0 0 0 60) [] eq_refl eq_refl) as [_ H].
  destruct (H eq_refl) as (H1 & H2 & H3). split; [exact H1|]. split; [exact H2|].
  apply (fun Hu => H3 Hu "h"%string ledger_tenant 2000); [|vm_compute; reflexivity].
  intros j Hj. vm_compute in Hj. simpl. lia.
Defined.

Lemma pricing_switch_witness :
  exists rec l', create_pricing_version (env:=env_still) [] Ledger_empty eff0 = (Ok rec, l', bump_clock eff0).
Proof.
  destruct (pricing_switch (env:=env_still) [] Ledger_empty eff0) as (rec & l' & Hrun & _);
    [vm_compute; split; discriminate |].
  exists rec, l'. exact Hrun.
Defined.
