(* ===== verification/Postgres.v ===== *)
(** crates/metadata/src/postgres.rs: the directory half of [PostgresStore]. A
    table is a finite map from its primary key to its rows; a statement of the
    program is one function on the tables, which takes effect as a whole or
    fails, for a fault of the server or for a unique index it would break. *)

From Stdlib Require Import ZArith Lia String Ascii.
From stdpp Require Import gmap strings list fin_maps sorting.
From S2P Require Import Prelude Common Catalog.

(** ** Tables *)

(** A row of [databases]; the key is the primary key [id]. *)
Record DbRow := mkDbRow {
  dr_tenant : TenantId;
  dr_state : string;
  dr_created_at : Z;
  dr_storage : option NodeId;
  dr_replica : option NodeId;
  dr_generation : Z;
  dr_name : option string;
}.

(** The rows of [tenants], [api_keys] and [data_nodes] have the columns of the
    records the store hands out, with times and counts as [BIGINT]. *)
Record PgDir := mkPgDir {
  pg_databases : gmap DatabaseId DbRow;
  pg_tenants : gmap TenantId TenantRecord;
  pg_api_keys : gmap N ApiKeyRecord;
  pg_data_nodes : gmap NodeId DataNodeRecord;
  pg_leases : gmap string (N * Z);
  pg_config : gmap string string;
  pg_idempotency : gmap string (TenantId * string * Z);
  pg_waitlist : gmap string Z;
}.

Definition PgDir_empty : PgDir := mkPgDir ∅ ∅ ∅ ∅ ∅ ∅ ∅ ∅.

Definition upd_databases f (p : PgDir) : PgDir :=
  mkPgDir (f (pg_databases p)) (pg_tenants p) (pg_api_keys p) (pg_data_nodes p) (pg_leases p)
    (pg_config p) (pg_idempotency p) (pg_waitlist p).
Definition upd_tenants f (p : PgDir) : PgDir :=
  mkPgDir (pg_databases p) (f (pg_tenants p)) (pg_api_keys p) (pg_data_nodes p) (pg_leases p)
    (pg_config p) (pg_idempotency p) (pg_waitlist p).
Definition upd_api_keys f (p : PgDir) : PgDir :=
  mkPgDir (pg_databases p) (pg_tenants p) (f (pg_api_keys p)) (pg_data_nodes p) (pg_leases p)
    (pg_config p) (pg_idempotency p) (pg_waitlist p).
Definition upd_data_nodes f (p : PgDir) : PgDir :=
  mkPgDir (pg_databases p) (pg_tenants p) (pg_api_keys p) (f (pg_data_nodes p)) (pg_leases p)
    (pg_config p) (pg_idempotency p) (pg_waitlist p).
Definition upd_leases f (p : PgDir) : PgDir :=
  mkPgDir (pg_databases p) (pg_tenants p) (pg_api_keys p) (pg_data_nodes p) (f (pg_leases p))
    (pg_config p) (pg_idempotency p) (pg_waitlist p).
Definition upd_config f (p : PgDir) : PgDir :=
  mkPgDir (pg_databases p) (pg_tenants p) (pg_api_keys p) (pg_data_nodes p) (pg_leases p)
    (f (pg_config p)) (pg_idempotency p) (pg_waitlist p).
Definition upd_idempotency f (p : PgDir) : PgDir :=
  mkPgDir (pg_databases p) (pg_tenants p) (pg_api_keys p) (pg_data_nodes p) (pg_leases p)
    (pg_config p) (f (pg_idempotency p)) (pg_waitlist p).
Definition upd_waitlist f (p : PgDir) : PgDir :=
  mkPgDir (pg_databases p) (pg_tenants p) (pg_api_keys p) (pg_data_nodes p) (pg_leases p)
    (pg_config p) (pg_idempotency p) (f (pg_waitlist p)).

(** [PostgresStore::internal] *)
Definition pg_internal (msg : string) : CombeeError := Internal ("postgres error: " +:+ msg).

Definition unique_violation (index : string) : string :=
  "duplicate key value violates unique constraint '" +:+ index +:+ "'".
Definition out_of_range : string := "bigint out of range".

(** [generation + 1] on a [BIGINT] column. *)
Definition bigint_add (a b : Z) : result string Z :=
  match i64_checked_add a b with Some c => Ok c | None => Err out_of_range end.

Section statements.
Context {env : Env} {S : Type}.

(** Executes a statement outside a transaction. A fault before it means that
    nothing was done; after it, that the answer was lost. *)
Definition pg_exec {A} (stmt : S -> result string (A * S)) : M S CombeeError A :=
  do! fallible pg_internal in
  let! a := (fun s e =>
    match stmt s with
    | Ok (a, s') => (Ok a, s', e)
    | Err msg => (Err (pg_internal msg), s, e)
    end) in
  do! fallible pg_internal in
  mret a.

Definition pg_query {A} (stmt : S -> A) : M S CombeeError A :=
  do! fallible pg_internal in gets stmt.

End statements.

(** ** Rows and records *)

(** The columns a [SELECT] delivers: [generation] and [name] are not in every
    statement's list; [name] also counts as missing when it is NULL. *)
Record Fetched := mkFetched {
  f_id : DatabaseId;
  f_row : DbRow;
  f_generation : option Z;
  f_name : option string;
}.

Definition all_columns (kv : DatabaseId * DbRow) : Fetched :=
  mkFetched kv.1 kv.2 (Some (dr_generation kv.2)) (dr_name kv.2).
Definition without_name (kv : DatabaseId * DbRow) : Fetched :=
  mkFetched kv.1 kv.2 (Some (dr_generation kv.2)) None.
Definition without_generation (kv : DatabaseId * DbRow) : Fetched :=
  mkFetched kv.1 kv.2 None None.

Section postgres.
Context {env : Env} `{UuidText}.

Abbreviation PgM := (M PgDir CombeeError).

(** [DatabaseRecord::now_unix() as i64] *)
Definition pg_now : PgM Z := let! now := read_clock in mret (wrap_i64 now).

Definition row_to_record (f : Fetched) : Result DatabaseRecord :=
  match f_generation f with
  | None => Err (pg_internal "no column found for name: generation")
  | Some generation =>
      let name := match f_name f with Some n => n | None => default_name (f_id f) end in
      match state_parse (dr_state (f_row f)) with
      | Err e => Err e
      | Ok state =>
          Ok (mkDatabaseRecord (f_id f) name (dr_tenant (f_row f)) state
                (wrap_u64 (dr_created_at (f_row f))) (dr_storage (f_row f)) (dr_replica (f_row f)) generation)
      end
  end.

Definition one_record (id : DatabaseId) (row : option Fetched) : PgM DatabaseRecord :=
  match row with
  | Some f => mlift (row_to_record f)
  | None => mfail (DatabaseNotFound id)
  end.

(** [rows.iter().map(row_to_record).collect()] *)
Definition all_records (rows : list Fetched) : PgM (list DatabaseRecord) :=
  mmap rows (fun f => mlift (row_to_record f)).

(** ** Cells *)

(** Another row of the tenant has the name: [uq_databases_tenant_name]. *)
Definition name_taken (tenant : TenantId) (name : string) (id : DatabaseId)
    (t : gmap DatabaseId DbRow) : bool :=
  existsb (fun kv : DatabaseId * DbRow =>
    negb (bool_decide (kv.1 = id)) && bool_decide (dr_tenant kv.2 = tenant) &&
    bool_decide (dr_name kv.2 = Some name)) (map_to_list t).

(** [INSERT .. ON CONFLICT (id) DO NOTHING]: the number of rows inserted. *)
Definition sql_insert_database (id : DatabaseId) (row : DbRow) (p : PgDir) : result string (nat * PgDir) :=
  match pg_databases p !! id with
  | Some _ => Ok (0%nat, p)
  | None =>
      if match dr_name row with Some n => name_taken (dr_tenant row) n id (pg_databases p) | None => false end
      then Err (unique_violation "uq_databases_tenant_name")
      else Ok (1%nat, upd_databases <[id := row]> p)
  end.

Definition sql_find_row (tenant : TenantId) (id : DatabaseId) (p : PgDir) : option DbRow :=
  row ← pg_databases p !! id; if decide (dr_tenant row = tenant) then Some row else None.

(** [UPDATE databases SET .. WHERE id = .. AND tenant_id = .. [AND ..]]: [f]
    gives the new row, or nothing when a further condition fails, or the
    error of the arithmetic. *)
Definition sql_update_database (tenant : TenantId) (id : DatabaseId)
    (f : DbRow -> result string (option DbRow)) (p : PgDir) : result string (option DbRow * PgDir) :=
  match sql_find_row tenant id p with
  | None => Ok (None, p)
  | Some row =>
      match f row with
      | Err msg => Err msg
      | Ok None => Ok (None, p)
      | Ok (Some row') =>
          if match dr_name row' with
             | Some n => negb (bool_decide (dr_name row' = dr_name row)) && name_taken tenant n id (pg_databases p)
             | None => false
             end
          then Err (unique_violation "uq_databases_tenant_name")
          else Ok (Some row', upd_databases <[id := row']> p)
      end
  end.

Definition pg_get_database (tenant : TenantId) (id : DatabaseId) : PgM DatabaseRecord :=
  let! row := pg_query (fun p => (fun r => all_columns (id, r)) <$> sql_find_row tenant id p) in
  one_record id row.

Definition pg_create_database (tenant : TenantId) (id : DatabaseId) (storage_node : option NodeId)
    (name : option string) : PgM DatabaseRecord :=
  let! now := pg_now in
  let name := match name with Some n => n | None => default_name id end in
  let! inserted := pg_exec (sql_insert_database id
    (mkDbRow tenant (state_as_str Created) now storage_node None 0 (Some name))) in
  if (inserted =? 0)%nat then mfail (DatabaseAlreadyExists id) else pg_get_database tenant id.

(** [SELECT .. WHERE tenant_id = .. AND name = ..]: the unique index leaves at
    most one row. *)
Definition sql_find_name (tenant : TenantId) (name : string) (p : PgDir) : option (DatabaseId * DbRow) :=
  List.find (fun kv : DatabaseId * DbRow => bool_decide (dr_tenant kv.2 = tenant) &&
    bool_decide (dr_name kv.2 = Some name)) (map_to_list (pg_databases p)).

Definition pg_get_database_by_name (tenant : TenantId) (name : string) : PgM DatabaseRecord :=
  let! row := pg_query (fun p => all_columns <$> sql_find_name tenant name p) in
  match row with
  | Some f => mlift (row_to_record f)
  | None => let! fresh := DatabaseId_new in mfail (DatabaseNotFound fresh)
  end.

Definition pg_ensure_database_by_name (tenant : TenantId) (name : string) (storage_node : option NodeId)
    : PgM (DatabaseRecord * bool) :=
  let! found := attempt (pg_get_database_by_name tenant name) in
  match found with
  | Ok rec => mret (rec, false)
  | Err _ =>
      let! id := DatabaseId_new in
      let! created := attempt (pg_create_database tenant id storage_node (Some name)) in
      match created with
      | Ok rec => mret (rec, true)
      | Err (DatabaseAlreadyExists _) =>
          let! rec := pg_get_database_by_name tenant name in mret (rec, false)
      | Err e => mfail e
      end
  end.

(** The rest of an update: no row is [DatabaseNotFound], else read it back. *)
Definition updated (tenant : TenantId) (id : DatabaseId) (row : option DbRow) : PgM DatabaseRecord :=
  match row with
  | None => mfail (DatabaseNotFound id)
  | Some _ => pg_get_database tenant id
  end.

Definition with_generation (storage replica : option NodeId) (r : DbRow) : result string (option DbRow) :=
  match bigint_add (dr_generation r) 1 with
  | Ok g => Ok (Some (mkDbRow (dr_tenant r) (dr_state r) (dr_created_at r) storage replica g (dr_name r)))
  | Err msg => Err msg
  end.

Definition pg_rename_database (tenant : TenantId) (id : DatabaseId) (new_name : string) : PgM DatabaseRecord :=
  let! row := pg_exec (sql_update_database tenant id (fun r =>
    Ok (Some (mkDbRow (dr_tenant r) (dr_state r) (dr_created_at r) (dr_storage r) (dr_replica r)
          (dr_generation r) (Some new_name))))) in
  updated tenant id row.

Definition pg_reset_database (tenant : TenantId) (id : DatabaseId) : PgM DatabaseRecord :=
  let! row := pg_exec (sql_update_database tenant id (fun r =>
    with_generation (dr_storage r) (dr_replica r) r)) in
  updated tenant id row.

Definition pg_get_database_by_id (id : DatabaseId) : PgM DatabaseRecord :=
  let! row := pg_query (fun p => (fun r => all_columns (id, r)) <$> pg_databases p !! id) in
  one_record id row.

(** [ORDER BY created_at, id] and [ORDER BY id] *)
Definition row_key (kv : DatabaseId * DbRow) : Z * Z :=
  (dr_created_at kv.2, Z.of_N (database_uuid kv.1)).
Definition row_id_key (kv : DatabaseId * DbRow) : Z * Z := (Z.of_N (database_uuid kv.1), 0).

Definition pg_list_databases_all : PgM (list DatabaseRecord) :=
  let! rows := pg_query (fun p => all_columns <$> sort_by_key row_key (map_to_list (pg_databases p))) in
  all_records rows.

Definition pg_list_databases (tenant : TenantId) : PgM (list DatabaseRecord) :=
  let! rows := pg_query (fun p => all_columns <$> sort_by_key row_key
    (filter (fun kv => dr_tenant kv.2 = tenant) (map_to_list (pg_databases p)))) in
  all_records rows.

(** The number of rows is not looked at. *)
Definition pg_set_database_state (tenant : TenantId) (id : DatabaseId) (state : DatabaseState) : PgM unit :=
  do! pg_exec (sql_update_database tenant id (fun r =>
    Ok (Some (mkDbRow (dr_tenant r) (state_as_str state) (dr_created_at r) (dr_storage r) (dr_replica r)
          (dr_generation r) (dr_name r))))) in
  mret tt.

Definition pg_delete_database (tenant : TenantId) (id : DatabaseId) : PgM unit :=
  let! deleted := pg_exec (fun p =>
    match sql_find_row tenant id p with
    | Some _ => Ok (1%nat, upd_databases (delete id) p)
    | None => Ok (0%nat, p)
    end) in
  if (deleted =? 0)%nat then mfail (DatabaseNotFound id) else mret tt.

Definition pg_set_replica_node (tenant : TenantId) (id : DatabaseId) (replica : option NodeId)
    : PgM DatabaseRecord :=
  let! row := pg_exec (sql_update_database tenant id (fun r =>
    Ok (Some (mkDbRow (dr_tenant r) (dr_state r) (dr_created_at r) (dr_storage r) replica
          (dr_generation r) (dr_name r))))) in
  updated tenant id row.

(** [UPDATE .. RETURNING ..] *)
Definition pg_migrate_database (tenant : TenantId) (id : DatabaseId) (new_node : NodeId)
    : PgM DatabaseRecord :=
  let! row := pg_exec (sql_update_database tenant id (fun r =>
    with_generation (Some new_node) (dr_replica r) r)) in
  one_record id ((fun r => all_columns (id, r)) <$> row).

(** The statement does not select [generation], which the decoder asks for. *)
Definition pg_list_replicas_of (node : NodeId) : PgM (list DatabaseRecord) :=
  let! rows := pg_query (fun p => without_generation <$> sort_by_key row_id_key
    (filter (fun kv => dr_replica kv.2 = Some node) (map_to_list (pg_databases p)))) in
  all_records rows.

Definition pg_promote_replica (tenant : TenantId) (id : DatabaseId) : PgM DatabaseRecord :=
  let! row := pg_exec (sql_update_database tenant id (fun r =>
    match dr_replica r with
    | None => Ok None
    | Some n => with_generation (Some n) None r
    end)) in
  match row with
  | None =>
      let! existing := attempt (pg_get_database tenant id) in
      match existing with
      | Ok _ => mfail (Internal ("cell " +:+ DatabaseId_to_string id +:+ " has no replica to promote"))
      | Err e => mfail e
      end
  | Some _ => pg_get_database tenant id
  end.

(** The statement does not select [name]; the decoder makes one up. *)
Definition pg_list_all_databases : PgM (list DatabaseRecord) :=
  let! rows := pg_query (fun p => without_name <$> sort_by_key row_id_key (map_to_list (pg_databases p))) in
  all_records rows.

Definition BATCH_SIZE : nat := 2000.

(** [ids.chunks(BATCH_SIZE)] *)
Fixpoint chunks {A} (fuel : nat) (n : nat) (l : list A) : list (list A) :=
  match fuel, l with
  | O, _ | _, [] => []
  | Datatypes.S fuel', _ => take n l :: chunks fuel' n (drop n l)
  end.

(** [INSERT .. SELECT .. FROM unnest(..) ON CONFLICT (id) DO NOTHING]: the
    rows have no name, which no unique index forbids. *)
Definition sql_insert_batch (tenant : TenantId) (now : Z) (ids : list DatabaseId) (p : PgDir)
    : result string (unit * PgDir) :=
  Ok (tt, upd_databases (fun t => foldl (fun t id =>
    match t !! id with
    | Some _ => t
    | None => <[id := mkDbRow tenant (state_as_str Created) now None None 0 None]> t
    end) t ids) p).

Definition pg_create_databases_batch (tenant : TenantId) (ids : list DatabaseId) : PgM unit :=
  let! now := pg_now in
  mfor (chunks (length ids) BATCH_SIZE ids) (fun chunk => pg_exec (sql_insert_batch tenant now chunk)).

(** ** Tenants and API keys *)

Definition pg_create_tenant (tenant : TenantId) : PgM TenantRecord :=
  let! now := pg_now in
  do! pg_exec (fun p =>
    match pg_tenants p !! tenant with
    | Some _ => Err (unique_violation "tenants_pkey")
    | None => Ok (tt, upd_tenants <[tenant := mkTenantRecord tenant now "active"]> p)
    end) in
  mret (mkTenantRecord tenant (wrap_u64 now) "active").

Definition tenant_out (r : TenantRecord) : TenantRecord :=
  mkTenantRecord (t_id r) (wrap_u64 (t_created_at r)) (t_status r).

Definition pg_list_tenants : PgM (list TenantRecord) :=
  pg_query (fun p => tenant_out <$>
    sort_by_key (fun t => (t_created_at t, 0)) (values (pg_tenants p))).

Definition pg_create_api_key (tenant : TenantId) (key_hash name : string) : PgM ApiKeyRecord :=
  let! id := fresh_uuid in
  let! now := pg_now in
  do! pg_exec (fun p =>
    match pg_api_keys p !! id with
    | Some _ => Err (unique_violation "api_keys_pkey")
    | None =>
        if existsb (fun k => bool_decide (k_hash k = key_hash)) (values (pg_api_keys p))
        then Err (unique_violation "api_keys_key_hash_key")
        else Ok (tt, upd_api_keys <[id := mkApiKeyRecord id tenant name key_hash now None]> p)
    end) in
  mret (mkApiKeyRecord id tenant name key_hash (wrap_u64 now) None).

Definition key_out (k : ApiKeyRecord) : ApiKeyRecord :=
  mkApiKeyRecord (k_id k) (k_tenant k) (k_name k) (k_hash k) (wrap_u64 (k_created_at k))
    (wrap_u64 <$> k_revoked_at k).

Definition pg_lookup_api_key_by_hash (key_hash : string) : PgM (option ApiKeyRecord) :=
  pg_query (fun p => key_out <$> List.find (key_matches key_hash) (values (pg_api_keys p))).

(** [hash] is [combee_common::api_key::hash]. *)
Definition pg_bootstrap_api_keys (hash : string -> string) (keys : list string) : PgM unit :=
  mfor keys (fun key =>
    let! known := pg_lookup_api_key_by_hash (hash key) in
    match known with
    | Some _ => mret tt
    | None =>
        let! tenant := TenantId_new in
        do! pg_create_tenant tenant in
        do! pg_create_api_key tenant (hash key) "bootstrap" in
        mret tt
    end).

Definition pg_list_api_keys (tenant : TenantId) : PgM (list ApiKeyRecord) :=
  pg_query (fun p => key_out <$> sort_by_key (fun k => (k_created_at k, 0))
    (filter (fun k => k_tenant k = tenant) (values (pg_api_keys p)))).

Definition pg_revoke_api_key (tenant : TenantId) (key_id : N) : PgM unit :=
  let! now := pg_now in
  let! changed := pg_exec (fun p =>
    match pg_api_keys p !! key_id with
    | Some k =>
        if decide (k_tenant k = tenant /\ k_revoked_at k = None)
        then Ok (1%nat, upd_api_keys <[key_id := mkApiKeyRecord (k_id k) (k_tenant k) (k_name k) (k_hash k)
                    (k_created_at k) (Some now)]> p)
        else Ok (0%nat, p)
    | None => Ok (0%nat, p)
    end) in
  if (changed =? 0)%nat then mfail ApiKeyNotFound else mret tt.

(** ** Data nodes *)

Definition pg_ping : PgM unit := pg_query (fun _ => tt).

(** [capacity as i64] *)
Definition pg_upsert_data_node (id : NodeId) (addr : string) (capacity : Z) : PgM unit :=
  let! now := pg_now in
  pg_exec (fun p => Ok (tt, upd_data_nodes (fun t =>
    match t !! id with
    | None => <[id := mkDataNodeRecord id addr (wrap_i64 capacity) 0 now now]> t
    | Some r => <[id := mkDataNodeRecord (dn_id r) addr (wrap_i64 capacity) (dn_active_conns r) now
                          (dn_created_at r)]> t
    end) p)).

Definition pg_heartbeat_data_node (id : NodeId) (active_conns : Z) : PgM bool :=
  let! now := pg_now in
  pg_exec (fun p =>
    match pg_data_nodes p !! id with
    | Some r => Ok (true, upd_data_nodes <[id := mkDataNodeRecord (dn_id r) (dn_addr r) (dn_capacity r)
                             (wrap_i64 active_conns) now (dn_created_at r)]> p)
    | None => Ok (false, p)
    end).

Definition pg_unregister_data_node (id : NodeId) : PgM bool :=
  pg_exec (fun p =>
    match pg_data_nodes p !! id with
    | Some _ => Ok (true, upd_data_nodes (delete id) p)
    | None => Ok (false, p)
    end).

Definition node_out (r : DataNodeRecord) : DataNodeRecord :=
  mkDataNodeRecord (dn_id r) (dn_addr r) (wrap_u64 (dn_capacity r)) (wrap_u64 (dn_active_conns r))
    (wrap_u64 (dn_last_heartbeat_at r)) (wrap_u64 (dn_created_at r)).

Definition pg_list_data_nodes : PgM (list DataNodeRecord) :=
  pg_query (fun p => node_out <$> values (pg_data_nodes p)).

(** ** Leases, configuration, idempotency, waitlist *)

(** [INSERT .. ON CONFLICT (name) DO UPDATE .. WHERE .. RETURNING owner] *)
Definition sql_upsert_lease (name : string) (owner : N) (expires_at now : Z) (p : PgDir)
    : result string (option N * PgDir) :=
  match pg_leases p !! name with
  | Some (cur, exp) =>
      if (exp <? now) || bool_decide (cur = owner)
      then Ok (Some owner, upd_leases <[name := (owner, expires_at)]> p)
      else Ok (None, p)
  | None => Ok (Some owner, upd_leases <[name := (owner, expires_at)]> p)
  end.

Definition pg_try_acquire_lease (name : string) (owner : N) (now ttl_secs : Z) : PgM bool :=
  let! row := pg_exec (sql_upsert_lease name owner (i64_add now ttl_secs) now) in
  mret (match row with Some _ => true | None => false end).

Definition pg_get_config (key : string) : PgM (option string) := pg_query (fun p => pg_config p !! key).

Definition pg_set_config (key value : string) : PgM unit :=
  pg_exec (fun p => Ok (tt, upd_config <[key := value]> p)).

(** The second statement asks for the tenant too. *)
Definition pg_save_idempotency (key : string) (tenant : TenantId) (payload : string)
    : PgM (option string) :=
  let! now := pg_now in
  let! inserted := pg_exec (fun p =>
    match pg_idempotency p !! key with
    | Some _ => Ok (None, p)
    | None => Ok (Some payload, upd_idempotency <[key := (tenant, payload, now)]> p)
    end) in
  match inserted with
  | Some _ => mret None
  | None =>
      pg_query (fun p =>
        match pg_idempotency p !! key with
        | Some (t, existing, _) => if decide (t = tenant) then Some existing else None
        | None => None
        end)
  end.

Definition pg_create_waitlist_entry (email : string) (now : Z) : PgM unit :=
  pg_exec (fun p => Ok (tt, upd_waitlist (fun t =>
    match t !! email with Some _ => t | None => <[email := now]> t end) p)).

Definition pg_list_waitlist (limit : Z) : PgM (list WaitlistEntry) :=
  pg_query (fun p => take (clamp_page limit) (sort_by_key (fun w => (w_created_at w, 0))
    ((fun kv => mkWaitlistEntry kv.1 kv.2) <$> map_to_list (pg_waitlist p)))).

End postgres.
