(* ===== verification/MetaStore.v ===== *)
(** The trait [MetadataStore] (crates/metadata/src/store.rs), its directory
    methods, as a class with an instance per implementation, and requests to a
    store as data. The accounting methods are compared in [PgBooksSpec]. *)

From Stdlib Require Import ZArith Lia String Ascii.
From stdpp Require Import gmap strings list.
From S2P Require Import Prelude Common Catalog Postgres.

Class MetadataStore (S : Type) := {
  ms_create_database : TenantId -> DatabaseId -> option NodeId -> option string -> M S CombeeError DatabaseRecord;
  ms_get_database_by_name : TenantId -> string -> M S CombeeError DatabaseRecord;
  ms_ensure_database_by_name : TenantId -> string -> option NodeId -> M S CombeeError (DatabaseRecord * bool);
  ms_rename_database : TenantId -> DatabaseId -> string -> M S CombeeError DatabaseRecord;
  ms_reset_database : TenantId -> DatabaseId -> M S CombeeError DatabaseRecord;
  ms_get_database : TenantId -> DatabaseId -> M S CombeeError DatabaseRecord;
  ms_get_database_by_id : DatabaseId -> M S CombeeError DatabaseRecord;
  ms_list_databases : TenantId -> M S CombeeError (list DatabaseRecord);
  ms_list_databases_all : M S CombeeError (list DatabaseRecord);
  ms_delete_database : TenantId -> DatabaseId -> M S CombeeError unit;
  ms_set_database_state : TenantId -> DatabaseId -> DatabaseState -> M S CombeeError unit;
  ms_set_replica_node : TenantId -> DatabaseId -> option NodeId -> M S CombeeError DatabaseRecord;
  ms_list_replicas_of : NodeId -> M S CombeeError (list DatabaseRecord);
  ms_promote_replica : TenantId -> DatabaseId -> M S CombeeError DatabaseRecord;
  ms_migrate_database : TenantId -> DatabaseId -> NodeId -> M S CombeeError DatabaseRecord;
  ms_list_all_databases : M S CombeeError (list DatabaseRecord);
  ms_create_tenant : TenantId -> M S CombeeError TenantRecord;
  ms_list_tenants : M S CombeeError (list TenantRecord);
  ms_create_api_key : TenantId -> string -> string -> M S CombeeError ApiKeyRecord;
  ms_lookup_api_key_by_hash : string -> M S CombeeError (option ApiKeyRecord);
  ms_list_api_keys : TenantId -> M S CombeeError (list ApiKeyRecord);
  ms_revoke_api_key : TenantId -> N -> M S CombeeError unit;
  ms_upsert_data_node : NodeId -> string -> Z -> M S CombeeError unit;
  ms_heartbeat_data_node : NodeId -> Z -> M S CombeeError bool;
  ms_unregister_data_node : NodeId -> M S CombeeError bool;
  ms_list_data_nodes : M S CombeeError (list DataNodeRecord);
  ms_try_acquire_lease : string -> N -> Z -> Z -> M S CombeeError bool;
  ms_get_config : string -> M S CombeeError (option string);
  ms_set_config : string -> string -> M S CombeeError unit;
  ms_save_idempotency : string -> TenantId -> string -> M S CombeeError (option string);
  ms_create_waitlist_entry : string -> Z -> M S CombeeError unit;
  ms_list_waitlist : Z -> M S CombeeError (list WaitlistEntry);
}.

(** [impl MetadataStore for InMemoryStore] *)
#[export] Instance in_memory_store {env : Env} `{UuidText} : MetadataStore Catalog := {|
  ms_create_database := create_database;
  ms_get_database_by_name := get_database_by_name;
  ms_ensure_database_by_name := ensure_database_by_name;
  ms_rename_database := rename_database;
  ms_reset_database := store_reset_database;
  ms_get_database := get_database;
  ms_get_database_by_id := get_database_by_id;
  ms_list_databases := list_databases;
  ms_list_databases_all := list_databases_all;
  ms_delete_database := store_delete_database;
  ms_set_database_state := set_database_state;
  ms_set_replica_node := set_replica_node;
  ms_list_replicas_of := list_replicas_of;
  ms_promote_replica := promote_replica;
  ms_migrate_database := migrate_database;
  ms_list_all_databases := list_all_databases;
  ms_create_tenant := create_tenant;
  ms_list_tenants := list_tenants;
  ms_create_api_key := create_api_key;
  ms_lookup_api_key_by_hash := lookup_api_key_by_hash;
  ms_list_api_keys := list_api_keys;
  ms_revoke_api_key := revoke_api_key;
  ms_upsert_data_node := upsert_data_node;
  ms_heartbeat_data_node := heartbeat_data_node;
  ms_unregister_data_node := unregister_data_node;
  ms_list_data_nodes := list_data_nodes;
  ms_try_acquire_lease := try_acquire_lease;
  ms_get_config := get_config;
  ms_set_config := set_config;
  ms_save_idempotency := save_idempotency;
  ms_create_waitlist_entry := create_waitlist_entry;
  ms_list_waitlist := list_waitlist;
|}.

(** [impl MetadataStore for PostgresStore] *)
#[export] Instance postgres_store {env : Env} `{UuidText} : MetadataStore PgDir := {|
  ms_create_database := pg_create_database;
  ms_get_database_by_name := pg_get_database_by_name;
  ms_ensure_database_by_name := pg_ensure_database_by_name;
  ms_rename_database := pg_rename_database;
  ms_reset_database := pg_reset_database;
  ms_get_database := pg_get_database;
  ms_get_database_by_id := pg_get_database_by_id;
  ms_list_databases := pg_list_databases;
  ms_list_databases_all := pg_list_databases_all;
  ms_delete_database := pg_delete_database;
  ms_set_database_state := pg_set_database_state;
  ms_set_replica_node := pg_set_replica_node;
  ms_list_replicas_of := pg_list_replicas_of;
  ms_promote_replica := pg_promote_replica;
  ms_migrate_database := pg_migrate_database;
  ms_list_all_databases := pg_list_all_databases;
  ms_create_tenant := pg_create_tenant;
  ms_list_tenants := pg_list_tenants;
  ms_create_api_key := pg_create_api_key;
  ms_lookup_api_key_by_hash := pg_lookup_api_key_by_hash;
  ms_list_api_keys := pg_list_api_keys;
  ms_revoke_api_key := pg_revoke_api_key;
  ms_upsert_data_node := pg_upsert_data_node;
  ms_heartbeat_data_node := pg_heartbeat_data_node;
  ms_unregister_data_node := pg_unregister_data_node;
  ms_list_data_nodes := pg_list_data_nodes;
  ms_try_acquire_lease := pg_try_acquire_lease;
  ms_get_config := pg_get_config;
  ms_set_config := pg_set_config;
  ms_save_idempotency := pg_save_idempotency;
  ms_create_waitlist_entry := pg_create_waitlist_entry;
  ms_list_waitlist := pg_list_waitlist;
|}.

(** ** Requests *)

Inductive MetaOp :=
| MCreate (tenant : TenantId) (id : DatabaseId) (node : option NodeId) (name : option string)
| MByName (tenant : TenantId) (name : string)
| MEnsure (tenant : TenantId) (name : string) (node : option NodeId)
| MRename (tenant : TenantId) (id : DatabaseId) (new_name : string)
| MReset (tenant : TenantId) (id : DatabaseId)
| MGet (tenant : TenantId) (id : DatabaseId)
| MById (id : DatabaseId)
| MList (tenant : TenantId)
| MListAll
| MDelete (tenant : TenantId) (id : DatabaseId)
| MState (tenant : TenantId) (id : DatabaseId) (state : DatabaseState)
| MReplica (tenant : TenantId) (id : DatabaseId) (replica : option NodeId)
| MReplicasOf (node : NodeId)
| MPromote (tenant : TenantId) (id : DatabaseId)
| MMigrate (tenant : TenantId) (id : DatabaseId) (node : NodeId)
| MListAllById
| MTenant (tenant : TenantId)
| MTenants
| MApiKey (tenant : TenantId) (hash name : string)
| MLookupKey (hash : string)
| MApiKeys (tenant : TenantId)
| MRevoke (tenant : TenantId) (key : N)
| MNode (id : NodeId) (addr : string) (capacity : Z)
| MHeartbeat (id : NodeId) (conns : Z)
| MUnregister (id : NodeId)
| MNodes
| MLease (name : string) (owner : N) (now ttl : Z)
| MGetConfig (key : string)
| MSetConfig (key value : string)
| MIdempotency (key : string) (tenant : TenantId) (payload : string)
| MJoinWaitlist (email : string) (now : Z)
| MWaitlist (limit : Z).

Inductive MetaResp :=
| RUnit
| RRecord (rec : DatabaseRecord)
| REnsured (rec : DatabaseRecord) (created : bool)
| RRecords (l : list DatabaseRecord)
| RTenant (rec : TenantRecord)
| RTenants (l : list TenantRecord)
| RKey (rec : ApiKeyRecord)
| RKeyFound (rec : option ApiKeyRecord)
| RKeys (l : list ApiKeyRecord)
| RBool (b : bool)
| RNodes (l : list DataNodeRecord)
| RText (t : option string)
| RWaitlist (l : list WaitlistEntry).

Definition answer {S A} (f : A -> MetaResp) (m : M S CombeeError A) : M S CombeeError MetaResp :=
  let! a := m in mret (f a).

Definition run_meta {S} `{MetadataStore S} (op : MetaOp) : M S CombeeError MetaResp :=
  match op with
  | MCreate t id node name => answer RRecord (ms_create_database t id node name)
  | MByName t n => answer RRecord (ms_get_database_by_name t n)
  | MEnsure t n node => answer (fun r => REnsured r.1 r.2) (ms_ensure_database_by_name t n node)
  | MRename t id n => answer RRecord (ms_rename_database t id n)
  | MReset t id => answer RRecord (ms_reset_database t id)
  | MGet t id => answer RRecord (ms_get_database t id)
  | MById id => answer RRecord (ms_get_database_by_id id)
  | MList t => answer RRecords (ms_list_databases t)
  | MListAll => answer RRecords ms_list_databases_all
  | MDelete t id => answer (fun _ => RUnit) (ms_delete_database t id)
  | MState t id s => answer (fun _ => RUnit) (ms_set_database_state t id s)
  | MReplica t id r => answer RRecord (ms_set_replica_node t id r)
  | MReplicasOf n => answer RRecords (ms_list_replicas_of n)
  | MPromote t id => answer RRecord (ms_promote_replica t id)
  | MMigrate t id n => answer RRecord (ms_migrate_database t id n)
  | MListAllById => answer RRecords ms_list_all_databases
  | MTenant t => answer RTenant (ms_create_tenant t)
  | MTenants => answer RTenants ms_list_tenants
  | MApiKey t h n => answer RKey (ms_create_api_key t h n)
  | MLookupKey h => answer RKeyFound (ms_lookup_api_key_by_hash h)
  | MApiKeys t => answer RKeys (ms_list_api_keys t)
  | MRevoke t k => answer (fun _ => RUnit) (ms_revoke_api_key t k)
  | MNode id a c => answer (fun _ => RUnit) (ms_upsert_data_node id a c)
  | MHeartbeat id n => answer RBool (ms_heartbeat_data_node id n)
  | MUnregister id => answer RBool (ms_unregister_data_node id)
  | MNodes => answer RNodes ms_list_data_nodes
  | MLease n o now ttl => answer RBool (ms_try_acquire_lease n o now ttl)
  | MGetConfig k => answer RText (ms_get_config k)
  | MSetConfig k v => answer (fun _ => RUnit) (ms_set_config k v)
  | MIdempotency k t p => answer RText (ms_save_idempotency k t p)
  | MJoinWaitlist m now => answer (fun _ => RUnit) (ms_create_waitlist_entry m now)
  | MWaitlist n => answer RWaitlist (ms_list_waitlist n)
  end.
