(* ===== verification/PostgresSpec.v ===== *)
(** The PostgreSQL directory implements the in-memory one: a simulation
    between the tables of [Postgres] and the maps of [Catalog], for every
    request of [MetaStore], and the requests on which the two differ. *)

From Stdlib Require Import ZArith Lia String Ascii.
From stdpp Require Import gmap strings list fin_maps sorting.
From S2P Require Import Prelude Common Catalog CatalogSpec CatalogAccess Postgres MetaStore.

(** ** The simulation relation *)

Definition unix_time (z : Z) : Prop := 0 <= z <= I64_MAX.

(** The row of a record. *)
Definition row_of (rec : DatabaseRecord) : DbRow :=
  mkDbRow (db_tenant rec) (state_as_str (db_state rec)) (db_created_at rec) (db_storage_node rec)
    (db_replica_node rec) (db_generation rec) (Some (db_name rec)).

Definition waitlist_of (kv : string * Z) : WaitlistEntry := mkWaitlistEntry kv.1 kv.2.

(** The Cells' tables agree: the names of [name_index] are the [name] column,
    and a row is the record. *)
Record cells_sim (p : PgDir) (c : Catalog) : Prop := {
  sim_ok : catalog_ok c;
  sim_rows : forall id row, pg_databases p !! id = Some row <->
    exists t rec, databases c !! (t, id) = Some rec /\ row = row_of rec;
  sim_times : forall t id rec, databases c !! (t, id) = Some rec ->
    unix_time (db_created_at rec) /\ is_i64 (db_generation rec);
}.

Record rest_sim (p : PgDir) (c : Catalog) : Prop := {
  sim_tenants : tenants c = tenant_out <$> pg_tenants p;
  sim_keys : api_keys c = key_out <$> pg_api_keys p;
  sim_hashes : forall i j k l, pg_api_keys p !! i = Some k -> pg_api_keys p !! j = Some l ->
    k_hash k = k_hash l -> i = j;
  sim_created : (forall t r, pg_tenants p !! t = Some r -> unix_time (t_created_at r)) /\
    (forall i k, pg_api_keys p !! i = Some k -> unix_time (k_created_at k));
  sim_nodes : data_nodes c = node_out <$> pg_data_nodes p;
  sim_leases : leases c = pg_leases p;
  sim_config : config c = pg_config p;
  sim_idempotency : idempotency c = fst <$> pg_idempotency p;
  sim_waitlist : waitlist c ≡ₚ waitlist_of <$> map_to_list (pg_waitlist p);
}.

Definition store_sim (p : PgDir) (c : Catalog) : Prop := cells_sim p c /\ rest_sim p c.

(** ** Shared lemmas *)

Lemma wrap_u64_i64 z : wrap_u64 (wrap_i64 z) = wrap_u64 z.
Proof.
  unfold wrap_u64, wrap_i64. rewrite Zminus_mod_idemp_l || rewrite Zminus_mod, Zmod_mod, <- Zminus_mod.
  f_equal. lia.
Qed.

Lemma unix_time_i64 z : unix_time z -> wrap_i64 z = z.
Proof. intros [H1 H2]. apply wrap_i64_id. unfold is_i64, I64_MIN. lia. Qed.

Lemma unix_time_u64 z : unix_time z -> wrap_u64 z = z.
Proof. intros [H1 H2]. apply wrap_u64_id. unfold is_u64, U64_MAX, I64_MAX in *. lia. Qed.

Lemma state_roundtrip s : state_parse (state_as_str s) = Ok s.
Proof. by destruct s. Qed.

Lemma by_key_total {A} (key : A -> Z * Z) : Total (by_key key).
Proof. intros x y. unfold by_key, lex_le. lia. Qed.

Lemma by_key_trans {A} (key : A -> Z * Z) : Transitive (by_key key).
Proof. intros x y z. unfold by_key, lex_le. lia. Qed.

Lemma sort_by_key_perm {A} (key : A -> Z * Z) l : sort_by_key key l ≡ₚ l.
Proof. apply merge_sort_Permutation. Qed.

(** Sorting by a key that tells the elements apart has one outcome. *)
Lemma sort_by_key_unique {A} (key : A -> Z * Z) (l l' : list A) :
  l ≡ₚ l' -> (forall x y, x ∈ l -> y ∈ l -> key x = key y -> x = y) ->
  sort_by_key key l = sort_by_key key l'.
Proof.
  intros Hp Hinj. unfold sort_by_key. pose proof (by_key_total key). pose proof (by_key_trans key).
  apply (StronglySorted_unique_strong (by_key key)).
  - intros x y Hx Hy Hxy Hyx. rewrite merge_sort_Permutation in Hx, Hy.
    apply Hinj; [done|by rewrite Hp|]. unfold by_key, lex_le in *.
    destruct (key x), (key y); simpl in *. f_equal; lia.
  - by apply StronglySorted_merge_sort.
  - by apply StronglySorted_merge_sort.
  - by rewrite !merge_sort_Permutation.
Qed.

(** Sorting commutes with a map that keeps the keys of the elements. *)
Lemma sort_by_key_fmap {A B} (f : A -> B) (ka : A -> Z * Z) (kb : B -> Z * Z) (l : list A) :
  (forall x, x ∈ l -> kb (f x) = ka x) ->
  (forall x y, x ∈ l -> y ∈ l -> ka x = ka y -> x = y) ->
  f <$> sort_by_key ka l = sort_by_key kb (f <$> l).
Proof.
  intros Hk Hinj. unfold sort_by_key. pose proof (by_key_total ka). pose proof (by_key_trans ka).
  pose proof (by_key_total kb). pose proof (by_key_trans kb).
  apply (StronglySorted_unique_strong (by_key kb)).
  - intros x y Hx Hy Hxy Hyx. rewrite merge_sort_Permutation in Hx. rewrite merge_sort_Permutation in Hy.
    apply list_elem_of_fmap in Hx as (x' & -> & Hx), Hy as (y' & -> & Hy). f_equal. apply Hinj; [done..|].
    unfold by_key, lex_le in *. rewrite !Hk in * by done.
    destruct (ka x'), (ka y'); simpl in *. f_equal; lia.
  - assert (forall x, x ∈ merge_sort (by_key ka) l -> kb (f x) = ka x) as Hk'
      by (intros x Hx; apply Hk; by rewrite merge_sort_Permutation in Hx).
    assert (StronglySorted (by_key ka) (merge_sort (by_key ka) l)) as Hs by by apply StronglySorted_merge_sort.
    induction Hs as [|x s Hs IH Hall]; simpl; constructor.
    + apply IH. set_solver.
    + apply Forall_fmap. rewrite Forall_forall in *. intros y Hy. unfold compose, by_key.
      rewrite !Hk' by set_solver. by apply Hall.
  - by apply StronglySorted_merge_sort.
  - by rewrite !merge_sort_Permutation.
Qed.

(** Elements with equal sort keys may change places, the keys stay in place. *)
Lemma sort_keys_perm {A B} (ka : A -> Z * Z) (kb : B -> Z * Z) (l : list A) (l' : list B) :
  ka <$> l ≡ₚ kb <$> l' -> ka <$> sort_by_key ka l = kb <$> sort_by_key kb l'.
Proof.
  intros Hp. assert (forall C (k : C -> Z * Z) s, StronglySorted lex_le (k <$> sort_by_key k s)) as Hsort.
  { intros C k s. pose proof (by_key_total k). pose proof (by_key_trans k).
    pose proof (StronglySorted_merge_sort (by_key k) s) as Hs. unfold sort_by_key.
    induction Hs as [|x s' Hs IH Hall]; simpl; constructor; [done|]. by apply Forall_fmap. }
  apply (StronglySorted_unique_strong lex_le); [|apply Hsort..|by rewrite !sort_by_key_perm].
  intros [a1 a2] [b1 b2] _ _. unfold lex_le. simpl. intros. f_equal; lia.
Qed.

(** Rows decoded after sorting, and sorted after decoding: [f] is the order
    of the times, up or down. *)
Lemma sort_keys_decode {A B} (f : Z -> Z) (out : A -> B) (ta : A -> Z) (tb : B -> Z) (l : list A) (l' : list B) :
  (forall z, f (f z) = z) -> l' ≡ₚ out <$> l -> (forall x, x ∈ l -> tb (out x) = ta x) ->
  let ka := fun x => (f (ta x), 0) in
  let kb := fun x => (f (tb x), 0) in
  out <$> sort_by_key ka l ≡ₚ sort_by_key kb l' /\
  tb <$> (out <$> sort_by_key ka l) = tb <$> sort_by_key kb l'.
Proof.
  intros Hf Hp Hout ka kb. split; [by rewrite !sort_by_key_perm, Hp|].
  assert (forall s : list B, tb <$> s = (fun k : Z * Z => f k.1) <$> (kb <$> s)) as Hfst.
  { intros s. rewrite <- list_fmap_compose. apply list_fmap_ext. intros i x _. unfold compose, kb. simpl. by rewrite Hf. }
  assert (forall s : list A, (forall x, x ∈ s -> x ∈ l) -> kb <$> (out <$> s) = ka <$> s) as Hkey.
  { intros s Hs. rewrite <- list_fmap_compose. apply list_fmap_ext. intros i x Hx%list_elem_of_lookup_2.
    unfold compose, ka, kb. by rewrite Hout by by apply Hs. }
  rewrite !Hfst. f_equal. rewrite Hkey by (intros x; by rewrite sort_by_key_perm).
  apply sort_keys_perm. by rewrite Hp, Hkey.
Qed.

Lemma values_fmap {K V W} `{Countable K} (f : V -> W) (m : gmap K V) :
  values (f <$> m) ≡ₚ f <$> values m.
Proof. unfold values. rewrite map_to_list_fmap, <- !list_fmap_compose. done. Qed.

(** The first value with a property that at most one entry has. *)
Lemma find_values_unique {K V} `{Countable K} (f : V -> bool) (m : gmap K V) k v :
  m !! k = Some v -> f v = true -> (forall k' v', m !! k' = Some v' -> f v' = true -> k' = k) ->
  List.find f (values m) = Some v.
Proof.
  intros Hk Hf Hu. destruct (List.find f (values m)) as [w|] eqn:E.
  - apply find_values in E as (Hw & k' & Hk'). rewrite (Hu _ _ Hk' Hw) in Hk'. congruence.
  - exfalso. assert (In v (values m)) as Hin.
    { apply list_elem_of_In, list_elem_of_fmap. exists (k, v). split; [done|]. by apply elem_of_map_to_list. }
    by rewrite (List.find_none _ _ E _ Hin) in Hf.
Qed.

Lemma find_values_none {K V} `{Countable K} (f : V -> bool) (m : gmap K V) :
  (forall k v, m !! k = Some v -> f v = false) -> List.find f (values m) = None.
Proof.
  intros Hn. destruct (List.find f (values m)) as [w|] eqn:E; [|done].
  apply find_values in E as (Hw & k & Hk). by rewrite (Hn _ _ Hk) in Hw.
Qed.

(** ** Cells: reading *)

Section cells.
Context `{UuidText}.

Lemma sim_find_row p c t id :
  cells_sim p c -> sql_find_row t id p = row_of <$> databases c !! (t, id).
Proof.
  intros [Hok Hrows _]. unfold sql_find_row. destruct (databases c !! (t, id)) as [rec|] eqn:E; simpl.
  - rewrite (proj2 (Hrows id (row_of rec))) by eauto. simpl.
    destruct (record_has_name _ Hok _ _ _ E) as (_ & Ht & _). by rewrite decide_True.
  - destruct (pg_databases p !! id) as [row|] eqn:Er; [|done]. simpl.
    apply Hrows in Er as (t' & rec & Hrec & ->). case_decide as Ht; [|done].
    destruct (record_has_name _ Hok _ _ _ Hrec) as (_ & Ht' & _). simpl in Ht. congruence.
Qed.

Lemma sim_row_find p c id :
  cells_sim p c ->
  match pg_databases p !! id with
  | Some row => exists t rec, databases c !! (t, id) = Some rec /\ row = row_of rec
  | None => forall t, databases c !! (t, id) = None
  end.
Proof.
  intros [_ Hrows _]. destruct (pg_databases p !! id) as [row|] eqn:E; [by apply Hrows|].
  intros t. destruct (databases c !! (t, id)) as [rec|] eqn:Er; [|done].
  rewrite (proj2 (Hrows id (row_of rec))) in E by eauto. done.
Qed.

Lemma sim_decode p c t id rec :
  cells_sim p c -> databases c !! (t, id) = Some rec ->
  row_to_record (all_columns (id, row_of rec)) = Ok rec.
Proof.
  intros [Hok _ Hti] Hrec. unfold row_to_record. simpl. rewrite state_roundtrip.
  destruct (Hti _ _ _ Hrec) as [Hc _]. rewrite unix_time_u64 by done.
  destruct (record_has_name _ Hok _ _ _ Hrec) as (<- & _ & _). by destruct rec.
Qed.

Lemma sim_name_taken p c t n id :
  cells_sim p c ->
  name_taken t n id (pg_databases p) = true <-> exists id', name_index c !! (t, n) = Some id' /\ id' <> id.
Proof.
  intros Hsim. pose proof Hsim as [Hok Hrows _]. unfold name_taken. rewrite existsb_exists. split.
  - intros ([id' row] & Hin & Hb). apply list_elem_of_In, elem_of_map_to_list in Hin. simpl in Hb.
    apply Hrows in Hin as (t' & rec & Hrec & ->).
    apply andb_true_iff in Hb as [Hb Hn]. apply andb_true_iff in Hb as [Hid Ht].
    apply bool_decide_eq_true in Hn, Ht. apply negb_true_iff, bool_decide_eq_false in Hid.
    simpl in *. injection Hn as <-. subst t.
    destruct (record_has_name _ Hok _ _ _ Hrec) as (_ & -> & Hname). eauto.
  - intros (id' & Hname & Hne). destruct (name_has_record _ Hok _ _ _ Hname) as (rec & Hrec & <-).
    destruct (record_has_name _ Hok _ _ _ Hrec) as (_ & Ht & _).
    exists (id', row_of rec). split.
    + apply list_elem_of_In, elem_of_map_to_list, Hrows. eauto.
    + simpl. by rewrite bool_decide_eq_false_2, !bool_decide_eq_true_2.
Qed.

Lemma sim_name_free p c t n id :
  cells_sim p c -> name_index c !! (t, n) = None -> name_taken t n id (pg_databases p) = false.
Proof.
  intros Hsim Hn. apply not_true_iff_false. rewrite sim_name_taken by done. intros (id' & Hi & _). congruence.
Qed.

Lemma sim_find_name p c t n :
  cells_sim p c ->
  match name_index c !! (t, n) with
  | Some id => exists rec, databases c !! (t, id) = Some rec /\ sql_find_name t n p = Some (id, row_of rec)
  | None => sql_find_name t n p = None
  end.
Proof.
  intros Hsim. pose proof Hsim as [Hok Hrows _].
  assert (forall id row, sql_find_name t n p = Some (id, row) ->
    exists rec, databases c !! (t, id) = Some rec /\ row = row_of rec /\ name_index c !! (t, n) = Some id) as Hfound.
  { unfold sql_find_name. intros id row Hf. apply List.find_some in Hf as [Hin Hb].
    apply list_elem_of_In, elem_of_map_to_list, Hrows in Hin as (t' & rec & Hrec & ->).
    apply andb_true_iff in Hb as [Ht Hn]. apply bool_decide_eq_true in Ht, Hn. simpl in *.
    injection Hn as <-. subst t. destruct (record_has_name _ Hok _ _ _ Hrec) as (_ & -> & Hname). eauto. }
  destruct (sql_find_name t n p) as [[id row]|] eqn:E.
  - destruct (Hfound _ _ eq_refl) as (rec & Hrec & -> & ->). eauto.
  - destruct (name_index c !! (t, n)) as [id|] eqn:Hname; [exfalso|done].
    destruct (name_has_record _ Hok _ _ _ Hname) as (rec & Hrec & Hnm).
    destruct (record_has_name _ Hok _ _ _ Hrec) as (_ & Ht & _).
    assert (In (id, row_of rec) (map_to_list (pg_databases p))) as Hin
      by (apply list_elem_of_In, elem_of_map_to_list, Hrows; eauto).
    pose proof (List.find_none _ _ E _ Hin) as Hb. simpl in Hb.
    rewrite !bool_decide_eq_true_2 in Hb by congruence. done.
Qed.

(** ** Cells: writing *)

Lemma cells_sim_ext p c p' c' :
  cells_sim p c -> pg_databases p' = pg_databases p -> databases c' = databases c ->
  name_index c' = name_index c -> cells_sim p' c'.
Proof.
  intros [[HA HB HC] Hrows Hti] Hp Hd Hn. split; [split|..]; intros *; rewrite ?Hp, ?Hd, ?Hn; eauto.
Qed.

(** What a record written under its own key does to the rows. *)
Lemma sim_rows_insert p c t id rec :
  (forall id row, pg_databases p !! id = Some row <->
    exists t rec, databases c !! (t, id) = Some rec /\ row = row_of rec) ->
  (forall t', t' <> t -> databases c !! (t', id) = None) ->
  forall id' row, <[id := row_of rec]> (pg_databases p) !! id' = Some row <->
    exists t' rec', <[(t, id) := rec]> (databases c) !! (t', id') = Some rec' /\ row = row_of rec'.
Proof.
  intros Hrows Hown id' row. destruct (decide (id = id')) as [<-|Hne].
  - rewrite lookup_insert_eq. split.
    + intros [= <-]. exists t, rec. by rewrite lookup_insert_eq.
    + intros (t' & rec' & Hl & ->). destruct (decide (t = t')) as [<-|Ht].
      * rewrite lookup_insert_eq in Hl. congruence.
      * rewrite lookup_insert_ne, Hown in Hl by congruence. done.
  - rewrite lookup_insert_ne by done. rewrite Hrows. split; intros (t' & rec' & Hl & ->); exists t', rec'.
    + by rewrite lookup_insert_ne by congruence.
    + by rewrite lookup_insert_ne in Hl by congruence.
Qed.

(** A record written to both, new or in place of one. *)
Lemma sim_put p c p' c' t id rec :
  cells_sim p c -> catalog_ok c' -> (forall t', t' <> t -> databases c !! (t', id) = None) ->
  unix_time (db_created_at rec) -> is_i64 (db_generation rec) ->
  pg_databases p' = <[id := row_of rec]> (pg_databases p) ->
  databases c' = <[(t, id) := rec]> (databases c) -> cells_sim p' c'.
Proof.
  intros [_ Hrows Hti] Hok' Hown Hc Hg Hp Hd. split; [done| |].
  - rewrite Hp, Hd. by apply sim_rows_insert.
  - intros t' id' rec'. rewrite Hd, lookup_insert_Some. intros [[_ <-]|[_ Hl]]; [done|by eapply Hti].
Qed.

Lemma sim_owner p c t id rec :
  cells_sim p c -> databases c !! (t, id) = Some rec -> forall t', t' <> t -> databases c !! (t', id) = None.
Proof.
  intros [Hok _ _] Hrec t' Hne. destruct (databases c !! (t', id)) eqn:E; [|done].
  by destruct (Hne (id_has_tenant _ Hok _ _ _ _ _ E Hrec)).
Qed.

(** A new Cell. *)
Lemma sim_add p c p' c' rec :
  cells_sim p c -> (forall t', databases c !! (t', db_id rec) = None) ->
  name_index c !! (db_tenant rec, db_name rec) = None ->
  unix_time (db_created_at rec) -> db_generation rec = 0 ->
  pg_databases p' = <[db_id rec := row_of rec]> (pg_databases p) ->
  databases c' = <[(db_tenant rec, db_id rec) := rec]> (databases c) ->
  name_index c' = <[(db_tenant rec, db_name rec) := db_id rec]> (name_index c) -> cells_sim p' c'.
Proof.
  intros Hsim Hnew Hname Hc Hg Hp Hd Hn. eapply sim_put; [exact Hsim| |by auto|done| |exact Hp|exact Hd].
  - eapply catalog_ok_add; [apply Hsim|done..].
  - by rewrite Hg.
Qed.

(** A record changed in place, its name kept. *)
Lemma sim_update p c p' c' t id rec rec' :
  cells_sim p c -> databases c !! (t, id) = Some rec ->
  db_id rec' = db_id rec -> db_tenant rec' = db_tenant rec -> db_name rec' = db_name rec ->
  db_created_at rec' = db_created_at rec -> is_i64 (db_generation rec') ->
  pg_databases p' = <[id := row_of rec']> (pg_databases p) ->
  databases c' = <[(t, id) := rec']> (databases c) -> name_index c' = name_index c -> cells_sim p' c'.
Proof.
  intros Hsim Hrec Hi Ht Hn Hc Hg Hp Hd Hnm. eapply sim_put; [exact Hsim| | | |exact Hg|exact Hp|exact Hd].
  - eapply catalog_ok_update; [apply Hsim|exact Hrec|done..].
  - by eapply sim_owner.
  - rewrite Hc. by eapply sim_times.
Qed.

(** A record whose name changes. *)
Lemma sim_rename p c p' c' t id rec rec' n :
  cells_sim p c -> databases c !! (t, id) = Some rec -> name_index c !! (t, n) = None ->
  db_id rec' = db_id rec -> db_tenant rec' = db_tenant rec -> db_name rec' = n ->
  db_created_at rec' = db_created_at rec -> db_generation rec' = db_generation rec ->
  pg_databases p' = <[id := row_of rec']> (pg_databases p) ->
  databases c' = <[(t, id) := rec']> (databases c) ->
  name_index c' = <[(t, n) := id]> (delete (t, db_name rec) (name_index c)) -> cells_sim p' c'.
Proof.
  intros Hsim Hrec Hfree Hi Ht Hn Hc Hg Hp Hd Hnm. eapply sim_put; [exact Hsim| | | | |exact Hp|exact Hd].
  - eapply catalog_ok_rename; [apply Hsim|exact Hrec|done..].
  - by eapply sim_owner.
  - rewrite Hc. by eapply sim_times.
  - rewrite Hg. by eapply sim_times.
Qed.

Lemma sim_delete p c p' c' t id rec :
  cells_sim p c -> databases c !! (t, id) = Some rec ->
  pg_databases p' = delete id (pg_databases p) -> databases c' = delete (t, id) (databases c) ->
  name_index c' = filter (fun kv => kv.2 <> id) (name_index c) -> cells_sim p' c'.
Proof.
  intros Hsim Hrec Hp Hd Hn. pose proof (sim_owner _ _ _ _ _ Hsim Hrec) as Hown.
  pose proof Hsim as [Hok Hrows Hti]. split.
  - by eapply catalog_ok_delete.
  - intros id' row. rewrite Hp, Hd. destruct (decide (id = id')) as [<-|Hne].
    + rewrite lookup_delete_eq. split; [done|]. intros (t' & rec' & Hl & _).
      apply lookup_delete_Some in Hl as [Ht Hl]. rewrite Hown in Hl by congruence. done.
    + rewrite lookup_delete_ne, Hrows by done. split; intros (t' & rec' & Hl & ->); exists t', rec'.
      * by rewrite lookup_delete_ne by congruence.
      * by rewrite lookup_delete_ne in Hl by congruence.
  - intros t' id' rec'. rewrite Hd, lookup_delete_Some. intros [_ Hl]. by eapply Hti.
Qed.

End cells.

Lemma rest_sim_ext p c p' c' :
  rest_sim p c ->
  pg_tenants p' = pg_tenants p -> pg_api_keys p' = pg_api_keys p -> pg_data_nodes p' = pg_data_nodes p ->
  pg_leases p' = pg_leases p -> pg_config p' = pg_config p -> pg_idempotency p' = pg_idempotency p ->
  pg_waitlist p' = pg_waitlist p ->
  tenants c' = tenants c -> api_keys c' = api_keys c -> data_nodes c' = data_nodes c ->
  leases c' = leases c -> config c' = config c -> idempotency c' = idempotency c ->
  waitlist c' = waitlist c -> rest_sim p' c'.
Proof.
  intros [H1 H2 H3 H3' H4 H5 H6 H7 H8] E1 E2 E3 E4 E5 E6 E7 F1 F2 F3 F4 F5 F6 F7.
  split; rewrite ?E1, ?E2, ?E3, ?E4, ?E5, ?E6, ?E7, ?F1, ?F2, ?F3, ?F4, ?F5, ?F6, ?F7; assumption.
Qed.

(** ** When two runs agree *)

(** The answers are equal, but for the order both stores leave open: tenants
    and keys are sorted by creation time only, and nodes not at all. *)
Definition same_answer (a b : MetaResp) : Prop :=
  match a, b with
  | RTenants l, RTenants l' => l ≡ₚ l' /\ t_created_at <$> l = t_created_at <$> l'
  | RKeys l, RKeys l' => l ≡ₚ l' /\ k_created_at <$> l = k_created_at <$> l'
  | RNodes l, RNodes l' => l ≡ₚ l'
  | _, _ => a = b
  end.

Definition name_violation : CombeeError := pg_internal (unique_violation "uq_databases_tenant_name").

(** The errors are the same. *)
Definition same_outcome (a b : result CombeeError MetaResp) : Prop :=
  match a, b with
  | Ok x, Ok y => same_answer x y
  | Err x, Err y => x = y
  | _, _ => False
  end.

Section admissible.
Context {env : Env} `{UuidText}.

Definition generation_left (p : PgDir) (t : TenantId) (id : DatabaseId) : Prop :=
  forall row, sql_find_row t id p = Some row -> dr_generation row < I64_MAX.

(** Requests on which the stores agree. Ids are random and new ones are not in
    use; counters do not overflow; and the requests are not those of the
    theorems at the end of this file: no Cell is created or renamed under a
    name that is taken, no Cell is renamed to the name it has, the state of a
    Cell that is not there is not set, replicas are not listed on a node that
    has some, and Cells by id not while one has a name of its own, a tenant or
    a key is not created twice, a key not revoked twice, an idempotency key
    not used by two tenants. The waitlist is listed when no two addresses
    joined within one second: it is sorted by that second, and PostgreSQL
    leaves the order of equals open. *)
Definition admissible (p : PgDir) (e : Eff) (op : MetaOp) : Prop :=
  match op with
  | MCreate t id _ name =>
      (forall row, pg_databases p !! id = Some row -> dr_tenant row = t) /\
      name_taken t (default (default_name id) name) id (pg_databases p) = false
  | MEnsure _ _ _ => pg_databases p !! mkDatabaseId (uuid_v4 (Datatypes.S (e_uuid e))) = None
  | MRename t id n => name_taken t n id (pg_databases p) = false /\
      forall row, sql_find_row t id p = Some row -> dr_name row <> Some n
  | MReset t id | MPromote t id | MMigrate t id _ => generation_left p t id
  | MState t id _ => is_Some (sql_find_row t id p)
  | MReplicasOf n => forall id row, pg_databases p !! id = Some row -> dr_replica row <> Some n
  | MListAllById => forall id row, pg_databases p !! id = Some row -> dr_name row = Some (default_name id)
  | MTenant t => pg_tenants p !! t = None
  | MApiKey _ hash _ => pg_api_keys p !! uuid_v4 (e_uuid e) = None /\
      forall id k, pg_api_keys p !! id = Some k -> k_hash k <> hash
  | MRevoke _ key => forall k, pg_api_keys p !! key = Some k -> k_revoked_at k = None
  | MNode _ _ n | MHeartbeat _ n => is_u64 n
  | MIdempotency key t _ => forall t' text at', pg_idempotency p !! key = Some (t', text, at') -> t' = t
  | MWaitlist _ => forall m m' at', pg_waitlist p !! m = Some at' -> pg_waitlist p !! m' = Some at' -> m = m'
  | _ => True
  end.

(** The readings with which the in-memory store follows: a name that is
    missing costs [PostgresStore] a uuid. *)
Definition mem_eff (op : MetaOp) (e : Eff) : Eff :=
  match op with MEnsure _ _ _ => bump_uuid e | _ => e end.

(** One request on related stores. *)
Definition agrees (op : MetaOp) (p : PgDir) (c : Catalog) (e : Eff) : Prop :=
  let '(rp, p', _) := run_meta (S := PgDir) op p e in
  let '(rc, c', _) := run_meta (S := Catalog) op c (mem_eff op e) in
  same_outcome rp rc /\ store_sim p' c'.

Context (Hfault : forall n, fault n = None) (Hclock : forall n, unix_time (clock n)).

Lemma pg_query_run {S A} (f : S -> A) (s : S) e : pg_query f s e = (Ok (f s), s, bump_call e).
Proof using Hfault. unfold pg_query, bind, fallible. by rewrite Hfault. Qed.

Lemma pg_exec_run {S A} (f : S -> result string (A * S)) (s : S) e :
  pg_exec f s e = match f s with
                  | Ok (a, s') => (Ok a, s', bump_call (bump_call e))
                  | Err msg => (Err (pg_internal msg), s, bump_call e)
                  end.
Proof using Hfault.
  unfold pg_exec, bind, fallible. rewrite Hfault. destruct (f s) as [[a s']|]; [|done]. by rewrite Hfault.
Qed.

Lemma pg_get_run p c t id e :
  cells_sim p c ->
  pg_get_database t id p e =
    (match databases c !! (t, id) with Some rec => Ok rec | None => Err (DatabaseNotFound id) end,
     p, bump_call e).
Proof using Hfault.
  intros Hsim. unfold pg_get_database, bind. rewrite pg_query_run, (sim_find_row _ _ _ _ Hsim).
  destruct (databases c !! (t, id)) as [rec|] eqn:E; simpl; [|done].
  unfold mlift. by rewrite (sim_decode _ _ _ _ _ Hsim E).
Qed.

Lemma pg_get_by_name_run p c t n e :
  cells_sim p c ->
  exists e', e_uuid e' = e_uuid (match name_index c !! (t, n) with Some _ => e | None => bump_uuid e end) /\
    e_clock e' = e_clock e /\
  pg_get_database_by_name t n p e =
    (match name_index c !! (t, n) with
     | Some id => match databases c !! (t, id) with Some rec => Ok rec | None => Err (DatabaseNotFound id) end
     | None => Err (DatabaseNotFound (mkDatabaseId (uuid_v4 (e_uuid e))))
     end, p, e').
Proof using Hfault.
  intros Hsim. unfold pg_get_database_by_name, bind. rewrite pg_query_run.
  pose proof (sim_find_name _ _ t n Hsim) as Hf. destruct (name_index c !! (t, n)) as [id|].
  - destruct Hf as (rec & Hrec & ->). rewrite Hrec. simpl. unfold mlift. rewrite (sim_decode _ _ _ _ _ Hsim Hrec).
    by exists (bump_call e).
  - rewrite Hf. simpl. by exists (bump_uuid (bump_call e)).
Qed.

(** An update of a Cell's row that keeps the name: every operation but
    [rename_database]. *)
Lemma pg_update_run p c t id f e :
  cells_sim p c ->
  (forall row row', f row = Ok (Some row') -> dr_name row' = dr_name row) ->
  pg_exec (sql_update_database t id f) p e =
    match databases c !! (t, id) with
    | None => (Ok None, p, bump_call (bump_call e))
    | Some rec =>
        match f (row_of rec) with
        | Err msg => (Err (pg_internal msg), p, bump_call e)
        | Ok None => (Ok None, p, bump_call (bump_call e))
        | Ok (Some row) => (Ok (Some row), upd_databases <[id := row]> p, bump_call (bump_call e))
        end
    end.
Proof using Hfault.
  intros Hsim Hname. rewrite pg_exec_run. unfold sql_update_database. rewrite (sim_find_row _ _ _ _ Hsim).
  destruct (databases c !! (t, id)) as [rec|]; simpl; [|done].
  destruct (f (row_of rec)) as [[row|]|] eqn:Ef; [|done..].
  rewrite (Hname _ _ Ef). simpl. by rewrite bool_decide_eq_true_2.
Qed.

(** ** Requests about Cells *)

Lemma agrees_create t id node name p c e :
  store_sim p c -> admissible p e (MCreate t id node name) -> agrees (MCreate t id node name) p c e.
Proof using Hfault Hclock.
  intros [Hsim Hrest] [Hown Hdef]. unfold agrees. simpl. unfold answer, pg_create_database, create_database, pg_now,
    now_unix, read_clock, insert_record, bind, mret, gets, modify, mfail. rewrite pg_exec_run. unfold sql_insert_database.
  pose proof (sim_row_find _ _ id Hsim) as Hrow. destruct (pg_databases p !! id) as [row|] eqn:Ep.
  - destruct Hrow as (t' & rec & Hrec & ->). pose proof (Hown _ eq_refl) as Ht. simpl in Ht.
    destruct (record_has_name _ (sim_ok _ _ Hsim) _ _ _ Hrec) as (_ & Ht' & _).
    replace t' with t in Hrec by congruence. rewrite Hrec. simpl. split; [done|by split].
  - rewrite Hrow. simpl. set (n := match name with Some n => n | None => default_name id end).
    change (name_taken t n id (pg_databases p) = false) in Hdef.
    set (rec := mkDatabaseRecord id n t Created (clock (e_clock e)) node None 0).
    assert (name_index c !! (t, n) = None ->
      let p' := upd_databases <[id := row_of rec]> p in
      let c' := with_databases <[(t, id) := rec]> (with_names <[(t, n) := id]> c) in
      name_taken t n id (pg_databases p) = false /\ store_sim p' c') as Hfree.
    { intros Hn. split; [by eapply sim_name_free|]. split.
      - apply (sim_add p c _ _ rec); simpl; auto.
      - by eapply rest_sim_ext. }
    replace (wrap_i64 (clock (e_clock e))) with (clock (e_clock e)) by by rewrite unix_time_i64.
    destruct (name_index c !! (t, n)) as [id'|] eqn:Hn.
    + assert (id' <> id) as Hne.
      { intros ->. destruct (name_has_record _ (sim_ok _ _ Hsim) _ _ _ Hn) as (r & Hr & _). congruence. }
      assert (name_taken t n id (pg_databases p) = true) as Htaken by (apply (sim_name_taken _ c); eauto).
      congruence.
    + destruct (Hfree eq_refl) as [-> Hs]. simpl. pose proof Hs as [Hs' _].
      rewrite (pg_get_run _ _ _ _ _ Hs'). cbn [databases with_databases]. rewrite lookup_insert_eq.
      destruct name as [m|]; subst n; [rewrite Hn|]; (split; [done|exact Hs]).
Qed.

Lemma agrees_by_name t n p c e : store_sim p c -> agrees (MByName t n) p c e.
Proof using Hfault.
  intros Hs. pose proof Hs as [Hsim _]. unfold agrees. simpl. unfold answer, get_database_by_name, get_database, bind.
  destruct (pg_get_by_name_run p c t n e Hsim) as (e' & _ & _ & ->). unfold gets.
  destruct (name_index c !! (t, n)) as [id|]; [destruct (databases c !! (t, id))|];
    (split; [|exact Hs]); simpl; auto.
Qed.

Lemma agrees_ensure t n node p c e :
  store_sim p c -> admissible p e (MEnsure t n node) -> agrees (MEnsure t n node) p c e.
Proof using Hfault Hclock.
  intros Hs Hnew. pose proof Hs as [Hsim Hrest]. unfold agrees. simpl in *.
  unfold answer, pg_ensure_database_by_name, ensure_database_by_name, attempt, bind.
  destruct (pg_get_by_name_run p c t n e Hsim) as (e1 & Hu & Hc & ->). unfold gets.
  destruct (name_index c !! (t, n)) as [id|] eqn:Hn.
  { destruct (name_has_record _ (sim_ok _ _ Hsim) _ _ _ Hn) as (rec & Hrec & _).
    unfold get_database, bind, gets. rewrite Hrec. simpl. by split. }
  simpl in Hu. unfold DatabaseId_new, fresh_uuid, bind, mret. rewrite Hu.
  set (id := mkDatabaseId (uuid_v4 (Datatypes.S (e_uuid e)))) in *.
  unfold pg_create_database, pg_now, read_clock, bind, mret. rewrite pg_exec_run. unfold sql_insert_database.
  rewrite Hnew. pose proof (sim_row_find _ _ id Hsim) as Hrow. rewrite Hnew in Hrow. simpl.
  rewrite (sim_name_free _ _ _ _ _ Hsim Hn), Hc. simpl.
  set (rec := mkDatabaseRecord id n t Created (clock (e_clock e)) node None 0).
  rewrite unix_time_i64 by done.
  assert (store_sim (upd_databases <[id := row_of rec]> p)
    (with_databases <[(t, id) := rec]> (with_names <[(t, n) := id]> c))) as Hs'.
  { split; [apply (sim_add p c _ _ rec); simpl; auto|by eapply rest_sim_ext]. }
  pose proof Hs' as [Hs1 _]. erewrite pg_get_run by exact Hs1.
  cbn [databases with_databases]. rewrite lookup_insert_eq. by split.
Qed.

Lemma agrees_rename t id n p c e :
  store_sim p c -> admissible p e (MRename t id n) -> agrees (MRename t id n) p c e.
Proof using Hfault.
  intros Hs [Hfree Hne]. pose proof Hs as [Hsim Hrest]. unfold agrees. simpl in *.
  unfold answer, pg_rename_database, rename_database, get_database, put_record, bind, gets, modify, mret, mfail.
  rewrite pg_exec_run. unfold sql_update_database. rewrite (sim_find_row _ _ _ _ Hsim) in *.
  destruct (databases c !! (t, id)) as [rec|] eqn:Hrec; simpl; [|split; [done|done]].
  specialize (Hne _ eq_refl). simpl in Hne. rewrite bool_decide_eq_false_2 by congruence. simpl.
  destruct (name_index c !! (t, n)) as [id'|] eqn:Hn.
  - exfalso. assert (name_taken t n id (pg_databases p) = true) as Htaken; [|congruence].
    apply (sim_name_taken _ c); [done|]. exists id'. split; [done|]. intros ->.
    destruct (name_has_record _ (sim_ok _ _ Hsim) _ _ _ Hn) as (r & Hr & <-). apply Hne. congruence.
  - rewrite (sim_name_free _ _ _ _ _ Hsim Hn). simpl.
    set (rec' := mkDatabaseRecord (db_id rec) n (db_tenant rec) (db_state rec) (db_created_at rec)
      (db_storage_node rec) (db_replica_node rec) (db_generation rec)).
    assert (store_sim (upd_databases <[id := row_of rec']> p)
      (with_databases <[(t, id) := rec']> (with_names <[(t, n) := id]> (with_names (delete (t, db_name rec)) c)))) as Hs'.
    { split; [by apply (sim_rename p c _ _ t id rec rec' n)|by eapply rest_sim_ext]. }
    pose proof Hs' as [Hs1 _]. erewrite pg_get_run by exact Hs1.
    cbn [databases with_databases]. rewrite lookup_insert_eq. by split.
Qed.

(** A change of a record in place, made in both stores. *)
Lemma store_sim_update p c t id rec rec' :
  store_sim p c -> databases c !! (t, id) = Some rec ->
  db_id rec' = db_id rec -> db_tenant rec' = db_tenant rec -> db_name rec' = db_name rec ->
  db_created_at rec' = db_created_at rec -> is_i64 (db_generation rec') ->
  store_sim (upd_databases <[id := row_of rec']> p) (with_databases <[(t, id) := rec']> c).
Proof using Type.
  intros [Hsim Hrest] Hrec H1 H2 H3 H4 H5. split; [by eapply sim_update|by eapply rest_sim_ext].
Qed.

Lemma with_generation_run p t id rec storage replica :
  sql_find_row t id p = Some (row_of rec) -> is_i64 (db_generation rec) -> generation_left p t id ->
  is_i64 (db_generation (bump_generation storage replica rec)) /\
  with_generation storage replica (row_of rec) = Ok (Some (row_of (bump_generation storage replica rec))).
Proof using Type.
  intros Hrow Hg Hlt. specialize (Hlt _ Hrow). simpl in Hlt. unfold is_i64 in Hg.
  assert (is_i64 (db_generation rec + 1)) as Hi by (unfold is_i64; lia).
  unfold with_generation, bigint_add, bump_generation, row_of, i64_add. simpl. rewrite wrap_i64_id by done.
  split; [done|]. by rewrite (proj2 (i64_checked_add_Some _ _ _) (conj eq_refl Hi)).
Qed.

Lemma agrees_reset t id p c e :
  store_sim p c -> admissible p e (MReset t id) -> agrees (MReset t id) p c e.
Proof using Hfault.
  intros Hs Hgen. pose proof Hs as [Hsim Hrest]. unfold agrees. simpl in *.
  unfold answer, pg_reset_database, store_reset_database, get_database, put_record, bind, gets, modify, mret, mfail.
  erewrite pg_update_run; [|exact Hsim|].
  2:{ unfold with_generation. intros row row' Hf. destruct (bigint_add _ _); naive_solver. }
  destruct (databases c !! (t, id)) as [rec|] eqn:Hrec; simpl; [|split; [done|done]].
  destruct (with_generation_run p t id rec (db_storage_node rec) (db_replica_node rec)) as [Hg Hw]; [|by eapply sim_times|done|].
  { rewrite (sim_find_row _ _ _ _ Hsim), Hrec. done. }
  rewrite Hw. simpl.
  pose proof (store_sim_update p c t id rec (bump_generation (db_storage_node rec) (db_replica_node rec) rec)
    Hs Hrec eq_refl eq_refl eq_refl eq_refl Hg) as Hs'.
  pose proof Hs' as [Hs1 _]. erewrite pg_get_run by exact Hs1.
  cbn [databases with_databases]. rewrite lookup_insert_eq. by split.
Qed.

Lemma agrees_migrate t id node p c e :
  store_sim p c -> admissible p e (MMigrate t id node) -> agrees (MMigrate t id node) p c e.
Proof using Hfault.
  intros Hs Hgen. pose proof Hs as [Hsim Hrest]. unfold agrees. simpl in *.
  unfold answer, pg_migrate_database, migrate_database, get_database, put_record, bind, gets, modify, mret, mfail.
  erewrite pg_update_run; [|exact Hsim|].
  2:{ unfold with_generation. intros row row' Hf. destruct (bigint_add _ _); naive_solver. }
  destruct (databases c !! (t, id)) as [rec|] eqn:Hrec; simpl; [|split; [done|done]].
  destruct (with_generation_run p t id rec (Some node) (db_replica_node rec)) as [Hg Hw]; [|by eapply sim_times|done|].
  { rewrite (sim_find_row _ _ _ _ Hsim), Hrec. done. }
  rewrite Hw. cbn [fmap option_fmap option_map].
  pose proof (store_sim_update p c t id rec (bump_generation (Some node) (db_replica_node rec) rec)
    Hs Hrec eq_refl eq_refl eq_refl eq_refl Hg) as Hs'.
  pose proof Hs' as [Hs1 _]. unfold one_record, mlift.
  erewrite sim_decode; [|exact Hs1|cbn [databases with_databases]; apply lookup_insert_eq]. by split.
Qed.

Lemma agrees_promote t id p c e :
  store_sim p c -> admissible p e (MPromote t id) -> agrees (MPromote t id) p c e.
Proof using Hfault.
  intros Hs Hgen. pose proof Hs as [Hsim Hrest]. unfold agrees. simpl in *.
  unfold answer, pg_promote_replica, promote_replica, get_database, put_record, attempt, bind, gets, modify, mret, mfail.
  erewrite pg_update_run; [|exact Hsim|].
  2:{ unfold with_generation. intros row row' Hf. destruct (dr_replica row); [|done].
      destruct (bigint_add _ _); naive_solver. }
  destruct (databases c !! (t, id)) as [rec|] eqn:Hrec; simpl.
  2:{ rewrite (pg_get_run p c) by done. rewrite Hrec. split; [done|done]. }
  destruct (db_replica_node rec) as [n|] eqn:Hr.
  2:{ rewrite (pg_get_run p c) by done. rewrite Hrec. split; [done|done]. }
  destruct (with_generation_run p t id rec (Some n) None) as [Hg Hw]; [|by eapply sim_times|done|].
  { rewrite (sim_find_row _ _ _ _ Hsim), Hrec. done. }
  rewrite Hw. simpl.
  pose proof (store_sim_update p c t id rec (bump_generation (Some n) None rec)
    Hs Hrec eq_refl eq_refl eq_refl eq_refl Hg) as Hs'.
  pose proof Hs' as [Hs1 _]. erewrite pg_get_run by exact Hs1.
  cbn [databases with_databases]. rewrite lookup_insert_eq. by split.
Qed.

Lemma agrees_state t id s p c e :
  store_sim p c -> admissible p e (MState t id s) -> agrees (MState t id s) p c e.
Proof using Hfault.
  intros Hs [row Hrow]. pose proof Hs as [Hsim Hrest]. unfold agrees. simpl in *.
  unfold answer, pg_set_database_state, set_database_state, get_database, put_record, bind, gets, modify, mret, mfail.
  erewrite pg_update_run; [|exact Hsim|naive_solver]. rewrite (sim_find_row _ _ _ _ Hsim) in Hrow.
  destruct (databases c !! (t, id)) as [rec|] eqn:Hrec; [|done]. simpl. split; [done|].
  pose proof (sim_times _ _ Hsim _ _ _ Hrec) as [_ Hg].
  apply (store_sim_update p c t id rec (mkDatabaseRecord (db_id rec) (db_name rec) (db_tenant rec) s
    (db_created_at rec) (db_storage_node rec) (db_replica_node rec) (db_generation rec))); done.
Qed.

Lemma agrees_replica t id r p c e : store_sim p c -> agrees (MReplica t id r) p c e.
Proof using Hfault.
  intros Hs. pose proof Hs as [Hsim Hrest]. unfold agrees. simpl in *.
  unfold answer, pg_set_replica_node, set_replica_node, get_database, put_record, bind, gets, modify, mret, mfail.
  erewrite pg_update_run; [|exact Hsim|naive_solver].
  destruct (databases c !! (t, id)) as [rec|] eqn:Hrec; simpl; [|split; [done|done]].
  pose proof (sim_times _ _ Hsim _ _ _ Hrec) as [_ Hg].
  pose proof (store_sim_update p c t id rec (mkDatabaseRecord (db_id rec) (db_name rec) (db_tenant rec)
    (db_state rec) (db_created_at rec) (db_storage_node rec) r (db_generation rec)) Hs Hrec
    eq_refl eq_refl eq_refl eq_refl Hg) as Hs'.
  pose proof Hs' as [Hs1 _]. erewrite pg_get_run by exact Hs1.
  cbn [databases with_databases]. rewrite lookup_insert_eq. by split.
Qed.

Lemma agrees_delete t id p c e : store_sim p c -> agrees (MDelete t id) p c e.
Proof using Hfault.
  intros Hs. pose proof Hs as [Hsim Hrest]. unfold agrees. simpl in *.
  unfold answer, pg_delete_database, store_delete_database, bind, gets, modify, mret, mfail.
  rewrite pg_exec_run, (sim_find_row _ _ _ _ Hsim).
  destruct (databases c !! (t, id)) as [rec|] eqn:Hrec; simpl; [|split; [done|done]].
  split; [done|]. split; [by eapply (sim_delete p c _ _ t id)|by eapply rest_sim_ext].
Qed.

Lemma agrees_get t id p c e : store_sim p c -> agrees (MGet t id) p c e.
Proof using Hfault.
  intros Hs. pose proof Hs as [Hsim _]. unfold agrees. simpl. unfold answer, get_database, bind, gets.
  rewrite (pg_get_run p c) by done. destruct (databases c !! (t, id)); (split; [|exact Hs]); simpl; auto.
Qed.

Lemma agrees_by_id id p c e : store_sim p c -> agrees (MById id) p c e.
Proof using Hfault.
  intros Hs. pose proof Hs as [Hsim _]. unfold agrees. simpl.
  unfold answer, pg_get_database_by_id, get_database_by_id, bind, gets. rewrite pg_query_run.
  pose proof (sim_row_find _ _ id Hsim) as Hrow. pose proof (sim_ok _ _ Hsim) as Hok.
  assert (forall k rec, databases c !! k = Some rec -> bool_decide (db_id rec = id) = true -> k.2 = id) as Hid.
  { intros [t k] rec Hk Hb. apply bool_decide_eq_true in Hb.
    destruct (record_has_name _ Hok _ _ _ Hk) as (? & _). simpl. congruence. }
  destruct (pg_databases p !! id) as [row|].
  - destruct Hrow as (t & rec & Hrec & ->). destruct (record_has_name _ Hok _ _ _ Hrec) as (Hi & _).
    rewrite (find_values_unique _ _ (t, id) rec Hrec).
    + simpl. unfold mlift. by rewrite (sim_decode _ _ _ _ _ Hsim Hrec).
    + by apply bool_decide_eq_true_2.
    + intros [t' id'] rec' Hl Hb. pose proof (Hid _ _ Hl Hb) as Heq. simpl in Heq. subst id'.
      f_equal. by eapply id_has_tenant.
  - rewrite find_values_none; [split; [done|done]|]. intros [t k] rec Hk.
    apply not_true_iff_false. intros Hb. pose proof (Hid _ _ Hk Hb) as Heq. simpl in Heq. subst k.
    by rewrite Hrow in Hk.
Qed.

(** ** Lists of Cells *)

Definition decode_row (kv : DatabaseId * DbRow) : DatabaseRecord :=
  match row_to_record (all_columns kv) with
  | Ok rec => rec
  | Err _ => mkDatabaseRecord kv.1 EmptyString (dr_tenant kv.2) Created 0 None None 0
  end.

Lemma filter_all {A} (l : list A) : filter (fun _ => True) l = l.
Proof using Type. induction l as [|x l IH]; [done|]. rewrite filter_cons_True by done. by rewrite IH. Qed.

Lemma sim_row_elem p c kv :
  cells_sim p c -> kv ∈ map_to_list (pg_databases p) ->
  exists t rec, databases c !! (t, kv.1) = Some rec /\ kv.2 = row_of rec /\
    row_to_record (all_columns kv) = Ok rec /\ decode_row kv = rec.
Proof using Type.
  destruct kv as [id row]. intros Hsim Hin. apply elem_of_map_to_list, (sim_rows _ _ Hsim) in Hin as (t & rec & Hrec & ->).
  exists t, rec. unfold decode_row. by rewrite (sim_decode _ _ _ _ _ Hsim Hrec).
Qed.

Lemma sim_list_perm p c (P : DatabaseId * DbRow -> Prop) (Q : (TenantId * DatabaseId) * DatabaseRecord -> Prop)
    `{!forall x, Decision (P x), !forall x, Decision (Q x)} :
  cells_sim p c ->
  (forall t id rec, databases c !! (t, id) = Some rec -> P (id, row_of rec) <-> Q ((t, id), rec)) ->
  decode_row <$> filter P (map_to_list (pg_databases p)) ≡ₚ (filter Q (map_to_list (databases c))).*2.
Proof using Type.
  intros Hsim HPQ. pose proof (sim_ok _ _ Hsim) as Hok. apply NoDup_Permutation.
  - apply NoDup_fmap_2_strong; [|apply NoDup_filter, NoDup_map_to_list].
    intros x y [_ Hx]%list_elem_of_filter [_ Hy]%list_elem_of_filter.
    destruct (sim_row_elem _ _ _ Hsim Hx) as (t & rec & Hrec & Hxr & _ & ->).
    destruct (sim_row_elem _ _ _ Hsim Hy) as (t' & rec' & Hrec' & Hyr & _ & ->). intros ->.
    destruct (record_has_name _ Hok _ _ _ Hrec) as (Hi1 & _), (record_has_name _ Hok _ _ _ Hrec') as (Hi2 & _).
    destruct x, y; simpl in *. congruence.
  - apply NoDup_fmap_2_strong; [|apply NoDup_filter, NoDup_map_to_list].
    intros [[t id] r] [[t' id'] r'] [_ Hx]%list_elem_of_filter [_ Hy]%list_elem_of_filter Hr.
    apply elem_of_map_to_list in Hx, Hy. simpl in Hr. subst r'.
    destruct (record_has_name _ Hok _ _ _ Hx) as (Hi1 & Ht1 & _), (record_has_name _ Hok _ _ _ Hy) as (Hi2 & Ht2 & _).
    congruence.
  - intros rec. rewrite !list_elem_of_fmap. split.
    + intros (kv & -> & [HP Hin]%list_elem_of_filter).
      destruct (sim_row_elem _ _ _ Hsim Hin) as (t & rec & Hrec & Hkv & _ & ->).
      exists ((t, kv.1), rec). split; [done|]. apply list_elem_of_filter.
      split; [apply (HPQ _ _ _ Hrec); rewrite <- Hkv; by destruct kv|by apply elem_of_map_to_list].
    + intros ([[t id] rec'] & -> & [HQ Hin]%list_elem_of_filter). apply elem_of_map_to_list in Hin.
      exists (id, row_of rec'). split.
      * unfold decode_row. by rewrite (sim_decode _ _ _ _ _ Hsim Hin).
      * apply list_elem_of_filter. split; [by apply (HPQ _ _ _ Hin)|].
        apply elem_of_map_to_list, (sim_rows _ _ Hsim). eauto.
Qed.

(** The rows in the order of the statement are the records in the order of
    [sort_by_key]. *)
Lemma sim_list_sorted p c (P : DatabaseId * DbRow -> Prop) (Q : (TenantId * DatabaseId) * DatabaseRecord -> Prop)
    `{!forall x, Decision (P x), !forall x, Decision (Q x)} kr kd :
  cells_sim p c ->
  (forall t id rec, databases c !! (t, id) = Some rec -> P (id, row_of rec) <-> Q ((t, id), rec)) ->
  (forall rec, kr (db_id rec, row_of rec) = kd rec) ->
  (forall x y, kr x = kr y -> x.1 = y.1) ->
  decode_row <$> sort_by_key kr (filter P (map_to_list (pg_databases p))) =
  sort_by_key kd (filter Q (map_to_list (databases c))).*2.
Proof using Type.
  intros Hsim HPQ Hk Hinj.
  assert (forall x y, x ∈ filter P (map_to_list (pg_databases p)) ->
    y ∈ filter P (map_to_list (pg_databases p)) -> x.1 = y.1 -> x = y) as Huniq.
  { intros [i r] [j s] [_ Hx]%list_elem_of_filter [_ Hy]%list_elem_of_filter. simpl. intros ->.
    apply elem_of_map_to_list in Hx, Hy. congruence. }
  assert (forall x, x ∈ filter P (map_to_list (pg_databases p)) -> kd (decode_row x) = kr x) as Hkey.
  { intros x [_ Hx]%list_elem_of_filter. destruct (sim_row_elem _ _ _ Hsim Hx) as (t & rec & Hrec & Hr & _ & ->).
    destruct (record_has_name _ (sim_ok _ _ Hsim) _ _ _ Hrec) as (Hi & _). rewrite <- Hk, Hi, <- Hr. by destruct x. }
  rewrite (sort_by_key_fmap decode_row kr kd); [|done|].
  2:{ intros x y Hx Hy He. apply Huniq; auto. }
  apply sort_by_key_unique; [by apply sim_list_perm|].
  intros x y (x' & -> & Hx)%list_elem_of_fmap (y' & -> & Hy)%list_elem_of_fmap.
  rewrite !Hkey by done. intros He. f_equal. apply Huniq; auto.
Qed.

Lemma all_records_run (cols : DatabaseId * DbRow -> Fetched) l p e :
  (forall kv, kv ∈ l -> row_to_record (cols kv) = Ok (decode_row kv)) ->
  all_records (cols <$> l) p e = (Ok (decode_row <$> l), p, e).
Proof using Type.
  unfold all_records. induction l as [|kv l IH]; intros Hl; [done|].
  rewrite fmap_cons. cbn [mmap]. unfold bind, mlift at 1. rewrite (Hl kv) by by left.
  rewrite IH by (intros; apply Hl; by right). done.
Qed.

Lemma row_key_inj x y : row_key x = row_key y -> x.1 = y.1.
Proof using Type. destruct x as [[i] r], y as [[j] s]. unfold row_key. simpl. intros [= _ E]. f_equal. lia. Qed.

Lemma row_id_key_inj x y : row_id_key x = row_id_key y -> x.1 = y.1.
Proof using Type. destruct x as [[i] r], y as [[j] s]. unfold row_id_key. simpl. intros [= E]. f_equal. lia. Qed.

Lemma sim_decodes p c kr (l : list (DatabaseId * DbRow)) :
  cells_sim p c -> l ⊆ map_to_list (pg_databases p) ->
  forall kv, kv ∈ sort_by_key kr l -> row_to_record (all_columns kv) = Ok (decode_row kv).
Proof using Type.
  intros Hsim Hl kv Hin. rewrite sort_by_key_perm in Hin. apply Hl in Hin.
  destruct (sim_row_elem _ _ _ Hsim Hin) as (t & rec & _ & _ & -> & ->). done.
Qed.

Lemma agrees_list t p c e : store_sim p c -> agrees (MList t) p c e.
Proof using Hfault.
  intros Hs. pose proof Hs as [Hsim _]. unfold agrees. simpl.
  unfold answer, pg_list_databases, list_databases, bind, gets. rewrite pg_query_run.
  rewrite all_records_run.
  2:{ eapply sim_decodes; [exact Hsim|]. intros x. rewrite list_elem_of_filter. by intros []. }
  rewrite (sim_list_sorted p c _ (fun kv => kv.1.1 = t) row_key record_key); [by split|done| |done|apply row_key_inj].
  intros t' id rec Hrec. simpl. by destruct (record_has_name _ (sim_ok _ _ Hsim) _ _ _ Hrec) as (_ & -> & _).
Qed.

Lemma agrees_list_all p c e : store_sim p c -> agrees MListAll p c e.
Proof using Hfault.
  intros Hs. pose proof Hs as [Hsim _]. unfold agrees. simpl.
  unfold answer, pg_list_databases_all, list_databases_all, bind, gets. rewrite pg_query_run.
  rewrite all_records_run by by eapply sim_decodes.
  rewrite <- (filter_all (map_to_list (pg_databases p))), (sim_list_sorted p c _ (fun _ => True) row_key record_key);
    [|done|done|done|apply row_key_inj].
  rewrite filter_all. by split.
Qed.

Lemma agrees_list_by_id p c e :
  store_sim p c -> admissible p e MListAllById -> agrees MListAllById p c e.
Proof using Hfault.
  intros Hs Hdef. pose proof Hs as [Hsim _]. unfold agrees. simpl in *.
  unfold answer, pg_list_all_databases, list_all_databases, bind, gets. rewrite pg_query_run.
  rewrite all_records_run.
  2:{ intros [id row] Hin. rewrite sort_by_key_perm in Hin.
      destruct (sim_row_elem _ _ _ Hsim Hin) as (t & rec & _ & _ & Hd & ->). rewrite <- Hd.
      apply elem_of_map_to_list in Hin. unfold row_to_record. simpl. by rewrite (Hdef _ _ Hin). }
  rewrite <- (filter_all (map_to_list (pg_databases p))), (sim_list_sorted p c _ (fun _ => True) row_id_key id_key);
    [|done|done|done|apply row_id_key_inj].
  rewrite filter_all. by split.
Qed.

Lemma agrees_replicas_of n p c e :
  store_sim p c -> admissible p e (MReplicasOf n) -> agrees (MReplicasOf n) p c e.
Proof using Hfault.
  intros Hs Hnone. pose proof Hs as [Hsim _]. unfold agrees. simpl in *.
  unfold answer, pg_list_replicas_of, list_replicas_of, bind, gets. rewrite pg_query_run.
  assert (filter (fun kv => dr_replica kv.2 = Some n) (map_to_list (pg_databases p)) = []) as ->.
  { apply elem_of_nil_inv. intros [id row] [Hr Hin]%list_elem_of_filter.
    apply elem_of_map_to_list in Hin. by destruct (Hnone _ _ Hin). }
  assert (filter (fun r => db_replica_node r = Some n) (values (databases c)) = []) as ->; [|by split].
  apply elem_of_nil_inv. intros rec [Hr Hin]%list_elem_of_filter.
  apply list_elem_of_fmap in Hin as ([[t id] rec'] & -> & Hin). apply elem_of_map_to_list in Hin.
  eapply (Hnone id (row_of rec')); [apply (sim_rows _ _ Hsim); eauto|done].
Qed.

(** ** The other tables *)

(** A change of the other tables leaves the Cells alone. *)
Ltac rest_step Hs :=
  destruct Hs as [Hsim Hrest]; split; [by eapply cells_sim_ext|]; destruct Hrest; split; simpl; try assumption.

Lemma stored_time k : wrap_u64 (wrap_i64 (clock k)) = clock k.
Proof using Hclock. rewrite wrap_u64_i64. by apply unix_time_u64. Qed.

Lemma stored_count n : is_u64 n -> wrap_u64 (wrap_i64 n) = n.
Proof using Type. intros Hn. rewrite wrap_u64_i64. by apply wrap_u64_id. Qed.

Lemma agrees_tenant t p c e : store_sim p c -> admissible p e (MTenant t) -> agrees (MTenant t) p c e.
Proof using Hfault Hclock.
  intros Hs Hnew. unfold agrees. simpl in *.
  unfold answer, pg_create_tenant, create_tenant, pg_now, now_unix, read_clock, bind, modify, mret.
  rewrite pg_exec_run, Hnew, stored_time. split; [done|]. rest_step Hs.
  - by rewrite fmap_insert, sim_tenants0; unfold tenant_out; simpl; rewrite stored_time.
  - split; [|apply sim_created0]. intros t' r' [[_ <-]|[_ Hr]]%lookup_insert_Some; [|by eapply sim_created0].
    simpl. by rewrite unix_time_i64.
Qed.

Lemma agrees_tenants p c e : store_sim p c -> agrees MTenants p c e.
Proof using Hfault.
  intros Hs. unfold agrees. simpl. unfold answer, pg_list_tenants, list_tenants, bind, gets.
  rewrite pg_query_run. split; [|done]. simpl. destruct Hs as [_ []].
  apply (sort_keys_decode (fun z => z) tenant_out t_created_at t_created_at); [done|..].
  - by rewrite sim_tenants0, values_fmap.
  - intros r Hr. simpl. apply list_elem_of_fmap in Hr as ([t r'] & -> & Hr). apply elem_of_map_to_list in Hr.
    apply unix_time_u64. by eapply sim_created0.
Qed.

Lemma agrees_api_key t h n p c e :
  store_sim p c -> admissible p e (MApiKey t h n) -> agrees (MApiKey t h n) p c e.
Proof using Hfault Hclock.
  intros Hs [Hid Hhash]. unfold agrees. simpl in *.
  unfold answer, pg_create_api_key, create_api_key, pg_now, now_unix, read_clock, fresh_uuid, bind, modify, mret.
  rewrite pg_exec_run, Hid. simpl.
  assert (existsb (fun k => bool_decide (k_hash k = h)) (values (pg_api_keys p)) = false) as ->.
  { apply not_true_iff_false. rewrite existsb_exists. intros (k & Hin & Hk). apply bool_decide_eq_true in Hk.
    apply list_elem_of_In, list_elem_of_fmap in Hin as ([i k'] & -> & Hin). apply elem_of_map_to_list in Hin.
    by destruct (Hhash _ _ Hin). }
  rewrite stored_time. split; [done|]. rest_step Hs.
  - by rewrite fmap_insert, sim_keys0; unfold key_out; simpl; rewrite stored_time.
  - intros i j k l. rewrite !lookup_insert_Some. intros [[<- <-]|[Hi Hk]] [[<- <-]|[Hj Hl]]; simpl; intros He;
      [done|by destruct (Hhash _ _ Hl)|by destruct (Hhash _ _ Hk)|by eapply sim_hashes0].
  - split; [apply sim_created0|]. intros i k [[_ <-]|[_ Hr]]%lookup_insert_Some; [|by eapply sim_created0].
    simpl. by rewrite unix_time_i64.
Qed.

Lemma key_matches_out h k : key_matches h (key_out k) = key_matches h k.
Proof using Type. unfold key_matches. simpl. f_equal. apply bool_decide_ext. destruct (k_revoked_at k); naive_solver. Qed.

Lemma agrees_lookup_key h p c e : store_sim p c -> agrees (MLookupKey h) p c e.
Proof using Hfault.
  intros Hs. unfold agrees. simpl. unfold answer, pg_lookup_api_key_by_hash, lookup_api_key_by_hash, bind, gets.
  rewrite pg_query_run. split; [|done]. simpl. destruct Hs as [_ []]. f_equal. rewrite sim_keys0.
  destruct (List.find _ (values (pg_api_keys p))) as [k|] eqn:E; simpl; symmetry.
  - apply find_values in E as (Hm & i & Hi). apply (find_values_unique _ _ i).
    + by rewrite lookup_fmap, Hi.
    + by rewrite key_matches_out.
    + intros j l. rewrite lookup_fmap. intros (l' & Hl & ->)%fmap_Some. rewrite key_matches_out. intros Hml.
      apply (sim_hashes0 _ _ _ _ Hl Hi). unfold key_matches in *.
      apply andb_true_iff in Hm as [Hm%bool_decide_eq_true _], Hml as [Hml%bool_decide_eq_true _]. congruence.
  - apply find_values_none. intros j l. rewrite lookup_fmap. intros (l' & Hl & ->)%fmap_Some.
    rewrite key_matches_out. apply (List.find_none _ _ E), list_elem_of_In, list_elem_of_fmap.
    exists (j, l'). split; [done|]. by apply elem_of_map_to_list.
Qed.

Lemma filter_fmap_iff {A B} (f : A -> B) (P : B -> Prop) (Q : A -> Prop)
    `{!forall x, Decision (P x), !forall x, Decision (Q x)} (l : list A) :
  (forall x, P (f x) <-> Q x) -> filter P (f <$> l) = f <$> filter Q l.
Proof using Type.
  intros HPQ. induction l as [|x l IH]; [done|]. rewrite fmap_cons. destruct (decide (Q x)) as [HQ|HQ].
  - rewrite !filter_cons_True by (done || by apply HPQ). by rewrite fmap_cons, IH.
  - by rewrite !filter_cons_False by (done || by rewrite HPQ).
Qed.

Lemma agrees_api_keys t p c e : store_sim p c -> agrees (MApiKeys t) p c e.
Proof using Hfault.
  intros Hs. unfold agrees. simpl. unfold answer, pg_list_api_keys, list_api_keys, bind, gets.
  rewrite pg_query_run. split; [|done]. simpl. destruct Hs as [_ []].
  apply (sort_keys_decode (fun z => z) key_out k_created_at k_created_at); [done|..].
  - rewrite sim_keys0, values_fmap. by erewrite filter_fmap_iff.
  - intros r [_ Hr]%list_elem_of_filter. simpl. apply list_elem_of_fmap in Hr as ([i r'] & -> & Hr).
    apply elem_of_map_to_list in Hr. apply unix_time_u64. by eapply sim_created0.
Qed.

Lemma agrees_revoke t k p c e : store_sim p c -> admissible p e (MRevoke t k) -> agrees (MRevoke t k) p c e.
Proof using Hfault Hclock.
  intros Hs Hlive. unfold agrees. simpl in *.
  unfold answer, pg_revoke_api_key, revoke_api_key, pg_now, now_unix, read_clock, bind, gets, modify, mret, mfail.
  rewrite pg_exec_run. pose proof Hs as [_ []]. rewrite sim_keys0, lookup_fmap.
  destruct (pg_api_keys p !! k) as [r|] eqn:Hk; simpl; [|split; [done|done]].
  destruct (decide (k_tenant r = t)) as [Ht|Ht].
  - rewrite decide_True by auto. rewrite decide_False by auto. simpl. split; [done|]. rest_step Hs.
    + rewrite fmap_insert, sim_keys1. unfold key_out. simpl. by rewrite stored_time.
    + intros i j a b. rewrite !lookup_insert_Some.
      intros [[<- <-]|[Hi Ha]] [[<- <-]|[Hj Hb]]; simpl; intros He; [done|..]; by eapply sim_hashes1.
    + split; [apply sim_created1|]. intros i a [[_ <-]|[_ Hr]]%lookup_insert_Some; [|by eapply sim_created1].
      exact (proj2 sim_created1 _ _ Hk).
  - rewrite decide_False by tauto. rewrite decide_True by done. split; [done|done].
Qed.

(** ** Nodes, leases, configuration, idempotency, waitlist *)

Lemma agrees_node id a n p c e : store_sim p c -> admissible p e (MNode id a n) -> agrees (MNode id a n) p c e.
Proof using Hfault Hclock.
  intros Hs Hn. unfold agrees. simpl in *.
  unfold answer, pg_upsert_data_node, upsert_data_node, pg_now, now_unix, read_clock, bind, gets, modify, mret.
  rewrite pg_exec_run. pose proof Hs as [_ []]. rewrite sim_nodes0, lookup_fmap.
  destruct (pg_data_nodes p !! id) as [r|] eqn:Hr; simpl; (split; [done|]); rest_step Hs;
    rewrite Hr, fmap_insert, sim_nodes1; unfold node_out; simpl; by rewrite ?(stored_count n Hn), ?stored_time.
Qed.

Lemma agrees_heartbeat id n p c e :
  store_sim p c -> admissible p e (MHeartbeat id n) -> agrees (MHeartbeat id n) p c e.
Proof using Hfault Hclock.
  intros Hs Hn. unfold agrees. simpl in *.
  unfold answer, pg_heartbeat_data_node, heartbeat_data_node, pg_now, now_unix, read_clock, bind, gets, modify, mret.
  rewrite pg_exec_run. pose proof Hs as [_ []]. rewrite sim_nodes0, lookup_fmap.
  destruct (pg_data_nodes p !! id) as [r|] eqn:Hr; simpl; (split; [done|]); [|done]. rest_step Hs.
  rewrite fmap_insert, sim_nodes1; unfold node_out; simpl; by rewrite ?(stored_count n Hn), ?stored_time.
Qed.

Lemma agrees_unregister id p c e : store_sim p c -> agrees (MUnregister id) p c e.
Proof using Hfault.
  intros Hs. unfold agrees. simpl in *.
  unfold answer, pg_unregister_data_node, unregister_data_node, bind, gets, modify, mret.
  rewrite pg_exec_run. pose proof Hs as [_ []]. rewrite sim_nodes0, lookup_fmap.
  destruct (pg_data_nodes p !! id) as [r|] eqn:Hr; simpl; (split; [done|]); rest_step Hs.
  - by rewrite fmap_delete, sim_nodes1.
  - rewrite sim_nodes1, delete_id; [done|]. by rewrite lookup_fmap, Hr.
Qed.

Lemma agrees_nodes p c e : store_sim p c -> agrees MNodes p c e.
Proof using Hfault.
  intros Hs. unfold agrees. simpl. unfold answer, pg_list_data_nodes, list_data_nodes, bind, gets.
  rewrite pg_query_run. split; [|done]. simpl. destruct Hs as [_ []]. by rewrite sim_nodes0, values_fmap.
Qed.

Lemma agrees_lease n o now ttl p c e : store_sim p c -> agrees (MLease n o now ttl) p c e.
Proof using Hfault.
  intros Hs. unfold agrees. simpl.
  unfold answer, pg_try_acquire_lease, try_acquire_lease, bind, gets, modify, mret.
  rewrite pg_exec_run. unfold sql_upsert_lease. pose proof Hs as [_ []]. rewrite sim_leases0.
  destruct (pg_leases p !! n) as [[cur exp]|].
  - rewrite orb_comm. destruct (_ || _); simpl; (split; [done|]); [|done]. rest_step Hs. by rewrite sim_leases1.
  - split; [done|]. rest_step Hs. by rewrite sim_leases1.
Qed.

Lemma agrees_get_config k p c e : store_sim p c -> agrees (MGetConfig k) p c e.
Proof using Hfault.
  intros Hs. unfold agrees. simpl. unfold answer, pg_get_config, get_config, bind, gets.
  rewrite pg_query_run. split; [|done]. simpl. destruct Hs as [_ []]. by rewrite sim_config0.
Qed.

Lemma agrees_set_config k v p c e : store_sim p c -> agrees (MSetConfig k v) p c e.
Proof using Hfault.
  intros Hs. unfold agrees. simpl. unfold answer, pg_set_config, set_config, bind, modify.
  rewrite pg_exec_run. split; [done|]. rest_step Hs. by rewrite sim_config0.
Qed.

Lemma agrees_idempotency k t v p c e :
  store_sim p c -> admissible p e (MIdempotency k t v) -> agrees (MIdempotency k t v) p c e.
Proof using Hfault.
  intros Hs Hown. unfold agrees. simpl in *.
  unfold answer, pg_save_idempotency, save_idempotency, pg_now, read_clock, bind, gets, modify, mret.
  rewrite pg_exec_run. pose proof Hs as [_ []]. rewrite sim_idempotency0, lookup_fmap.
  destruct (pg_idempotency p !! k) as [[[t' text] at']|] eqn:Hk; simpl.
  - rewrite pg_query_run, Hk. rewrite decide_True by by eapply Hown. by split.
  - split; [done|]. rest_step Hs. by rewrite fmap_insert, sim_idempotency1.
Qed.

Lemma agrees_join m now p c e : store_sim p c -> agrees (MJoinWaitlist m now) p c e.
Proof using Hfault.
  intros Hs. unfold agrees. simpl. unfold answer, pg_create_waitlist_entry, create_waitlist_entry, bind, gets, modify, mret.
  rewrite pg_exec_run. pose proof Hs as [_ []].
  assert (forallb (fun w => negb (bool_decide (w_email w = m))) (waitlist c) = true <-> pg_waitlist p !! m = None) as Hfree.
  { rewrite forallb_forall, eq_None_not_Some. split.
    - intros Hall [z Hz]. assert (In (waitlist_of (m, z)) (waitlist c)) as Hin.
      { apply list_elem_of_In. rewrite sim_waitlist0. apply list_elem_of_fmap. exists (m, z). split; [done|].
        by apply elem_of_map_to_list. }
      apply Hall in Hin. simpl in Hin. by rewrite bool_decide_eq_true_2 in Hin.
    - intros Hn w Hin. apply list_elem_of_In in Hin. rewrite sim_waitlist0 in Hin.
      apply list_elem_of_fmap in Hin as ([m' z] & -> & Hin). apply elem_of_map_to_list in Hin. simpl.
      rewrite bool_decide_eq_false_2; [done|]. intros ->. by destruct Hn; eexists. }
  destruct (forallb _ _) eqn:E.
  - split; [done|]. rest_step Hs. rewrite (proj1 Hfree eq_refl), map_to_list_insert by by apply Hfree.
    rewrite fmap_cons, sim_waitlist1, Permutation_app_comm. done.
  - split; [done|]. destruct (pg_waitlist p !! m) eqn:Hm; [|by destruct Hfree as [_ Hf]; discriminate (Hf eq_refl)]. rest_step Hs. by rewrite Hm.
Qed.

Lemma agrees_waitlist n p c e :
  store_sim p c -> admissible p e (MWaitlist n) -> agrees (MWaitlist n) p c e.
Proof using Hfault.
  intros Hs Hone. unfold agrees. simpl in *. unfold answer, pg_list_waitlist, list_waitlist, bind, gets.
  rewrite pg_query_run. split; [|done]. simpl. destruct Hs as [_ []]. do 2 f_equal.
  apply sort_by_key_unique; [by rewrite sim_waitlist0|]. intros x y Hx Hy [= Hat].
  apply list_elem_of_fmap in Hx as ([m at1] & -> & Hx), Hy as ([m' at2] & -> & Hy).
  apply elem_of_map_to_list in Hx, Hy. simpl in Hat. subst at2. by rewrite (Hone _ _ _ Hx Hy).
Qed.

(** Every admissible request, on related stores. *)
Lemma pg_request_refines (op : MetaOp) (p : PgDir) (c : Catalog) (e : Eff) :
  store_sim p c -> admissible p e op -> agrees op p c e.
Proof using Hfault Hclock.
  intros Hs Hadm. destruct op.
  - by apply agrees_create.
  - by apply agrees_by_name.
  - by apply agrees_ensure.
  - by apply agrees_rename.
  - by apply agrees_reset.
  - by apply agrees_get.
  - by apply agrees_by_id.
  - by apply agrees_list.
  - by apply agrees_list_all.
  - by apply agrees_delete.
  - by apply agrees_state.
  - by apply agrees_replica.
  - by apply agrees_replicas_of.
  - by apply agrees_promote.
  - by apply agrees_migrate.
  - by apply agrees_list_by_id.
  - by apply agrees_tenant.
  - by apply agrees_tenants.
  - by apply agrees_api_key.
  - by apply agrees_lookup_key.
  - by apply agrees_api_keys.
  - by apply agrees_revoke.
  - by apply agrees_node.
  - by apply agrees_heartbeat.
  - by apply agrees_unregister.
  - by apply agrees_nodes.
  - by apply agrees_lease.
  - by apply agrees_get_config.
  - by apply agrees_set_config.
  - by apply agrees_idempotency.
  - by apply agrees_join.
  - by apply agrees_waitlist.
Qed.

(** ** Histories *)

(** A history of [PostgresStore]: requests with their outcomes. *)
Inductive pg_history : PgDir -> Eff -> list (MetaOp * result CombeeError MetaResp) -> PgDir -> Prop :=
| pg_stop p e : pg_history p e [] p
| pg_request p e op r p1 e1 h p2 :
    admissible p e op -> run_meta (S := PgDir) op p e = (r, p1, e1) -> pg_history p1 e1 h p2 ->
    pg_history p e ((op, r) :: h) p2.

(** A history of [InMemoryStore], each request with readings of its own. *)
Inductive mem_history : Catalog -> list (MetaOp * result CombeeError MetaResp) -> Catalog -> Prop :=
| mem_stop c : mem_history c [] c
| mem_request c e op r c1 e1 h c2 :
    run_meta (S := Catalog) op c e = (r, c1, e1) -> mem_history c1 h c2 -> mem_history c ((op, r) :: h) c2.

Definition same_step (a b : MetaOp * result CombeeError MetaResp) : Prop :=
  a.1 = b.1 /\ same_outcome a.2 b.2.

Lemma pg_history_refines p c e h p' :
  store_sim p c -> pg_history p e h p' ->
  exists h' c', mem_history c h' c' /\ Forall2 same_step h h' /\ store_sim p' c'.
Proof using Hfault Hclock.
  intros Hs Hh. revert c Hs. induction Hh as [p e|p e op r p1 e1 h p2 Hadm Hrun _ IH]; intros c Hs.
  - exists [], c. split; [constructor|by split].
  - pose proof (pg_request_refines op p c e Hs Hadm) as Hag. unfold agrees in Hag. rewrite Hrun in Hag.
    destruct (run_meta op c (mem_eff op e)) as [[rc c1] ec] eqn:Hc. destruct Hag as [Hr Hs1].
    destruct (IH c1 Hs1) as (h' & c' & Hm & Hf & Hs2). exists ((op, rc) :: h'), c'.
    split; [by econstructor|]. split; [by constructor|done].
Qed.

Lemma store_sim_empty : store_sim PgDir_empty Catalog_empty.
Proof using Type.
  split; [split; [split|..]|split]; simpl; intros *; rewrite ?lookup_empty, ?fmap_empty; try done.
  split; [done|]. intros (t & rec & Hl & _). by rewrite lookup_empty in Hl.
Qed.

(** C5: [PostgresStore] implements [InMemoryStore]: every history of
    admissible requests that an empty PostgreSQL directory can show when no
    statement fails and clock readings are times of 64 bits, the in-memory
    directory can show too, request by request with the same answer or the
    same error, and in the end both hold the same directory. Lists of tenants
    and keys have the same elements and the same creation times in the same
    order, lists of nodes the same elements: the rest of their order both
    stores leave open. What is not admissible is listed at [admissible]; it
    includes the requests on which the stores are shown to differ below. *)
Theorem pg_refines_memory (e : Eff) (h : list (MetaOp * result CombeeError MetaResp)) (p : PgDir) :
  pg_history PgDir_empty e h p ->
  exists h' c, mem_history Catalog_empty h' c /\ Forall2 same_step h h' /\ store_sim p c.
Proof using Hfault Hclock. apply pg_history_refines, store_sim_empty. Qed.

(** ** Where the stores differ *)

(** The replicas on a node cannot be listed: as soon as one Cell has its
    replica there, [PostgresStore::list_replicas_of] ends in an error, since its
    statement leaves out the column [generation] that the decoder asks for,
    while [InMemoryStore] returns the Cells. The node asks for this list to know
    which replicas to bring up to date. *)
Theorem pg_replicas_unreadable (n : NodeId) (id : DatabaseId) (row : DbRow) (p : PgDir) (c : Catalog) (e : Eff) :
  store_sim p c -> pg_databases p !! id = Some row -> dr_replica row = Some n ->
  (exists e', run_meta (S := PgDir) (MReplicasOf n) p e =
     (Err (pg_internal "no column found for name: generation"), p, e')) /\
  (exists l e', run_meta (S := Catalog) (MReplicasOf n) c e = (Ok (RRecords l), c, e') /\
     exists rec, rec ∈ l /\ db_id rec = id).
Proof using Hfault.
  intros [Hsim _] Hrow Hn. split.
  - simpl. unfold answer, pg_list_replicas_of, bind. rewrite pg_query_run.
    set (l := sort_by_key row_id_key _).
    assert ((id, row) ∈ l) as Hin.
    { unfold l. rewrite sort_by_key_perm. apply list_elem_of_filter. split; [done|]. by apply elem_of_map_to_list. }
    destruct l as [|x l]; [by apply not_elem_of_nil in Hin|]. by eexists.
  - simpl. unfold answer, list_replicas_of, bind, gets, mret. eexists _, _. split; [done|].
    apply (sim_rows _ _ Hsim) in Hrow as (t & rec & Hrec & ->). exists rec.
    destruct (record_has_name _ (sim_ok _ _ Hsim) _ _ _ Hrec) as (Hi & _). split; [|done].
    rewrite sort_by_key_perm. apply list_elem_of_filter. split; [done|].
    apply list_elem_of_fmap. exists ((t, id), rec). split; [done|]. by apply elem_of_map_to_list.
Qed.

(** The list of all Cells by id gives every Cell the name made from its id,
    whatever it is called. *)
Theorem pg_list_loses_names (p : PgDir) (c : Catalog) (e : Eff) :
  store_sim p c ->
  exists l e', run_meta (S := PgDir) MListAllById p e = (Ok (RRecords l), p, e') /\
    forall rec, rec ∈ l -> db_name rec = default_name (db_id rec).
Proof using Hfault.
  intros [Hsim _]. simpl. unfold answer, pg_list_all_databases, bind. rewrite pg_query_run.
  assert (forall rows, (forall kv, kv ∈ rows -> kv ∈ map_to_list (pg_databases p)) -> forall e,
    exists l, all_records (without_name <$> rows) p e = (Ok l, p, e) /\
      forall rec, rec ∈ l -> db_name rec = default_name (db_id rec)) as Hall.
  { induction rows as [|kv rows IH]; intros Hrows e1.
    - exists []. split; [done|]. intros rec Hrec. by apply not_elem_of_nil in Hrec.
    - destruct (IH (fun kv' Hin => Hrows _ (list_elem_of_further _ _ _ Hin)) e1) as (l & Hl & Hd).
      destruct (sim_row_elem _ _ kv Hsim) as (t & rec & Hrec & Hkv & Hdec & _); [apply Hrows; by left|].
      unfold row_to_record in Hdec. simpl in Hdec.
      destruct (state_parse (dr_state kv.2)) as [s|] eqn:Hst; [|done].
      exists (mkDatabaseRecord kv.1 (default_name kv.1) (dr_tenant kv.2) s (wrap_u64 (dr_created_at kv.2))
        (dr_storage kv.2) (dr_replica kv.2) (dr_generation kv.2) :: l). split.
      + unfold all_records in *. rewrite fmap_cons. cbn [mmap]. unfold bind, mlift at 1, row_to_record at 1. simpl.
        rewrite Hst. by rewrite Hl.
      + intros r [->|Hr]%elem_of_cons; [done|by apply Hd]. }
  destruct (Hall (sort_by_key row_id_key (map_to_list (pg_databases p)))
    ltac:(intros kv; by rewrite sort_by_key_perm) (bump_call e)) as (l & Hl & Hd).
  rewrite Hl. by eexists _, _.
Qed.

(** A name that is taken: the caller of [create_database] is told of an
    internal error (status 500) and not of the conflict (status 409), and
    [ensure_database_by_name], which is to look the Cell up again when another
    request has created it in between, does not. *)
Theorem pg_taken_name_internal (t : TenantId) (id other : DatabaseId) (n : string) (node : option NodeId)
    (p : PgDir) (c : Catalog) (e : Eff) :
  store_sim p c -> pg_databases p !! id = None -> name_index c !! (t, n) = Some other ->
  run_meta (S := PgDir) (MCreate t id node (Some n)) p e = (Err name_violation, p, bump_call (bump_clock e)) /\
  run_meta (S := Catalog) (MCreate t id node (Some n)) c e = (Err (CellAlreadyExists n), c, e).
Proof using Hfault.
  intros [Hsim _] Hid Hn. simpl. unfold answer, pg_create_database, create_database, pg_now, read_clock, bind, gets, mret.
  rewrite pg_exec_run. unfold sql_insert_database. rewrite Hid. simpl.
  pose proof (sim_row_find _ _ id Hsim) as Hrow. rewrite Hid in Hrow. rewrite Hrow, Hn. split; [|done].
  assert (name_taken t n id (pg_databases p) = true) as ->; [|done]. apply (sim_name_taken _ c); [done|].
  exists other. split; [done|]. intros ->.
  destruct (name_has_record _ (sim_ok _ _ Hsim) _ _ _ Hn) as (r & Hr & _). by rewrite Hrow in Hr.
Qed.

(** A key saved by one tenant hides nothing from another: [PostgresStore]
    answers that the key is new, and the request goes ahead without a record of
    its own; [InMemoryStore] answers with the other tenant's payload. *)
Theorem pg_foreign_idempotency (k v v' : string) (t t' : TenantId) (at' : Z) (p : PgDir) (c : Catalog) (e : Eff) :
  store_sim p c -> pg_idempotency p !! k = Some (t', v', at') -> t' <> t ->
  (exists e', run_meta (S := PgDir) (MIdempotency k t v) p e = (Ok (RText None), p, e')) /\
  run_meta (S := Catalog) (MIdempotency k t v) c e = (Ok (RText (Some v')), c, e).
Proof using Hfault.
  intros [_ []] Hk Hne. simpl.
  unfold answer, pg_save_idempotency, save_idempotency, pg_now, read_clock, bind, gets, mret.
  rewrite pg_exec_run, sim_idempotency0, lookup_fmap, Hk. split; [|done].
  rewrite pg_query_run, Hk. rewrite decide_False by done. by eexists.
Qed.

End admissible.

(** ** Concrete directories *)

#[local] Existing Instance env_still.
#[local] Existing Instance decimal_uuid_text.

Lemma still_fault : forall n, fault n = None.
Proof. done. Qed.
Lemma still_clock : forall n, unix_time (clock n).
Proof. intros n. unfold unix_time, I64_MAX. simpl. lia. Qed.

Definition cell_7 : DatabaseId := mkDatabaseId 7.
Definition node_3 : NodeId := mkNodeId 3.
Definition create_7 : MetaOp := MCreate acme cell_7 None (Some "orders"%string).
Definition replica_7 : MetaOp := MReplica acme cell_7 (Some node_3).

(** A Cell, then with a replica, in both stores; and a saved key. *)
Definition pg_cell : PgDir := (run_meta create_7 PgDir_empty eff0).1.2.
Definition mem_cell : Catalog := (run_meta create_7 Catalog_empty eff0).1.2.
Definition pg_sample : PgDir := (run_meta replica_7 pg_cell eff0).1.2.
Definition mem_sample : Catalog := (run_meta replica_7 mem_cell eff0).1.2.
Definition save_key : MetaOp := MIdempotency "k" acme "first".
Definition pg_keyed : PgDir := (run_meta save_key PgDir_empty eff0).1.2.
Definition mem_keyed : Catalog := (run_meta save_key Catalog_empty eff0).1.2.

Lemma sim_after op p c e :
  store_sim p c -> admissible p e op ->
  store_sim (run_meta op p e).1.2 (run_meta op c (mem_eff op e)).1.2.
Proof.
  intros Hs Ha. pose proof (pg_request_refines still_fault still_clock op p c e Hs Ha) as Hag. unfold agrees in Hag.
  destruct (run_meta op p e) as [[r p'] e'], (run_meta op c (mem_eff op e)) as [[r' c'] e'']. apply Hag.
Qed.

Lemma create_7_admissible : admissible PgDir_empty eff0 create_7.
Proof. split; [|done]. intros row. simpl. by rewrite lookup_empty. Qed.

Lemma cell_sim : store_sim pg_cell mem_cell.
Proof. apply (sim_after create_7); [apply store_sim_empty|apply create_7_admissible]. Qed.

Lemma sample_sim : store_sim pg_sample mem_sample.
Proof. by apply (sim_after replica_7); [apply cell_sim|]. Qed.

Lemma keyed_sim : store_sim pg_keyed mem_keyed.
Proof. apply (sim_after save_key); [apply store_sim_empty|]. intros ???. simpl. by rewrite lookup_empty. Qed.

Lemma run_split {A B C} (x : A * B * C) : x = (x.1.1, x.1.2, x.2).
Proof. by destruct x as [[]]. Qed.

Lemma pg_refines_memory_witness :
  exists h' c, mem_history Catalog_empty h' c /\
    Forall2 same_step [(create_7, (run_meta create_7 PgDir_empty eff0).1.1)] h' /\ store_sim pg_cell c.
Proof.
  apply (pg_refines_memory still_fault still_clock eff0).
  eapply pg_request; [apply create_7_admissible|apply run_split|constructor].
Defined.

Lemma pg_replicas_unreadable_witness :
  (run_meta (MReplicasOf node_3) pg_sample eff0).1.1
  = Err (pg_internal "no column found for name: generation").
Proof.
  destruct (pg_replicas_unreadable still_fault node_3 cell_7
    (mkDbRow acme "created" 1000 None (Some node_3) 0 (Some "orders"%string)) pg_sample mem_sample eff0
    sample_sim) as [(e' & ->) _]; [vm_compute; reflexivity|reflexivity|reflexivity].
Defined.

Lemma pg_list_loses_names_witness :
  exists l e', run_meta MListAllById pg_sample eff0 = (Ok (RRecords l), pg_sample, e') /\
    forall rec, rec ∈ l -> db_name rec = default_name (db_id rec).
Proof. apply (pg_list_loses_names still_fault pg_sample mem_sample eff0 sample_sim). Defined.

Lemma pg_taken_name_internal_witness :
  (run_meta (MCreate acme (mkDatabaseId 8) None (Some "orders"%string)) pg_cell eff0).1.1 = Err name_violation.
Proof.
  destruct (pg_taken_name_internal still_fault acme (mkDatabaseId 8) cell_7 "orders" None pg_cell mem_cell eff0 cell_sim)
    as [-> _]; [vm_compute; reflexivity|vm_compute; reflexivity|reflexivity].
Defined.

Lemma pg_foreign_idempotency_witness :
  (run_meta (MIdempotency "k" globex "second") pg_keyed eff0).1.1 = Ok (RText None).
Proof.
  destruct (pg_foreign_idempotency still_fault "k" "second" "first" globex acme 1000 pg_keyed mem_keyed eff0 keyed_sim)
    as [(e' & ->) _]; [vm_compute; reflexivity|discriminate|reflexivity].
Defined.
