(* ===== verification/PostgresFaults.v ===== *)
(** What a fault of the database server does to a request on the PostgreSQL
    directory: statements are atomic, and a request changes the tables in at
    most one statement. *)

From Stdlib Require Import ZArith Lia String Ascii.
From stdpp Require Import gmap strings list fin_maps sorting.
From S2P Require Import Prelude Common Catalog CatalogSpec Postgres MetaStore PostgresSpec.

(** The same readings, and no faults. *)
Definition no_faults (env : Env) : Env :=
  {| clock := @clock env; instant := @instant env; fault _ := None; uuid_v4 := @uuid_v4 env |}.

(** ** Runs with and without faults *)

(** [m] under faults against [m0] without: the same run, or a database error
    with the tables as they were before or as they are after. *)
Definition fault_atomic {A} (m m0 : M PgDir CombeeError A) : Prop :=
  forall p e, let '(r, p1, e1) := m p e in let '(r0, p2, e2) := m0 p e in
  (r = r0 /\ p1 = p2 /\ e1 = e2) \/ ((exists msg, r = Err (pg_internal msg)) /\ (p1 = p \/ p1 = p2)).

Definition reads {A} (m : M PgDir CombeeError A) : Prop := forall p e, (m p e).1.2 = p.

Lemma fault_atomic_same {A} (m : M PgDir CombeeError A) : fault_atomic m m.
Proof. intros p e. destruct (m p e) as [[r p1] e1]. by left. Qed.

(** The first part reads, the rest may write. *)
Lemma fault_atomic_reads {A B} (m m0 : M PgDir CombeeError A) (k k0 : A -> M PgDir CombeeError B) :
  reads m -> reads m0 -> fault_atomic m m0 -> (forall a, fault_atomic (k a) (k0 a)) ->
  fault_atomic (bind m k) (bind m0 k0).
Proof.
  intros Hr Hr0 Hm Hk p e. unfold bind. specialize (Hm p e). specialize (Hr p e). specialize (Hr0 p e).
  destruct (m p e) as [[r p1] e1], (m0 p e) as [[r0 p2] e2]. simpl in *. subst p1 p2.
  destruct Hm as [(<- & _ & <-)|[[msg ->] _]].
  - destruct r as [a|err]; [apply Hk|by left].
  - destruct r0 as [a|err]; [destruct (k0 a p e2) as [[? ?] ?]|]; right; (split; [by eexists|by left]).
Qed.

(** The first part may write, the rest reads. *)
Lemma fault_atomic_then {A B} (m m0 : M PgDir CombeeError A) (k k0 : A -> M PgDir CombeeError B) :
  (forall a, reads (k a)) -> (forall a, reads (k0 a)) -> fault_atomic m m0 ->
  (forall a, fault_atomic (k a) (k0 a)) -> fault_atomic (bind m k) (bind m0 k0).
Proof.
  intros Hr Hr0 Hm Hk p e. unfold bind. specialize (Hm p e).
  destruct (m p e) as [[r p1] e1], (m0 p e) as [[r0 p2] e2]. destruct Hm as [(<- & <- & <-)|[[msg ->] Hp]].
  - destruct r as [a|err]; [|by left]. specialize (Hk a p1 e1). specialize (Hr a p1 e1). specialize (Hr0 a p1 e1).
    destruct (k a p1 e1) as [[r1 p3] e3], (k0 a p1 e1) as [[r2 p4] e4]. simpl in *. subst p3 p4.
    destruct Hk as [Hk|[Hmsg _]]; [by left|]. right. split; [done|by right].
  - destruct r0 as [a|err].
    + specialize (Hr0 a p2 e2). destruct (k0 a p2 e2) as [[r2 p4] e4]. simpl in Hr0. subst p4.
      right. split; [by eexists|done].
    + right. split; [by eexists|done].
Qed.

Section faults.
Context {env : Env} `{UuidText}.

Lemma exec_atomic {A} (f : PgDir -> result string (A * PgDir)) :
  fault_atomic (pg_exec (env := env) f) (pg_exec (env := no_faults env) f).
Proof.
  intros p e. unfold pg_exec, bind, fallible. simpl.
  destruct (@fault env (e_call e)) as [msg|].
  { destruct (f p) as [[a p']|m]; right; (split; [by eexists|by left]). }
  destruct (f p) as [[a p']|m]; simpl; [|by left].
  destruct (@fault env (Datatypes.S (e_call e))) as [msg|]; [right; split; [by eexists|by right]|by left].
Qed.

Lemma query_atomic {A} (f : PgDir -> A) :
  fault_atomic (pg_query (env := env) f) (pg_query (env := no_faults env) f).
Proof.
  intros p e. unfold pg_query, bind, fallible, gets. simpl.
  destruct (@fault env (e_call e)) as [msg|]; [right; split; [by eexists|by left]|by left].
Qed.

End faults.

Lemma reads_query (env : Env) {A} (f : PgDir -> A) : reads (pg_query (env := env) f).
Proof. intros p e. unfold pg_query, bind, fallible, gets. by destruct (fault (e_call e)). Qed.

Lemma reads_ret {A} (a : A) : reads (mret a).
Proof. done. Qed.
Lemma reads_fail {A} err : reads (mfail (A := A) err).
Proof. done. Qed.
Lemma reads_lift {A} (r : Result A) : reads (mlift r).
Proof. done. Qed.
Lemma reads_now (env : Env) : reads (pg_now (env := env)).
Proof. done. Qed.
Lemma reads_uuid (env : Env) : reads (fresh_uuid (env := env)).
Proof. done. Qed.
Lemma reads_id (env : Env) : reads (DatabaseId_new (env := env)).
Proof. done. Qed.

Lemma reads_bind {A B} (m : M PgDir CombeeError A) (k : A -> M PgDir CombeeError B) :
  reads m -> (forall a, reads (k a)) -> reads (bind m k).
Proof.
  intros Hm Hk p e. unfold bind. specialize (Hm p e). destruct (m p e) as [[[a|err] p1] e1]; simpl in *; subst; [apply Hk|done].
Qed.

Lemma reads_attempt {A} (m : M PgDir CombeeError A) : reads m -> reads (attempt m).
Proof. intros Hm p e. unfold attempt. specialize (Hm p e). by destruct (m p e) as [[r p1] e1]. Qed.

Lemma reads_mmap {A B} (l : list A) (f : A -> M PgDir CombeeError B) :
  (forall a, reads (f a)) -> reads (mmap l f).
Proof.
  intros Hf. induction l as [|x l IH]; [apply reads_ret|]. apply reads_bind; [done|]. intros b.
  apply reads_bind; [done|]. intros bs. apply reads_ret.
Qed.

#[export] Hint Resolve reads_query reads_ret reads_fail reads_lift reads_now reads_uuid reads_id reads_attempt
  fault_atomic_same exec_atomic query_atomic : combee.

Ltac reads_step :=
  match goal with
  | |- reads (bind _ _) => apply reads_bind; [|intros ?]
  | |- reads (match ?x with _ => _ end) => destruct x
  | |- reads (mmap _ _) => apply reads_mmap; intros ?
  | |- reads (attempt _) => apply reads_attempt
  | |- reads _ => solve [auto with combee]
  end.

(** One step of a request: the statement that writes comes last, or only
    reads follow it. *)
Ltac atomic_step :=
  match goal with
  | |- fault_atomic (match ?x with _ => _ end) _ => destruct x
  | |- fault_atomic (bind _ _) (bind _ _) =>
      first [apply fault_atomic_reads; [solve [repeat reads_step]|solve [repeat reads_step]| |intros ?]
            |apply fault_atomic_then; [solve [intros; repeat reads_step]|solve [intros; repeat reads_step]| |intros ?]]
  | |- fault_atomic _ _ => solve [auto with combee]
  end.

Section requests.
Context {env : Env} `{UuidText}.

Lemma get_atomic t id : fault_atomic (pg_get_database (env := env) t id) (pg_get_database (env := no_faults env) t id).
Proof. unfold pg_get_database, one_record. repeat atomic_step. Qed.

Lemma get_reads (env' : Env) t id : reads (pg_get_database (env := env') t id).
Proof. unfold pg_get_database, one_record. repeat reads_step. Qed.

Lemma all_records_atomic l : fault_atomic (all_records l) (all_records l).
Proof. apply fault_atomic_same. Qed.

(** When there is no replica to promote the Cell is looked up for the error;
    that lookup may fail in its turn. *)
Lemma promote_tail_atomic t id (f : CombeeError) :
  let tail (env : Env) : M PgDir CombeeError DatabaseRecord :=
    let! existing := attempt (pg_get_database (env := env) t id) in
    match existing with Ok _ => mfail f | Err err => mfail err end in
  fault_atomic (tail env) (tail (no_faults env)).
Proof.
  intros tail p e. unfold tail, attempt, bind. pose proof (get_atomic t id p e) as Hg.
  pose proof (get_reads env t id p e) as H1. pose proof (get_reads (no_faults env) t id p e) as H2.
  destruct (pg_get_database (env := env) t id p e) as [[r p1] e1],
    (pg_get_database (env := no_faults env) t id p e) as [[r0 p2] e2]. simpl in *. subst p1 p2.
  destruct Hg as [(<- & _ & <-)|[[msg ->] _]].
  - destruct r; by left.
  - destruct r0; right; (split; [by eexists|by left]).
Qed.

End requests.

#[export] Hint Resolve get_atomic get_reads all_records_atomic : combee.

Ltac request_step :=
  match goal with
  | |- fault_atomic (bind (attempt _) _) _ => apply promote_tail_atomic
  | |- _ => atomic_step
  end.

Section atomicity.
Context {env : Env} `{UuidText}.

Lemma create_once t id node name p e :
  let p1 := (pg_create_database (env := env) t id node name p e).1.2 in
  p1 = p \/ exists now n, pg_databases p !! id = None /\ name_taken t n id (pg_databases p) = false /\
    (forall n', name = Some n' -> n' = n) /\
    p1 = upd_databases <[id := mkDbRow t (state_as_str Created) now node None 0 (Some n)]> p.
Proof.
  unfold pg_create_database, pg_now, pg_exec, read_clock, fallible, bind, mret, sql_insert_database. simpl.
  destruct (fault _); [by left|]. destruct (pg_databases p !! id) eqn:Hid; [destruct (fault _); by left|].
  destruct (name_taken _ _ _ _) eqn:Hn; [by left|]. simpl. right.
  eexists _, _. split; [done|]. split; [exact Hn|]. split; [by intros n' ->|].
  destruct (fault _); [done|]. apply get_reads.
Qed.

Lemma by_name_reads t n : reads (pg_get_database_by_name (env := env) t n).
Proof. unfold pg_get_database_by_name. repeat reads_step. Qed.

Lemma ensure_once t n node p e :
  let p1 := (run_meta (S := PgDir) (MEnsure t n node) p e).1.2 in
  p1 = p \/ exists id now, pg_databases p !! id = None /\ name_taken t n id (pg_databases p) = false /\
    p1 = upd_databases <[id := mkDbRow t (state_as_str Created) now node None 0 (Some n)]> p.
Proof.
  simpl. unfold answer, pg_ensure_database_by_name, attempt, bind.
  pose proof (by_name_reads t n p e) as Hr. destruct (pg_get_database_by_name t n p e) as [[r p1] e1].
  simpl in Hr. subst p1. destruct r as [rec|err]; [by left|]. simpl.
  pose proof (create_once t (mkDatabaseId (uuid_v4 (e_uuid e1))) node (Some n) p (bump_uuid e1)) as Hc.
  destruct (pg_create_database _ _ _ _ p (bump_uuid e1)) as [[r p1] e2]. simpl in Hc.
  assert (p1 = p \/ exists id now, pg_databases p !! id = None /\ name_taken t n id (pg_databases p) = false /\
    p1 = upd_databases <[id := mkDbRow t (state_as_str Created) now node None 0 (Some n)]> p) as Hp1.
  { destruct Hc as [->|(now & n' & H1 & H2 & H3 & ->)]; [by left|]. rewrite <- (H3 n eq_refl) in *. right. eauto. }
  destruct r as [rec|[]]; simpl; try exact Hp1.
  pose proof (by_name_reads t n p1 e2) as Hr. destruct (pg_get_database_by_name t n p1 e2) as [[[] p2] e3];
    simpl in *; subst p2; exact Hp1.
Qed.

Definition is_ensure (op : MetaOp) : bool := match op with MEnsure _ _ _ => true | _ => false end.

Lemma requests_atomic op :
  is_ensure op = false ->
  fault_atomic (@run_meta PgDir (@postgres_store env _) op) (@run_meta PgDir (@postgres_store (no_faults env) _) op).
Proof.
  destruct op; intros Hop; try discriminate Hop; simpl;
    unfold answer, pg_create_database, pg_get_database_by_name, pg_rename_database, pg_reset_database,
      pg_get_database_by_id, pg_list_databases, pg_list_databases_all, pg_delete_database,
      pg_set_database_state, pg_set_replica_node, pg_list_replicas_of, pg_promote_replica, pg_migrate_database,
      pg_list_all_databases, pg_create_tenant, pg_list_tenants, pg_create_api_key, pg_lookup_api_key_by_hash,
      pg_list_api_keys, pg_revoke_api_key, pg_upsert_data_node, pg_heartbeat_data_node, pg_unregister_data_node,
      pg_list_data_nodes, pg_try_acquire_lease, pg_get_config, pg_set_config, pg_save_idempotency,
      pg_create_waitlist_entry, pg_list_waitlist, updated, one_record; repeat request_step.
Qed.

(** C27: a fault of the database server never leaves a request half done:
    whatever statements fail, a request other than [ensure_database_by_name]
    either runs as it would without faults, or ends in a database error with
    all tables as they were before the request or as the whole request would
    have left them; [ensure_database_by_name], which goes on to create the Cell
    when the lookup fails, changes nothing or adds one Cell with a name that
    was free. *)
Theorem pg_request_atomic (op : MetaOp) (p : PgDir) (e : Eff) :
  let '(r, p1, e1) := @run_meta PgDir (@postgres_store env _) op p e in
  let '(r0, p2, e2) := @run_meta PgDir (@postgres_store (no_faults env) _) op p e in
  match op with
  | MEnsure t n node =>
      p1 = p \/ exists id now, pg_databases p !! id = None /\ name_taken t n id (pg_databases p) = false /\
        p1 = upd_databases <[id := mkDbRow t (state_as_str Created) now node None 0 (Some n)]> p
  | _ => (r = r0 /\ p1 = p2 /\ e1 = e2) \/
      ((exists msg, r = Err (pg_internal msg)) /\ (p1 = p \/ p1 = p2))
  end.
Proof.
  destruct (is_ensure op) eqn:Hop.
  - destruct op; try discriminate Hop. pose proof (ensure_once tenant name node p e) as Hens.
    destruct (@run_meta PgDir (@postgres_store env _) _ p e) as [[r p1] e1].
    by destruct (@run_meta PgDir (@postgres_store (no_faults env) _) _ p e) as [[r0 p2] e2].
  - pose proof (requests_atomic op Hop p e) as Hat.
    destruct (@run_meta PgDir (@postgres_store env _) op p e) as [[r p1] e1],
      (@run_meta PgDir (@postgres_store (no_faults env) _) op p e) as [[r0 p2] e2].
    by destruct op.
Qed.

End atomicity.
