(* ===== verification/PgBooks.v ===== *)
(** crates/metadata/src/postgres.rs: the accounting half of [PostgresStore]:
    usage buckets, prices, accounts, the ledger and vouchers, with the
    statements that run in a transaction. *)

From Stdlib Require Import ZArith Lia String Ascii.
From stdpp Require Import gmap strings list fin_maps sorting.
From S2P Require Import Prelude Common Kv Catalog Ledger Postgres.

(** ** credit.rs: the text columns *)

Definition txn_type_as_str (t : CreditTransactionType) : string :=
  match t with
  | Recharge => "recharge" | Usage => "usage" | Grant => "grant" | Voucher => "voucher"
  | Refund => "refund" | Adjustment => "adjustment"
  end%string.

Definition txn_type_parse (s : string) : option CreditTransactionType :=
  if decide (s = "recharge"%string) then Some Recharge
  else if decide (s = "usage"%string) then Some Usage
  else if decide (s = "grant"%string) then Some Grant
  else if decide (s = "voucher"%string) then Some Voucher
  else if decide (s = "refund"%string) then Some Refund
  else if decide (s = "adjustment"%string) then Some Adjustment
  else None.

Definition voucher_as_str (s : VoucherStatus) : string :=
  match s with
  | VoucherActive => "active" | VoucherUsed => "used" | VoucherExpired => "expired" | VoucherRevoked => "revoked"
  end%string.

Definition voucher_parse (s : string) : option VoucherStatus :=
  if decide (s = "active"%string) then Some VoucherActive
  else if decide (s = "used"%string) then Some VoucherUsed
  else if decide (s = "expired"%string) then Some VoucherExpired
  else if decide (s = "revoked"%string) then Some VoucherRevoked
  else None.

Definition pricing_as_str (s : PricingStatus) : string :=
  match s with PricingActive => "active" | PricingInactive => "inactive" end%string.

(** ** Tables *)

Record TxnRow := mkTxnRow {
  tr_tenant : TenantId;
  tr_type : string;
  tr_amount : Z;
  tr_pricing : option Z;
  tr_reference : option string;
  tr_description : option string;
  tr_created_at : Z;
  tr_balance_after : option Z;
}.

Record VoucherRow := mkVoucherRow {
  vr_hash : string;
  vr_amount : Z;
  vr_status : string;
  vr_campaign : option string;
  vr_created_at : Z;
  vr_expires_at : option Z;
  vr_redeemed_by : option TenantId;
  vr_redeemed_at : option Z;
}.

(** [usage_buckets] by (tenant, cell, metric, bucket), [pricing_versions] by
    version (status, effective_at, created_at), [pricing_rules] by (version,
    metric), [credit_accounts] by tenant, the others by id. *)
Record PgBooks := mkPgBooks {
  pb_usage : gmap (TenantId * N * string * Z) Z;
  pb_versions : gmap Z (string * Z * Z);
  pb_rules : gmap (Z * string) (Z * Z);
  pb_accounts : gmap TenantId (Z * Z * Z);
  pb_txns : gmap N TxnRow;
  pb_vouchers : gmap N VoucherRow;
}.

Definition PgBooks_empty : PgBooks := mkPgBooks ∅ ∅ ∅ ∅ ∅ ∅.

Definition upd_usage f (b : PgBooks) : PgBooks :=
  mkPgBooks (f (pb_usage b)) (pb_versions b) (pb_rules b) (pb_accounts b) (pb_txns b) (pb_vouchers b).
Definition upd_versions f (b : PgBooks) : PgBooks :=
  mkPgBooks (pb_usage b) (f (pb_versions b)) (pb_rules b) (pb_accounts b) (pb_txns b) (pb_vouchers b).
Definition upd_rules f (b : PgBooks) : PgBooks :=
  mkPgBooks (pb_usage b) (pb_versions b) (f (pb_rules b)) (pb_accounts b) (pb_txns b) (pb_vouchers b).
Definition upd_accounts f (b : PgBooks) : PgBooks :=
  mkPgBooks (pb_usage b) (pb_versions b) (pb_rules b) (f (pb_accounts b)) (pb_txns b) (pb_vouchers b).
Definition upd_txns f (b : PgBooks) : PgBooks :=
  mkPgBooks (pb_usage b) (pb_versions b) (pb_rules b) (pb_accounts b) (f (pb_txns b)) (pb_vouchers b).
Definition upd_vouchers f (b : PgBooks) : PgBooks :=
  mkPgBooks (pb_usage b) (pb_versions b) (pb_rules b) (pb_accounts b) (pb_txns b) (f (pb_vouchers b)).

(** ** Transactions *)

(** How the body of a transaction ends when no [?] leaves it. *)
Inductive TxEnd (A : Type) := TxCommit (a : A) | TxRollback (a : A).
Arguments TxCommit {A} a.
Arguments TxRollback {A} a.

Section transactions.
Context {env : Env} {S : Type}.

(** A statement inside a transaction. *)
Definition tx_exec {A} (stmt : S -> result string (A * S)) : M S CombeeError A :=
  do! fallible pg_internal in
  fun s e =>
    match stmt s with
    | Ok (a, s') => (Ok a, s', e)
    | Err msg => (Err (pg_internal msg), s, e)
    end.

(** [begin], the body, [commit] or [rollback]. A body that is left early drops
    the transaction. A commit that reports a fault may have happened. *)
Definition transaction {A} (body : M S CombeeError (TxEnd A)) : M S CombeeError A :=
  do! fallible pg_internal in
  fun s e =>
    match body s e with
    | (Err err, _, e1) => (Err err, s, e1)
    | (Ok (TxRollback a), _, e1) => (do! fallible pg_internal in mret a) s e1
    | (Ok (TxCommit a), s1, e1) =>
        match fallible pg_internal s e1 with
        | (Err err, _, e2) => (Err err, s, e2)
        | (Ok _, _, e2) => (do! fallible pg_internal in mret a) s1 e2
        end
    end.

End transactions.

Section books.
Context {env : Env} `{UuidText}.
Variable sha256 : string -> string.

Abbreviation PbM := (M PgBooks CombeeError).

Definition pb_now : PbM Z := let! now := read_clock in mret (wrap_i64 now).

(** ** Usage *)

(** [key.cell_id.map(|c| c.0).unwrap_or_else(Uuid::nil)] *)
Definition cell_column (cell : option DatabaseId) : N :=
  match cell with Some c => database_uuid c | None => 0%N end.

Definition usage_row_key (key : UsageKey) : TenantId * N * string * Z :=
  (uk_tenant key, cell_column (uk_cell key), metric_as_str (uk_metric key), uk_bucket key).

Definition pg_usage_add (key : UsageKey) (delta : Z) : PbM unit :=
  pg_exec (fun b =>
    match pb_usage b !! usage_row_key key with
    | None => Ok (tt, upd_usage <[usage_row_key key := wrap_i64 delta]> b)
    | Some v =>
        match bigint_add v (wrap_i64 delta) with
        | Ok v' => Ok (tt, upd_usage <[usage_row_key key := v']> b)
        | Err msg => Err msg
        end
    end).

Definition pg_usage_set (key : UsageKey) (value : Z) : PbM unit :=
  pg_exec (fun b => Ok (tt, upd_usage <[usage_row_key key := wrap_i64 value]> b)).

Definition usage_row_selected (tenant : TenantId) (cell : option DatabaseId) (metric : option UsageMetric)
    (from_bucket to_bucket : Z) (k : TenantId * N * string * Z) : bool :=
  let '(t, c, m, bucket) := k in
  bool_decide (t = tenant) && (from_bucket <=? bucket) && (bucket <=? to_bucket) &&
  match cell with Some x => bool_decide (c = database_uuid x) | None => true end &&
  match metric with Some x => bool_decide (m = metric_as_str x) | None => true end.

(** The column is never NULL: a tenant's own bucket comes back with the nil
    uuid as its Cell. *)
Definition usage_row_out (kv : (TenantId * N * string * Z) * Z) : Result UsageBucket :=
  let '((t, c, m, bucket), v) := kv in
  match metric_parse m with
  | None => Err (Internal "unknown usage metric")
  | Some metric => Ok (mkUsageBucket t (Some (mkDatabaseId c)) metric bucket (wrap_u64 v))
  end.

Definition pg_query_usage (tenant : TenantId) (cell : option DatabaseId) (metric : option UsageMetric)
    (from_bucket to_bucket : Z) : PbM (list UsageBucket) :=
  let! rows := pg_query (fun b => filter (fun kv =>
    usage_row_selected tenant cell metric from_bucket to_bucket kv.1 = true) (map_to_list (pb_usage b))) in
  mmap rows (fun kv => mlift (usage_row_out kv)).

(** ** Pricing *)

Definition max_row_version (t : gmap Z (string * Z * Z)) : Z :=
  match (map_to_list t).*1 with [] => 0 | v :: vs => foldr Z.max v vs end.

Definition sql_next_version (b : PgBooks) : result string (Z * PgBooks) :=
  match bigint_add (max_row_version (pb_versions b)) 1 with
  | Ok v => Ok (v, b)
  | Err msg => Err msg
  end.

Definition sql_deactivate (b : PgBooks) : result string (unit * PgBooks) :=
  Ok (tt, upd_versions (fun t => (fun r : string * Z * Z =>
    if decide (r.1.1 = "active"%string) then ("inactive"%string, r.1.2, r.2) else r) <$> t) b).

Definition sql_insert_version (version now : Z) (b : PgBooks) : result string (unit * PgBooks) :=
  match pb_versions b !! version with
  | Some _ => Err (unique_violation "pricing_versions_pkey")
  | None => Ok (tt, upd_versions <[version := ("active"%string, now, now)]> b)
  end.

Definition sql_insert_rule (version : Z) (r : PricingRule) (b : PgBooks) : result string (unit * PgBooks) :=
  match pb_rules b !! (version, metric_as_str (pr_metric r)) with
  | Some _ => Err (unique_violation "pricing_rules_pkey")
  | None => Ok (tt, upd_rules <[(version, metric_as_str (pr_metric r)) := (pr_unit_size r, pr_price_units r)]> b)
  end.

Definition pg_create_pricing_version (rules : list PricingRule) : PbM PricingVersion :=
  let! now := pb_now in
  transaction (
    let! version := tx_exec sql_next_version in
    do! tx_exec sql_deactivate in
    do! tx_exec (sql_insert_version version now) in
    do! mfor rules (fun r => tx_exec (sql_insert_rule version r)) in
    mret (TxCommit (mkPricingVersion version PricingActive now now))).

Definition rule_row_out (version : Z) (kv : (Z * string) * (Z * Z)) : Result PricingRule :=
  match metric_parse kv.1.2 with
  | None => Err (Internal "unknown metric")
  | Some metric => Ok (mkPricingRule version metric kv.2.1 kv.2.2)
  end.

Definition pg_get_active_pricing : PbM (PricingVersion * list PricingRule) :=
  let! row := pg_query (fun b => List.find (fun kv : Z * (string * Z * Z) =>
    bool_decide (kv.2.1.1 = "active"%string)) (map_to_list (pb_versions b))) in
  match row with
  | None => mret (mkPricingVersion 0 PricingActive 0 0, [])
  | Some (version, (_, effective_at, created_at)) =>
      let! rows := pg_query (fun b => filter (fun kv => kv.1.1 = version) (map_to_list (pb_rules b))) in
      let! rules := mmap rows (fun kv => mlift (rule_row_out version kv)) in
      mret (mkPricingVersion version PricingActive effective_at created_at, rules)
  end.

Definition version_row_out (kv : Z * (string * Z * Z)) : PricingVersion :=
  mkPricingVersion kv.1 (if decide (kv.2.1.1 = "active"%string) then PricingActive else PricingInactive)
    kv.2.1.2 kv.2.2.

Definition pg_list_pricing_versions : PbM (list PricingVersion) :=
  pg_query (fun b => version_row_out <$> sort_by_key (fun kv => (kv.1, 0)) (map_to_list (pb_versions b))).

(** ** Credits *)

Definition account_out (tenant : TenantId) (r : Z * Z * Z) : CreditAccount :=
  mkAccount tenant r.1.1 r.1.2 r.2.

(** The insert has no [ON CONFLICT]. *)
Definition sql_insert_account (tenant : TenantId) (now : Z) (b : PgBooks) : result string (unit * PgBooks) :=
  match pb_accounts b !! tenant with
  | Some _ => Err (unique_violation "credit_accounts_pkey")
  | None => Ok (tt, upd_accounts <[tenant := (0, 0, now)]> b)
  end.

Definition pg_get_credit_account (tenant : TenantId) : PbM CreditAccount :=
  let! row := pg_query (fun b => pb_accounts b !! tenant) in
  match row with
  | Some r => mret (account_out tenant r)
  | None =>
      let! now := pb_now in
      do! pg_exec (sql_insert_account tenant now) in
      mret (mkAccount tenant 0 0 now)
  end.

Definition row_to_txn (kv : N * TxnRow) : Result CreditTransaction :=
  match txn_type_parse (tr_type kv.2) with
  | None => Err (Internal "bad txn type")
  | Some t => Ok (mkTxn kv.1 (tr_tenant kv.2) t (tr_amount kv.2) (tr_pricing kv.2) (tr_reference kv.2)
                    (tr_description kv.2) (tr_created_at kv.2) (tr_balance_after kv.2))
  end.

Definition txn_row_key (kv : N * TxnRow) : Z * Z := (- tr_created_at kv.2, - Z.of_N kv.1).

Definition pg_list_credit_transactions (tenant : TenantId) (limit : Z) (before : option N)
    : PbM (list CreditTransaction) :=
  let! rows := pg_query (fun b => take (clamp_page limit) (sort_by_key txn_row_key
    (filter (fun kv => bool_decide (tr_tenant kv.2 = tenant) && from_option (fun x => (kv.1 <? x)%N) true before = true)
      (map_to_list (pb_txns b))))) in
  mmap rows (fun kv => mlift (row_to_txn kv)).

Definition sql_find_reference (reference : string) (b : PgBooks) : option (N * TxnRow) :=
  List.find (fun kv : N * TxnRow => bool_decide (tr_reference kv.2 = Some reference)) (map_to_list (pb_txns b)).

Definition pg_find_transaction_by_reference (reference : string) : PbM (option CreditTransaction) :=
  let! row := pg_query (sql_find_reference reference) in
  match row with
  | Some kv => let! t := mlift (row_to_txn kv) in mret (Some t)
  | None => mret None
  end.

Definition reference_taken (reference : option string) (b : PgBooks) : bool :=
  match reference with
  | Some r => match sql_find_reference r b with Some _ => true | None => false end
  | None => false
  end.

(** [INSERT INTO credit_transactions ..], with or without [ON CONFLICT
    (reference_id) DO NOTHING]. *)
Definition sql_insert_txn (on_conflict : bool) (id : N) (row : TxnRow) (b : PgBooks)
    : result string (bool * PgBooks) :=
  if reference_taken (tr_reference row) b then
    if on_conflict then Ok (false, b) else Err (unique_violation "credit_transactions_reference_id_key")
  else
    match pb_txns b !! id with
    | Some _ => Err (unique_violation "credit_transactions_pkey")
    | None => Ok (true, upd_txns <[id := row]> b)
    end.

(** [INSERT .. ON CONFLICT (tenant_id) DO UPDATE .. RETURNING balance_units] *)
Definition sql_upsert_balance (tenant : TenantId) (amount now : Z) (b : PgBooks) : result string (Z * PgBooks) :=
  match pb_accounts b !! tenant with
  | None => Ok (amount, upd_accounts <[tenant := (amount, 0, now)]> b)
  | Some (balance, reserved, _) =>
      match bigint_add balance amount with
      | Ok balance' => Ok (balance', upd_accounts <[tenant := (balance', reserved, now)]> b)
      | Err msg => Err msg
      end
  end.

(** The row of an entry; [balance_after] is NULL. *)
Definition txn_row (txn : CreditTransaction) : TxnRow :=
  mkTxnRow (txn_tenant txn) (txn_type_as_str (txn_type txn)) (amount_units txn) (pricing_version txn)
    (reference_id txn) (description txn) (txn_created_at txn) None.

Definition pg_append_credit_transaction (txn : CreditTransaction) : PbM CreditTransaction :=
  let! existing :=
    match reference_id txn with
    | Some r => pg_find_transaction_by_reference r
    | None => mret None
    end in
  match existing with
  | Some t => mret t
  | None =>
      let! outcome := transaction (
        let! inserted := tx_exec (sql_insert_txn true (txn_id txn) (txn_row txn)) in
        if (inserted : bool) then
          let! balance := tx_exec (sql_upsert_balance (txn_tenant txn) (amount_units txn) (txn_created_at txn)) in
          mret (TxCommit (Some balance))
        else mret (TxRollback None)) in
      match outcome with
      | Some balance =>
          mret (mkTxn (txn_id txn) (txn_tenant txn) (txn_type txn) (amount_units txn) (pricing_version txn)
                  (reference_id txn) (description txn) (txn_created_at txn) (Some balance))
      | None =>
          let! again := pg_find_transaction_by_reference (default EmptyString (reference_id txn)) in
          match again with
          | Some t => mret t
          | None => mfail (Internal "credit transaction conflict but not found")
          end
      end
  end.

(** ** Vouchers *)

Definition sql_insert_voucher (id : N) (row : VoucherRow) (b : PgBooks) : result string (unit * PgBooks) :=
  if existsb (fun kv : N * VoucherRow => bool_decide (vr_hash kv.2 = vr_hash row)) (map_to_list (pb_vouchers b))
  then Err (unique_violation "credit_vouchers_code_hash_key")
  else match pb_vouchers b !! id with
       | Some _ => Err (unique_violation "credit_vouchers_pkey")
       | None => Ok (tt, upd_vouchers <[id := row]> b)
       end.

Definition pg_create_vouchers (amount : Z) (count : nat) (campaign : option string) (expires_at : option Z)
    : PbM (list (string * CreditVoucher)) :=
  let! now := pb_now in
  mmap (replicate count tt) (fun _ =>
    let! code := generate_voucher_code in
    let code_hash := hash_voucher_code sha256 code in
    let! id := fresh_uuid in
    do! pg_exec (sql_insert_voucher id
          (mkVoucherRow code_hash amount "active" campaign now expires_at None None)) in
    mret (code, mkVoucher id code_hash amount VoucherActive campaign now expires_at None None)).

(** [UPDATE credit_vouchers SET status = 'used', .. WHERE .. RETURNING ..] *)
Definition redeemable (code_hash : string) (now : Z) (kv : N * VoucherRow) : bool :=
  bool_decide (vr_hash kv.2 = code_hash) && bool_decide (vr_status kv.2 = "active"%string) &&
  match vr_expires_at kv.2 with Some x => now <? x | None => true end.

Definition used_row (tenant : TenantId) (now : Z) (r : VoucherRow) : VoucherRow :=
  mkVoucherRow (vr_hash r) (vr_amount r) "used" (vr_campaign r) (vr_created_at r) (vr_expires_at r)
    (Some tenant) (Some now).

Definition sql_use_voucher (code_hash : string) (tenant : TenantId) (now : Z) (b : PgBooks)
    : result string (option Z * PgBooks) :=
  match List.find (redeemable code_hash now) (map_to_list (pb_vouchers b)) with
  | None => Ok (None, b)
  | Some (id, r) => Ok (Some (vr_amount r), upd_vouchers <[id := used_row tenant now r]> b)
  end.

Definition redemption_row (code_hash : string) (tenant : TenantId) (amount now : Z) : TxnRow :=
  mkTxnRow tenant "voucher" amount None (Some (voucher_reference code_hash)) (Some "voucher redemption"%string)
    now None.

Definition pg_redeem_voucher (code_hash : string) (tenant : TenantId) (now : Z) : PbM Z :=
  transaction (
    let! row := tx_exec (sql_use_voucher code_hash tenant now) in
    match row with
    | None => mfail (InvalidRequest "voucher invalid, expired or already used")
    | Some amount =>
        let! id := fresh_uuid in
        do! tx_exec (sql_insert_txn false id (redemption_row code_hash tenant amount now)) in
        do! tx_exec (sql_upsert_balance tenant amount now) in
        mret (TxCommit amount)
    end).

Definition voucher_row_out (kv : N * VoucherRow) : Result CreditVoucher :=
  match voucher_parse (vr_status kv.2) with
  | None => Err (Internal "bad voucher status")
  | Some s => Ok (mkVoucher kv.1 (vr_hash kv.2) (vr_amount kv.2) s (vr_campaign kv.2) (vr_created_at kv.2)
                    (vr_expires_at kv.2) (vr_redeemed_by kv.2) (vr_redeemed_at kv.2))
  end.

(** The newest first. *)
Definition pg_list_vouchers (limit : Z) : PbM (list CreditVoucher) :=
  let! rows := pg_query (fun b => take (clamp_page limit)
    (sort_by_key (fun kv => (- vr_created_at kv.2, 0)) (map_to_list (pb_vouchers b)))) in
  mmap rows (fun kv => mlift (voucher_row_out kv)).

End books.
