(* ===== verification/PgBooksSpec.v ===== *)
(** The PostgreSQL books, one call at a time: publishing prices is all or
    nothing, and where the store differs from [Ledger]. *)

From Stdlib Require Import ZArith Lia String Ascii.
From stdpp Require Import gmap strings list fin_maps sorting.
From S2P Require Import Prelude Common Kv Catalog Ledger Postgres PgBooks.

Section books_spec.
Context {env : Env}.

(** ** Transactions *)

Lemma tx_exec_ok {A S} (f : S -> result string (A * S)) s e a s1 e1 :
  tx_exec f s e = (Ok a, s1, e1) -> f s = Ok (a, s1).
Proof.
  unfold tx_exec, bind, fallible. destruct (fault (e_call e)); [done|]. destruct (f s) as [[a' s']|]; [|done].
  by intros [= -> -> _].
Qed.

(** A transaction that commits when its body is not left leaves the state
    alone, or as its body left it. *)
Lemma tx_all_or_nothing {A S} (body : M S CombeeError (TxEnd A)) s e :
  (forall s e a s1 e1, body s e <> (Ok (TxRollback a), s1, e1)) ->
  let '(r, s1, _) := transaction body s e in
  (exists err, r = Err err /\ s1 = s) \/
  (exists e0 a e1, body s e0 = (Ok (TxCommit a), s1, e1) /\ (r = Ok a \/ exists err, r = Err err)).
Proof.
  intros Hno. unfold transaction, bind at 1, fallible at 1. destruct (fault (e_call e)); [left; by eexists|].
  destruct (body s (bump_call e)) as [[[[a|a]|err] s1] e1] eqn:Hb.
  - unfold fallible at 1. destruct (fault (e_call e1)); [left; by eexists|]. unfold bind, fallible.
    destruct (fault _); right; eexists _, _, _; (split; [exact Hb|]); [right; by eexists|by left].
  - by destruct (Hno _ _ _ _ _ Hb).
  - left. by eexists.
Qed.

(** ** Prices *)

Definition published (version : Z) (rules : list PricingRule) (m : gmap (Z * string) (Z * Z)) : gmap (Z * string) (Z * Z) :=
  foldl (fun m r => <[(version, metric_as_str (pr_metric r)) := (pr_unit_size r, pr_price_units r)]> m) m rules.

Lemma insert_rules_ok version rules b e b1 e1 u :
  mfor rules (fun r => tx_exec (sql_insert_rule version r)) b e = (Ok u, b1, e1) ->
  b1 = upd_rules (published version rules) b /\
  NoDup ((fun r => metric_as_str (pr_metric r)) <$> rules) /\
  forall r, r ∈ rules -> pb_rules b !! (version, metric_as_str (pr_metric r)) = None.
Proof.
  revert b e. induction rules as [|r rules IH]; intros b e; simpl.
  - intros [= <- <- <-]. split; [by destruct b|]. split; [constructor|]. intros r Hr. by apply not_elem_of_nil in Hr.
  - unfold bind. destruct (tx_exec (sql_insert_rule version r) b e) as [[[[]|err] b2] e2] eqn:Hx; [|done].
    apply tx_exec_ok in Hx. unfold sql_insert_rule in Hx.
    destruct (pb_rules b !! (version, metric_as_str (pr_metric r))) eqn:Hr; [done|]. injection Hx as <-.
    intros Hrun. apply IH in Hrun as (-> & Hnd & Hfree). simpl in Hfree. split; [done|]. split.
    + constructor; [|done]. intros (r' & Hm & Hin)%list_elem_of_fmap. specialize (Hfree r' Hin).
      rewrite <- Hm, lookup_insert_eq in Hfree. done.
    + intros r' [->|Hin]%elem_of_cons; [done|]. specialize (Hfree r' Hin).
      destruct (decide (metric_as_str (pr_metric r) = metric_as_str (pr_metric r'))) as [<-|Hne]; [done|].
      rewrite lookup_insert_ne in Hfree by congruence. done.
Qed.

Lemma max_row_version_le t v : is_Some (t !! v) -> v <= max_row_version t.
Proof.
  intros [row Hrow]. unfold max_row_version.
  assert (v ∈ (map_to_list t).*1) as Hin.
  { apply list_elem_of_fmap. exists (v, row). split; [done|]. by apply elem_of_map_to_list. }
  destruct ((map_to_list t).*1) as [|w l]; [by apply not_elem_of_nil in Hin|].
  assert (forall l, w <= foldr Z.max w l /\ forall x, x ∈ l -> x <= foldr Z.max w l) as Hmax.
  { induction l0 as [|y l0 [IH1 IH2]]; simpl; [split; [lia|intros x Hx; by apply not_elem_of_nil in Hx]|].
    split; [lia|]. intros x [->|Hx]%elem_of_cons; [lia|]. specialize (IH2 x Hx). lia. }
  destruct (Hmax l) as [H1 H2]. apply elem_of_cons in Hin as [->|Hin]; [done|by apply H2].
Qed.

(** Publishing prices is all or nothing: under any pattern of faults
    [create_pricing_version] either leaves every table as it was, or leaves
    exactly one active version, the new one, numbered after all others, with
    exactly the given rules and every older rule untouched; when it succeeds,
    it has done the latter and returns that version. *)
Theorem pg_pricing_atomic (rules : list PricingRule) (b : PgBooks) (e : Eff) :
  let '(r, b1, _) := pg_create_pricing_version rules b e in
  ((exists err, r = Err err) /\ b1 = b) \/
  exists version now,
    (forall v, is_Some (pb_versions b !! v) -> v < version) /\
    pb_versions b1 !! version = Some ("active"%string, now, now) /\
    (forall v row, pb_versions b1 !! v = Some row -> row.1.1 = "active"%string -> v = version) /\
    pb_rules b1 = published version rules (pb_rules b) /\
    NoDup ((fun r => metric_as_str (pr_metric r)) <$> rules) /\
    pb_accounts b1 = pb_accounts b /\ pb_txns b1 = pb_txns b /\
    ((exists err, r = Err err) \/ r = Ok (mkPricingVersion version PricingActive now now)).
Proof.
  unfold pg_create_pricing_version, bind at 1, pb_now, bind at 1, read_clock, mret at 1.
  set (now := wrap_i64 _). set (body := bind (tx_exec sql_next_version) _).
  pose proof (tx_all_or_nothing body b (bump_clock e)) as Hat.
  destruct (transaction body b (bump_clock e)) as [[r b1] e1]. destruct Hat as [(err & -> & ->)|(e0 & a & e2 & Hb & Hr)].
  - intros s e' a s1 e2. unfold body, bind.
    destruct (tx_exec sql_next_version s e') as [[[v|] s2] e3]; [|done].
    destruct (tx_exec sql_deactivate s2 e3) as [[[u|] s3] e4]; [|done].
    destruct (tx_exec (sql_insert_version v now) s3 e4) as [[[u'|] s4] e5]; [|done].
    by destruct (mfor rules _ s4 e5) as [[[u''|] s5] e6].
  - left. split; [by eexists|done].
  - right. unfold body, bind in Hb.
    destruct (tx_exec sql_next_version b e0) as [[[v|] s2] e3] eqn:H1; [|done].
    destruct (tx_exec sql_deactivate s2 e3) as [[[u|] s3] e4] eqn:H2; [|done].
    destruct (tx_exec (sql_insert_version v now) s3 e4) as [[[u'|] s4] e5] eqn:H3; [|done].
    destruct (mfor rules _ s4 e5) as [[[u''|] s5] e6] eqn:H4; [|done].
    unfold mret in Hb. injection Hb as <- <- _.
    apply tx_exec_ok in H1, H2, H3. apply insert_rules_ok in H4 as (-> & Hnd & _).
    unfold sql_next_version in H1. destruct (bigint_add _ 1) as [v'|] eqn:Hv; [|done]. injection H1 as <- <-.
    unfold sql_deactivate in H2. injection H2 as _ <-.
    unfold sql_insert_version in H3. destruct (pb_versions _ !! v') eqn:Hnew; [done|]. injection H3 as _ <-. simpl in *.
    unfold bigint_add in Hv. destruct (i64_checked_add _ 1) as [w|] eqn:Hadd; [|done].
    injection Hv as <-. apply i64_checked_add_Some in Hadd as [Hw _].
    exists w, now. split; [intros v Hs; apply max_row_version_le in Hs; lia|].
    split; [by rewrite lookup_insert_eq|]. split; [|by repeat split; destruct Hr as [->|[err ->]]; eauto].
    intros v row [[<- _]|[_ Hv]]%lookup_insert_Some Hact; [done|]. rewrite lookup_fmap in Hv.
    apply fmap_Some in Hv as (old & _ & ->). by destruct (decide (old.1.1 = "active"%string)).
Qed.

(** ** Where the stores differ *)

(** A voucher at the second of its expiry: [PostgresStore] refuses it, and
    leaves the books as they were; [InMemoryStore] still pays. *)
Theorem pg_voucher_expiry_boundary (h : string) (t : TenantId) (now : Z) (b : PgBooks) (l : Ledger) (e : Eff)
    (id : N) (v : CreditVoucher) :
  (forall i r, pb_vouchers b !! i = Some r -> vr_hash r = h -> vr_expires_at r = Some now) ->
  voucher_by_hash l !! h = Some id -> vouchers l !! id = Some v -> v_status v = VoucherActive ->
  v_expires_at v = Some now ->
  (exists err, (pg_redeem_voucher h t now b e).1 = (Err err, b)) /\
  (redeem_voucher h t now l e).1.1 = Ok (v_amount_units v).
Proof.
  intros Hpg Hid Hv Hst Hexp. split.
  - unfold pg_redeem_voucher, transaction, bind at 1, fallible at 1. destruct (fault (e_call e)); [by eexists|].
    unfold bind at 1, tx_exec at 1, bind at 1, fallible at 1. destruct (fault _); [by eexists|].
    unfold sql_use_voucher.
    destruct (List.find (redeemable h now) (map_to_list (pb_vouchers b))) as [[i r]|] eqn:Hf; [|by eexists].
    apply List.find_some in Hf as [Hin Hr]. apply list_elem_of_In, elem_of_map_to_list in Hin.
    unfold redeemable in Hr. simpl in Hr. apply andb_true_iff in Hr as [Hr Hx].
    apply andb_true_iff in Hr as [Hh%bool_decide_eq_true _]. rewrite (Hpg _ _ Hin Hh) in Hx. lia.
  - unfold redeem_voucher, bind, gets. rewrite Hid, Hv. rewrite decide_False by (rewrite Hst; auto).
    rewrite Hexp. simpl. rewrite Z.ltb_irrefl. unfold modify, credit, get_credit_account, bind, gets. simpl.
    by destruct (credit_accounts l !! t).
Qed.

(** The first read of an account creates it in a second statement, which
    fails when another call has created the account in between. *)
Theorem pg_account_race (t : TenantId) (b : PgBooks) (account : Z * Z * Z) (now : Z) (e : Eff) :
  pb_accounts b !! t = Some account ->
  exists err e', pg_exec (sql_insert_account t now) b e = (Err (pg_internal err), b, e').
Proof.
  intros Ha. unfold pg_exec, bind, fallible. destruct (fault (e_call e)); [by eexists _, _|].
  unfold sql_insert_account. rewrite Ha. by eexists _, _.
Qed.

(** What a tenant has used outside its Cells comes back as usage of a Cell,
    with the nil uuid: no bucket that is read has no Cell. *)
Theorem pg_usage_nil_cell (t : TenantId) (cell : option DatabaseId) (m : option UsageMetric) (from_bucket to_bucket : Z)
    (b b1 : PgBooks) (e e1 : Eff) (l : list UsageBucket) :
  pg_query_usage t cell m from_bucket to_bucket b e = (Ok l, b1, e1) ->
  forall x, x ∈ l -> exists c, ub_cell x = Some c.
Proof.
  unfold pg_query_usage, bind at 1, pg_query, bind at 1, fallible, gets. destruct (fault (e_call e)); [done|].
  set (rows := filter _ _). generalize (bump_call e). clearbody rows. revert l.
  induction rows as [|[[[[t' c] m'] bu] v] rows IH]; intros l e0; simpl.
  - intros [= <- _ _] x Hx. by apply not_elem_of_nil in Hx.
  - unfold bind, mlift at 1, mret. simpl. destruct (metric_parse m') as [met|]; [|done].
    destruct (mmap rows _ b e0) as [[[l'|] b2] e2] eqn:Hm; [|done]. intros [= <- <- <-].
    intros x [->|Hx]%elem_of_cons; [by eexists|]. by eapply IH.
Qed.

End books_spec.

(** ** Concrete books *)

Definition boundary_voucher : CreditVoucher :=
  mkVoucher 9 "h" 100 VoucherActive None 0 (Some 1000) None None.
Definition boundary_books : PgBooks :=
  upd_vouchers <[9%N := mkVoucherRow "h" 100 "active" None 0 (Some 1000) None None]> PgBooks_empty.
Definition boundary_ledger : Ledger :=
  with_vouchers <[9%N := boundary_voucher]> (with_voucher_hashes <["h"%string := 9%N]> Ledger_empty).

Lemma pg_voucher_expiry_boundary_witness :
  (redeem_voucher (env := env_still) "h" (mkTenantId 1) 1000 boundary_ledger eff0).1.1 = Ok 100.
Proof.
  apply (pg_voucher_expiry_boundary (env := env_still) "h" (mkTenantId 1) 1000 boundary_books boundary_ledger eff0 9
    boundary_voucher); try reflexivity.
  intros i r Hr _. unfold boundary_books in Hr. simpl in Hr. apply lookup_insert_Some in Hr as [[_ <-]|[_ Hr]].
  - reflexivity.
  - rewrite lookup_empty in Hr. discriminate Hr.
Defined.

Lemma pg_account_race_witness :
  exists err e', pg_exec (env := env_still) (sql_insert_account (mkTenantId 1) 1000)
    (upd_accounts <[mkTenantId 1 := (5, 0, 0)]> PgBooks_empty) eff0
  = (Err (pg_internal err), upd_accounts <[mkTenantId 1 := (5, 0, 0)]> PgBooks_empty, e').
Proof.
  apply (pg_account_race (env := env_still) (mkTenantId 1) _ (5, 0, 0) 1000 eff0). reflexivity.
Defined.

Definition tenant_usage : PgBooks :=
  (pg_usage_set (env := env_still) (mkUsageKey (mkTenantId 1) None KvRead 60) 7 PgBooks_empty eff0).1.2.

Lemma pg_usage_nil_cell_witness :
  exists c, ub_cell (mkUsageBucket (mkTenantId 1) (Some (mkDatabaseId 0)) KvRead 60 7) = Some c.
Proof.
  eapply (pg_usage_nil_cell (env := env_still) (mkTenantId 1) None None 60 60 tenant_usage tenant_usage eff0);
    [vm_compute; reflexivity|by left].
Defined.
