(* ===== verification/BookStore.v ===== *)
(** The accounting methods of the trait [MetadataStore]
    (crates/metadata/src/store.rs) as a class with an instance per
    implementation, and requests to the books as data. *)

From Stdlib Require Import ZArith Lia String Ascii.
From stdpp Require Import gmap strings list.
From S2P Require Import Prelude Common Catalog Ledger Postgres PgBooks.

Class AccountingStore (S : Type) := {
  as_usage_add : UsageKey -> Z -> M S CombeeError unit;
  as_usage_set : UsageKey -> Z -> M S CombeeError unit;
  as_query_usage : TenantId -> option DatabaseId -> option UsageMetric -> Z -> Z ->
    M S CombeeError (list UsageBucket);
  as_create_pricing_version : list PricingRule -> M S CombeeError PricingVersion;
  as_get_active_pricing : M S CombeeError (PricingVersion * list PricingRule);
  as_list_pricing_versions : M S CombeeError (list PricingVersion);
  as_get_credit_account : TenantId -> M S CombeeError CreditAccount;
  as_list_credit_transactions : TenantId -> Z -> option N -> M S CombeeError (list CreditTransaction);
  as_find_transaction_by_reference : string -> M S CombeeError (option CreditTransaction);
  as_append_credit_transaction : CreditTransaction -> M S CombeeError CreditTransaction;
  as_create_vouchers : Z -> nat -> option string -> option Z ->
    M S CombeeError (list (string * CreditVoucher));
  as_redeem_voucher : string -> TenantId -> Z -> M S CombeeError Z;
  as_list_vouchers : Z -> M S CombeeError (list CreditVoucher);
}.

Section stores.
Context {env : Env} (sha256 : string -> string).

(** [impl MetadataStore for InMemoryStore] *)
#[export] Instance in_memory_books : AccountingStore Ledger := {|
  as_usage_add := usage_add;
  as_usage_set := usage_set;
  as_query_usage := query_usage;
  as_create_pricing_version := create_pricing_version;
  as_get_active_pricing := get_active_pricing;
  as_list_pricing_versions := list_pricing_versions;
  as_get_credit_account := get_credit_account;
  as_list_credit_transactions := list_credit_transactions;
  as_find_transaction_by_reference := find_transaction_by_reference;
  as_append_credit_transaction := append_credit_transaction;
  as_create_vouchers := create_vouchers sha256;
  as_redeem_voucher := redeem_voucher;
  as_list_vouchers := list_vouchers;
|}.

(** [impl MetadataStore for PostgresStore] *)
#[export] Instance postgres_books : AccountingStore PgBooks := {|
  as_usage_add := pg_usage_add;
  as_usage_set := pg_usage_set;
  as_query_usage := pg_query_usage;
  as_create_pricing_version := pg_create_pricing_version;
  as_get_active_pricing := pg_get_active_pricing;
  as_list_pricing_versions := pg_list_pricing_versions;
  as_get_credit_account := pg_get_credit_account;
  as_list_credit_transactions := pg_list_credit_transactions;
  as_find_transaction_by_reference := pg_find_transaction_by_reference;
  as_append_credit_transaction := pg_append_credit_transaction;
  as_create_vouchers := pg_create_vouchers sha256;
  as_redeem_voucher := pg_redeem_voucher;
  as_list_vouchers := pg_list_vouchers;
|}.

End stores.

(** ** Requests *)

Inductive BookOp :=
| BUsageAdd (key : UsageKey) (delta : Z)
| BUsageSet (key : UsageKey) (value : Z)
| BUsage (tenant : TenantId) (cell : option DatabaseId) (metric : option UsageMetric) (from_bucket to_bucket : Z)
| BPublish (rules : list PricingRule)
| BPricing
| BVersions
| BAccount (tenant : TenantId)
| BEntries (tenant : TenantId) (limit : Z) (before : option N)
| BFind (reference : string)
| BAppend (txn : CreditTransaction)
| BIssue (amount : Z) (count : nat) (campaign : option string) (expires_at : option Z)
| BRedeem (code_hash : string) (tenant : TenantId) (now : Z)
| BVouchers (limit : Z).

Inductive BookResp :=
| ADone
| AUsage (l : list UsageBucket)
| AVersion (v : PricingVersion)
| APricing (v : PricingVersion) (rules : list PricingRule)
| AVersions (l : list PricingVersion)
| AAccount (a : CreditAccount)
| AEntries (l : list CreditTransaction)
| AEntry (t : option CreditTransaction)
| AIssued (l : list (string * CreditVoucher))
| AAmount (z : Z)
| AVouchers (l : list CreditVoucher).

Definition book_answer {S A} (f : A -> BookResp) (m : M S CombeeError A) : M S CombeeError BookResp :=
  let! a := m in mret (f a).

Definition run_book {S} `{AccountingStore S} (op : BookOp) : M S CombeeError BookResp :=
  match op with
  | BUsageAdd k d => book_answer (fun _ => ADone) (as_usage_add k d)
  | BUsageSet k v => book_answer (fun _ => ADone) (as_usage_set k v)
  | BUsage t c m a b => book_answer AUsage (as_query_usage t c m a b)
  | BPublish rules => book_answer AVersion (as_create_pricing_version rules)
  | BPricing => book_answer (fun p => APricing p.1 p.2) as_get_active_pricing
  | BVersions => book_answer AVersions as_list_pricing_versions
  | BAccount t => book_answer AAccount (as_get_credit_account t)
  | BEntries t n before => book_answer AEntries (as_list_credit_transactions t n before)
  | BFind r => book_answer AEntry (as_find_transaction_by_reference r)
  | BAppend txn => book_answer (fun t => AEntry (Some t)) (as_append_credit_transaction txn)
  | BIssue a n c x => book_answer AIssued (as_create_vouchers a n c x)
  | BRedeem h t now => book_answer AAmount (as_redeem_voucher h t now)
  | BVouchers n => book_answer AVouchers (as_list_vouchers n)
  end.
