(* ===== verification/BookStoreSpec.v ===== *)
(** The accounting half of [PostgresStore] keeps the books of
    [InMemoryStore]: request by request the answer of one determines that of
    the other, with the differences that [same_book_answer] spells out, as
    long as the requests stay clear of the places where the books themselves
    come to differ. *)

From Stdlib Require Import ZArith Lia String Ascii.
From stdpp Require Import gmap strings list fin_maps sorting.
From S2P Require Import Prelude Common Kv Catalog Ledger LedgerSpec Postgres PostgresSpec PgBooks PgBooksSpec BookStore.

(** ** What is stored twice *)

(** A usage key with a Cell other than the nil uuid, under which PostgreSQL
    keeps the usage of no Cell. *)
Definition named_cell (k : UsageKey) : Prop := uk_cell k <> Some (mkDatabaseId 0).

Definition version_row (v : PricingVersion) : string * Z * Z :=
  (pricing_as_str (pv_status v), pv_effective_at v, pv_created_at v).

Definition voucher_row (v : CreditVoucher) : VoucherRow :=
  mkVoucherRow (v_code_hash v) (v_amount_units v) (voucher_as_str (v_status v)) (v_campaign v)
    (v_created_at v) (v_expires_at v) (v_redeemed_by v) (v_redeemed_at v).

Record usage_sim (p : gmap (TenantId * N * string * Z) Z) (u : gmap UsageKey Z) : Prop := {
  us_rows : forall k, named_cell k -> p !! usage_row_key k = wrap_i64 <$> u !! k;
  us_named : forall k v, u !! k = Some v -> named_cell k /\ is_u64 v;
  us_keys : forall r v, p !! r = Some v -> exists k, named_cell k /\ r = usage_row_key k;
}.

Record pricing_sim (pv : gmap Z (string * Z * Z)) (pr : gmap (Z * string) (Z * Z))
    (vs : gmap Z PricingVersion) (rs : gmap Z (list PricingRule)) : Prop := {
  ps_versions : pv = version_row <$> vs;
  ps_keys : forall v rec, vs !! v = Some rec -> pv_version rec = v;
  ps_active : forall v v' rec rec', vs !! v = Some rec -> vs !! v' = Some rec' ->
    pv_status rec = PricingActive -> pv_status rec' = PricingActive -> v = v';
  ps_distinct : forall v rules, rs !! v = Some rules -> NoDup (pr_metric <$> rules);
  ps_rules : forall v s x, pr !! (v, s) = Some x <->
    exists rules r, rs !! v = Some rules /\ r ∈ rules /\ s = metric_as_str (pr_metric r) /\
      x = (pr_unit_size r, pr_price_units r);
  ps_listed : forall v rules, rs !! v = Some rules -> is_Some (vs !! v);
}.

Definition accounts_sim (p : gmap TenantId (Z * Z * Z)) (a : gmap TenantId CreditAccount) : Prop :=
  forall t, fst <$> p !! t = (fun x => (balance_units x, reserved_units x)) <$> a !! t /\
    forall x, a !! t = Some x -> acc_tenant x = t.

Record entries_sim (p : gmap N TxnRow) (ts : gmap N CreditTransaction) (refs : gmap string N) : Prop := {
  es_rows : p = txn_row <$> ts;
  es_ids : forall id t, ts !! id = Some t -> txn_id t = id;
  es_refs : forall r id, refs !! r = Some id <-> exists t, ts !! id = Some t /\ reference_id t = Some r;
}.

Record vouchers_sim (p : gmap N VoucherRow) (vs : gmap N CreditVoucher) (hs : gmap string N) : Prop := {
  vs_rows : p = voucher_row <$> vs;
  vs_ids : forall id v, vs !! id = Some v -> v_id v = id;
  vs_hashes : forall h id, hs !! h = Some id <-> exists v, vs !! id = Some v /\ v_code_hash v = h;
}.

(** The same books, kept twice. *)
Record books_sim (b : PgBooks) (l : Ledger) : Prop := {
  bs_usage : usage_sim (pb_usage b) (usage l);
  bs_pricing : pricing_sim (pb_versions b) (pb_rules b) (pricing_versions l) (pricing_rules l);
  bs_accounts : accounts_sim (pb_accounts b) (credit_accounts l);
  bs_entries : entries_sim (pb_txns b) (credit_transactions l) (credit_txn_by_ref l);
  bs_vouchers : vouchers_sim (pb_vouchers b) (vouchers l) (voucher_by_hash l);
}.

(** ** Answers *)

Definition drop_balance (t : CreditTransaction) : CreditTransaction :=
  mkTxn (txn_id t) (txn_tenant t) (txn_type t) (amount_units t) (pricing_version t) (reference_id t)
    (description t) (txn_created_at t) None.

Definition nil_cell (b : UsageBucket) : UsageBucket :=
  mkUsageBucket (ub_tenant b) (Some (default (mkDatabaseId 0) (ub_cell b))) (ub_metric b) (ub_bucket b) (ub_value b).

Definition of_version (v : Z) (r : PricingRule) : PricingRule :=
  mkPricingRule v (pr_metric r) (pr_unit_size r) (pr_price_units r).

(** What [PostgresStore] answers to a request, next to the answer [a'] of
    [InMemoryStore]. Where they are not equal:
    - usage of no Cell comes back under the nil uuid, and the rows in no order
      ([InMemoryStore] sorts them);
    - rules come back in no order, and with the version they are stored under,
      where [InMemoryStore] has the one the caller put into them;
    - an account may have another [updated_at] (the time of the entry instead
      of the present);
    - entries that are read back have no [balance_after], also when the answer
      to an append under a reference that is known;
    - vouchers come newest first, where [InMemoryStore] has the oldest first,
      and those made in the same second may change places. *)
Definition same_book_answer (op : BookOp) (a a' : BookResp) : Prop :=
  match a, a' with
  | AUsage l, AUsage l' => l ≡ₚ nil_cell <$> l'
  | APricing v rules, APricing v' rules' => v = v' /\ rules ≡ₚ of_version (pv_version v) <$> rules'
  | AAccount x, AAccount x' => exists updated, x = mkAccount (acc_tenant x') (balance_units x') (reserved_units x') updated
  | AEntries l, AEntries l' => l = drop_balance <$> l'
  | AEntry o, AEntry o' =>
      match op with
      | BAppend _ => o = o' \/ o = drop_balance <$> o'
      | _ => o = drop_balance <$> o'
      end
  | AVouchers l, AVouchers l' => l ≡ₚ l' /\ v_created_at <$> l = reverse (v_created_at <$> l')
  | _, _ => a = a'
  end.

(** Errors are equal, but for the words with which a voucher is refused. *)
Definition same_book_error (op : BookOp) (err err' : CombeeError) : Prop :=
  match op with
  | BRedeem _ _ _ =>
      err = InvalidRequest "voucher invalid, expired or already used" /\ exists msg, err' = InvalidRequest msg
  | _ => err = err'
  end.

Definition same_book_outcome (op : BookOp) (r r' : result CombeeError BookResp) : Prop :=
  match r, r' with
  | Ok a, Ok a' => same_book_answer op a a'
  | Err err, Err err' => same_book_error op err err'
  | _, _ => False
  end.

Section refine.
Context {env : Env} (sha256 : string -> string).
Hypothesis Hfault : forall n, fault n = None.
Hypothesis Hclock : forall n, unix_time (clock n).

(** ** Where the two stores agree *)

(** The balance and the entry id have room. *)
Definition room_for (b : PgBooks) (id : N) (t : TenantId) (amount : Z) : Prop :=
  pb_txns b !! id = None /\ is_i64 amount /\ is_i64 (from_option (fun r => r.1.1) 0 (pb_accounts b !! t) + amount).

(** The requests on which the two may be compared: usage is kept under real
    Cells and below 2^63, rules name each metric once, entry ids are new, a
    balance stays in range, a voucher is not redeemed in the very second it
    expires nor under a reference that was booked by hand, new vouchers do not
    collide and are made within one second, and all vouchers fit on a page. *)
Definition book_admissible (b : PgBooks) (e : Eff) (op : BookOp) : Prop :=
  match op with
  | BUsageAdd k d => named_cell k /\ 0 <= d <= I64_MAX /\
      from_option id 0 (pb_usage b !! usage_row_key k) + d <= I64_MAX
  | BUsageSet k v => named_cell k /\ is_u64 v
  | BUsage _ c _ _ _ => c <> Some (mkDatabaseId 0)
  | BPublish rules => NoDup (pr_metric <$> rules) /\ is_i64 (max_row_version (pb_versions b) + 1)
  | BAppend txn => reference_taken (reference_id txn) b = false ->
      room_for b (txn_id txn) (txn_tenant txn) (amount_units txn)
  | BIssue a n c x => is_Ok (pg_create_vouchers sha256 a n c x b e).1.1 = true /\
      forall i, (i < n)%nat -> clock (e_clock e + i) = clock (e_clock e)
  | BRedeem h t now =>
      (forall id r, pb_vouchers b !! id = Some r -> vr_hash r = h -> vr_expires_at r <> Some now) /\
      reference_taken (Some (voucher_reference h)) b = false /\
      forall id r, pb_vouchers b !! id = Some r -> vr_hash r = h ->
        room_for b (uuid_v4 (e_uuid e)) t (vr_amount r)
  | BVouchers n => (size (pb_vouchers b) <= clamp_page n)%nat
  | _ => True
  end.

(** The in-memory store, run at some moment, does the same. *)
Definition book_agrees (op : BookOp) (b : PgBooks) (l : Ledger) (e : Eff) : Prop :=
  exists e', 
    let '(r, b', _) := run_book (H:=postgres_books sha256) op b e in
    let '(r', l', _) := run_book (H:=in_memory_books sha256) op l e' in
    same_book_outcome op r r' /\ books_sim b' l'.

(** ** Statements and transactions without faults *)

Lemma tx_exec_run {S A} (f : S -> result string (A * S)) (s : S) e :
  tx_exec f s e = match f s with
                  | Ok (a, s') => (Ok a, s', bump_call e)
                  | Err msg => (Err (pg_internal msg), s, bump_call e)
                  end.
Proof using Hfault. unfold tx_exec, bind, fallible. by rewrite Hfault. Qed.

Lemma transaction_run {S A} (body : M S CombeeError (TxEnd A)) (s : S) e :
  let '(r, s1, _) := body s (bump_call e) in
  exists e', transaction body s e =
    (match r with Ok (TxCommit a) | Ok (TxRollback a) => Ok a | Err err => Err err end,
     match r with Ok (TxCommit _) => s1 | _ => s end, e').
Proof using Hfault Hclock.
  unfold transaction, bind, fallible. rewrite Hfault. destruct (body s (bump_call e)) as [[[[a|a]|err] s1] e1].
  - rewrite !Hfault. by eexists.
  - rewrite !Hfault. by eexists.
  - by eexists.
Qed.

(** Reading rows that all decode. *)
Lemma mmap_out {S A B} (f : A -> result CombeeError B) (g : A -> B) l (s : S) e :
  (forall x, x ∈ l -> f x = Ok (g x)) -> mmap l (fun x => mlift (f x)) s e = (Ok (g <$> l), s, e).
Proof.
  induction l as [|x l IH]; intros Hf; [done|]. cbn [mmap]. unfold bind at 1, mlift at 1.
  rewrite (Hf x) by set_solver. unfold bind. rewrite IH by set_solver. done.
Qed.

Lemma filter_fmap_in {A B} (f : A -> B) (P : B -> Prop) (Q : A -> Prop)
    `{!forall x, Decision (P x), !forall x, Decision (Q x)} (l : list A) :
  (forall x, x ∈ l -> P (f x) <-> Q x) -> filter P (f <$> l) = f <$> filter Q l.
Proof.
  induction l as [|x l IH]; intros HPQ; [done|]. rewrite fmap_cons. pose proof (HPQ x ltac:(set_solver)) as Hx.
  destruct (decide (Q x)) as [HQ|HQ].
  - rewrite !filter_cons_True by tauto. rewrite fmap_cons, IH; [done|set_solver].
  - rewrite !filter_cons_False by tauto. apply IH. set_solver.
Qed.

(** ** Usage *)

Lemma usage_row_key_inj k k' : named_cell k -> named_cell k' -> usage_row_key k = usage_row_key k' -> k = k'.
Proof.
  unfold named_cell, usage_row_key, cell_column. destruct k as [t c m x], k' as [t' c' m' x']. simpl.
  intros Hc Hc' [= -> Hcol Hm ->]. assert (m = m') as -> by (apply (f_equal metric_parse) in Hm;
    rewrite !metric_parse_as_str in Hm; congruence).
  f_equal. destruct c as [[c]|], c' as [[c']|]; simpl in *; congruence.
Qed.

Lemma usage_sim_insert p u k v : named_cell k -> is_u64 v -> usage_sim p u ->
  usage_sim (<[usage_row_key k := wrap_i64 v]> p) (<[k := v]> u).
Proof.
  intros Hk Hv [U1 U2 U3]. split.
  - intros k' Hk'. destruct (decide (k = k')) as [<-|Hne]; [by rewrite !lookup_insert_eq|].
    rewrite !lookup_insert_ne; [by apply U1|done|]. intros Heq. by apply usage_row_key_inj in Heq.
  - intros k' v' [[<- <-]|[_ ?]]%lookup_insert_Some; [done|by apply U2].
  - intros r x [[<- _]|[_ ?]]%lookup_insert_Some; [by exists k|by eapply U3].
Qed.

Lemma wrap_i64_u64 z : wrap_i64 (wrap_u64 z) = wrap_i64 z.
Proof.
  unfold wrap_i64, wrap_u64. f_equal. rewrite Zplus_mod_idemp_l. done.
Qed.

Lemma wrap_i64_step a d : wrap_i64 (wrap_i64 a + d) = wrap_i64 (a + d).
Proof.
  unfold wrap_i64. f_equal.
  replace ((a + 2 ^ 63) mod 2 ^ 64 - 2 ^ 63 + d + 2 ^ 63) with ((a + 2 ^ 63) mod 2 ^ 64 + d) by lia.
  rewrite Zplus_mod_idemp_l. f_equal. lia.
Qed.

Lemma bigint_add_run a d : is_i64 (a + d) -> bigint_add a d = Ok (a + d).
Proof. intros Hr. unfold bigint_add, i64_checked_add. by rewrite decide_True. Qed.

Lemma agrees_usage_add k d b l e : books_sim b l -> book_admissible b e (BUsageAdd k d) ->
  book_agrees (BUsageAdd k d) b l e.
Proof using Hfault Hclock.
  intros [S1 S2 S3 S4 S5] (Hk & Hd & Hmax). exists e. simpl.
  unfold book_answer, bind, pg_usage_add, usage_add, modify. rewrite (pg_exec_run Hfault).
  pose proof (us_rows _ _ S1 k Hk) as Hrow. destruct (usage l !! k) as [v|] eqn:Hv; simpl in Hrow;
    rewrite Hrow in Hmax |- *; simpl in Hmax.
  - destruct (us_named _ _ S1 k v Hv) as [_ Hu]. pose proof (wrap_i64_range v) as Hwr. unfold is_i64 in Hwr.
    assert (I64_MIN <= 0) by (unfold I64_MIN; lia). rewrite (wrap_i64_id d) by (unfold is_i64; lia).
    rewrite bigint_add_run by (unfold is_i64; lia). split; [done|]. split; try done. simpl.
    rewrite Hv. simpl. replace (wrap_i64 v + d) with (wrap_i64 (u64_add v d)).
    + apply usage_sim_insert; [done|apply wrap_u64_range|done].
    + unfold u64_add. rewrite wrap_i64_u64, <- wrap_i64_step, wrap_i64_id; [done|]. unfold is_i64. lia.
  - split; [done|]. split; try done. simpl. rewrite Hv. unfold u64_add. simpl.
    rewrite <- (wrap_i64_u64 d). apply usage_sim_insert; [done|apply wrap_u64_range|done].
Qed.

Lemma agrees_usage_set k v b l e : books_sim b l -> book_admissible b e (BUsageSet k v) ->
  book_agrees (BUsageSet k v) b l e.
Proof using Hfault Hclock.
  intros [S1 S2 S3 S4 S5] [Hk Hv]. exists e. simpl.
  unfold book_answer, bind, pg_usage_set, usage_set, modify. rewrite (pg_exec_run Hfault).
  split; [done|]. split; try done. by apply usage_sim_insert.
Qed.

(** The rows are the entries. *)
Lemma usage_rows_perm p u : usage_sim p u ->
  map_to_list p ≡ₚ (fun kv => (usage_row_key kv.1, wrap_i64 kv.2)) <$> map_to_list u.
Proof.
  intros [U1 U2 U3]. apply NoDup_Permutation.
  - apply NoDup_map_to_list.
  - apply NoDup_fmap_2_strong; [|apply NoDup_map_to_list].
    intros [k v] [k' v'] Hk%elem_of_map_to_list Hk'%elem_of_map_to_list Heq%(f_equal fst). simpl in Heq.
    apply usage_row_key_inj in Heq as ->; [congruence|by eapply U2..].
  - intros [r x]. rewrite elem_of_map_to_list, list_elem_of_fmap. split.
    + intros Hr. destruct (U3 _ _ Hr) as (k & Hk & ->). rewrite (U1 k Hk) in Hr.
      apply fmap_Some in Hr as (v & Hv & ->). exists (k, v). by rewrite elem_of_map_to_list.
    + intros ([k v] & Heq & Hk%elem_of_map_to_list). simpl in Heq. simplify_eq.
      rewrite (U1 k) by (by eapply U2). by rewrite Hk.
Qed.

Definition usage_bucket_out (kv : (TenantId * N * string * Z) * Z) : UsageBucket :=
  let '((t, c, m, bucket), v) := kv in
  mkUsageBucket t (Some (mkDatabaseId c)) (default KvRead (metric_parse m)) bucket (wrap_u64 v).

Lemma usage_selected_row t c m a z k : c <> Some (mkDatabaseId 0) -> named_cell k ->
  usage_row_selected t c m a z (usage_row_key k) = usage_selected t c m a z k.
Proof.
  intros Hc Hk. unfold usage_row_selected, usage_selected, usage_row_key. destruct k as [t' c' m' x]. simpl.
  assert (match c with Some y => bool_decide (cell_column c' = database_uuid y) | None => true end =
    match c with Some y => bool_decide (c' = Some y) | None => true end) as ->.
  { destruct c as [[y]|]; [|done]. apply bool_decide_ext. unfold named_cell in Hk. simpl in *.
    destruct c' as [[c']|]; simpl; split; congruence. }
  assert (match m with Some y => bool_decide (metric_as_str m' = metric_as_str y) | None => true end =
    match m with Some y => bool_decide (m' = y) | None => true end) as ->.
  { destruct m as [y|]; [|done]. apply bool_decide_ext. split; [|by intros ->]. intros Hm.
    apply (f_equal metric_parse) in Hm. rewrite !metric_parse_as_str in Hm. congruence. }
  destruct (bool_decide (t' = t)), (a <=? x), (x <=? z), (match c with Some _ => _ | None => _ end),
    (match m with Some _ => _ | None => _ end); done.
Qed.

Lemma agrees_usage t c m a z b l e : books_sim b l -> book_admissible b e (BUsage t c m a z) ->
  book_agrees (BUsage t c m a z) b l e.
Proof using Hfault Hclock.
  intros Hs Hc. simpl in Hc. exists e. simpl. destruct Hs as [S1 S2 S3 S4 S5].
  unfold book_answer, pg_query_usage, query_usage, gets, bind. rewrite (pg_query_run Hfault).
  set (rows := filter _ (map_to_list (pb_usage b))).
  assert (rows ≡ₚ (fun kv => (usage_row_key kv.1, wrap_i64 kv.2)) <$>
    filter (fun kv => usage_selected t c m a z kv.1 = true) (map_to_list (usage l))) as Hrows.
  { unfold rows. rewrite (usage_rows_perm _ _ S1). rewrite (filter_fmap_in _ _
      (fun kv => usage_selected t c m a z kv.1 = true)); [done|].
    intros [k v] Hk%elem_of_map_to_list. cbn [fst]. rewrite usage_selected_row; [done..|]. by eapply us_named. }
  rewrite (mmap_out usage_row_out usage_bucket_out).
  - split; [|done]. simpl. rewrite Hrows, <- list_fmap_compose.
    rewrite (Permutation_map nil_cell) by apply merge_sort_Permutation.
    change (map nil_cell) with (fmap (M:=list) nil_cell). rewrite <- list_fmap_compose.
    apply reflexive_eq, list_fmap_ext. intros i [k v] Hk%list_elem_of_lookup_2%list_elem_of_filter.
    destruct Hk as [_ Hk%elem_of_map_to_list]. destruct (us_named _ _ S1 k v Hk) as [_ Hv].
    unfold compose, usage_bucket_out, usage_row_key, nil_cell. simpl. rewrite metric_parse_as_str. simpl.
    rewrite wrap_u64_i64, wrap_u64_id by done. by destruct (uk_cell k) as [[]|].
  - intros [[[[t' c'] m'] x] v]. rewrite Hrows, list_elem_of_fmap. intros ([k v'] & Heq & _).
    unfold usage_row_key in Heq. simplify_eq/=. by rewrite metric_parse_as_str.
Qed.

(** ** Pricing *)

(** The only entry of a map with a property. *)
Lemma find_entry {K V} `{Countable K} (f : K * V -> bool) (m : gmap K V) k v :
  m !! k = Some v -> f (k, v) = true -> (forall k' v', m !! k' = Some v' -> f (k', v') = true -> k' = k) ->
  List.find f (map_to_list m) = Some (k, v).
Proof.
  intros Hk Hf Hu. destruct (List.find f (map_to_list m)) as [[k' v']|] eqn:E.
  - apply List.find_some in E as [Hin%list_elem_of_In%elem_of_map_to_list Hf'].
    pose proof (Hu _ _ Hin Hf') as ->. congruence.
  - exfalso. apply elem_of_map_to_list, list_elem_of_In in Hk. by rewrite (List.find_none _ _ E _ Hk) in Hf.
Qed.

Lemma find_no_entry {K V} `{Countable K} (f : K * V -> bool) (m : gmap K V) :
  (forall k v, m !! k = Some v -> f (k, v) = false) -> List.find f (map_to_list m) = None.
Proof.
  intros Hn. destruct (List.find f (map_to_list m)) as [[k v]|] eqn:E; [|done].
  apply List.find_some in E as [Hin%list_elem_of_In%elem_of_map_to_list Hf]. by rewrite Hn in Hf.
Qed.

Lemma map_rows {K V W} `{Countable K} (f : V -> W) (m : gmap K V) :
  map_to_list (f <$> m) ≡ₚ prod_map id f <$> map_to_list m.
Proof. by rewrite map_to_list_fmap. Qed.

Lemma list_max_perm (l l' : list Z) : l ≡ₚ l' ->
  match l with [] => 0 | v :: vs => foldr Z.max v vs end = match l' with [] => 0 | v :: vs => foldr Z.max v vs end.
Proof.
  assert (forall v l, v <= foldr Z.max v l /\ (foldr Z.max v l = v \/ foldr Z.max v l ∈ l) /\
    forall x, x ∈ l -> x <= foldr Z.max v l) as Hm.
  { intros v l0. induction l0 as [|y l0 (I1 & I2 & I3)]; simpl.
    - split; [lia|]. split; [by left|]. intros x Hx. by apply not_elem_of_nil in Hx.
    - split; [lia|]. split.
      + destruct (Z.max_spec y (foldr Z.max v l0)) as [[? ->]|[? ->]]; set_solver.
      + intros x [->|Hx]%elem_of_cons; [lia|]. specialize (I3 x Hx). lia. }
  intros Hp. destruct l as [|v l], l' as [|v' l'].
  - done.
  - by apply Permutation_nil_cons in Hp.
  - symmetry in Hp. by apply Permutation_nil_cons in Hp.
  - destruct (Hm v l) as (A1 & A2 & A3), (Hm v' l') as (B1 & B2 & B3).
    assert (forall x, x ∈ v :: l -> x <= foldr Z.max v' l') as Hle.
    { intros x. rewrite Hp. intros [->|Hx]%elem_of_cons; [done|by apply B3]. }
    assert (forall x, x ∈ v' :: l' -> x <= foldr Z.max v l) as Hge.
    { intros x. rewrite <- Hp. intros [->|Hx]%elem_of_cons; [done|by apply A3]. }
    apply Z.le_antisymm; [apply Hle|apply Hge]; set_solver.
Qed.

Lemma max_version_rows vs : max_row_version (version_row <$> vs) = default 0 (max_version vs).
Proof.
  unfold max_row_version, max_version. transitivity (match (map_to_list vs).*1 with [] => 0 | v :: l => foldr Z.max v l end).
  - apply list_max_perm. rewrite map_rows, <- list_fmap_compose. done.
  - by destruct ((map_to_list vs).*1).
Qed.

Lemma insert_rules_run version (rules : list PricingRule) (b : PgBooks) e :
  NoDup (pr_metric <$> rules) ->
  (forall r, r ∈ rules -> pb_rules b !! (version, metric_as_str (pr_metric r)) = None) ->
  exists e', mfor rules (fun r => tx_exec (sql_insert_rule version r)) b e =
    (Ok tt, upd_rules (published version rules) b, e').
Proof using Hfault Hclock.
  revert b e. induction rules as [|r rules IH]; intros b e Hnd Hfree; simpl.
  - exists e. by destruct b.
  - apply NoDup_cons in Hnd as [Hr Hnd]. unfold bind at 1. rewrite tx_exec_run.
    unfold sql_insert_rule at 1. rewrite Hfree by set_solver.
    destruct (IH (upd_rules <[(version, metric_as_str (pr_metric r)) := (pr_unit_size r, pr_price_units r)]> b)
      (bump_call e) Hnd) as (e' & Hrun).
    + intros r' Hr'. simpl. rewrite lookup_insert_ne; [apply Hfree; set_solver|]. intros [= Hm].
      apply Hr, list_elem_of_fmap. exists r'. split; [|done]. apply (f_equal metric_parse) in Hm.
      rewrite !metric_parse_as_str in Hm. congruence.
    + exists e'. rewrite Hrun. done.
Qed.

Lemma published_lookup (version : Z) (rules : list PricingRule) (m : gmap (Z * string) (Z * Z)) (v : Z) (s : string) (x : Z * Z) :
  NoDup (pr_metric <$> rules) -> (forall s', m !! (version, s') = None) ->
  published version rules m !! (v, s) = Some x <->
  (v <> version /\ m !! (v, s) = Some x) \/
  (v = version /\ exists r, r ∈ rules /\ s = metric_as_str (pr_metric r) /\ x = (pr_unit_size r, pr_price_units r)).
Proof.
  intros Hnd Hfree. unfold published.
  assert (forall m : gmap (Z * string) (Z * Z), (forall r, r ∈ rules -> m !! (version, metric_as_str (pr_metric r)) = None) ->
    foldl (fun m r => <[(version, metric_as_str (pr_metric r)) := (pr_unit_size r, pr_price_units r)]> m) m rules
      !! (v, s) = Some x <-> m !! (v, s) = Some x \/ (v = version /\ exists r, r ∈ rules /\
        s = metric_as_str (pr_metric r) /\ x = (pr_unit_size r, pr_price_units r))) as Hgen.
  { clear m Hfree. induction rules as [|r rules IH]; intros m Hm; simpl.
    - split; [by left|]. intros [?|(_ & r & Hr & _)]; [done|]. by apply not_elem_of_nil in Hr.
    - apply NoDup_cons in Hnd as [Hr Hnd]. rewrite IH; [|done|].
      + rewrite lookup_insert_Some. split.
        * intros [[[[= <- <-] <-]|[_ ?]]|(-> & r' & Hr' & ?)]; [right|by left|right]; (split; [done|]); set_solver.
        * intros [Hv|(-> & r' & [->|Hr']%elem_of_cons & -> & ->)].
          -- left. right. split; [|done]. intros [= <- <-]. rewrite Hm in Hv by set_solver. done.
          -- left. by left.
          -- right. split; [done|]. by exists r'.
      + intros r' Hr'. rewrite lookup_insert_ne; [apply Hm; set_solver|]. intros [= Heq].
        apply Hr, list_elem_of_fmap. exists r'. split; [|done]. apply (f_equal metric_parse) in Heq.
        rewrite !metric_parse_as_str in Heq. congruence. }
  rewrite (Hgen m) by done. split.
  - intros [Hv|Hv]; [|by right]. left. split; [|done]. intros ->. by rewrite Hfree in Hv.
  - intros [[_ ?]|?]; [by left|by right].
Qed.

Definition retired (v : PricingVersion) : PricingVersion :=
  mkPricingVersion (pv_version v) PricingInactive (pv_effective_at v) (pv_created_at v).

Lemma pricing_sim_publish pv pr vs rs version (rules : list PricingRule) now :
  pricing_sim pv pr vs rs -> (forall v, is_Some (vs !! v) -> v < version) -> NoDup (pr_metric <$> rules) ->
  pricing_sim
    (<[version := ("active"%string, now, now)]>
      ((fun r : string * Z * Z => if decide (r.1.1 = "active"%string) then ("inactive"%string, r.1.2, r.2) else r) <$> pv))
    (published version rules pr)
    (<[version := mkPricingVersion version PricingActive now now]> (retired <$> vs)) (<[version := rules]> rs).
Proof.
  intros [P1 P2 P3 P4 P5 P6] Hnew Hnd.
  assert (forall s, pr !! (version, s) = None) as Hfree.
  { intros s. destruct (pr !! (version, s)) as [x|] eqn:E; [|done]. apply P5 in E as (rs' & r & Hr & _).
    apply P6, Hnew in Hr. lia. }
  split.
  - subst pv. rewrite fmap_insert. f_equal. rewrite <- !map_fmap_compose. apply map_fmap_ext.
    intros v [w st a c] _. unfold compose, version_row. simpl. by destruct st.
  - intros v rec [[<- <-]|[_ Hv]]%lookup_insert_Some; [done|]. rewrite lookup_fmap in Hv.
    apply fmap_Some in Hv as (old & Hold & ->). simpl. by apply P2.
  - assert (forall v rec, <[version:=mkPricingVersion version PricingActive now now]> (retired <$> vs) !! v = Some rec ->
      pv_status rec = PricingActive -> v = version) as Hone.
    { intros v rec [[<- _]|[_ Hv]]%lookup_insert_Some; [done|]. rewrite lookup_fmap in Hv.
      by apply fmap_Some in Hv as (old & _ & ->). }
    intros v v' rec rec' Hv Hv' Ha Ha'. rewrite (Hone v rec Hv Ha). by rewrite (Hone v' rec' Hv' Ha').
  - intros v rules' [[<- <-]|[_ Hv]]%lookup_insert_Some; [done|by eapply P4].
  - intros v s x. rewrite published_lookup by done. rewrite P5. split.
    + intros [[Hne (rules' & r & Hr & ?)]|(-> & r & ?)].
      * exists rules', r. rewrite lookup_insert_ne by done. done.
      * exists rules, r. by rewrite lookup_insert_eq.
    + intros (rules' & r & [[<- <-]|[Hne Hr]]%lookup_insert_Some & Hrest); [right; split; [done|]; by exists r|].
      left. split; [done|]. by exists rules', r.
  - intros v rules' [[<- _]|[_ Hv]]%lookup_insert_Some; [by rewrite lookup_insert_eq|].
    apply lookup_insert_is_Some. destruct (decide (version = v)); [by left|]. right. split; [done|].
    rewrite lookup_fmap. apply fmap_is_Some. by eapply P6.
Qed.

Lemma fresh_version_row b l : books_sim b l -> forall v, is_Some (pricing_versions l !! v) ->
  v < max_row_version (pb_versions b) + 1.
Proof.
  intros Hs v [rec Hv]. pose proof (max_row_version_le (pb_versions b) v) as Hle.
  rewrite (ps_versions _ _ _ _ (bs_pricing _ _ Hs)), lookup_fmap, Hv in Hle.
  specialize (Hle ltac:(by eexists)). rewrite (ps_versions _ _ _ _ (bs_pricing _ _ Hs)). lia.
Qed.

Lemma agrees_publish rules b l e : books_sim b l -> book_admissible b e (BPublish rules) ->
  book_agrees (BPublish rules) b l e.
Proof using Hfault Hclock.
  intros Hs [Hnd Hmax]. exists e. simpl. pose proof (fresh_version_row b l Hs) as Hnew.
  destruct Hs as [S1 S2 S3 S4 S5].
  unfold book_answer, bind, pg_create_pricing_version, create_pricing_version, gets, led_now, modify, pb_now, bind, read_clock, mret.
  set (now := wrap_i64 (clock (e_clock e))).
  assert (now = clock (e_clock e)) as Hnow by (by apply unix_time_i64).
  match goal with |- context [transaction ?bd b ?e0] => set (body := bd);
    pose proof (transaction_run body b e0) as Htx end.
  set (version := max_row_version (pb_versions b) + 1).
  assert (default 0 (max_version (pricing_versions l)) + 1 = version) as Hver.
  { unfold version. rewrite (ps_versions _ _ _ _ S2), max_version_rows. done. }
  assert (pb_versions b !! version = None) as Hno.
  { destruct (pb_versions b !! version) as [row|] eqn:E; [|done].
    pose proof (max_row_version_le (pb_versions b) version ltac:(by eexists)). unfold version in *. lia. }
  assert (exists b1 e2, body b (bump_call (bump_clock e)) =
      (Ok (TxCommit (mkPricingVersion version PricingActive now now)), b1, e2) /\
    books_sim b1 (with_pricing (fun vs => <[version := mkPricingVersion version PricingActive now now]> (retired <$> vs))
      <[version := rules]> l)) as (b1 & e2 & Hb & Hsim).
  { unfold body. rewrite tx_exec_run. unfold sql_next_version at 1. rewrite bigint_add_run by done. fold version.
    rewrite tx_exec_run. unfold sql_deactivate at 1. rewrite tx_exec_run. unfold sql_insert_version at 1. simpl.
    rewrite lookup_fmap, Hno. simpl.
    match goal with |- context [mfor rules _ ?b0 ?e1] =>
      destruct (insert_rules_run version rules b0 e1 Hnd) as (e2 & Hins) end.
    { intros r _. simpl. destruct (pb_rules b !! (version, _)) as [x|] eqn:E; [|done].
      apply (ps_rules _ _ _ _ S2) in E as (rs & r' & Hr & _). apply (ps_listed _ _ _ _ S2), Hnew in Hr.
      unfold version in Hr. lia. }
    rewrite Hins. eexists _, _. split; [done|]. split; try done. simpl. by apply pricing_sim_publish. }
  rewrite Hb in Htx. destruct Htx as (e3 & ->). simpl. unfold i64_add.
  rewrite Hver, wrap_i64_id by (unfold version; done). rewrite <- Hnow. by split.
Qed.

Lemma active_row v rec : bool_decide ((version_row rec).1.1 = "active"%string) = is_active (v, rec).
Proof. unfold is_active, version_row. simpl. by destruct (pv_status rec). Qed.

Lemma rule_rows_perm pv pr vs rs v : pricing_sim pv pr vs rs ->
  filter (fun kv => kv.1.1 = v) (map_to_list pr) ≡ₚ
  (fun r => ((v, metric_as_str (pr_metric r)), (pr_unit_size r, pr_price_units r))) <$> default [] (rs !! v).
Proof.
  intros [P1 P2 P3 P4 P5 P6]. apply NoDup_Permutation.
  - apply NoDup_filter, NoDup_map_to_list.
  - destruct (rs !! v) as [rules|] eqn:Hr; [|constructor]. simpl.
    apply (NoDup_fmap_1 (fun x : (Z * string) * (Z * Z) => x.1.2)). rewrite <- list_fmap_compose.
    assert (NoDup (metric_as_str <$> (pr_metric <$> rules))) as Hnd.
    { apply NoDup_fmap_2; [|by eapply P4]. intros m m' Hm. apply (f_equal metric_parse) in Hm.
      rewrite !metric_parse_as_str in Hm. congruence. }
    by rewrite <- list_fmap_compose in Hnd.
  - intros [[v' s] x]. rewrite list_elem_of_filter, elem_of_map_to_list, P5, list_elem_of_fmap. simpl. split.
    + intros [-> (rules & r & Hr & Hin & -> & ->)]. exists r. by rewrite Hr.
    + intros (r & [= -> -> ->] & Hin). split; [done|]. destruct (rs !! v) as [rules|] eqn:Hr; [|by apply not_elem_of_nil in Hin].
      by exists rules, r.
Qed.

Definition rule_out (version : Z) (kv : (Z * string) * (Z * Z)) : PricingRule :=
  mkPricingRule version (default KvRead (metric_parse kv.1.2)) kv.2.1 kv.2.2.

Lemma agrees_pricing b l e : books_sim b l -> book_agrees BPricing b l e.
Proof using Hfault Hclock.
  intros Hs. pose proof Hs as [S1 S2 S3 S4 S5]. exists e. simpl.
  unfold book_answer, pg_get_active_pricing, get_active_pricing, gets, bind. rewrite (pg_query_run Hfault).
  destruct (List.find is_active (map_to_list (pricing_versions l))) as [[v rec]|] eqn:E.
  - apply List.find_some in E as [Hv%list_elem_of_In%elem_of_map_to_list Ha].
    pose proof Ha as Hact. apply bool_decide_eq_true in Hact. simpl in Hact.
    rewrite (find_entry _ (pb_versions b) v (version_row rec)).
    + unfold version_row at 1. rewrite (pg_query_run Hfault). rewrite (mmap_out _ (rule_out v)).
      * split; [|done]. simpl. assert (pv_version rec = v) as Hpv by (by apply (ps_keys _ _ _ _ S2)).
        split; [destruct rec; simpl in *; congruence|]. rewrite (rule_rows_perm _ _ _ _ v S2), <- list_fmap_compose.
        apply reflexive_eq, list_fmap_ext. intros i r _. unfold compose, rule_out, of_version. simpl.
        by rewrite metric_parse_as_str.
      * intros [[v' s] x] Hx. rewrite (rule_rows_perm _ _ _ _ v S2) in Hx.
        apply list_elem_of_fmap in Hx as (r & [= -> -> ->] & _). unfold rule_row_out. simpl.
        unfold rule_out. simpl. by rewrite metric_parse_as_str.
    + rewrite (ps_versions _ _ _ _ S2), lookup_fmap, Hv. done.
    + exact (eq_trans (active_row v rec) Ha).
    + intros v' row. rewrite (ps_versions _ _ _ _ S2), lookup_fmap. intros (rec' & Hrec' & ->)%fmap_Some Ha'.
      apply (eq_trans (eq_sym (active_row v' rec'))), bool_decide_eq_true in Ha'. by eapply (ps_active _ _ _ _ S2).
  - rewrite find_no_entry; [by split|]. intros v row. rewrite (ps_versions _ _ _ _ S2), lookup_fmap.
    intros (rec & Hrec & ->)%fmap_Some. refine (eq_trans (active_row v rec) _).
    apply (List.find_none _ _ E), list_elem_of_In. by apply elem_of_map_to_list.
Qed.

Lemma agrees_versions b l e : books_sim b l -> book_agrees BVersions b l e.
Proof using Hfault Hclock.
  intros Hs. pose proof Hs as [S1 S2 S3 S4 S5]. exists e. simpl.
  unfold book_answer, pg_list_pricing_versions, list_pricing_versions, gets, bind. rewrite (pg_query_run Hfault).
  split; [|done]. simpl. rewrite (sort_by_key_fmap _ _ (fun v => (pv_version v, 0))).
  - f_equal. apply sort_by_key_unique.
    + rewrite (ps_versions _ _ _ _ S2), map_rows, <- list_fmap_compose. unfold values.
      apply reflexive_eq, list_fmap_ext. intros i [v rec] Hv%list_elem_of_lookup_2%elem_of_map_to_list.
      apply (ps_keys _ _ _ _ S2) in Hv. destruct rec as [w st x y]. unfold compose, version_row_out, version_row. simpl in *.
      subst w. by destruct st.
    + intros x y. rewrite !list_elem_of_fmap. intros ([v r] & -> & Hv) ([v' r'] & -> & Hv') [= Heq]. simpl in Heq.
      subst v'. apply elem_of_map_to_list in Hv, Hv'. congruence.
  - done.
  - intros [v r] [v' r'] Hv%elem_of_map_to_list Hv'%elem_of_map_to_list [= ->]. congruence.
Qed.

(** ** Accounts and entries *)

Lemma accounts_sim_insert p a t x upd : acc_tenant x = t -> accounts_sim p a ->
  accounts_sim (<[t := (balance_units x, reserved_units x, upd)]> p) (<[t := x]> a).
Proof.
  intros Ht Ha t'. destruct (decide (t = t')) as [<-|Hne].
  - rewrite !lookup_insert_eq. split; [done|]. by intros ? [= <-].
  - rewrite !lookup_insert_ne by done. apply Ha.
Qed.

Lemma account_row p a t x : accounts_sim p a -> a !! t = Some x ->
  acc_tenant x = t /\ exists upd, p !! t = Some (balance_units x, reserved_units x, upd).
Proof.
  intros Ha Hx. destruct (Ha t) as [H1 H2]. split; [by apply H2|]. rewrite Hx in H1. simpl in H1.
  apply fmap_Some in H1 as ([[bal res] upd] & -> & [= -> ->]). by eexists.
Qed.

Lemma no_account_row p a t : accounts_sim p a -> a !! t = None -> p !! t = None.
Proof. intros Ha Hx. destruct (Ha t) as [H1 _]. rewrite Hx in H1. by apply fmap_None in H1. Qed.

Lemma agrees_account t b l e : books_sim b l -> book_agrees (BAccount t) b l e.
Proof using Hfault Hclock.
  intros Hs. pose proof Hs as [S1 S2 S3 S4 S5]. exists e. simpl.
  unfold book_answer, pg_get_credit_account, get_credit_account, gets, bind. rewrite (pg_query_run Hfault).
  destruct (credit_accounts l !! t) as [x|] eqn:Hx.
  - destruct (account_row _ _ _ _ S3 Hx) as (Ht & upd & ->). split; [|done]. exists upd. unfold account_out. by rewrite Ht.
  - rewrite (no_account_row _ _ _ S3 Hx). unfold pb_now, led_now, read_clock, bind, mret, modify.
    rewrite (pg_exec_run Hfault). unfold sql_insert_account. rewrite (no_account_row _ _ _ S3 Hx).
    split; [by eexists|]. split; try done. simpl. by apply (accounts_sim_insert _ _ t (mkAccount t 0 0 _)).
Qed.

Lemma txn_type_roundtrip t : txn_type_parse (txn_type_as_str t) = Some t.
Proof. by destruct t. Qed.

Lemma row_to_txn_row id t : txn_id t = id -> row_to_txn (id, txn_row t) = Ok (drop_balance t).
Proof. intros <-. unfold row_to_txn. simpl. by rewrite txn_type_roundtrip. Qed.

Lemma sim_find_reference p ts refs r b : entries_sim p ts refs -> pb_txns b = p ->
  sql_find_reference r b = (fun t => (txn_id t, txn_row t)) <$> (id ← refs !! r; ts !! id).
Proof.
  intros [E1 E2 E3] <-. unfold sql_find_reference. destruct (refs !! r) as [id|] eqn:Hr; simpl.
  - apply E3 in Hr as (t & Ht & Href). rewrite Ht. simpl. rewrite (E2 _ _ Ht).
    apply find_entry.
    + by rewrite E1, lookup_fmap, Ht.
    + by apply bool_decide_eq_true.
    + intros id' row. rewrite E1, lookup_fmap. intros (t' & Ht' & ->)%fmap_Some. simpl.
      intros Hr'%bool_decide_eq_true. assert (refs !! r = Some id') as H1 by (apply E3; by exists t').
      assert (refs !! r = Some id) as H2 by (apply E3; by exists t). congruence.
  - apply find_no_entry. intros id row. rewrite E1, lookup_fmap. intros (t & Ht & ->)%fmap_Some. simpl.
    apply bool_decide_eq_false. intros Href. assert (refs !! r = Some id) by (apply E3; by exists t). congruence.
Qed.

Lemma agrees_find r b l e : books_sim b l -> book_agrees (BFind r) b l e.
Proof using Hfault Hclock.
  intros Hs. pose proof Hs as [S1 S2 S3 S4 S5]. exists e. simpl.
  unfold book_answer, pg_find_transaction_by_reference, find_transaction_by_reference, gets, bind.
  rewrite (pg_query_run Hfault), (sim_find_reference _ _ _ r b S4 eq_refl). unfold lookup_reference.
  destruct (credit_txn_by_ref l !! r) as [id|] eqn:Hr; simpl; [|by split].
  destruct (credit_transactions l !! id) as [t|] eqn:Ht; simpl; [|by split].
  by rewrite row_to_txn_row by done.
Qed.

Definition entry_key (x : N * CreditTransaction) : Z * Z := (- txn_created_at x.2, - Z.of_N x.1).

Lemma agrees_entries t n before b l e : books_sim b l -> book_agrees (BEntries t n before) b l e.
Proof using Hfault Hclock.
  intros Hs. pose proof Hs as [S1 S2 S3 [E1 E2 E3] S5]. exists e. simpl.
  unfold book_answer, pg_list_credit_transactions, list_credit_transactions, gets, bind.
  rewrite (pg_query_run Hfault).
  set (L := filter (fun x : N * CreditTransaction => bool_decide (txn_tenant x.2 = t) &&
    from_option (fun y => (x.1 <? y)%N) true before = true) (map_to_list (credit_transactions l))).
  assert (forall x, x ∈ L -> txn_id x.2 = x.1) as Hid.
  { intros [id x] [_ Hx%elem_of_map_to_list]%list_elem_of_filter. simpl. by apply E2. }
  assert (forall x y, x ∈ L -> y ∈ L -> entry_key x = entry_key y -> x = y) as Hinj.
  { intros [id x] [id' y] [_ Hx%elem_of_map_to_list]%list_elem_of_filter
      [_ Hy%elem_of_map_to_list]%list_elem_of_filter [= _ Heq]. simpl in Heq. assert (id = id') as -> by lia. congruence. }
  assert (sort_by_key txn_row_key (filter (fun kv : N * TxnRow => bool_decide (tr_tenant kv.2 = t) &&
      from_option (fun x => (kv.1 <? x)%N) true before = true) (map_to_list (pb_txns b))) =
    (prod_map id txn_row) <$> sort_by_key entry_key L) as ->.
  { rewrite (sort_by_key_fmap _ entry_key txn_row_key L); [|done|done]. apply sort_by_key_unique.
    - rewrite E1, map_rows. rewrite (filter_fmap_iff _ _ (fun x : N * CreditTransaction =>
        bool_decide (txn_tenant x.2 = t) && from_option (fun y => (x.1 <? y)%N) true before = true)); done.
    - intros [id x] [id' y] [_ Hx%elem_of_map_to_list]%list_elem_of_filter
        [_ Hy%elem_of_map_to_list]%list_elem_of_filter [= _ Heq]. simpl in *. assert (id = id') as -> by lia. congruence. }
  assert (sort_by_key (fun x => (- txn_created_at x, - Z.of_N (txn_id x)))
      (filter (fun x => bool_decide (txn_tenant x = t) && from_option (fun y => (txn_id x <? y)%N) true before = true)
        (values (credit_transactions l))) = snd <$> sort_by_key entry_key L) as ->.
  { rewrite (sort_by_key_fmap snd entry_key (fun x => (- txn_created_at x, - Z.of_N (txn_id x))) L); [|..|done].
    - f_equal. unfold values, L. rewrite (filter_fmap_in _ _ (fun x : N * CreditTransaction =>
        bool_decide (txn_tenant x.2 = t) && from_option (fun y => (x.1 <? y)%N) true before = true)); [done|].
      intros [id x] Hx%elem_of_map_to_list. simpl. by rewrite (E2 _ _ Hx).
    - intros x Hx. unfold entry_key. by rewrite (Hid x Hx). }
  rewrite <- !fmap_take. set (S := take _ (sort_by_key entry_key L)).
  assert (forall x, x ∈ S -> txn_id x.2 = x.1) as HS.
  { intros x Hx. apply Hid. rewrite <- (sort_by_key_perm entry_key L). unfold S in Hx.
    apply list_elem_of_lookup in Hx as [i Hi]. apply lookup_take_Some in Hi as [Hi _].
    by eapply list_elem_of_lookup_2. }
  rewrite (mmap_out _ (fun kv => match row_to_txn kv with Ok x => x | Err _ => mkTxn 0 t Recharge 0 None None None 0 None end)).
  - split; [|done]. simpl. rewrite <- !list_fmap_compose. apply list_fmap_ext.
    intros i [id x] Hx%list_elem_of_lookup_2. unfold compose. simpl. by rewrite row_to_txn_row by (by apply (HS _ Hx)).
  - intros kv. rewrite list_elem_of_fmap. intros ([id x] & -> & Hx). simpl.
    by rewrite row_to_txn_row by (by apply (HS _ Hx)).
Qed.

Lemma sim_reference_taken b l r : entries_sim (pb_txns b) (credit_transactions l) (credit_txn_by_ref l) ->
  reference_taken (Some r) b = match lookup_reference r l with Some _ => true | None => false end.
Proof.
  intros Hs. unfold reference_taken. rewrite (sim_find_reference _ _ _ r b Hs eq_refl). unfold lookup_reference.
  destruct (credit_txn_by_ref l !! r) as [id|]; simpl; [|done]. by destruct (credit_transactions l !! id).
Qed.

Lemma reference_unused b l r : entries_sim (pb_txns b) (credit_transactions l) (credit_txn_by_ref l) ->
  lookup_reference r l = None -> credit_txn_by_ref l !! r = None.
Proof.
  intros [E1 E2 E3] Hn. destruct (credit_txn_by_ref l !! r) as [id|] eqn:Hr; [|done].
  pose proof Hr as (t & Ht & _)%E3. unfold lookup_reference in Hn. rewrite Hr in Hn. simpl in Hn. congruence.
Qed.

Lemma entries_sim_insert p ts refs t :
  ts !! txn_id t = None -> (forall r, reference_id t = Some r -> refs !! r = None) -> entries_sim p ts refs ->
  entries_sim (<[txn_id t := txn_row t]> p) (<[txn_id t := t]> ts)
    (match reference_id t with Some r => <[r := txn_id t]> refs | None => refs end).
Proof.
  intros Hid Hr [E1 E2 E3]. split.
  - by rewrite E1, fmap_insert.
  - intros id t' [[<- <-]|[_ ?]]%lookup_insert_Some; [done|by apply E2].
  - assert (forall r id, refs !! r = Some id -> id <> txn_id t) as Hne.
    { intros r id (t' & Ht' & _)%E3 ->. congruence. }
    intros r id. transitivity ((reference_id t = Some r /\ id = txn_id t) \/ refs !! r = Some id).
    { destruct (reference_id t) as [r0|] eqn:Href.
      - rewrite lookup_insert_Some. split; [naive_solver|]. intros [[[= <-] ->]|Hold]; [by left|].
        right. split; [|done]. intros ->. by rewrite (Hr r eq_refl) in Hold.
      - naive_solver. }
    split.
    + intros [[Href ->]|Hold]; [exists t; by rewrite lookup_insert_eq|].
      pose proof Hold as (t' & Ht' & Href')%E3. exists t'. rewrite lookup_insert_ne; [done|].
      intros <-. by eapply Hne.
    + intros (t' & [[<- <-]|[_ Ht']]%lookup_insert_Some & Href); [by left|]. right. apply E3. by exists t'.
Qed.

(** The balance after an amount that fits. *)
Lemma upsert_balance_run b l t amount now1 now2 : accounts_sim (pb_accounts b) (credit_accounts l) ->
  is_i64 amount -> is_i64 (from_option (fun r => r.1.1) 0 (pb_accounts b !! t) + amount) ->
  let acc := default (mkAccount t 0 0 0) (credit_accounts l !! t) in
  let balance := i64_saturating_add (balance_units acc) amount in
  exists pa, sql_upsert_balance t amount now1 b = Ok (balance, upd_accounts (fun _ => pa) b) /\
    acc_tenant acc = t /\
    accounts_sim pa (<[t := mkAccount t balance (reserved_units acc) now2]> (credit_accounts l)).
Proof.
  intros Ha Hamt Hroom. unfold sql_upsert_balance. destruct (credit_accounts l !! t) as [x|] eqn:Hx; simpl.
  - destruct (account_row _ _ _ _ Ha Hx) as (Ht & upd & Hrow). rewrite Hrow in Hroom |- *. simpl in Hroom.
    rewrite bigint_add_run, i64_saturating_add_id by done. eexists. split; [done|]. split; [done|].
    by apply (accounts_sim_insert _ _ t (mkAccount t _ _ now2)).
  - rewrite (no_account_row _ _ _ Ha Hx) in Hroom |- *. simpl in Hroom.
    rewrite i64_saturating_add_id by done. eexists. split; [done|]. split; [done|].
    by apply (accounts_sim_insert _ _ t (mkAccount t amount 0 now2)).
Qed.

Lemma append_mem_run txn l e : (r ← reference_id txn; lookup_reference r l) = None ->
  let t := txn_tenant txn in
  let acc := default (mkAccount t 0 0 0) (credit_accounts l !! t) in
  let balance := i64_saturating_add (balance_units acc) (amount_units txn) in
  let entry := mkTxn (txn_id txn) t (txn_type txn) (amount_units txn) (pricing_version txn) (reference_id txn)
    (description txn) (txn_created_at txn) (Some balance) in
  exists now e' l', append_credit_transaction txn l e = (Ok entry, l', e') /\
    usage l' = usage l /\ pricing_versions l' = pricing_versions l /\ pricing_rules l' = pricing_rules l /\
    credit_accounts l' = <[t := mkAccount (default t (acc_tenant <$> credit_accounts l !! t)) balance (reserved_units acc) now]> (credit_accounts l) /\
    credit_transactions l' = <[txn_id txn := entry]> (credit_transactions l) /\
    credit_txn_by_ref l' = (match reference_id txn with Some r => <[r := txn_id txn]> (credit_txn_by_ref l) | None => credit_txn_by_ref l end) /\
    vouchers l' = vouchers l /\ voucher_by_hash l' = voucher_by_hash l.
Proof.
  intros Hn. unfold append_credit_transaction, bind at 1, gets. rewrite Hn.
  unfold bind, get_credit_account, bind, gets, mret, led_now, read_clock, modify, record_transaction.
  destruct (credit_accounts l !! txn_tenant txn) as [x|] eqn:Hx; simpl;
    destruct (reference_id txn) as [r|]; simpl; eexists _, _, _; (split; [reflexivity|]);
    simpl; rewrite ?insert_insert_eq; done.
Qed.

Lemma agrees_append txn b l e : books_sim b l -> book_admissible b e (BAppend txn) ->
  book_agrees (BAppend txn) b l e.
Proof using Hfault Hclock.
  intros Hs Hroom. pose proof Hs as [S1 S2 S3 S4 S5]. exists e. simpl.
  unfold book_answer, bind at 1 2.
  assert (exists e1, (match reference_id txn with Some r => pg_find_transaction_by_reference r | None => mret None end) b e
    = (Ok (drop_balance <$> (r ← reference_id txn; lookup_reference r l)), b, e1)) as (e1 & Hfind).
  { destruct (reference_id txn) as [r|]; [|by eexists]. simpl.
    unfold pg_find_transaction_by_reference, bind. rewrite (pg_query_run Hfault), (sim_find_reference _ _ _ r b S4 eq_refl).
    unfold lookup_reference. destruct (credit_txn_by_ref l !! r) as [id|]; simpl; [|by eexists].
    destruct (credit_transactions l !! id) as [t|]; simpl; [|by eexists]. rewrite row_to_txn_row by done. by eexists. }
  unfold pg_append_credit_transaction, bind at 1. rewrite Hfind.
  destruct (r ← reference_id txn; lookup_reference r l) as [t|] eqn:Hex; simpl.
  { assert (append_credit_transaction txn l e = (Ok t, l, e)) as ->.
    { unfold append_credit_transaction, bind, gets. by rewrite Hex. }
    split; [by right|done]. }
  destruct (append_mem_run txn l e Hex) as (now & e' & l' & -> & M1 & M2 & M3 & M4 & M5 & M6 & M7 & M8).
  assert (reference_taken (reference_id txn) b = false) as Hfree.
  { destruct (reference_id txn) as [r|]; [|done]. rewrite (sim_reference_taken b l r S4). simpl in Hex. by rewrite Hex. }
  destruct (Hroom Hfree) as (Hid & Hamt & Hbal).
  destruct (upsert_balance_run (upd_txns <[txn_id txn := txn_row txn]> b) l (txn_tenant txn) (amount_units txn)
    (txn_created_at txn) now S3 Hamt Hbal) as (pa & Hup & Hacc & Hsim).
  unfold bind at 1. match goal with |- context [transaction ?bd b e1] =>
    pose proof (transaction_run bd b e1) as Htx; set (body := bd) in * end.
  assert (exists e2, body b (bump_call e1) = (Ok (TxCommit (Some (i64_saturating_add (balance_units
      (default (mkAccount (txn_tenant txn) 0 0 0) (credit_accounts l !! txn_tenant txn))) (amount_units txn)))),
    upd_accounts (fun _ => pa) (upd_txns <[txn_id txn := txn_row txn]> b), e2)) as (e2 & Hb).
  { unfold body, bind. rewrite tx_exec_run. unfold sql_insert_txn. simpl. rewrite Hfree, Hid.
    rewrite tx_exec_run, Hup. by eexists. }
  rewrite Hb in Htx. destruct Htx as (e3 & ->). split; [by left|].
  split; simpl; rewrite ?M1, ?M2, ?M3, ?M4, ?M5, ?M6, ?M7, ?M8; try done.
  - replace (default (txn_tenant txn) (acc_tenant <$> credit_accounts l !! txn_tenant txn)) with (txn_tenant txn); [done|].
    destruct (credit_accounts l !! txn_tenant txn); simpl in *; congruence.
  - apply (entries_sim_insert _ _ _ (mkTxn (txn_id txn) (txn_tenant txn) (txn_type txn) (amount_units txn)
      (pricing_version txn) (reference_id txn) (description txn) (txn_created_at txn) _)); [| |done]; simpl.
    + rewrite (es_rows _ _ _ S4), lookup_fmap in Hid. by apply fmap_None in Hid.
    + intros r Hr. apply (reference_unused b l r S4). rewrite Hr in Hex. done.
Qed.

(** ** Vouchers *)

(** The code drawn from the random values from [u] on. *)
Definition code_at (u : nat) : string :=
  match generate_voucher_code tt (mkEff 0 0 0 u) with (Ok code, _, _) => code | _ => EmptyString end.

Lemma generate_code_run {S} (s : S) e :
  generate_voucher_code s e = (Ok (code_at (e_uuid e)), s, mkEff (e_clock e) (e_instant e) (e_call e) (12 + e_uuid e)).
Proof. reflexivity. Qed.

Lemma voucher_status_roundtrip s : voucher_parse (voucher_as_str s) = Some s.
Proof. by destruct s. Qed.

Lemma voucher_row_out_row id v : v_id v = id -> voucher_row_out (id, voucher_row v) = Ok v.
Proof. intros <-. unfold voucher_row_out. simpl. rewrite voucher_status_roundtrip. by destruct v. Qed.

Lemma vouchers_sim_insert p vs hs v :
  vs !! v_id v = None -> hs !! v_code_hash v = None -> vouchers_sim p vs hs ->
  vouchers_sim (<[v_id v := voucher_row v]> p) (<[v_id v := v]> vs) (<[v_code_hash v := v_id v]> hs).
Proof.
  intros Hid Hh [V1 V2 V3]. split.
  - by rewrite V1, fmap_insert.
  - intros id v' [[<- <-]|[_ ?]]%lookup_insert_Some; [done|by apply V2].
  - intros h id. split.
    + intros [[<- <-]|[Hne Hold]]%lookup_insert_Some; [exists v; by rewrite lookup_insert_eq|].
      pose proof Hold as (v' & Hv' & <-)%V3. exists v'. rewrite lookup_insert_ne; [done|]. intros <-. congruence.
    + intros (v' & [[<- <-]|[Hne Hv']]%lookup_insert_Some & <-); [apply lookup_insert_eq|].
      rewrite lookup_insert_ne; [apply V3; by exists v'|]. intros Heq.
      assert (hs !! v_code_hash v' = Some id) by (apply V3; by exists v'). congruence.
Qed.

(** A new voucher that PostgreSQL accepts. *)
Lemma insert_voucher_run b l id v row : vouchers_sim (pb_vouchers b) (vouchers l) (voucher_by_hash l) ->
  v_id v = id -> row = voucher_row v -> forall b', sql_insert_voucher id row b = Ok (tt, b') ->
  b' = upd_vouchers <[id := row]> b /\ vouchers l !! id = None /\ voucher_by_hash l !! v_code_hash v = None.
Proof.
  intros [V1 V2 V3] <- -> b'. unfold sql_insert_voucher. destruct (existsb _ _) eqn:Hex; [done|].
  destruct (pb_vouchers b !! v_id v) eqn:Hid; [done|]. intros [= <-]. split; [done|].
  rewrite V1, lookup_fmap in Hid. apply fmap_None in Hid. split; [done|].
  destruct (voucher_by_hash l !! v_code_hash v) as [id'|] eqn:Hh; [|done]. apply V3 in Hh as (v' & Hv' & Heq).
  assert (existsb (fun kv : N * VoucherRow => bool_decide (vr_hash kv.2 = vr_hash (voucher_row v)))
    (map_to_list (pb_vouchers b)) = true) as Ht; [|congruence].
  apply existsb_exists. exists (id', voucher_row v'). split; [|by apply bool_decide_eq_true].
  apply list_elem_of_In, elem_of_map_to_list. by rewrite V1, lookup_fmap, Hv'.
Qed.

(** One voucher of a batch that PostgreSQL makes at the time [now]. *)
Definition pg_issue_one (amount : Z) (campaign : option string) (expires_at : option Z) (now : Z)
    : M PgBooks CombeeError (string * CreditVoucher) :=
  let! code := generate_voucher_code in
  let code_hash := hash_voucher_code sha256 code in
  let! id := fresh_uuid in
  do! pg_exec (sql_insert_voucher id
        (mkVoucherRow code_hash amount "active" campaign now expires_at None None)) in
  mret (code, mkVoucher id code_hash amount VoucherActive campaign now expires_at None None).

Lemma issue_one_agrees amount campaign expires now b l e e' out b' e1 :
  books_sim b l -> e_uuid e = e_uuid e' -> clock (e_clock e') = now ->
  pg_issue_one amount campaign expires now b e = (Ok out, b', e1) ->
  exists l' e2, create_voucher sha256 amount campaign expires l e' = (Ok out, l', e2) /\ books_sim b' l' /\
    e_uuid e1 = e_uuid e2 /\ e_clock e2 = S (e_clock e').
Proof using Hfault Hclock.
  intros Hs Hu <-. pose proof Hs as [S1 S2 S3 S4 S5].
  unfold pg_issue_one, create_voucher, bind at 1. rewrite generate_code_run.
  unfold bind at 1, fresh_uuid at 1. unfold bind at 1. rewrite (pg_exec_run Hfault).
  unfold bind at 1. rewrite generate_code_run. unfold bind, fresh_uuid, led_now, read_clock, modify, mret.
  cbn [e_clock e_uuid bump_uuid bump_clock e_instant e_call]. rewrite Hu.
  set (v := mkVoucher (uuid_v4 (12 + e_uuid e')) (hash_voucher_code sha256 (code_at (e_uuid e'))) amount VoucherActive
    campaign (clock (e_clock e')) expires None None).
  destruct (sql_insert_voucher _ _ b) as [[[] b1]|msg] eqn:Hins; [|done]. intros [= <- <- <-].
  destruct (insert_voucher_run b l (v_id v) v _ S5 eq_refl eq_refl b1 Hins) as (-> & Hid & Hh).
  eexists _, _. split; [done|]. split; [|done]. split; try done.
  exact (vouchers_sim_insert _ _ _ v Hid Hh S5).
Qed.

Lemma issue_agrees amount campaign expires now n b l e e' out b' e1 :
  books_sim b l -> e_uuid e = e_uuid e' -> (forall i, (i < n)%nat -> clock (e_clock e' + i) = now) ->
  mmap (replicate n tt) (fun _ => pg_issue_one amount campaign expires now) b e = (Ok out, b', e1) ->
  exists l' e2, create_vouchers sha256 amount n campaign expires l e' = (Ok out, l', e2) /\ books_sim b' l'.
Proof using Hfault Hclock.
  revert b l e e' out b' e1. induction n as [|n IH]; intros b l e e' out b' e1 Hs Hu Hclk; cbn [replicate mmap].
  { intros [= <- <- _]. by eexists _, _. }
  unfold create_vouchers. cbn [replicate mmap]. unfold bind at 1.
  destruct (pg_issue_one _ _ _ _ b e) as [[[x|err] b1] e2] eqn:Hone; [|done].
  destruct (issue_one_agrees amount campaign expires now b l e e' x b1 e2 Hs Hu) as (l1 & e3 & Hmem & Hs1 & Hu1 & Hc1);
    [rewrite <- (Hclk 0%nat) by lia; f_equal; lia|done|].
  unfold bind at 1. destruct (mmap _ _ b1 e2) as [[[out'|err] b2] e4] eqn:Hrest; [|done].
  intros [= <- <- _]. destruct (IH b1 l1 e2 e3 out' b2 e4 Hs1 Hu1) as (l2 & e5 & Hmem2 & Hs2); [|done|].
  { intros i Hi. rewrite Hc1, <- (Hclk (S i)) by lia. f_equal. lia. }
  exists l2, e5. split; [|done]. unfold bind at 1. rewrite Hmem. unfold bind. unfold create_vouchers in Hmem2.
  by rewrite Hmem2.
Qed.

Lemma agrees_issue amount n campaign expires b l e : books_sim b l ->
  book_admissible b e (BIssue amount n campaign expires) -> book_agrees (BIssue amount n campaign expires) b l e.
Proof using Hfault Hclock.
  intros Hs [Hok Hclk]. exists e. simpl. unfold book_answer, bind.
  destruct (pg_create_vouchers sha256 amount n campaign expires b e) as [[[out|err] b'] e1] eqn:Hrun; [|done].
  unfold pg_create_vouchers, bind at 1, pb_now, bind at 1, read_clock, mret at 1 in Hrun.
  rewrite (unix_time_i64 _ (Hclock (e_clock e))) in Hrun.
  destruct (issue_agrees amount campaign expires (clock (e_clock e)) n b l (bump_clock e) e out b' e1 Hs eq_refl Hclk Hrun)
    as (l' & e2 & -> & Hs'). by split.
Qed.

Lemma sim_redeemable b l h now : vouchers_sim (pb_vouchers b) (vouchers l) (voucher_by_hash l) ->
  (forall id r, pb_vouchers b !! id = Some r -> vr_hash r = h -> vr_expires_at r <> Some now) ->
  List.find (redeemable h now) (map_to_list (pb_vouchers b)) =
  id ← voucher_by_hash l !! h; v ← vouchers l !! id;
  if decide (v_status v = VoucherActive /\ from_option (fun x => x <? now) false (v_expires_at v) = false)
  then Some (id, voucher_row v) else None.
Proof.
  intros [V1 V2 V3] Hnow.
  assert (forall id v, vouchers l !! id = Some v -> v_code_hash v = h ->
    redeemable h now (id, voucher_row v) = bool_decide (v_status v = VoucherActive /\
      from_option (fun x => x <? now) false (v_expires_at v) = false)) as Hred.
  { intros id v Hv Hh. unfold redeemable. simpl. rewrite bool_decide_true by done. rewrite bool_decide_and. f_equal.
    - by destruct (v_status v).
    - destruct (v_expires_at v) as [x|] eqn:Hx; simpl; [|done].
      assert (x <> now). { intros ->. apply (Hnow id (voucher_row v)); [by rewrite V1, lookup_fmap, Hv|done|done]. }
      case_bool_decide as Hb; destruct (Z.ltb_spec now x); destruct (Z.ltb_spec x now); try lia; done. }
  destruct (voucher_by_hash l !! h) as [id|] eqn:Hh; simpl.
  - pose proof Hh as (v & Hv & Hvh)%V3. rewrite Hv. simpl.
    assert (forall id' row, pb_vouchers b !! id' = Some row -> vr_hash row = h -> id' = id /\ row = voucher_row v) as Huniq.
    { intros id' row. rewrite V1, lookup_fmap. intros (v' & Hv' & ->)%fmap_Some Hvh'.
      assert (voucher_by_hash l !! h = Some id') by (apply V3; by exists v'). split; congruence. }
    destruct (decide _) as [Hc|Hc].
    + apply find_entry; [by rewrite V1, lookup_fmap, Hv|rewrite (Hred id v Hv Hvh); by apply bool_decide_true|].
      intros id' row Hrow Hr. unfold redeemable in Hr. rewrite !andb_true_iff in Hr.
      destruct Hr as [[Hr%bool_decide_eq_true _] _]. by apply (Huniq _ _ Hrow Hr).
    + apply find_no_entry. intros id' row Hrow. destruct (decide (vr_hash row = h)) as [Hr|Hr].
      * destruct (Huniq _ _ Hrow Hr) as [-> ->]. rewrite (Hred id v Hv Hvh). by apply bool_decide_false.
      * unfold redeemable. by rewrite bool_decide_false.
  - apply find_no_entry. intros id row. rewrite V1, lookup_fmap. intros (v & Hv & ->)%fmap_Some.
    unfold redeemable. simpl. rewrite bool_decide_false; [done|]. intros Hvh.
    assert (voucher_by_hash l !! h = Some id) by (apply V3; by exists v). congruence.
Qed.

Definition used_voucher (t : TenantId) (now : Z) (v : CreditVoucher) : CreditVoucher :=
  mkVoucher (v_id v) (v_code_hash v) (v_amount_units v) VoucherUsed (v_campaign v) (v_created_at v) (v_expires_at v)
    (Some t) (Some now).

Lemma vouchers_sim_use p vs hs id v t now : vouchers_sim p vs hs -> vs !! id = Some v ->
  vouchers_sim (<[id := used_row t now (voucher_row v)]> p) (<[id := used_voucher t now v]> vs) hs.
Proof.
  intros [V1 V2 V3] Hv. split.
  - by rewrite V1, fmap_insert.
  - intros id' v' [[<- <-]|[_ ?]]%lookup_insert_Some; [exact (V2 _ _ Hv)|by apply V2].
  - intros h id'. rewrite V3. split.
    + intros (v' & Hv' & Hh). destruct (decide (id = id')) as [<-|Hne].
      * exists (used_voucher t now v). rewrite lookup_insert_eq. split; [done|]. simplify_eq. done.
      * exists v'. by rewrite lookup_insert_ne.
    + intros (v' & [[<- <-]|[Hne Hv']]%lookup_insert_Some & Hh); [by exists v|by exists v'].
Qed.

(** The in-memory redemption that pays. *)
Lemma redeem_mem_run h t now l e id v : voucher_by_hash l !! h = Some id -> vouchers l !! id = Some v ->
  v_status v = VoucherActive -> from_option (fun x => x <? now) false (v_expires_at v) = false ->
  let acc := default (mkAccount t 0 0 0) (credit_accounts l !! t) in
  let balance := i64_saturating_add (balance_units acc) (v_amount_units v) in
  let entry := mkTxn (uuid_v4 (e_uuid e)) t Voucher (v_amount_units v) None (Some (voucher_reference h))
    (Some "voucher redemption"%string) now (Some balance) in
  exists e' l', redeem_voucher h t now l e = (Ok (v_amount_units v), l', e') /\
    usage l' = usage l /\ pricing_versions l' = pricing_versions l /\ pricing_rules l' = pricing_rules l /\
    credit_accounts l' = <[t := mkAccount (default t (acc_tenant <$> credit_accounts l !! t)) balance (reserved_units acc) now]> (credit_accounts l) /\
    credit_transactions l' = <[uuid_v4 (e_uuid e) := entry]> (credit_transactions l) /\
    credit_txn_by_ref l' = <[voucher_reference h := uuid_v4 (e_uuid e)]> (credit_txn_by_ref l) /\
    vouchers l' = <[id := used_voucher t now v]> (vouchers l) /\ voucher_by_hash l' = voucher_by_hash l.
Proof.
  intros Hh Hv Hst Hx. unfold redeem_voucher, bind at 1, gets at 1. rewrite Hh. unfold bind at 1, gets at 1. rewrite Hv.
  rewrite decide_False by (intros Hn; by apply Hn). rewrite Hx.
  unfold bind, modify, credit, get_credit_account, gets, mret, led_now, read_clock, fresh_uuid, record_transaction, bind.
  simpl. destruct (credit_accounts l !! t) as [x|] eqn:Ha; simpl; eexists _, _; (split; [reflexivity|]); simpl;
    rewrite ?insert_insert_eq; done.
Qed.

Lemma redeem_mem_refused h t now l e :
  (forall id v, voucher_by_hash l !! h = Some id -> vouchers l !! id = Some v ->
     ~ (v_status v = VoucherActive /\ from_option (fun x => x <? now) false (v_expires_at v) = false)) ->
  exists msg, redeem_voucher h t now l e = (Err (InvalidRequest msg), l, e).
Proof.
  intros Hno. unfold redeem_voucher, bind, gets. destruct (voucher_by_hash l !! h) as [id|] eqn:Hh; [|by eexists].
  destruct (vouchers l !! id) as [v|] eqn:Hv; [|by eexists].
  destruct (decide (v_status v <> VoucherActive)) as [|Hst]; [by eexists|]. apply dec_stable in Hst.
  destruct (from_option _ false (v_expires_at v)) eqn:Hx; [by eexists|]. by destruct (Hno id v eq_refl Hv).
Qed.

Lemma pg_redeem_refused h t now b e : List.find (redeemable h now) (map_to_list (pb_vouchers b)) = None ->
  exists e', pg_redeem_voucher h t now b e = (Err (InvalidRequest "voucher invalid, expired or already used"), b, e').
Proof using Hfault Hclock.
  intros Hfind. unfold pg_redeem_voucher. match goal with |- context [transaction ?body b e] =>
    pose proof (transaction_run body b e) as Htx end.
  unfold bind at 1 in Htx. rewrite tx_exec_run in Htx. unfold sql_use_voucher in Htx. rewrite Hfind in Htx. exact Htx.
Qed.

(** A redemption whose entry and credit go through. *)
Lemma pg_redeem_run h t now b e id vr b1 b2 bal :
  List.find (redeemable h now) (map_to_list (pb_vouchers b)) = Some (id, vr) ->
  sql_insert_txn false (uuid_v4 (e_uuid e)) (redemption_row h t (vr_amount vr) now)
    (upd_vouchers <[id := used_row t now vr]> b) = Ok (true, b1) ->
  sql_upsert_balance t (vr_amount vr) now b1 = Ok (bal, b2) ->
  exists e', pg_redeem_voucher h t now b e = (Ok (vr_amount vr), b2, e').
Proof using Hfault Hclock.
  intros Hfind Hins Hup. unfold pg_redeem_voucher. match goal with |- context [transaction ?body b e] =>
    pose proof (transaction_run body b e) as Htx end.
  unfold bind in Htx. rewrite tx_exec_run in Htx. unfold sql_use_voucher in Htx. rewrite Hfind in Htx.
  unfold fresh_uuid in Htx. cbn [e_uuid bump_call] in Htx. rewrite tx_exec_run, Hins, tx_exec_run, Hup in Htx.
  exact Htx.
Qed.

Lemma agrees_redeem h t now b l e : books_sim b l -> book_admissible b e (BRedeem h t now) ->
  book_agrees (BRedeem h t now) b l e.
Proof using Hfault Hclock.
  intros Hs (Hnow & Hfree & Hroom). pose proof Hs as [S1 S2 S3 S4 S5]. exists e. simpl. unfold book_answer, bind at 1 2.
  pose proof (sim_redeemable b l h now S5 Hnow) as Hfind.
  destruct (voucher_by_hash l !! h) as [id|] eqn:Hh; simpl in Hfind; cycle 1.
  { destruct (pg_redeem_refused h t now b e Hfind) as (e1 & ->).
    destruct (redeem_mem_refused h t now l e) as (msg & ->); [by rewrite Hh|]. split; [|done]. split; [done|by eexists]. }
  pose proof Hh as (v & Hv & Hvh)%(vs_hashes _ _ _ S5). rewrite Hv in Hfind. simpl in Hfind.
  destruct (decide _) as [[Hst Hx]|Hc]; cycle 1.
  { destruct (pg_redeem_refused h t now b e Hfind) as (e1 & ->).
    destruct (redeem_mem_refused h t now l e) as (msg & ->); [|split; [|done]; split; [done|by eexists]].
    intros id' w. rewrite Hh. intros [= <-]. rewrite Hv. by intros [= <-]. }
  destruct (redeem_mem_run h t now l e id v Hh Hv Hst Hx) as (e' & l' & -> & M1 & M2 & M3 & M4 & M5 & M6 & M7 & M8).
  assert (pb_vouchers b !! id = Some (voucher_row v)) as Hrow by (by rewrite (vs_rows _ _ _ S5), lookup_fmap, Hv).
  destruct (Hroom id _ Hrow Hvh) as (Hid & Hamt & Hbal).
  set (row := redemption_row h t (v_amount_units v) now).
  set (b1 := upd_txns <[uuid_v4 (e_uuid e) := row]> (upd_vouchers <[id := used_row t now (voucher_row v)]> b)).
  destruct (upsert_balance_run b1 l t (v_amount_units v) now now S3 Hamt Hbal) as (pa & Hup & Hacc & Hsim).
  assert (sql_insert_txn false (uuid_v4 (e_uuid e)) row (upd_vouchers <[id := used_row t now (voucher_row v)]> b)
    = Ok (true, b1)) as Hins.
  { unfold sql_insert_txn. replace (reference_taken _ _) with false by (symmetry; exact Hfree).
    cbn [pb_txns upd_vouchers]. by rewrite Hid. }
  destruct (pg_redeem_run h t now b e id (voucher_row v) b1 _ _ Hfind Hins Hup) as (e3 & ->).
  split; [done|]. split; simpl; rewrite ?M1, ?M2, ?M3, ?M4, ?M5, ?M6, ?M7, ?M8; try done.
  - replace (default t (acc_tenant <$> credit_accounts l !! t)) with t; [done|].
    destruct (credit_accounts l !! t); simpl in *; congruence.
  - apply (entries_sim_insert _ _ _ (mkTxn (uuid_v4 (e_uuid e)) t Voucher (v_amount_units v) None
      (Some (voucher_reference h)) (Some "voucher redemption"%string) now _)); [| |done]; simpl.
    + rewrite (es_rows _ _ _ S4), lookup_fmap in Hid. by apply fmap_None in Hid.
    + intros r [= <-]. apply (reference_unused b l _ S4). rewrite (sim_reference_taken b l _ S4) in Hfree.
      by destruct (lookup_reference _ l).
  - by apply vouchers_sim_use.
Qed.

Lemma times_sorted {A} (f : Z -> Z) (time : A -> Z) (R : Z -> Z -> Prop) (l : list A) :
  (forall x y, f x <= f y -> R x y) -> StronglySorted R (time <$> sort_by_key (fun x => (f (time x), 0)) l).
Proof.
  intros HR. set (key := fun x => _). pose proof (by_key_total key). pose proof (by_key_trans key).
  pose proof (StronglySorted_merge_sort (by_key key) l) as Hs. unfold sort_by_key.
  induction Hs as [|x s Hs IH Hall]; simpl; constructor; [done|]. apply Forall_fmap. eapply Forall_impl; [exact Hall|].
  intros y Hxy. apply HR. unfold by_key, lex_le, key in Hxy. simpl in Hxy. lia.
Qed.

Lemma sorted_reverse (l : list Z) : StronglySorted Z.le l -> StronglySorted Z.ge (reverse l).
Proof.
  induction 1 as [|x l _ IH Hall]; [constructor|]. rewrite reverse_cons. apply StronglySorted_app_2; [|done|by repeat constructor].
  intros y z Hy ->%list_elem_of_singleton. rewrite elem_of_reverse in Hy. rewrite Forall_forall in Hall. specialize (Hall y Hy). lia.
Qed.

(** Sorting down is sorting up, read from the end. *)
Lemma sort_down {A} (time : A -> Z) (l : list A) :
  time <$> sort_by_key (fun x => (- time x, 0)) l = reverse (time <$> sort_by_key (fun x => (time x, 0)) l).
Proof.
  apply (StronglySorted_unique_strong Z.ge); [intros; lia| | |].
  - apply (times_sorted Z.opp). lia.
  - apply sorted_reverse, (times_sorted (fun z => z)). lia.
  - by rewrite reverse_Permutation, !sort_by_key_perm.
Qed.

Lemma agrees_vouchers n b l e : books_sim b l -> book_admissible b e (BVouchers n) -> book_agrees (BVouchers n) b l e.
Proof using Hfault Hclock.
  intros Hs Hn. pose proof Hs as [S1 S2 S3 S4 [V1 V2 V3]]. exists e. simpl in *.
  unfold book_answer, pg_list_vouchers, list_vouchers, gets, bind. rewrite (pg_query_run Hfault).
  assert (size (pb_vouchers b) = size (vouchers l)) as Hsize by (by rewrite V1, map_size_fmap).
  set (out := fun kv => match voucher_row_out kv with Ok x => x
    | Err _ => mkVoucher 0 EmptyString 0 VoucherUsed None 0 None None None end).
  rewrite !take_ge.
  - rewrite (mmap_out _ out).
    + split; [|done]. destruct (sort_keys_decode Z.opp out (fun kv => vr_created_at kv.2) v_created_at
        (map_to_list (pb_vouchers b)) (values (vouchers l))) as [Hperm Htimes]; [lia|..].
      3:{ split; [by rewrite Hperm, !sort_by_key_perm|]. rewrite Htimes. apply sort_down. }
      * rewrite V1, map_rows, <- list_fmap_compose. unfold values. symmetry.
        apply reflexive_eq, list_fmap_ext. intros i [id v] Hv%list_elem_of_lookup_2%elem_of_map_to_list.
        unfold compose, out. simpl. by rewrite voucher_row_out_row by (by apply V2).
      * intros kv. rewrite V1, map_rows, list_elem_of_fmap. intros ([id v] & -> & Hv%elem_of_map_to_list).
        unfold out. simpl. by rewrite voucher_row_out_row by (by apply V2).
    + intros kv. rewrite sort_by_key_perm, V1, map_rows, list_elem_of_fmap.
      intros ([id v] & -> & Hv%elem_of_map_to_list). unfold out. simpl. by rewrite voucher_row_out_row by (by apply V2).
  - rewrite (Permutation_length (sort_by_key_perm _ _)). unfold values. rewrite length_fmap, length_map_to_list. lia.
  - rewrite (Permutation_length (sort_by_key_perm _ _)), length_map_to_list. lia.
Qed.

(** ** Histories *)

Lemma book_request_refines op b l e : books_sim b l -> book_admissible b e op -> book_agrees op b l e.
Proof using Hfault Hclock.
  intros Hs Ha. destruct op.
  - by apply agrees_usage_add.
  - by apply agrees_usage_set.
  - by apply agrees_usage.
  - by apply agrees_publish.
  - by apply agrees_pricing.
  - by apply agrees_versions.
  - by apply agrees_account.
  - by apply agrees_entries.
  - by apply agrees_find.
  - by apply agrees_append.
  - by apply agrees_issue.
  - by apply agrees_redeem.
  - by apply agrees_vouchers.
Qed.

(** Admissible requests to the PostgreSQL books, one after the other. *)
Inductive book_history : PgBooks -> Eff -> list (BookOp * result CombeeError BookResp) -> PgBooks -> Prop :=
| book_history_nil b e : book_history b e [] b
| book_history_cons b e op r b1 e1 h b2 :
    book_admissible b e op -> run_book (H:=postgres_books sha256) op b e = (r, b1, e1) ->
    book_history b1 e1 h b2 -> book_history b e ((op, r) :: h) b2.

(** Requests to the in-memory books, each at some moment. *)
Inductive ledger_history : Ledger -> list (BookOp * result CombeeError BookResp) -> Ledger -> Prop :=
| ledger_history_nil l : ledger_history l [] l
| ledger_history_cons l e op r l1 e1 h l2 :
    run_book (H:=in_memory_books sha256) op l e = (r, l1, e1) ->
    ledger_history l1 h l2 -> ledger_history l ((op, r) :: h) l2.

Definition same_book_step (a a' : BookOp * result CombeeError BookResp) : Prop :=
  a.1 = a'.1 /\ same_book_outcome a.1 a.2 a'.2.

Lemma book_history_refines b l e h b' : books_sim b l -> book_history b e h b' ->
  exists h' l', ledger_history l h' l' /\ Forall2 same_book_step h h' /\ books_sim b' l'.
Proof using Hfault Hclock.
  intros Hs Hh. revert l Hs. induction Hh as [b e|b e op r b1 e1 h b2 Hadm Hrun _ IH]; intros l Hs.
  - exists [], l. split; [constructor|by split].
  - destruct (book_request_refines op b l e Hs Hadm) as (e' & Hag). rewrite Hrun in Hag.
    destruct (run_book op l e') as [[rl l1] el] eqn:Hl. destruct Hag as [Hr Hs1].
    destruct (IH l1 Hs1) as (h' & l' & Hm & Hf & Hs2). exists ((op, rl) :: h'), l'.
    split; [by econstructor|]. split; [by constructor|done].
Qed.

Lemma books_sim_empty : books_sim PgBooks_empty Ledger_empty.
Proof.
  split; split; simpl; intros *; rewrite ?lookup_empty, ?fmap_empty; try done.
  - split; [done|]. intros (rules & r & Hr & _). done.
  - split; [done|]. by intros (t & Ht & _).
  - split; [done|]. by intros (v & Hv & _).
Qed.

(** C6: the accounting half of [PostgresStore] keeps the books of
    [InMemoryStore]: every history of admissible requests that the empty
    PostgreSQL books can show when no statement fails, the in-memory books can
    show too, and in the end both hold the same usage, prices, balances, entries
    and vouchers. Request by request the outcomes are equal, but for what
    [same_book_answer] and [same_book_error] list: usage of no Cell under the
    nil uuid; rules with the version they are stored under; the time of the
    last change of an account; no [balance_after] in entries that are read
    back, those of a repeated append included; the order of usage rows and of
    rules; vouchers newest first instead of oldest first, those of one second
    in any order; and the words with which a voucher is refused. *)
Theorem pg_books_refine_ledger (e : Eff) (h : list (BookOp * result CombeeError BookResp)) (b : PgBooks) :
  book_history PgBooks_empty e h b ->
  exists h' l, ledger_history Ledger_empty h' l /\ Forall2 same_book_step h h' /\ books_sim b l.
Proof using Hfault Hclock. apply book_history_refines, books_sim_empty. Qed.

End refine.

(** ** A concrete history *)

Definition sample_key : UsageKey := mkUsageKey ledger_tenant (Some (mkDatabaseId 7)) KvRead 960.
Definition sample_rules : list PricingRule := [mkPricingRule 0 KvRead 1000 5].
Definition sample_book_ops : list BookOp :=
  [BUsageAdd sample_key 3; BPublish sample_rules; BAppend (grant 7 100 "welcome"); BAccount ledger_tenant].

(** The books and the outcomes after a list of requests. *)
Fixpoint run_books (ops : list BookOp) (b : PgBooks) (e : Eff)
    : list (BookOp * result CombeeError BookResp) * PgBooks :=
  match ops with
  | [] => ([], b)
  | op :: ops' =>
      let '(r, b1, e1) := run_book (H:=postgres_books (env:=env_still) id) op b e in
      let '(h, b2) := run_books ops' b1 e1 in ((op, r) :: h, b2)
  end.

Lemma sample_book_history :
  book_history (env:=env_still) id PgBooks_empty eff0 (run_books sample_book_ops PgBooks_empty eff0).1
    (run_books sample_book_ops PgBooks_empty eff0).2.
Proof.
  eapply book_history_cons; [|reflexivity|].
  { split; [discriminate|]. split; [split|]; vm_compute; discriminate. }
  eapply book_history_cons; [|reflexivity|].
  { split; [apply NoDup_singleton|]. vm_compute. split; discriminate. }
  eapply book_history_cons; [|reflexivity|].
  { intros _. split; [reflexivity|]. split; vm_compute; split; discriminate. }
  eapply book_history_cons; [exact I|reflexivity|constructor].
Qed.

Lemma pg_books_refine_ledger_witness :
  exists h' l, ledger_history (env:=env_still) id Ledger_empty h' l /\
    Forall2 same_book_step (run_books sample_book_ops PgBooks_empty eff0).1 h' /\
    books_sim (run_books sample_book_ops PgBooks_empty eff0).2 l.
Proof.
  exact (pg_books_refine_ledger (env:=env_still) id still_fault still_clock eff0 _ _ sample_book_history).
Defined.
