(* ===== verification/PgConcurrent.v ===== *)
(** Transactions of several API servers on one PostgreSQL database: the
    statements of [append_credit_transaction] and [redeem_voucher] interleave,
    rows and index entries that a transaction has written are locked until it
    ends, and it can be aborted at any point. The isolation level is READ
    COMMITTED, the server's default: a statement sees what is committed when it
    starts, and what its own transaction wrote. *)

From Stdlib Require Import ZArith Lia String Ascii.
From stdpp Require Import gmap strings list fin_maps sorting.
From S2P Require Import Prelude Common Kv Catalog Ledger Postgres PgBooks.

(** ** Jobs and phases *)

(** A call; [id] is the uuid the redemption draws for its entry. *)
Inductive Job :=
| JAppend (txn : CreditTransaction)
| JRedeem (code_hash : string) (tenant : TenantId) (now : Z) (id : N).

Definition Claim : Type := option (N * VoucherRow).

(** How far a call has come, with what its transaction has written. *)
Inductive Phase :=
| Idle
| Ready
| Claimed (voucher : N) (row : VoucherRow)
| Inserted (claim : Claim) (id : N) (row : TxnRow)
| Credited (claim : Claim) (id : N) (row : TxnRow) (account : Z * Z * Z)
| Conflict
| Finished (ok : bool).

Inductive Lock :=
| LVoucher (id : N)
| LEntry (id : N)
| LReference (r : string)
| LAccount (t : TenantId).

Definition entry_locks (id : N) (row : TxnRow) : list Lock :=
  LEntry id :: match tr_reference row with Some r => [LReference r] | None => [] end.

Definition claim_locks (c : Claim) : list Lock :=
  match c with Some (v, _) => [LVoucher v] | None => [] end.

Definition held (ph : Phase) : list Lock :=
  match ph with
  | Claimed v _ => [LVoucher v]
  | Inserted c id row => claim_locks c ++ entry_locks id row
  | Credited c id row _ => LAccount (tr_tenant row) :: claim_locks c ++ entry_locks id row
  | _ => []
  end.

Definition redeemer (j : Job) : TenantId * Z :=
  match j with JAppend txn => (txn_tenant txn, txn_created_at txn) | JRedeem _ t now _ => (t, now) end.

(** What a commit makes visible. *)
Definition commit_claim (j : Job) (c : Claim) (b : PgBooks) : PgBooks :=
  match c with
  | Some (v, r) => upd_vouchers <[v := used_row (redeemer j).1 (redeemer j).2 r]> b
  | None => b
  end.

Definition commit (j : Job) (c : Claim) (id : N) (row : TxnRow) (account : Z * Z * Z) (b : PgBooks) : PgBooks :=
  upd_accounts <[tr_tenant row := account]> (upd_txns <[id := row]> (commit_claim j c b)).

(** One statement of a call. [free l]: no other transaction holds [l]; a
    statement that needs a lock another one holds waits. A commit whose answer
    is lost has happened all the same. *)
Inductive tstep (free : Lock -> Prop) : Job -> PgBooks -> Phase -> PgBooks -> Phase -> Prop :=
| t_hit txn r kv b :
    reference_id txn = Some r -> sql_find_reference r b = Some kv ->
    tstep free (JAppend txn) b Idle b (Finished true)
| t_miss txn b :
    reference_taken (reference_id txn) b = false -> tstep free (JAppend txn) b Idle b Ready
| t_insert txn b b1 :
    sql_insert_txn true (txn_id txn) (txn_row txn) b = Ok (true, b1) ->
    Forall free (entry_locks (txn_id txn) (txn_row txn)) ->
    tstep free (JAppend txn) b Ready b (Inserted None (txn_id txn) (txn_row txn))
| t_conflict txn b b1 :
    sql_insert_txn true (txn_id txn) (txn_row txn) b = Ok (false, b1) ->
    tstep free (JAppend txn) b Ready b Conflict
| t_insert_error txn b msg :
    sql_insert_txn true (txn_id txn) (txn_row txn) b = Err msg ->
    tstep free (JAppend txn) b Ready b (Finished false)
| t_reread txn b :
    tstep free (JAppend txn) b Conflict b (Finished (reference_taken (reference_id txn) b))
| t_claim h t now id b v r :
    List.find (redeemable h now) (map_to_list (pb_vouchers b)) = Some (v, r) -> free (LVoucher v) ->
    tstep free (JRedeem h t now id) b Idle b (Claimed v r)
| t_invalid h t now id b b1 :
    sql_use_voucher h t now b = Ok (None, b1) -> tstep free (JRedeem h t now id) b Idle b (Finished false)
| t_redeem h t now id b v r b1 :
    sql_insert_txn false id (redemption_row h t (vr_amount r) now) b = Ok (true, b1) ->
    Forall free (entry_locks id (redemption_row h t (vr_amount r) now)) ->
    tstep free (JRedeem h t now id) b (Claimed v r) b
      (Inserted (Some (v, r)) id (redemption_row h t (vr_amount r) now))
| t_redeem_error h t now id b v r msg :
    sql_insert_txn false id (redemption_row h t (vr_amount r) now) b = Err msg ->
    tstep free (JRedeem h t now id) b (Claimed v r) b (Finished false)
| t_credit j b c id row balance b1 account :
    sql_upsert_balance (tr_tenant row) (tr_amount row) (tr_created_at row) b = Ok (balance, b1) ->
    pb_accounts b1 !! tr_tenant row = Some account -> free (LAccount (tr_tenant row)) ->
    tstep free j b (Inserted c id row) b (Credited c id row account)
| t_credit_error j b c id row msg :
    sql_upsert_balance (tr_tenant row) (tr_amount row) (tr_created_at row) b = Err msg ->
    tstep free j b (Inserted c id row) b (Finished false)
| t_commit j b c id row account ok :
    tstep free j b (Credited c id row account) (commit j c id row account b) (Finished ok).

(** ** The system *)

Record Sys := mkSys { sys_books : PgBooks; sys_threads : list (Job * Phase) }.

Definition free_for (ths : list (Job * Phase)) (i : nat) (l : Lock) : Prop :=
  forall k j ph, k <> i -> ths !! k = Some (j, ph) -> l ∉ held ph.

(** A call runs its next statement. *)
Inductive work_step : Sys -> Sys -> Prop :=
| sys_thread b b' ths i j ph ph' :
    ths !! i = Some (j, ph) -> tstep (free_for ths i) j b ph b' ph' ->
    work_step (mkSys b ths) (mkSys b' (<[i := (j, ph')]> ths)).

Definition finished (ph : Phase) : bool := match ph with Finished _ => true | _ => false end.

(** Or it is aborted: a statement fails or the connection is lost, what the
    transaction wrote is gone and its locks are released. *)
Inductive sys_step : Sys -> Sys -> Prop :=
| sys_work s s' : work_step s s' -> sys_step s s'
| sys_abort b ths i j ph :
    ths !! i = Some (j, ph) -> finished ph = false ->
    sys_step (mkSys b ths) (mkSys b (<[i := (j, Finished false)]> ths)).

Definition start (b : PgBooks) (jobs : list Job) : Sys := mkSys b ((fun j => (j, Idle)) <$> jobs).

(** ** The books *)

Definition pg_balance (b : PgBooks) (t : TenantId) : Z :=
  match pb_accounts b !! t with Some (x, _, _) => x | None => 0 end.

Definition row_amount (t : TenantId) (_ : N) (r : TxnRow) : Z :=
  if decide (tr_tenant r = t) then tr_amount r else 0.

Definition pg_total (b : PgBooks) (t : TenantId) : Z := map_sum (row_amount t) (pb_txns b).

Record books_ok (b : PgBooks) : Prop := {
  pg_books_balance : forall t, pg_balance b t = pg_total b t;
  pg_refs_unique : forall i k r s x, pb_txns b !! i = Some r -> pb_txns b !! k = Some s ->
    tr_reference r = Some x -> tr_reference s = Some x -> i = k;
  pg_used_paid : forall v r, pb_vouchers b !! v = Some r -> vr_status r = "used"%string ->
    exists id row t, pb_txns b !! id = Some row /\ tr_reference row = Some (voucher_reference (vr_hash r)) /\
      tr_amount row = vr_amount r /\ vr_redeemed_by r = Some t /\ tr_tenant row = t;
}.
