(* ===== verification/PgConcurrentSpec.v ===== *)
(** Concurrent transactions on the PostgreSQL books: in every interleaving,
    with aborts and lost answers, balances are the sums of the ledger, a
    reference is posted once and a voucher pays once; no interleaving
    deadlocks, and every one ends. *)

From Stdlib Require Import ZArith Lia String Ascii.
From stdpp Require Import gmap strings list fin_maps sorting relations.
From S2P Require Import Prelude Common Kv Catalog Ledger Postgres PgBooks PgConcurrent.

(** ** Statements *)

Lemma find_reference_none r b :
  sql_find_reference r b = None ->
  forall id row, pb_txns b !! id = Some row -> tr_reference row <> Some r.
Proof.
  unfold sql_find_reference. intros Hf id row Hrow Href.
  assert (In (id, row) (map_to_list (pb_txns b))) as Hin by by apply list_elem_of_In, elem_of_map_to_list.
  pose proof (List.find_none _ _ Hf _ Hin) as Hb. simpl in Hb. by rewrite bool_decide_eq_true_2 in Hb.
Qed.

(** The entry's id and reference are not in use. *)
Definition entry_free (b : PgBooks) (id : N) (row : TxnRow) : Prop :=
  pb_txns b !! id = None /\
  forall x i s, tr_reference row = Some x -> pb_txns b !! i = Some s -> tr_reference s <> Some x.

Lemma insert_txn_free on_conflict id row b b1 :
  sql_insert_txn on_conflict id row b = Ok (true, b1) -> entry_free b id row.
Proof.
  unfold sql_insert_txn, reference_taken, entry_free.
  destruct (tr_reference row) as [x|].
  - destruct (sql_find_reference x b) as [kv|] eqn:Hf; [by destruct on_conflict|].
    destruct (pb_txns b !! id); [done|]. intros _. split; [done|]. intros x' i s [= <-]. by apply find_reference_none.
  - destruct (pb_txns b !! id); [done|]. done.
Qed.

Lemma upsert_balance_account t amount now b balance b1 account :
  sql_upsert_balance t amount now b = Ok (balance, b1) -> pb_accounts b1 !! t = Some account ->
  account.1.1 = pg_balance b t + amount.
Proof.
  unfold sql_upsert_balance, pg_balance. destruct (pb_accounts b !! t) as [[[x y] z]|].
  - unfold bigint_add. destruct (i64_checked_add x amount) eqn:Hadd; [|done].
    apply i64_checked_add_Some in Hadd as [-> _]. intros [= <- <-]. simpl. rewrite lookup_insert_eq. by intros [= <-].
  - intros [= <- <-]. simpl. rewrite lookup_insert_eq. intros [= <-]. simpl. lia.
Qed.

Lemma find_redeemable h now b v r :
  List.find (redeemable h now) (map_to_list (pb_vouchers b)) = Some (v, r) ->
  pb_vouchers b !! v = Some r /\ vr_hash r = h /\ vr_status r = "active"%string.
Proof.
  intros Hf. apply List.find_some in Hf as [Hin Hr]. apply list_elem_of_In, elem_of_map_to_list in Hin.
  split; [done|]. unfold redeemable in Hr. apply andb_true_iff in Hr as [Hr _].
  apply andb_true_iff in Hr as [H1%bool_decide_eq_true H2%bool_decide_eq_true]. done.
Qed.

(** ** The invariant *)

Definition claim_ok (b : PgBooks) (j : Job) (c : Claim) (row : TxnRow) : Prop :=
  match c with
  | None => True
  | Some (v, r) => pb_vouchers b !! v = Some r /\ tr_reference row = Some (voucher_reference (vr_hash r)) /\
      tr_amount row = vr_amount r /\ tr_tenant row = (redeemer j).1
  end.

(** What a call knows of the books as long as it holds its locks. *)
Definition thread_ok (b : PgBooks) (j : Job) (ph : Phase) : Prop :=
  match ph with
  | Claimed v r => pb_vouchers b !! v = Some r /\
      match j with JRedeem h _ _ _ => vr_hash r = h | JAppend _ => False end
  | Ready | Conflict => match j with JAppend _ => True | JRedeem _ _ _ _ => False end
  | Inserted c id row => claim_ok b j c row /\ entry_free b id row
  | Credited c id row account => claim_ok b j c row /\ entry_free b id row /\
      account.1.1 = pg_balance b (tr_tenant row) + tr_amount row
  | _ => True
  end.

Record sys_ok (s : Sys) : Prop := {
  sys_books_ok : books_ok (sys_books s);
  sys_threads_ok : forall i j ph, sys_threads s !! i = Some (j, ph) -> thread_ok (sys_books s) j ph;
  sys_exclusive : forall i k j j' ph ph' l, i <> k -> sys_threads s !! i = Some (j, ph) ->
    sys_threads s !! k = Some (j', ph') -> l ∈ held ph -> l ∉ held ph';
}.

Lemma list_insert_cases {A} (l : list A) i k x y :
  <[i := x]> l !! k = Some y -> (k = i /\ y = x) \/ (k <> i /\ l !! k = Some y).
Proof.
  destruct (decide (k = i)) as [->|Hne].
  - intros Hl. left. split; [done|]. apply list_lookup_insert_Some in Hl as [(_ & -> & _)|[? _]]; done.
  - rewrite list_lookup_insert_ne by done. by right.
Qed.

(** A step that leaves the books: the call's own knowledge and its new locks. *)
Lemma sys_ok_local b ths i j ph ph' :
  sys_ok (mkSys b ths) -> ths !! i = Some (j, ph) -> thread_ok b j ph' ->
  (forall l, l ∈ held ph' -> l ∈ held ph \/ free_for ths i l) ->
  sys_ok (mkSys b (<[i := (j, ph')]> ths)).
Proof.
  intros [Hb Ht Hx] Hi Hok Hlocks. split; simpl in *; [done| |].
  - intros k j' ph2 [[-> [= -> ->]]|[Hne Hk]]%list_insert_cases; [done|by eapply Ht].
  - assert (forall k j2 ph2 l, k <> i -> ths !! k = Some (j2, ph2) -> l ∈ held ph' -> l ∉ held ph2) as Hnew.
    { intros k j2 ph2 l Hne Hk Hl. destruct (Hlocks l Hl) as [Hold|Hfree]; [by eapply (Hx i k)|by eapply Hfree]. }
    intros a k j1 j2 p1 p2 l Hne [[-> [= -> ->]]|[Hna Ha]]%list_insert_cases
      [[-> [= -> ->]]|[Hnk Hk]]%list_insert_cases Hl; [done|by eapply Hnew| |by eapply (Hx a k)].
    intros Hl'. by eapply (Hnew a).
Qed.

(** ** A commit *)

Lemma commit_balance b j c id row account t :
  pg_balance (commit j c id row account b) t = if decide (tr_tenant row = t) then account.1.1 else pg_balance b t.
Proof.
  unfold pg_balance, commit. simpl. destruct account as [[x y] z]. case_decide as Ht.
  - subst t. by rewrite lookup_insert_eq.
  - rewrite lookup_insert_ne by done. by destruct c as [[]|].
Qed.

Lemma commit_txns b j c id row account : pb_txns (commit j c id row account b) = <[id := row]> (pb_txns b).
Proof. unfold commit. simpl. by destruct c as [[]|]. Qed.

Lemma commit_vouchers b j c id row account :
  pb_vouchers (commit j c id row account b) =
  match c with
  | Some (v, r) => <[v := used_row (redeemer j).1 (redeemer j).2 r]> (pb_vouchers b)
  | None => pb_vouchers b
  end.
Proof. unfold commit. simpl. by destruct c as [[]|]. Qed.

Lemma commit_books b j c id row account :
  books_ok b -> thread_ok b j (Credited c id row account) -> books_ok (commit j c id row account b).
Proof.
  intros [Hbal Huniq Hused] (Hclaim & [Hid Href] & Hacc). split.
  - intros t. unfold pg_total. rewrite commit_balance, commit_txns, map_sum_insert_None by done.
    change (map_sum (row_amount t) (pb_txns b)) with (pg_total b t). rewrite <- Hbal. unfold row_amount.
    case_decide as Ht; [subst t; lia|lia].
  - intros i k r s x. rewrite commit_txns.
    intros [[<- <-]|[Hi Hr]]%lookup_insert_Some [[<- <-]|[Hk Hs]]%lookup_insert_Some Hx1 Hx2;
      [done|by destruct (Href _ _ _ Hx1 Hs)|by destruct (Href _ _ _ Hx2 Hr)|by eapply Huniq].
  - intros v r. rewrite commit_vouchers, commit_txns.
    assert (pb_vouchers b !! v = Some r -> vr_status r = "used"%string ->
      exists id' row' t, <[id := row]> (pb_txns b) !! id' = Some row' /\
        tr_reference row' = Some (voucher_reference (vr_hash r)) /\ tr_amount row' = vr_amount r /\
        vr_redeemed_by r = Some t /\ tr_tenant row' = t) as Hold.
    { intros Hv Hs. destruct (Hused _ _ Hv Hs) as (id' & row' & t & Hr & Hrest).
      exists id', row', t. rewrite lookup_insert_ne by congruence. done. }
    destruct c as [[w s]|]; [|exact Hold].
    intros [[<- <-]|[_ Hv]]%lookup_insert_Some; [|by apply Hold]. intros _.
    destruct Hclaim as (_ & H1 & H2 & H3). exists id, row, (redeemer j).1. by rewrite lookup_insert_eq.
Qed.

(** Another call's knowledge survives the commit: it has other locks. *)
Lemma commit_other b j c id row account j' ph' :
  thread_ok b j' ph' -> (forall l, l ∈ held (Credited c id row account) -> l ∉ held ph') ->
  thread_ok (commit j c id row account b) j' ph'.
Proof.
  intros Hok Hlocks.
  assert (forall v r, LVoucher v ∈ held ph' -> pb_vouchers b !! v = Some r ->
    pb_vouchers (commit j c id row account b) !! v = Some r) as Hv.
  { intros v r Hl Hr. rewrite commit_vouchers. destruct c as [[w s]|]; [|done].
    rewrite lookup_insert_ne; [done|]. intros ->. apply (Hlocks (LVoucher v)); [set_solver|done]. }
  assert (forall c' id' row', (forall l, l ∈ claim_locks c' ++ entry_locks id' row' -> l ∈ held ph') ->
    claim_ok b j' c' row' -> entry_free b id' row' ->
    claim_ok (commit j c id row account b) j' c' row' /\ entry_free (commit j c id row account b) id' row') as He.
  { intros c' id' row' Hsub Hc [Hid Href]. split.
    - destruct c' as [[v r]|]; [|done]. destruct Hc as [Hr Hc]. split; [|done].
      apply Hv; [|done]. apply Hsub. set_solver.
    - unfold entry_free. rewrite commit_txns. split.
      + rewrite lookup_insert_ne; [done|]. intros ->. apply (Hlocks (LEntry id')); [|apply Hsub];
          unfold held, entry_locks; set_solver.
      + intros x i s Hx [[<- <-]|[_ Hs]]%lookup_insert_Some; [|by eapply Href]. intros Hx'.
        apply (Hlocks (LReference x)); [|apply Hsub]; unfold held, entry_locks; rewrite ?Hx, ?Hx'; set_solver. }
  destruct ph' as [| |v r|c' id' row'|c' id' row' a| |]; simpl in *; try done.
  - destruct Hok as [Hr Hj]. split; [|done]. apply Hv; [set_solver|done].
  - destruct Hok as [Hc Hfree]. by apply He.
  - destruct Hok as (Hc & Hfree & Hacc). rewrite commit_balance, decide_False.
    + destruct (He c' id' row') as [H1 H2]; [set_solver|done|done|]. done.
    + intros Ht. apply (Hlocks (LAccount (tr_tenant row))); rewrite ?Ht; set_solver.
Qed.

(** ** Every step keeps the invariant *)

Lemma sys_ok_commit b ths i j c id row account ok :
  sys_ok (mkSys b ths) -> ths !! i = Some (j, Credited c id row account) ->
  sys_ok (mkSys (commit j c id row account b) (<[i := (j, Finished ok)]> ths)).
Proof.
  intros [Hb Ht Hx] Hi. simpl in *. split; simpl.
  - apply commit_books; [done|by eapply Ht].
  - intros k j' ph [[-> [= -> ->]]|[Hne Hk]]%list_insert_cases; [done|].
    apply commit_other; [by eapply Ht|]. intros l Hl. eapply (Hx i k); [done|exact Hi|exact Hk|exact Hl].
  - intros a k j1 j2 p1 p2 l Hne [[-> [= -> ->]]|[Hna Ha]]%list_insert_cases
      [[-> [= -> ->]]|[Hnk Hk]]%list_insert_cases Hl; simpl in *; [done|by apply not_elem_of_nil in Hl| |by eapply (Hx a k)].
    apply not_elem_of_nil.
Qed.

Lemma sys_ok_work s s' : work_step s s' -> sys_ok s -> sys_ok s'.
Proof.
  intros Hstep Hok. destruct Hstep as [b b' ths i j ph ph' Hi Ht].
  pose proof (sys_threads_ok _ Hok i j ph Hi) as Hph. simpl in Hph.
  destruct Ht as [txn r kv b _ _|txn b _|txn b b1 Hins Hfree|txn b b1 _|txn b msg _|txn b|h t now id b v r Hfind Hfree
    |h t now id b b1 _|h t now id b v r b1 Hins Hfree|h t now id b v r msg _|j b c id row bal b1 account Hup Hacc Hfree
    |j b c id row msg _|j b c id row account ok];
    try (eapply sys_ok_local; [exact Hok|exact Hi|exact I|intros l Hl; by apply not_elem_of_nil in Hl]).
  - eapply sys_ok_local; [exact Hok|exact Hi| |].
    + split; [done|by eapply insert_txn_free].
    + intros l Hl. right. rewrite Forall_forall in Hfree. by apply Hfree.
  - eapply sys_ok_local; [exact Hok|exact Hi| |].
    + destruct (find_redeemable _ _ _ _ _ Hfind) as (H1 & H2 & _). by split.
    + intros l Hl. apply list_elem_of_singleton in Hl as ->. by right.
  - eapply sys_ok_local; [exact Hok|exact Hi| |].
    + destruct Hph as [Hv Hh]. split; [|by eapply insert_txn_free]. simpl. by rewrite Hh.
    + intros l Hl. simpl in Hl. apply elem_of_cons in Hl as [->|Hl]; [left; apply list_elem_of_singleton; done|].
      right. rewrite Forall_forall in Hfree. by apply Hfree.
  - eapply sys_ok_local; [exact Hok|exact Hi| |].
    + destruct Hph as [Hc Hf]. split; [done|]. split; [done|]. by eapply upsert_balance_account.
    + intros l Hl. simpl in Hl. apply elem_of_cons in Hl as [->|Hl]; [by right|by left].
  - by apply sys_ok_commit.
Qed.

Lemma sys_ok_step s s' : sys_step s s' -> sys_ok s -> sys_ok s'.
Proof.
  intros [s1 s2 Hw|b ths i j ph Hi _] Hok; [by eapply sys_ok_work|].
  eapply sys_ok_local; [exact Hok|exact Hi|exact I|]. intros l Hl. by apply not_elem_of_nil in Hl.
Qed.

Lemma sys_ok_reach s s' : rtc sys_step s s' -> sys_ok s -> sys_ok s'.
Proof. induction 1; eauto using sys_ok_step. Qed.

Lemma sys_ok_start b jobs : books_ok b -> sys_ok (start b jobs).
Proof.
  intros Hb. split; simpl; [done| |].
  - intros i j ph Hi. rewrite list_lookup_fmap in Hi. apply fmap_Some in Hi as (? & _ & [= -> ->]). done.
  - intros i k j j' ph ph' l _ Hi _ Hl. rewrite list_lookup_fmap in Hi. apply fmap_Some in Hi as (? & _ & [= -> ->]).
    by apply not_elem_of_nil in Hl.
Qed.

(** C7: the books balance under concurrency: whatever calls of
    [append_credit_transaction] and [redeem_voucher] run at the same time, in
    whatever order their statements interleave, and wherever they are aborted
    or lose their answer, in every state reached every tenant's committed
    balance is the sum of its committed entries, no reference is posted twice,
    and a used voucher has paid its amount, once, to the tenant that redeemed
    it. *)
Theorem concurrent_books_ok (b : PgBooks) (jobs : list Job) (s : Sys) :
  books_ok b -> rtc sys_step (start b jobs) s -> books_ok (sys_books s).
Proof. intros Hb Hr. by apply sys_books_ok, (sys_ok_reach _ _ Hr), sys_ok_start. Qed.

(** ** Progress *)

(** The statements a call has left, at most. *)
Definition rank (ph : Phase) : nat :=
  match ph with
  | Idle => 5 | Ready | Claimed _ _ => 4 | Inserted _ _ _ => 3 | Credited _ _ _ _ => 2 | Conflict => 1
  | Finished _ => 0
  end.

Definition work_left (s : Sys) : nat := sum_list_with (fun t => rank t.2) (sys_threads s).

Lemma tstep_rank free j b ph b' ph' : tstep free j b ph b' ph' -> (rank ph' < rank ph)%nat.
Proof. destruct 1; simpl; lia. Qed.

Lemma sum_list_insert (ths : list (Job * Phase)) i j ph ph' :
  ths !! i = Some (j, ph) -> (rank ph' < rank ph)%nat ->
  (sum_list_with (fun t => rank t.2) (<[i := (j, ph')]> ths) < sum_list_with (fun t => rank t.2) ths)%nat.
Proof.
  revert i. induction ths as [|t ths IH]; intros [|i] Hi Hr; simpl in *; simplify_eq/=; [lia|].
  specialize (IH i Hi Hr). lia.
Qed.

Lemma sys_step_work s s' : sys_step s s' -> (work_left s' < work_left s)%nat.
Proof.
  intros [s1 s2 [b b' ths i j ph ph' Hi Ht]|b ths i j ph Hi Hf]; unfold work_left; simpl.
  - eapply sum_list_insert; [exact Hi|by eapply tstep_rank].
  - eapply sum_list_insert; [exact Hi|]. destruct ph; simpl in *; (lia || done).
Qed.

Lemma steps_bounded n s s' : nsteps sys_step n s s' -> (n + work_left s' <= work_left s)%nat.
Proof. induction 1 as [|n x y z Hs _ IH]; [lia|]. apply sys_step_work in Hs. lia. Qed.

Lemma start_work b jobs : work_left (start b jobs) = (5 * length jobs)%nat.
Proof.
  unfold work_left, start, sys_threads. induction jobs as [|j jobs IH]; [done|].
  rewrite fmap_cons. cbn [sum_list_with length snd rank]. rewrite IH. lia.
Qed.

(** Some call is in a phase of the given rank or none is. *)
Lemma phase_or_none (P : Phase -> bool) (ths : list (Job * Phase)) :
  (exists i j ph, ths !! i = Some (j, ph) /\ P ph = true) \/ (forall i j ph, ths !! i = Some (j, ph) -> P ph = false).
Proof.
  induction ths as [|[j0 ph0] ths IH]; [right; by intros|].
  destruct (P ph0) eqn:E; [left; by exists 0%nat, j0, ph0|].
  destruct IH as [(i & j & ph & Hi & Hp)|Hnone]; [left; by exists (S i), j, ph|].
  right. intros [|i] j ph Hi; simpl in Hi; [by simplify_eq|by eapply Hnone].
Qed.

Definition is_credited (ph : Phase) : bool := match ph with Credited _ _ _ _ => true | _ => false end.
Definition is_inserted (ph : Phase) : bool := match ph with Inserted _ _ _ => true | _ => false end.
Definition is_claimed (ph : Phase) : bool := match ph with Claimed _ _ => true | _ => false end.

(** Locks are taken in the order voucher, entry, account: when nobody is
    further on, nobody holds the next lock. *)
Lemma no_account_lock ths i t :
  (forall i j ph, ths !! i = Some (j, ph) -> is_credited ph = false) -> free_for ths i (LAccount t).
Proof.
  intros Hnone k j ph _ Hk Hl. specialize (Hnone k j ph Hk).
  destruct ph as [| |v r|c id row|c id row a| |]; simpl in *; try done; unfold claim_locks, entry_locks in *;
    repeat case_match; set_solver.
Qed.

Lemma no_entry_lock ths i id row :
  (forall i j ph, ths !! i = Some (j, ph) -> is_credited ph = false) ->
  (forall i j ph, ths !! i = Some (j, ph) -> is_inserted ph = false) ->
  Forall (free_for ths i) (entry_locks id row).
Proof.
  intros Hc Hins. apply Forall_forall. intros l Hl k j ph _ Hk Hl'. specialize (Hc k j ph Hk). specialize (Hins k j ph Hk).
  unfold entry_locks in Hl. destruct ph; simpl in *; try done; repeat case_match; set_solver.
Qed.

Lemma no_voucher_lock ths i v :
  (forall i j ph, ths !! i = Some (j, ph) -> is_credited ph = false) ->
  (forall i j ph, ths !! i = Some (j, ph) -> is_inserted ph = false) ->
  (forall i j ph, ths !! i = Some (j, ph) -> is_claimed ph = false) -> free_for ths i (LVoucher v).
Proof.
  intros Hc Hins Hcl k j ph _ Hk Hl. specialize (Hc k j ph Hk). specialize (Hins k j ph Hk). specialize (Hcl k j ph Hk).
  destruct ph; simpl in *; try done; set_solver.
Qed.

(** The next statement of a call whose locks are free. *)
Lemma inserted_step free j b c id row :
  (forall t, free (LAccount t)) -> exists b' ph', tstep free j b (Inserted c id row) b' ph'.
Proof.
  intros Hfree. destruct (sql_upsert_balance (tr_tenant row) (tr_amount row) (tr_created_at row) b) as [[bal b1]|msg] eqn:E.
  - assert (is_Some (pb_accounts b1 !! tr_tenant row)) as [a Ha].
    { unfold sql_upsert_balance in E. destruct (pb_accounts b !! tr_tenant row) as [[[x y] z]|].
      - destruct (bigint_add x _); [|done]. injection E as <- <-. simpl. rewrite lookup_insert_eq. by eexists.
      - injection E as <- <-. simpl. rewrite lookup_insert_eq. by eexists. }
    exists b, (Credited c id row a). by eapply t_credit.
  - exists b, (Finished false). by eapply t_credit_error.
Qed.

Lemma append_step free txn b :
  (forall id row, Forall free (entry_locks id row)) -> exists b' ph', tstep free (JAppend txn) b Ready b' ph'.
Proof.
  intros Hfree. destruct (sql_insert_txn true (txn_id txn) (txn_row txn) b) as [[[] b1]|msg] eqn:E; eexists b, _.
  - by eapply t_insert.
  - by eapply t_conflict.
  - by eapply t_insert_error.
Qed.

Lemma redeem_step free h t now id b v r :
  (forall id row, Forall free (entry_locks id row)) ->
  exists b' ph', tstep free (JRedeem h t now id) b (Claimed v r) b' ph'.
Proof.
  intros Hfree. destruct (sql_insert_txn false id (redemption_row h t (vr_amount r) now) b) as [[[] b1]|msg] eqn:E.
  - eexists b, _. by eapply t_redeem.
  - unfold sql_insert_txn in E. destruct (reference_taken _ b); [done|]. by destruct (pb_txns b !! id).
  - eexists b, _. by eapply t_redeem_error.
Qed.

Lemma idle_step free j b :
  (forall v, free (LVoucher v)) -> exists b' ph', tstep free j b Idle b' ph'.
Proof.
  intros Hfree. destruct j as [txn|h t now id].
  - destruct (reference_taken (reference_id txn) b) eqn:E.
    + unfold reference_taken in E. destruct (reference_id txn) as [r|] eqn:Hr; [|done].
      destruct (sql_find_reference r b) as [kv|] eqn:Hf; [|done]. eexists b, _. by eapply t_hit.
    + eexists b, _. by apply t_miss.
  - destruct (List.find (redeemable h now) (map_to_list (pb_vouchers b))) as [[v r]|] eqn:Hf.
    + eexists b, _. by eapply t_claim.
    + eexists b, _. eapply (t_invalid _ _ _ _ _ _ b). unfold sql_use_voucher. by rewrite Hf.
Qed.

Lemma conflict_or_idle (ph : Phase) :
  is_credited ph = false -> is_inserted ph = false -> is_claimed ph = false -> finished ph = false ->
  ph = Idle \/ ph = Ready \/ ph = Conflict.
Proof. destruct ph; simpl; auto; done. Qed.

(** The call furthest on can run. *)
Lemma sys_progress s i j ph :
  sys_ok s -> sys_threads s !! i = Some (j, ph) -> finished ph = false -> exists s', work_step s s'.
Proof.
  destruct s as [b ths]. intros Hok Hi Hf. simpl in *.
  assert (forall k j ph, ths !! k = Some (j, ph) ->
    (exists b' ph', tstep (free_for ths k) j b ph b' ph') -> exists s', work_step (mkSys b ths) s') as Hgo.
  { intros k j0 ph0 Hk (b' & ph' & Ht). eexists. by eapply sys_thread. }
  destruct (phase_or_none is_credited ths) as [(k & jk & phk & Hk & Hp)|Hc].
  { apply (Hgo _ _ _ Hk). destruct phk; try done. eexists _, _. by apply (t_commit _ _ _ _ _ _ _ true). }
  destruct (phase_or_none is_inserted ths) as [(k & jk & phk & Hk & Hp)|Hins].
  { apply (Hgo _ _ _ Hk). destruct phk; try done. apply inserted_step. intros t. by apply no_account_lock. }
  destruct (phase_or_none is_claimed ths) as [(k & jk & phk & Hk & Hp)|Hcl].
  { apply (Hgo _ _ _ Hk). pose proof (sys_threads_ok _ Hok k _ _ Hk) as Ht. destruct phk; try done.
    destruct jk; [by destruct Ht|]. apply redeem_step. intros. by apply no_entry_lock. }
  apply (Hgo _ _ _ Hi). pose proof (sys_threads_ok _ Hok i _ _ Hi) as Ht.
  destruct (conflict_or_idle ph) as [->|[->| ->]]; [by eapply Hc|by eapply Hins|by eapply Hcl|done|..].
  - apply idle_step. intros v. by apply no_voucher_lock.
  - destruct j; [|done]. apply append_step. intros. by apply no_entry_lock.
  - destruct j; [|done]. eexists _, _. apply t_reread.
Qed.

(** C26: concurrent calls on the books always finish: a run of [n] calls takes
    at most [5 n] statements, aborts included, and as long as a call has not
    finished some call can run its next statement, so that no interleaving
    deadlocks and every run that goes on ends with all calls finished. *)
Theorem concurrent_calls_finish (b : PgBooks) (jobs : list Job) (n : nat) (s : Sys) :
  books_ok b -> nsteps sys_step n (start b jobs) s ->
  (n <= 5 * length jobs)%nat /\
  (forall i j ph, sys_threads s !! i = Some (j, ph) -> finished ph = false -> exists s', work_step s s') /\
  exists s', rtc work_step s s' /\ forall i j ph, sys_threads s' !! i = Some (j, ph) -> finished ph = true.
Proof.
  intros Hb Hn. pose proof (steps_bounded _ _ _ Hn) as Hbound. rewrite start_work in Hbound.
  assert (sys_ok s) as Hok by (eapply sys_ok_reach; [by eapply rtc_nsteps_2|by apply sys_ok_start]).
  split; [lia|]. split; [intros i j ph; by apply sys_progress|]. clear Hn Hbound.
  remember (work_left s) as w eqn:Hw. revert s Hok Hw. induction (lt_wf w) as [w _ IH]. intros s Hok ->.
  destruct (phase_or_none (fun ph => negb (finished ph)) (sys_threads s)) as [(i & j & ph & Hi & Hp)|Hall].
  - apply negb_true_iff in Hp. destruct (sys_progress s i j ph Hok Hi Hp) as [s1 H1].
    destruct (IH (work_left s1) (sys_step_work _ _ (sys_work _ _ H1)) s1 (sys_ok_work _ _ H1 Hok) eq_refl) as (s2 & H2 & Hend).
    exists s2. split; [by eapply rtc_l|done].
  - exists s. split; [done|]. intros i j ph Hi. apply Hall in Hi. by apply negb_false_iff in Hi.
Qed.

(** ** One call alone *)

Section alone.
Context {env : Env}.

Definition alone (j : Job) (b : PgBooks) (ph : Phase) : Sys := mkSys b [(j, ph)].

Lemma alone_free j ph l : free_for [(j, ph)] 0 l.
Proof. intros [|k] j' ph' Hne Hk; [done|by destruct k]. Qed.

Lemma alone_step j b ph b' ph' :
  tstep (free_for [(j, ph)] 0) j b ph b' ph' -> sys_step (alone j b ph) (alone j b' ph').
Proof. intros Ht. apply sys_work. by apply (sys_thread b b' [(j, ph)] 0 j ph ph'). Qed.

Lemma alone_abort j b ph : finished ph = false -> sys_step (alone j b ph) (alone j b (Finished false)).
Proof. intros Hf. by apply (sys_abort b [(j, ph)] 0 j ph). Qed.

Definition ends (j : Job) (b : PgBooks) (ph : Phase) (b' : PgBooks) : Prop :=
  exists ok, rtc sys_step (alone j b ph) (alone j b' (Finished ok)).

Lemma ends_now j b ok : ends j b (Finished ok) b.
Proof. by exists ok. Qed.

Lemma ends_abort j b ph : finished ph = false -> ends j b ph b.
Proof. intros Hf. exists false. by apply rtc_once, alone_abort. Qed.

Lemma ends_step j b ph b1 ph1 b' :
  tstep (free_for [(j, ph)] 0) j b ph b1 ph1 -> ends j b1 ph1 b' -> ends j b ph b'.
Proof. intros Ht [ok Hr]. exists ok. eapply rtc_l; [by apply alone_step|done]. Qed.

(** The end of a transaction that has written entry and account. *)
Lemma ends_commit {A} j b c id row account (a : A) b2 e :
  b2 = commit j c id row account b ->
  ends j b (Credited c id row account)
    (match fallible pg_internal b e with
     | (Err err, _, e2) => (Err err, b, e2)
     | (Ok _, _, e2) => (do! fallible pg_internal in mret a) b2 e2
     end).1.2.
Proof.
  intros ->. unfold fallible at 1. destruct (fault (e_call e)); simpl; [by apply ends_abort|].
  unfold bind, fallible. destruct (fault _); simpl; (eapply ends_step; [apply (t_commit _ _ _ _ _ _ _ true)|apply ends_now]).
Qed.

Lemma upsert_books t amount now b balance b1 :
  sql_upsert_balance t amount now b = Ok (balance, b1) ->
  exists account, b1 = upd_accounts <[t := account]> b /\ pb_accounts b1 !! t = Some account.
Proof.
  unfold sql_upsert_balance. intros E. destruct (pb_accounts b !! t) as [[[x y] z]|].
  - destruct (bigint_add x amount) as [v|]; [|done]. injection E as <- <-. eexists. split; [done|]. apply lookup_insert_eq.
  - injection E as <- <-. eexists. split; [done|]. apply lookup_insert_eq.
Qed.

(** The second half of both calls: the entry is written in the transaction,
    the account follows, then the commit. *)
Lemma ends_credit {A} j b c id row (a : Z -> A) b1 e :
  pb_accounts b1 = pb_accounts b -> 
  (forall account, upd_accounts <[tr_tenant row := account]> b1 = commit j c id row account b) ->
  ends j b (Inserted c id row)
    (match (let! balance := tx_exec (sql_upsert_balance (tr_tenant row) (tr_amount row) (tr_created_at row)) in
            mret (TxCommit (a balance))) b1 e with
     | (Err err, _, e1) => (Err err, b, e1)
     | (Ok (TxRollback a), _, e1) => (do! fallible pg_internal in mret a) b e1
     | (Ok (TxCommit a), s1, e1) =>
         match fallible pg_internal b e1 with
         | (Err err, _, e2) => (Err err, b, e2)
         | (Ok _, _, e2) => (do! fallible pg_internal in mret a) s1 e2
         end
     end).1.2.
Proof.
  intros Hacc Hcommit. unfold tx_exec at 1, bind at 1 2, fallible at 1.
  destruct (fault (e_call e)); [by apply ends_abort|].
  destruct (sql_upsert_balance (tr_tenant row) (tr_amount row) (tr_created_at row) b1) as [[bal b2]|msg] eqn:E;
    [|by apply ends_abort].
  destruct (upsert_books _ _ _ _ _ _ E) as (account & -> & Ha).
  assert (exists b3, sql_upsert_balance (tr_tenant row) (tr_amount row) (tr_created_at row) b = Ok (bal, b3) /\
    pb_accounts b3 !! tr_tenant row = Some account) as (b3 & E3 & H3).
  { unfold sql_upsert_balance in *. rewrite Hacc in E. destruct (pb_accounts b !! tr_tenant row) as [[[x y] z]|].
    - destruct (bigint_add x _) as [v|]; [|done]. injection E as <- E. eexists. split; [done|]. simpl.
      rewrite lookup_insert_eq. apply (f_equal (lookup (tr_tenant row))) in E. rewrite !lookup_insert_eq in E. done.
    - injection E as <- E. eexists. split; [done|]. simpl.
      rewrite lookup_insert_eq. apply (f_equal (lookup (tr_tenant row))) in E. rewrite !lookup_insert_eq in E. done. }
  eapply ends_step; [eapply t_credit; [exact E3|exact H3|apply alone_free]|].
  by apply ends_commit.
Qed.

Lemma find_ref_run r b e :
  exists out e', pg_find_transaction_by_reference r b e = (out, b, e') /\
    (out = Ok None -> sql_find_reference r b = None) /\
    (forall t, out = Ok (Some t) -> exists kv, sql_find_reference r b = Some kv).
Proof.
  unfold pg_find_transaction_by_reference, pg_query, bind, fallible, gets.
  destruct (fault (e_call e)); [by eexists _, _|].
  destruct (sql_find_reference r b) as [kv|] eqn:Hf; [|by eexists _, _].
  unfold mlift. destruct (row_to_txn kv); eexists _, _; (split; [done|]; split; [done|]); [by eauto|done].
Qed.

Lemma insert_txn_out on_conflict id row b ok b1 :
  sql_insert_txn on_conflict id row b = Ok (ok, b1) -> b1 = if ok then upd_txns <[id := row]> b else b.
Proof.
  unfold sql_insert_txn. destruct (reference_taken _ b); [destruct on_conflict; naive_solver|].
  destruct (pb_txns b !! id); naive_solver.
Qed.

Lemma append_transaction_alone txn b e :
  ends (JAppend txn) b Ready (transaction (
    let! inserted := tx_exec (sql_insert_txn true (txn_id txn) (txn_row txn)) in
    if (inserted : bool) then
      let! balance := tx_exec (sql_upsert_balance (txn_tenant txn) (amount_units txn) (txn_created_at txn)) in
      mret (TxCommit (Some balance))
    else mret (TxRollback None)) b e).1.2.
Proof.
  unfold transaction. unfold bind at 1, fallible at 1. destruct (fault (e_call e)); [by apply ends_abort|].
  unfold bind at 1, tx_exec at 1, bind at 1, fallible at 1. destruct (fault _); [by apply ends_abort|].
  destruct (sql_insert_txn true (txn_id txn) (txn_row txn) b) as [[ok b1]|msg] eqn:E; [|by apply ends_abort].
  pose proof (insert_txn_out _ _ _ _ _ _ E) as Hb1. destruct ok.
  - subst b1. eapply ends_step; [eapply t_insert; [exact E|apply Forall_forall; intros; apply alone_free]|].
    by apply (ends_credit _ _ _ _ (txn_row txn)).
  - simpl. unfold bind, fallible. destruct (fault _); by apply ends_abort.
Qed.

Lemma append_alone txn b e : ends (JAppend txn) b Idle (pg_append_credit_transaction txn b e).1.2.
Proof.
  unfold pg_append_credit_transaction. unfold bind at 1.
  assert (exists out e1, (match reference_id txn with
      | Some r => pg_find_transaction_by_reference r | None => mret None end) b e = (out, b, e1) /\
    (out = Ok None -> reference_taken (reference_id txn) b = false)) as (out & e1 & -> & Hmiss).
  { destruct (reference_id txn) as [r|]; [|by eexists _, _].
    destruct (find_ref_run r b e) as (out & e1 & Hrun & Hn & _). exists out, e1. split; [done|].
    intros ->. simpl. by rewrite Hn. }
  destruct out as [[t|]|err]; [by apply ends_abort| |by apply ends_abort].
  eapply ends_step; [apply t_miss, Hmiss; done|]. unfold bind at 1.
  pose proof (append_transaction_alone txn b e1) as Htx.
  destruct (transaction _ b e1) as [[[[bal|]|err] b1] e2]; simpl in Htx; [exact Htx| |exact Htx].
  unfold bind. destruct (find_ref_run (default EmptyString (reference_id txn)) b1 e2) as (out & e3 & -> & _).
  by destruct out as [[t|]|err].
Qed.

Lemma redeem_alone h t now b e :
  ends (JRedeem h t now (uuid_v4 (e_uuid e))) b Idle (pg_redeem_voucher h t now b e).1.2.
Proof.
  unfold pg_redeem_voucher, transaction. unfold bind at 1, fallible at 1.
  destruct (fault (e_call e)); [by apply ends_abort|].
  unfold bind at 1, tx_exec at 1, bind at 1, fallible at 1. destruct (fault _); [by apply ends_abort|].
  unfold sql_use_voucher.
  destruct (List.find (redeemable h now) (map_to_list (pb_vouchers b))) as [[v r]|] eqn:Hf; [|by apply ends_abort].
  eapply ends_step; [eapply t_claim; [exact Hf|apply alone_free]|].
  unfold bind at 1, fresh_uuid. simpl e_uuid. set (row := redemption_row h t (vr_amount r) now).
  set (b0 := upd_vouchers <[v := used_row t now r]> b).
  unfold bind at 1, tx_exec at 1, bind at 1, fallible at 1. destruct (fault _); [by apply ends_abort|].
  assert (forall x, match sql_insert_txn false x row b0, sql_insert_txn false x row b with
    | Ok (ok, _), Ok (ok', _) => ok = ok' | Err _, Err _ => True | _, _ => False end) as Hsame.
  { intros x. unfold sql_insert_txn. change (reference_taken (tr_reference row) b0) with (reference_taken (tr_reference row) b).
    change (pb_txns b0) with (pb_txns b). destruct (reference_taken _ b); [done|]. by destruct (pb_txns b !! x). }
  specialize (Hsame (uuid_v4 (e_uuid e))).
  destruct (sql_insert_txn false (uuid_v4 (e_uuid e)) row b0) as [[ok b1]|msg] eqn:E; [|by apply ends_abort].
  pose proof (insert_txn_out _ _ _ _ _ _ E) as Hb1. destruct ok.
  - destruct (sql_insert_txn false (uuid_v4 (e_uuid e)) row b) as [[ok' b2]|] eqn:E2; [subst ok'|done].
    eapply ends_step; [eapply t_redeem; [exact E2|apply Forall_forall; intros; apply alone_free]|]. subst b1.
    by apply (ends_credit _ _ (Some (v, r)) _ row (fun _ => vr_amount r)).
  - unfold sql_insert_txn in E. destruct (reference_taken _ _); [done|]. by destruct (pb_txns b0 !! _).
Qed.

(** The interleavings are those of the program: a call of
    [append_credit_transaction] or [redeem_voucher] that runs alone, under any
    pattern of faults, is a run of the system with one job, and leaves the
    books that this run leaves. *)
Theorem call_is_run (b : PgBooks) (e : Eff) :
  (forall txn, exists ok, rtc sys_step (start b [JAppend txn])
     (mkSys (pg_append_credit_transaction txn b e).1.2 [(JAppend txn, Finished ok)])) /\
  (forall h t now, exists ok, rtc sys_step (start b [JRedeem h t now (uuid_v4 (e_uuid e))])
     (mkSys (pg_redeem_voucher h t now b e).1.2 [(JRedeem h t now (uuid_v4 (e_uuid e)), Finished ok)])).
Proof. split; intros; [apply append_alone|apply redeem_alone]. Qed.

End alone.

(** ** A concrete run *)

Lemma books_ok_empty : books_ok PgBooks_empty.
Proof.
  split; simpl.
  - intros t. unfold pg_balance, pg_total. simpl. by rewrite lookup_empty, map_sum_empty.
  - intros i k r s x Hi. by rewrite lookup_empty in Hi.
  - intros v r Hv. by rewrite lookup_empty in Hv.
Qed.

Definition grant (id : N) : CreditTransaction :=
  mkTxn id (mkTenantId 1) Grant 500 None (Some "grant:1"%string) None 1000 None.

(** Two calls post the same grant: both have looked and not found it, the
    first has inserted its entry, and now the second waits for it. *)
Definition grant_race : Sys :=
  mkSys PgBooks_empty [(JAppend (grant 10), Inserted None 10 (txn_row (grant 10))); (JAppend (grant 11), Ready)].

Lemma grant_race_run : nsteps sys_step 3 (start PgBooks_empty [JAppend (grant 10); JAppend (grant 11)]) grant_race.
Proof.
  unfold start. eapply nsteps_l.
  { eapply sys_work, (sys_thread _ PgBooks_empty _ 0 (JAppend (grant 10)) Idle Ready); [done|]. by apply t_miss. }
  eapply nsteps_l.
  { eapply sys_work, (sys_thread _ PgBooks_empty _ 1 (JAppend (grant 11)) Idle Ready); [done|]. by apply t_miss. }
  eapply nsteps_l; [|apply nsteps_O].
  change (sys_step (mkSys PgBooks_empty [(JAppend (grant 10), Ready); (JAppend (grant 11), Ready)])
    (mkSys PgBooks_empty (<[0%nat := (JAppend (grant 10), Inserted None 10 (txn_row (grant 10)))]>
      [(JAppend (grant 10), Ready); (JAppend (grant 11), Ready)]))).
  eapply sys_work, (sys_thread _ PgBooks_empty _ 0 (JAppend (grant 10)) Ready (Inserted None 10 (txn_row (grant 10)))); [done|].
  eapply t_insert; [vm_compute; reflexivity|]. apply Forall_forall. intros l _ [|[|k]] j ph Hne Hk; try done.
  simpl in Hk. injection Hk as <- <-. apply not_elem_of_nil.
Qed.

Lemma concurrent_books_ok_witness : books_ok (sys_books grant_race).
Proof.
  apply (concurrent_books_ok PgBooks_empty [JAppend (grant 10); JAppend (grant 11)] grant_race books_ok_empty).
  exact (rtc_nsteps_2 _ _ _ grant_race_run).
Defined.

Lemma concurrent_calls_finish_witness :
  (3 <= 10)%nat /\ exists s', work_step grant_race s'.
Proof.
  destruct (concurrent_calls_finish PgBooks_empty [JAppend (grant 10); JAppend (grant 11)] 3 grant_race
    books_ok_empty grant_race_run) as (Hn & Hgo & _).
  split; [exact Hn|]. apply (Hgo 1%nat (JAppend (grant 11)) Ready); reflexivity.
Defined.
