(* ===== verification/PgOnce.v ===== *)
(** Double spending (crates/metadata/src/postgres.rs): calls that post the same
    reference at the same time, in every interleaving of their statements. *)

From Stdlib Require Import ZArith Lia String Ascii.
From stdpp Require Import gmap strings list fin_maps sorting relations.
From S2P Require Import Prelude Common Kv Catalog Ledger Postgres PgBooks PgConcurrent PgConcurrentSpec.

Section once.
Context (b0 : PgBooks) (r : string) (t : TenantId) (amount : Z).

(** A call that posts [amount] to [t] under the reference [r]. *)
Definition posts (txn : CreditTransaction) : Prop :=
  reference_id txn = Some r /\ txn_tenant txn = t /\ amount_units txn = amount.

(** None of the calls has committed, or one has. *)
Definition pending_books (b : PgBooks) : Prop := pb_txns b = pb_txns b0.
Definition posted_books (b : PgBooks) : Prop :=
  exists txn, posts txn /\ pb_txns b0 !! txn_id txn = None /\
    pb_txns b = <[txn_id txn := txn_row txn]> (pb_txns b0).

Definition call_ok (b : PgBooks) (j : Job) (ph : Phase) : Prop :=
  exists txn, j = JAppend txn /\ posts txn /\
    match ph with
    | Inserted c id row | Credited c id row _ => c = None /\ id = txn_id txn /\ row = txn_row txn
    | Finished true => posted_books b
    | Claimed _ _ => False
    | _ => True
    end.

Record once_ok (s : Sys) : Prop := {
  once_sys : sys_ok s;
  once_books : pending_books (sys_books s) \/ posted_books (sys_books s);
  once_calls : forall i j ph, sys_threads s !! i = Some (j, ph) -> call_ok (sys_books s) j ph;
}.

Context (Hnone : sql_find_reference r b0 = None).

Lemma pending_no_reference b id row : pending_books b -> pb_txns b !! id = Some row -> tr_reference row <> Some r.
Proof using Hnone. unfold pending_books. intros -> Hrow. by eapply find_reference_none. Qed.

(** A reference that is found has been posted. *)
Lemma found_posted b kv :
  pending_books b \/ posted_books b -> sql_find_reference r b = Some kv -> posted_books b.
Proof using Hnone.
  intros [Hp|Hp] Hf; [|done]. unfold sql_find_reference in *. unfold pending_books in Hp. rewrite Hp in Hf.
  by rewrite Hnone in Hf.
Qed.

Lemma call_ok_books b b' j ph :
  (posted_books b -> posted_books b') -> call_ok b j ph -> call_ok b' j ph.
Proof. intros Hb (txn & -> & Hp & Hph). exists txn. destruct ph as [| | | | | |[]]; auto. Qed.

Lemma once_work s s' : work_step s s' -> once_ok s -> once_ok s'.
Proof using Hnone.
  intros Hstep Hs. pose proof (sys_ok_work _ _ Hstep (once_sys _ Hs)) as Hsys.
  destruct Hstep as [b b' ths i j ph ph' Hi Ht]. destruct Hs as [Hok Hbooks Hcalls]. simpl in *.
  pose proof (Hcalls _ _ _ Hi) as (txn & -> & Hp & Hph). pose proof (sys_threads_ok _ Hok _ _ _ Hi) as Hth.
  assert ((pending_books b' \/ posted_books b') /\ (posted_books b -> posted_books b') /\ call_ok b' (JAppend txn) ph')
    as (Hb' & Hmono & Hcall).
  { destruct Hp as (Hr & Htn & Ham).
    inversion Ht; subst; simplify_eq/=; try done; try (split; [done|]; split; [done|]; by exists txn).
    - split; [done|]. split; [done|]. exists txn. split; [done|]. split; [done|]. by eapply found_posted.
    - split; [done|]. split; [done|]. exists txn. split; [done|]. split; [done|]. unfold reference_taken. rewrite Hr.
      destruct (sql_find_reference r b') as [kv|] eqn:Hf; [by eapply found_posted | done].
    - destruct Hph as (-> & -> & ->). destruct Hth as (_ & Hfree & _).
      assert (pending_books b) as Hpend.
      { destruct Hbooks as [|(txn' & Hp' & _ & Hb)]; [done|]. exfalso. destruct Hfree as [_ Hfree].
        apply (Hfree r (txn_id txn') (txn_row txn')); [done| |apply Hp']. rewrite Hb. apply lookup_insert_eq. }
      assert (posted_books (commit (JAppend txn) None (txn_id txn) (txn_row txn) account b)) as Hpost.
      { exists txn. split; [done|]. rewrite commit_txns, <- Hpend. split; [apply Hfree|done]. }
      split; [by right|]. split; [done|]. exists txn. by destruct ok. }
  split; simpl; [done|done|].
  intros k j' ph2 [[-> [= -> ->]]|[Hne Hk]]%list_insert_cases; [done|].
  eapply call_ok_books; [exact Hmono|]. by eapply Hcalls.
Qed.

Lemma once_step s s' : sys_step s s' -> once_ok s -> once_ok s'.
Proof using Hnone.
  intros Hstep Hs. destruct Hstep as [s s' Hw|b ths i j ph Hi Hf]; [by eapply once_work|].
  pose proof (sys_ok_step _ _ (sys_abort b ths i j ph Hi Hf) (once_sys _ Hs)) as Hsys.
  destruct Hs as [Hok Hbooks Hcalls]. split; simpl in *; [done|done|].
  intros k j' ph2 [[-> [= -> ->]]|[Hne Hk]]%list_insert_cases; [|by eapply Hcalls].
  destruct (Hcalls _ _ _ Hi) as (txn & -> & Hp & _). by exists txn.
Qed.

Lemma once_reach s s' : rtc sys_step s s' -> once_ok s -> once_ok s'.
Proof using Hnone. induction 1; [done|]. intros Hs. by eauto using once_step. Qed.

Lemma once_start txns : books_ok b0 -> Forall posts txns -> once_ok (start b0 (JAppend <$> txns)).
Proof.
  intros Hb Hall. split; [by apply sys_ok_start | by left|]. unfold start. simpl. intros i j ph Hi.
  apply list_lookup_fmap_Some in Hi as (j0 & Heq & Hj). simplify_eq.
  apply list_lookup_fmap_Some in Hj as (txn & -> & Htxn).
  exists txn. split; [done|]. split; [|done]. by eapply Forall_lookup_1.
Qed.

(** The entries under the reference. *)
Definition entries_under (b : PgBooks) : list (N * TxnRow) :=
  filter (fun kv => tr_reference kv.2 = Some r) (map_to_list (pb_txns b)).

Lemma no_entries_under : entries_under b0 = [].
Proof using Hnone.
  unfold entries_under. destruct (filter _ _) as [|[id row] l] eqn:Hl; [done|]. exfalso.
  assert ((id, row) ∈ filter (fun kv => tr_reference kv.2 = Some r) (map_to_list (pb_txns b0))) as Hin by (rewrite Hl; left).
  apply list_elem_of_filter in Hin as [Href Hin]. apply elem_of_map_to_list in Hin.
  by eapply find_reference_none.
Qed.

Lemma posted_entries b : posted_books b -> length (entries_under b) = 1%nat.
Proof using Hnone.
  intros (txn & (Href & _) & Hfree & Hb). unfold entries_under. rewrite Hb.
  rewrite (map_to_list_insert _ _ _ Hfree). rewrite filter_cons_True by done.
  fold (entries_under b0). by rewrite no_entries_under.
Qed.

Lemma posted_total b u : posted_books b -> pg_total b u = pg_total b0 u + if decide (u = t) then amount else 0.
Proof.
  intros (txn & (_ & Ht & Ham) & Hfree & Hb). unfold pg_total. rewrite Hb, map_sum_insert_None by done.
  unfold row_amount at 1. simpl. rewrite Ht, Ham. repeat case_decide; simplify_eq; lia.
Qed.

End once.

(** C8: However many calls post an amount under one reference at the same time,
    however their statements interleave and whichever of them are aborted or
    have their answer lost: once one call has reported success the ledger has
    exactly one entry under the reference, the tenant's balance has risen by
    the amount once, and the other balances are what they were; before, and
    if none succeeds, the amount counts once or not at all. *)
Theorem reference_posts_once (b : PgBooks) (r : string) (t : TenantId) (amount : Z)
    (txns : list CreditTransaction) (s : Sys) :
  books_ok b -> sql_find_reference r b = None -> Forall (posts r t amount) txns ->
  rtc sys_step (start b (JAppend <$> txns)) s ->
  let gain k u := pg_balance (sys_books s) u = pg_balance b u + if decide (u = t) then k * amount else 0 in
  (exists k, (k = 0 \/ k = 1) /\ Z.of_nat (length (entries_under r (sys_books s))) = k /\ forall u, gain k u) /\
  ((exists i j, sys_threads s !! i = Some (j, Finished true)) ->
    length (entries_under r (sys_books s)) = 1%nat /\ forall u, gain 1 u).
Proof.
  intros Hb Hnone Hall Hsteps gain.
  pose proof (once_reach b r t amount Hnone _ _ Hsteps (once_start b r t amount txns Hb Hall)) as Hs.
  assert (books_ok (sys_books s)) as [Hbal _ _] by apply Hs. destruct Hb as [Hbal0 _ _].
  assert (posted_books b r t amount (sys_books s) ->
    length (entries_under r (sys_books s)) = 1%nat /\ forall u, gain 1 u) as Hposted.
  { intros Hp. split; [by eapply posted_entries|]. intros u. unfold gain. rewrite Hbal, Hbal0.
    rewrite (posted_total b r t amount _ u Hp). case_decide; lia. }
  split.
  - destruct (once_books _ _ _ _ _ Hs) as [Hp|Hp].
    + exists 0. split; [by left|]. unfold entries_under, gain, pg_total in *. unfold pending_books in Hp.
      split; [rewrite Hp; fold (entries_under r b); by rewrite no_entries_under|].
      intros u. rewrite Hbal, Hbal0. unfold pg_total. rewrite Hp. case_decide; lia.
    + exists 1. destruct (Hposted Hp) as [Hlen Hgain]. split; [by right|]. by rewrite Hlen.
  - intros (i & j & Hi). apply Hposted. by destruct (once_calls _ _ _ _ _ Hs i j _ Hi) as (txn & _ & _ & Hp).
Qed.

(** The first of the two calls of [grant_race] goes on to commit. *)
Definition grant_done : Sys :=
  mkSys (commit (JAppend (grant 10)) None 10 (txn_row (grant 10)) (500, 0, 1000) PgBooks_empty)
    [(JAppend (grant 10), Finished true); (JAppend (grant 11), Ready)].

Lemma grant_done_run : rtc sys_step grant_race grant_done.
Proof.
  eapply rtc_l.
  { eapply sys_work, (sys_thread _ _ _ 0 (JAppend (grant 10)) _ (Credited None 10 (txn_row (grant 10)) (500, 0, 1000)));
      [reflexivity|]. eapply t_credit; [reflexivity | reflexivity|].
    intros [|[|k]] j ph Hne Hk; try done. simpl in Hk. injection Hk as <- <-. apply not_elem_of_nil. }
  change grant_done with (mkSys (commit (JAppend (grant 10)) None 10 (txn_row (grant 10)) (500, 0, 1000) PgBooks_empty)
    (<[0%nat := (JAppend (grant 10), Finished true)]>
      [(JAppend (grant 10), Credited None 10 (txn_row (grant 10)) (500, 0, 1000)); (JAppend (grant 11), Ready)])).
  apply rtc_once, sys_work. eapply sys_thread; [reflexivity|]. apply t_commit.
Qed.

Lemma reference_posts_once_witness :
  length (entries_under "grant:1" (sys_books grant_done)) = 1%nat /\
  pg_balance (sys_books grant_done) (mkTenantId 1) = 500.
Proof.
  destruct (reference_posts_once PgBooks_empty "grant:1" (mkTenantId 1) 500 [grant 10; grant 11] grant_done)
    as [_ Hsome].
  - apply books_ok_empty.
  - reflexivity.
  - repeat constructor.
  - etransitivity; [exact (rtc_nsteps_2 _ _ _ grant_race_run) | exact grant_done_run].
  - destruct Hsome as [Hlen Hgain]; [exists 0%nat; eexists; reflexivity|]. split; [exact Hlen|].
    rewrite (Hgain (mkTenantId 1)). reflexivity.
Defined.
