(* ===== verification/Billing.v ===== *)
(** crates/api-server: [pricing.rs], [usage.rs] and [settlement.rs], from
    metering requests to charging credits. The metadata store is reached by
    calls that can fail; a failed call has no effect on the store. *)

From Stdlib Require Import ZArith Lia String Ascii.
From stdpp Require Import gmap strings list fin_maps sorting.
From S2P Require Import Prelude Common Kv Catalog Ledger.

(** ** What the meter needs from the store *)

Class UsageSink (T : Type) := {
  sink_add : UsageKey -> Z -> M T CombeeError unit;
  sink_total : T -> UsageKey -> Z;
}.

(** Adding succeeds and adds once, or fails and adds nothing. *)
Class UsageSinkLaws (T : Type) `{UsageSink T} := {
  sink_add_spec : forall k d s e k',
    let '(r, s', _) := sink_add k d s e in
    sink_total s' k' =
    if is_Ok r && bool_decide (k' = k) then u64_add (sink_total s k) d else sink_total s k';
}.

(** [InMemoryStore], behind a call that may fail. *)
Definition store_call {env : Env} {S A} (m : M S CombeeError A) : M S CombeeError A :=
  do! fallible Internal in m.

#[export] Instance ledger_sink {env : Env} : UsageSink Ledger := {|
  sink_add k d := store_call (usage_add k d);
  sink_total l k := default 0 (usage l !! k);
|}.

#[export] Instance ledger_sink_laws {env : Env} : UsageSinkLaws Ledger.
Proof.
  split. intros k d s e k'. simpl. unfold store_call, bind, fallible, usage_add, modify.
  destruct (fault _); [done|]. simpl. case_bool_decide as Hk.
  - subst. by rewrite lookup_insert_eq.
  - by rewrite lookup_insert_ne by congruence.
Qed.

(** ** usage.rs *)

Record AuthContext := mkAuthContext { auth_tenant : TenantId; auth_internal : bool }.

Section meter.
Context {env : Env} {T : Type} `{UsageSink T}.

Record UsageMeter := mkUsageMeter { counters : gmap UsageKey Z; sink : T }.

Abbreviation MeterM := (M UsageMeter CombeeError).

Definition bump_counter (key : UsageKey) (delta : Z) (m : UsageMeter) : UsageMeter :=
  mkUsageMeter (<[key := u64_add (default 0 (counters m !! key)) delta]> (counters m)) (sink m).

Definition record_usage (tenant : TenantId) (cell : option DatabaseId) (metric : UsageMetric) (delta : Z)
    : MeterM unit :=
  if delta =? 0 then mret tt else
  let! now := read_clock in
  modify (bump_counter (mkUsageKey tenant cell metric (bucket_start now)) delta).

Definition record_billed (auth : AuthContext) (cell : option DatabaseId) (metric : UsageMetric) (delta : Z)
    : MeterM unit :=
  if auth_internal auth then mret tt else record_usage (auth_tenant auth) cell metric delta.

Definition pending (m : UsageMeter) : nat := size (counters m).

Definition on_sink {A} (c : M T CombeeError A) : MeterM A :=
  zoom sink (fun s m => mkUsageMeter (counters m) s) c.

(** Writes a batch key by key; a key that fails goes back to the counters. *)
Fixpoint flush_batch (batch : list (UsageKey * Z)) (flushed : nat) : MeterM nat :=
  match batch with
  | [] => mret flushed
  | (key, delta) :: rest =>
      let! r := attempt (on_sink (sink_add key delta)) in
      match r with
      | Ok _ => flush_batch rest (flushed + 1)
      | Err _ => do! modify (bump_counter key delta) in flush_batch rest flushed
      end
  end.

Definition flush_once : MeterM nat :=
  let! batch := gets (fun m => map_to_list (counters m)) in
  if decide (batch = []) then mret 0%nat else
  do! modify (fun m => mkUsageMeter ∅ (sink m)) in
  flush_batch batch 0.

End meter.
Arguments UsageMeter T : clear implicits.

(** ** pricing.rs *)

(** The price list in force and the store it is loaded from. *)
Record PricingManager := mkPricingManager { current : PricingConfig; pm_store : Ledger }.

Section pricing.
Context {env : Env}.

Abbreviation PriceM := (M PricingManager CombeeError).

Definition on_store {A} (c : M Ledger CombeeError A) : PriceM A :=
  zoom pm_store (fun l m => mkPricingManager (current m) l) (store_call c).

Definition rule_invalid (r : PricingRule) : bool := (pr_unit_size r <=? 0) || (pr_price_units r <=? 0).

Definition rules_map (rules : list PricingRule) : gmap UsageMetric (Z * Z) :=
  foldl (fun m r => <[pr_metric r := (pr_unit_size r, pr_price_units r)]> m) ∅ rules.

Definition refresh : PriceM bool :=
  let! (version, rules) := on_store get_active_pricing in
  if decide (pv_status version <> PricingActive) then mret false else
  if existsb rule_invalid rules then mret false else
  let! cur := gets current in
  if pc_version cur =? pv_version version then mret false else
  do! modify (fun m => mkPricingManager
        (mkPricingConfig (pv_version version) (pv_effective_at version) (rules_map rules)) (pm_store m)) in
  mret true.

(** [configured] is COMBEE_STORAGE_PRICE_MICROCREDITS_PER_GB_HOUR, parsed. *)
Definition seed_default_pricing (configured : option Z) : PriceM unit :=
  let! (version, _) := on_store get_active_pricing in
  if 0 <? pv_version version then mret tt else
  let price_units := match configured with
                     | Some v => if 0 <? v then v else DEFAULT_STORAGE_PRICE_UNITS_PER_GB_HOUR
                     | None => DEFAULT_STORAGE_PRICE_UNITS_PER_GB_HOUR
                     end in
  do! on_store (create_pricing_version
        [mkPricingRule 0 StorageByteSecs BYTE_SECS_PER_GB_HOUR price_units]) in
  mret tt.

End pricing.

(** ** settlement.rs *)

Definition DEFAULT_TENANT : TenantId := mkTenantId 1.

Record Settlement := mkSettlement {
  st_catalog : Catalog;
  st_ledger : Ledger;
  st_pricing : PricingConfig;
  last_settled_bucket : Z;
}.

Section settlement.
Context {env : Env} `{UuidText}.

Abbreviation SettleM := (M Settlement CombeeError).

Definition on_catalog {A} (c : M Catalog CombeeError A) : SettleM A :=
  zoom st_catalog (fun x s => mkSettlement x (st_ledger s) (st_pricing s) (last_settled_bucket s)) (store_call c).
Definition on_ledger {A} (c : M Ledger CombeeError A) : SettleM A :=
  zoom st_ledger (fun x s => mkSettlement (st_catalog s) x (st_pricing s) (last_settled_bucket s)) (store_call c).

(** The buckets a round settles: from the watermark (the last minute when
    there is none) up to the minute before the present one. *)
Definition settle_window (last now : Z) : option (Z * Z) :=
  let current_bucket := bucket_start now in
  let last := if last =? 0 then current_bucket - 60 else last in
  if current_bucket <=? last then None else Some (last, current_bucket - 60).

(** Usage per metric over all Cells; [+=] on [u64]. *)
Definition aggregate (buckets : list UsageBucket) : gmap UsageMetric Z :=
  foldl (fun m b => <[ub_metric b := u64_add (default 0 (m !! ub_metric b)) (ub_value b)]> m) ∅ buckets.

Definition usage_reference (tenant : TenantId) (metric : UsageMetric) (last version : Z) : string :=
  "usage:" +:+ uuid_to_string (tenant_uuid tenant) +:+ ":" +:+ metric_as_str metric +:+ ":" +:+
  i64_to_string last +:+ ":" +:+ i64_to_string version.

(** Charges one metric; a failed entry is logged and skipped. *)
Definition settle_metric (pricing : PricingConfig) (tenant : TenantId) (last now : Z)
    (metric : UsageMetric) (total : Z) : SettleM nat :=
  if decide (metric = StorageBytes) then mret 0%nat else
  let credits := rate pricing metric total in
  if credits =? 0 then mret 0%nat else
  let! id := fresh_uuid in
  let txn := mkTxn id tenant Usage (- credits) (Some (pc_version pricing))
    (Some (usage_reference tenant metric last (pc_version pricing)))
    (Some ("usage " +:+ metric_as_str metric +:+ "(" +:+ i64_to_string total +:+ ")")) now None in
  let! r := attempt (on_ledger (append_credit_transaction txn)) in
  mret (if is_Ok r then 1%nat else 0%nat).

Definition settle_tenant (pricing : PricingConfig) (last upto now : Z) (tenant : TenantId) : SettleM nat :=
  let! buckets := on_ledger (query_usage tenant None None last upto) in
  let! written := mmap (map_to_list (aggregate buckets))
    (fun mt => settle_metric pricing tenant last now mt.1 mt.2) in
  mret (sum_list written).

Definition settle_once : SettleM nat :=
  let! now := read_clock in
  let! last := gets last_settled_bucket in
  match settle_window last now with
  | None => mret 0%nat
  | Some (from, upto) =>
      let! pricing := gets st_pricing in
      let! tenants := on_catalog list_tenants in
      let ids := t_id <$> tenants in
      let ids := if decide (DEFAULT_TENANT ∈ ids) then ids else ids ++ [DEFAULT_TENANT] in
      let! written := mmap ids (settle_tenant pricing from upto now) in
      do! modify (fun s => mkSettlement (st_catalog s) (st_ledger s) (st_pricing s) (bucket_start now)) in
      mret (sum_list written)
  end.

End settlement.
