(* ===== verification/BillingSpec.v ===== *)
(** What billing guarantees: metered usage is neither lost nor counted twice
    by a flush, settlement rounds cover every minute once, an invalid price
    list never comes into force; and where double charges are possible. *)

From Stdlib Require Import ZArith Lia String Ascii.
From stdpp Require Import gmap strings list fin_maps sorting.
From S2P Require Import Prelude Common Kv Catalog Ledger LedgerSpec Billing.

(** ** Flushing *)

Section flush.
Context {env : Env} {T : Type} `{UsageSinkLaws T}.

(** What a batch holds for a key. *)
Definition amount_in (batch : list (UsageKey * Z)) (k : UsageKey) : Z :=
  foldr (fun kd acc => (if decide (kd.1 = k) then kd.2 else 0) + acc) 0 batch.

Lemma amount_in_perm l1 l2 k : l1 ≡ₚ l2 -> amount_in l1 k = amount_in l2 k.
Proof. induction 1; simpl; lia. Qed.

Lemma amount_in_map (m : gmap UsageKey Z) k : amount_in (map_to_list m) k = default 0 (m !! k).
Proof.
  induction m as [|j v m Hj IH] using map_ind; [by rewrite map_to_list_empty, lookup_empty|].
  rewrite (amount_in_perm _ _ k (map_to_list_insert m j v Hj)). simpl. rewrite IH.
  destruct (decide (j = k)) as [->|Hne]; [rewrite lookup_insert_eq, Hj; simpl; lia|].
  by rewrite lookup_insert_ne.
Qed.

(** Everything metered for a key: stored and still pending. *)
Definition metered (m : UsageMeter T) (k : UsageKey) : Z :=
  sink_total (sink m) k + default 0 (counters m !! k).

Lemma wrap_u64_add_l a b : wrap_u64 (wrap_u64 a + b) = wrap_u64 (a + b).
Proof. unfold wrap_u64. apply Z.add_mod_idemp_l. lia. Qed.

Lemma bump_counter_metered key d m k :
  wrap_u64 (metered (bump_counter key d m) k) = wrap_u64 (metered m k + if decide (key = k) then d else 0).
Proof.
  unfold metered, bump_counter. simpl. destruct (decide (key = k)) as [<-|Hne].
  - rewrite lookup_insert_eq. simpl. unfold u64_add.
    rewrite Z.add_comm, wrap_u64_add_l. f_equal. lia.
  - rewrite lookup_insert_ne by done. f_equal. lia.
Qed.

Lemma on_sink_metered key d m e :
  let '(r, m', _) := on_sink (sink_add key d) m e in
  counters m' = counters m /\
  forall k, wrap_u64 (metered m' k) =
    wrap_u64 (metered m k + if is_Ok r && bool_decide (key = k) then d else 0).
Proof.
  unfold on_sink, zoom. pose proof (fun k' => sink_add_spec key d (sink m) e k') as Hs.
  destruct (sink_add key d (sink m) e) as [[r s'] e']. split; [done|]. intros k.
  unfold metered. simpl. rewrite Hs. destruct (is_Ok r); simpl.
  - case_bool_decide as H1; case_bool_decide as H2; try congruence.
    + subst k. unfold u64_add. rewrite wrap_u64_add_l. f_equal. lia.
    + f_equal. lia.
  - f_equal. lia.
Qed.

Lemma flush_batch_metered batch n m e :
  let '(r, m', _) := flush_batch batch n m e in
  is_Ok r = true /\ forall k, wrap_u64 (metered m' k) = wrap_u64 (metered m k + amount_in batch k).
Proof.
  revert n m e. induction batch as [|[key d] rest IH]; intros n m e; simpl.
  - split; [done|]. intros k. f_equal. lia.
  - unfold bind at 1, attempt. pose proof (on_sink_metered key d m e) as Hs.
    destruct (on_sink (sink_add key d) m e) as [[r m1] e1]. destruct Hs as [_ Hs].
    destruct r as [u|err].
    + specialize (IH (n + 1)%nat m1 e1). destruct (flush_batch rest (n + 1) m1 e1) as [[r2 m2] e2].
      destruct IH as [Hok Hk]. split; [done|]. intros k. rewrite Hk.
      rewrite <- wrap_u64_add_l, Hs, wrap_u64_add_l. simpl. f_equal.
      case_bool_decide; case_decide; try congruence; lia.
    + unfold bind, modify. specialize (IH n (bump_counter key d m1) e1).
      destruct (flush_batch rest n (bump_counter key d m1) e1) as [[r2 m2] e2].
      destruct IH as [Hok Hk]. split; [done|]. intros k. rewrite Hk.
      rewrite <- wrap_u64_add_l, bump_counter_metered, wrap_u64_add_l.
      rewrite <- Z.add_assoc, <- wrap_u64_add_l, Hs, wrap_u64_add_l. simpl. f_equal. lia.
Qed.

(** A flush neither loses usage nor counts it twice, whichever of its
    writes fail: for every key, what is stored plus what is pending is the
    same before and after (in 64-bit arithmetic), and the flush returns. *)
Theorem flush_conserves (m : UsageMeter T) (e : Eff) :
  let '(r, m', _) := flush_once m e in
  is_Ok r = true /\
  forall k, wrap_u64 (sink_total (sink m') k + default 0 (counters m' !! k)) =
            wrap_u64 (sink_total (sink m) k + default 0 (counters m !! k)).
Proof.
  unfold flush_once, bind at 1, gets. case_decide as Hb; [done|].
  unfold bind at 1, modify.
  pose proof (flush_batch_metered (map_to_list (counters m)) 0 (mkUsageMeter ∅ (sink m)) e) as Hf.
  destruct (flush_batch _ _ _ _) as [[r m'] e']. destruct Hf as [Hok Hk]. split; [done|].
  intros k. specialize (Hk k). rewrite amount_in_map in Hk. unfold metered in Hk. simpl in Hk.
  rewrite lookup_empty in Hk. simpl in Hk. rewrite Hk. f_equal. lia.
Qed.

End flush.

(** A store whose second call fails: the key goes back and is flushed later. *)
Definition env_flaky : Env := {|
  clock _ := 1000; instant _ := 0; uuid_v4 n := N.of_nat n;
  fault n := if (n =? 1)%nat then Some "connection reset"%string else None |}.

Definition usage_key (n : N) : UsageKey := mkUsageKey (mkTenantId n) None KvRead 960.

Lemma flush_conserves_witness :
  let m := mkUsageMeter (<[usage_key 1 := 5]> (<[usage_key 2 := 7]> ∅)) Ledger_empty in
  let '(r, m', _) := flush_once (H:=ledger_sink (env:=env_flaky)) m eff0 in
  is_Ok r = true /\
  wrap_u64 (sink_total (UsageSink:=ledger_sink (env:=env_flaky)) (sink m') (usage_key 1) +
    default 0 (counters m' !! usage_key 1)) = 5.
Proof.
  pose proof (flush_conserves (H0:=ledger_sink_laws (env:=env_flaky))
    (mkUsageMeter (<[usage_key 1 := 5]> (<[usage_key 2 := 7]> ∅)) Ledger_empty) eff0) as Hf.
  cbv zeta. destruct (flush_once _ eff0) as [[r m'] e']. destruct Hf as [Hok Hk].
  split; [exact Hok|]. rewrite Hk. reflexivity.
Defined.

(** ** Settlement windows *)

(** The windows of successive rounds and the watermark they leave. *)
Fixpoint windows (last : Z) (nows : list Z) : list (Z * Z) * Z :=
  match nows with
  | [] => ([], last)
  | now :: rest =>
      match settle_window last now with
      | None => windows last rest
      | Some w => let '(ws, final) := windows (bucket_start now) rest in (w :: ws, final)
      end
  end.

Definition covers (b : Z) (w : Z * Z) : bool := (w.1 <=? b) && (b <=? w.2).

Definition aligned (b : Z) : Prop := bucket_start b = b.

Lemma bucket_start_aligned z : aligned (bucket_start z).
Proof. unfold aligned, bucket_start, BUCKET_SECS. rewrite Z.div_mul by lia. done. Qed.

Lemma aligned_gap a b : aligned a -> aligned b -> b < a -> b <= a - 60.
Proof.
  unfold aligned, bucket_start, BUCKET_SECS. intros Ha Hb Hlt.
  assert (b / 60 < a / 60) by (apply Z.nle_gt; intros Hle; nia). nia.
Qed.

Lemma settle_window_pos last now : 0 < last ->
  settle_window last now = if bucket_start now <=? last then None else Some (last, bucket_start now - 60).
Proof. intros Hp. unfold settle_window. rewrite (proj2 (Z.eqb_neq last 0)) by lia. done. Qed.

Lemma windows_watermark last nows : 0 < last -> last <= (windows last nows).2.
Proof.
  revert last. induction nows as [|now rest IH]; intros last Hp; simpl; [lia|].
  rewrite settle_window_pos by done. destruct (Z.leb_spec (bucket_start now) last); [by apply IH|].
  specialize (IH (bucket_start now) ltac:(lia)). destruct (windows (bucket_start now) rest). simpl in *. lia.
Qed.

(** Settlement rounds of one process cover time without gap or overlap:
    whatever times the rounds run at, every minute bucket from the first
    watermark up to the last is in exactly one round's window, and no other
    bucket is in any. *)
Theorem windows_partition (last : Z) (nows : list Z) (b : Z) :
  0 < last -> aligned last -> aligned b ->
  let '(ws, final) := windows last nows in
  length (filter (fun w => covers b w = true) ws) =
  if decide (last <= b < final) then 1%nat else 0%nat.
Proof.
  intros Hp Hal Hb. revert last Hp Hal. induction nows as [|now rest IH]; intros last Hp Hal; simpl.
  - rewrite decide_False by lia. done.
  - rewrite settle_window_pos by done. destruct (Z.leb_spec (bucket_start now) last) as [Hle|Hlt]; [by apply IH|].
    specialize (IH (bucket_start now) ltac:(lia) (bucket_start_aligned now)).
    pose proof (windows_watermark (bucket_start now) rest ltac:(lia)) as Hw.
    destruct (windows (bucket_start now) rest) as [ws final]. simpl in Hw.
    assert (covers b (last, bucket_start now - 60) = true <-> last <= b <= bucket_start now - 60) as Hcov.
    { unfold covers. simpl. rewrite andb_true_iff. lia. }
    destruct (decide (last <= b < bucket_start now)) as [Hin|Hout].
    + pose proof (aligned_gap _ _ (bucket_start_aligned now) Hb ltac:(lia)) as Hgap.
      rewrite filter_cons_True by (apply Hcov; lia). cbn [length].
      rewrite IH, decide_False, decide_True by lia. done.
    + rewrite filter_cons_False by (rewrite Hcov; lia). rewrite IH.
      destruct (decide (bucket_start now <= b < final));
        [rewrite decide_True by lia|rewrite decide_False by lia]; done.
Qed.

Lemma windows_partition_witness :
  length (filter (fun w => covers 900 w = true) [(840, 900); (960, 1020)]) =
  if decide (840 <= 900 < 1080) then 1%nat else 0%nat.
Proof.
  exact (windows_partition 840 [1000; 1010; 1100] 900 ltac:(lia) eq_refl eq_refl).
Defined.

(** ** Settlement rounds *)

Section settle.
Context {env : Env} `{UuidText}.

Abbreviation SettleM := (M Settlement CombeeError).
Abbreviation keeps_watermark w := (fun (s : Settlement) (_ : Eff) => last_settled_bucket s = w).

Lemma watermark_ledger w {A} (m : M Ledger CombeeError A) : preserves (keeps_watermark w) (on_ledger m).
Proof. intros s e Hs. unfold on_ledger, zoom. by destruct (store_call m _ _) as [[r l] e']. Qed.

Lemma watermark_catalog w {A} (m : M Catalog CombeeError A) : preserves (keeps_watermark w) (on_catalog m).
Proof. intros s e Hs. unfold on_catalog, zoom. by destruct (store_call m _ _) as [[r l] e']. Qed.

Lemma watermark_settle_tenant w p from upto now t :
  preserves (keeps_watermark w) (settle_tenant p from upto now t).
Proof.
  unfold settle_tenant, settle_metric. pres; try apply watermark_ledger. by intros s e Hs.
Qed.

(** The watermark moves only with a round that ran to its end: a round
    that returns an error leaves it, so the next one settles the same buckets
    under the same references; a round that returns moves it to the present
    minute, also when single entries failed. *)
Theorem settle_watermark (s : Settlement) (e : Eff) :
  let '(r, s', _) := settle_once s e in
  last_settled_bucket s' =
  if is_Ok r then (windows (last_settled_bucket s) [clock (e_clock e)]).2 else last_settled_bucket s.
Proof.
  unfold settle_once, bind at 1, read_clock. unfold bind at 1, gets at 1. simpl.
  destruct (settle_window (last_settled_bucket s) (clock (e_clock e))) as [[from upto]|]; [|done].
  unfold bind at 1, gets at 1.
  pose proof (watermark_catalog (last_settled_bucket s) list_tenants s (bump_clock e) eq_refl) as H1.
  unfold bind at 1. destruct (on_catalog list_tenants s (bump_clock e)) as [[[ts|err] s1] e1]; [|done].
  set (ids := if decide _ then _ else _). unfold bind at 1.
  assert (preserves (keeps_watermark (last_settled_bucket s))
    (mmap ids (settle_tenant (st_pricing s) from upto (clock (e_clock e))))) as Hp.
  { apply preserves_mmap. intros t. apply watermark_settle_tenant. }
  specialize (Hp s1 e1 H1). destruct (mmap ids _ s1 e1) as [[[ns|err] s2] e2]; [|done]. done.
Qed.

(** Charging a metric: nothing for the storage snapshot, for a usage that
    is worth no whole unit, or when the reference is settled already; else one
    entry of minus the rated amount under the reference of tenant, metric,
    window and price version, and the balance goes down by that amount. *)
Theorem settle_metric_charges (p : PricingConfig) (t : TenantId) (last now : Z) (m : UsageMetric)
    (total : Z) (s : Settlement) (e : Eff) :
  let ref := usage_reference t m last (pc_version p) in
  let '(r, s', _) := settle_metric p t last now m total s e in
  is_Ok r = true /\ last_settled_bucket s' = last_settled_bucket s /\
  ((m = StorageBytes \/ rate p m total = 0 \/ is_Some (lookup_reference ref (st_ledger s))) ->
   st_ledger s' = st_ledger s) /\
  (m <> StorageBytes -> rate p m total <> 0 -> lookup_reference ref (st_ledger s) = None ->
   fault (e_call e) = None -> is_i64 (balance (st_ledger s) t - rate p m total) ->
   balance (st_ledger s') t = balance (st_ledger s) t - rate p m total /\
   exists x, lookup_reference ref (st_ledger s') = Some x /\ amount_units x = - rate p m total).
Proof.
  intros ref. unfold settle_metric. destruct (decide (m = StorageBytes)) as [Hm|Hm].
  { unfold mret. simpl. split; [done|]. split; [done|]. split; [done|]. intros Hne. by destruct Hne. }
  destruct (Z.eqb_spec (rate p m total) 0) as [Hr|Hr].
  { unfold mret. simpl. split; [done|]. split; [done|]. split; [done|]. intros _ Hne. by destruct Hne. }
  unfold bind at 1, fresh_uuid. unfold bind, attempt, on_ledger, zoom, store_call, bind, fallible.
  simpl. fold ref. destruct (fault (e_call e)) as [msg|] eqn:Hf; simpl.
  { split; [done|]. split; [done|]. split; [done|]. intros _ _ _ Hx. discriminate Hx. }
  set (txn := mkTxn _ t _ _ _ _ _ _ _).
  destruct (lookup_reference ref (st_ledger s)) as [x|] eqn:Href.
  - assert (append_credit_transaction txn (st_ledger s) (bump_call (bump_uuid e))
      = (Ok x, st_ledger s, bump_call (bump_uuid e))) as ->.
    { unfold append_credit_transaction, bind, gets. simpl. by rewrite Href. }
    simpl. split; [done|]. split; [done|]. split; [done|]. intros _ _ Hx. discriminate Hx.
  - destruct (append_new_run txn (st_ledger s) (bump_call (bump_uuid e))) as (l1 & e1 & -> & (x & Htx & _ & _ & Hamt & _) & Hrefs & _ & _ & _ & Hb);
      [simpl; by rewrite Href|].
    simpl. split; [done|]. split; [done|]. split; [intros [?|[?|[y Hy]]]; [done|done|discriminate Hy]|].
    intros _ _ _ _ Hi. split.
    + rewrite Hb. simpl. rewrite decide_True by done. rewrite i64_saturating_add_id; [lia|].
      by replace (balance (st_ledger s) t + - rate p m total) with (balance (st_ledger s) t - rate p m total) by lia.
    + exists x. split; [|done]. unfold lookup_reference. rewrite Hrefs. simpl.
      rewrite lookup_insert_eq. simpl. rewrite Htx. apply lookup_insert_eq.
Qed.

End settle.

(** ** Where settlement charges twice, and where it never charges *)

Definition priced : PricingConfig := mkPricingConfig 1 0 {[KvRead := (1000, 10)]}.

(** 1000 reads in the minute that starts at 900, watermark at 840. *)
Definition busy : Settlement :=
  mkSettlement Catalog_empty
    (mkLedger {[mkUsageKey DEFAULT_TENANT None KvRead 900 := 1000]} ∅ ∅ ∅ ∅ ∅ ∅ ∅) priced 840.

Definition restarted (s : Settlement) : Settlement :=
  mkSettlement (st_catalog s) (st_ledger s) (st_pricing s) 0.

Definition after {env : Env} (s : Settlement * Eff) : Settlement * Eff :=
  let '(_, s', e') := settle_once (H:=decimal_uuid_text) s.1 s.2 in (s', e').

(** The references protect against repeating a round, not against
    restarting: a process that lost its watermark settles the last minute
    again under another reference, and the tenant pays twice for it. *)
Theorem restart_charges_twice :
  let s1 := after (env:=env_still) (busy, eff0) in
  let s2 := after (env:=env_still) (restarted s1.1, s1.2) in
  balance (st_ledger s1.1) DEFAULT_TENANT = -10 /\ balance (st_ledger s2.1) DEFAULT_TENANT = -20.
Proof. split; vm_compute; reflexivity. Qed.

(** The store fails while the first ledger entry is appended, and never
    again. *)
Definition env_append_fails : Env := {|
  clock n := 1000 + 60 * Z.of_nat n; instant _ := 0; uuid_v4 n := N.of_nat n;
  fault n := if (n =? 2)%nat then Some "timeout"%string else None |}.

(** A ledger entry that fails is not retried: the round succeeds, the
    watermark passes the bucket, and later rounds no longer see it. *)
Theorem failed_entry_never_charged :
  let s1 := after (env:=env_append_fails) (busy, eff0) in
  let s2 := after (env:=env_append_fails) s1 in
  let s3 := after (env:=env_append_fails) s2 in
  last_settled_bucket s1.1 = 960 /\ balance (st_ledger s3.1) DEFAULT_TENANT = 0.
Proof. split; vm_compute; reflexivity. Qed.

(** ** Prices *)

Section prices.
Context {env : Env}.

Definition prices_valid (cfg : PricingConfig) : Prop :=
  forall m u p, pc_rules cfg !! m = Some (u, p) -> 0 < u /\ 0 < p.

Lemma rules_map_valid rules :
  existsb rule_invalid rules = false ->
  forall m u p, rules_map rules !! m = Some (u, p) -> 0 < u /\ 0 < p.
Proof.
  intros Hv. unfold rules_map.
  assert (forall acc : gmap UsageMetric (Z * Z), (forall m u p, acc !! m = Some (u, p) -> 0 < u /\ 0 < p) ->
    forall m u p, foldl (fun m r => <[pr_metric r := (pr_unit_size r, pr_price_units r)]> m) acc rules !! m
      = Some (u, p) -> 0 < u /\ 0 < p) as Hind.
  { induction rules as [|r rules IH]; intros acc Hacc m u p; simpl; [apply Hacc|].
    simpl in Hv. apply orb_false_iff in Hv as [Hr Hv]. apply (IH Hv). intros m0 u0 p0 Hl.
    apply lookup_insert_Some in Hl as [[_ Heq]|[_ Hl]]; [|by eapply Hacc].
    unfold rule_invalid in Hr. apply orb_false_iff in Hr as [H1 H2]. injection Heq as <- <-. lia. }
  apply Hind. intros m u p. by rewrite lookup_empty.
Qed.

(** A price list with a rule that is not positive never comes into force:
    refreshing keeps the prices in force valid, changes them only to the
    active version of the store, and reports exactly whether it changed them;
    when the store cannot be read the prices stay. *)
Theorem refresh_safe (m : PricingManager) (e : Eff) :
  prices_valid (current m) ->
  let '(r, m', _) := refresh m e in
  prices_valid (current m') /\ pm_store m' = pm_store m /\
  (r <> Ok true -> current m' = current m) /\
  (r = Ok true -> pc_version (current m') <> pc_version (current m) /\
     exists v rules, (get_active_pricing (pm_store m) e).1.1 = Ok (v, rules) /\
       current m' = mkPricingConfig (pv_version v) (pv_effective_at v) (rules_map rules)).
Proof.
  intros Hvalid. unfold refresh, bind at 1, on_store, zoom, store_call, bind, fallible.
  destruct (fault (e_call e)); simpl; [by destruct m|].
  destruct (match List.find is_active _ with Some _ => _ | None => _ end) as [v rules] eqn:Hget.
  destruct (decide (pv_status v <> PricingActive)); [by destruct m|].
  destruct (existsb rule_invalid rules) eqn:Hinv; [by destruct m|].
  unfold gets, mret, modify. simpl.
  destruct (Z.eqb_spec (pc_version (current m)) (pv_version v)) as [|Hne]; [by destruct m|].
  simpl. split; [intros m0 u p; by apply rules_map_valid|]. split; [done|]. split; [done|].
  intros _. split; [done|]. exists v, rules. done.
Qed.

End prices.

Lemma refresh_safe_witness :
  let m := mkPricingManager PricingConfig_empty Ledger_empty in
  let '(r, m', _) := refresh (env:=env_still) m eff0 in prices_valid (current m').
Proof.
  pose proof (refresh_safe (env:=env_still) (mkPricingManager PricingConfig_empty Ledger_empty) eff0) as Hs.
  cbv zeta. destruct (refresh _ eff0) as [[r m'] e']. apply Hs. intros m u p Hl. discriminate Hl.
Defined.
