(* ===== verification/SettleSpec.v ===== *)
(** What a settlement round charges ([settlement.rs], [settle_once]): each
    tenant pays, for each metric, the price of the usage its window holds,
    unless the window has been charged under that reference before; and where
    the references do not protect. *)

From Stdlib Require Import ZArith Lia String Ascii.
From stdpp Require Import gmap strings list fin_maps sorting.
From S2P Require Import Prelude Common Kv Catalog Ledger LedgerSpec Billing BillingSpec.

(** ** References *)

(** The texts of the metrics have no colon, so the reference of a window
    determines its tenant and metric. *)
Fixpoint after_colon (s : string) : option string :=
  match s with
  | EmptyString => None
  | String.String c rest =>
      match after_colon rest with
      | Some t => Some t
      | None => if decide (c = ":"%char) then Some rest else None
      end
  end.

Lemma after_colon_app (a m : string) :
  after_colon m = None -> after_colon (a +:+ ":" +:+ m) = Some m.
Proof.
  intros Hm. induction a as [|c a IH].
  - change (after_colon (String.String ":"%char m) = Some m). cbn [after_colon]. by rewrite Hm.
  - change (after_colon (String.String c (a +:+ ":" +:+ m)) = Some m). cbn [after_colon]. by rewrite IH.
Qed.

Lemma metric_no_colon m : after_colon (metric_as_str m) = None.
Proof. destruct m; reflexivity. Qed.

Lemma string_app_inj_r (a b s : string) : a +:+ s = b +:+ s -> a = b.
Proof.
  assert (forall a : string, String.length (a +:+ s) = String.length a + String.length s)%nat as Hlen.
  { intros x. induction x as [|c x IH]; simpl; [done|]. by rewrite IH. }
  revert b. induction a as [|c a IH]; intros [|d b] Heq; [done| | |].
  - apply (f_equal String.length) in Heq. rewrite !Hlen in Heq. simpl in Heq. lia.
  - apply (f_equal String.length) in Heq. rewrite !Hlen in Heq. simpl in Heq. lia.
  - injection Heq as -> Heq. f_equal. by apply IH.
Qed.

Lemma app_colon_assoc (u m rest : string) :
  u +:+ ":" +:+ m +:+ ":" +:+ rest = (u +:+ ":" +:+ m) +:+ ":" +:+ rest.
Proof. by rewrite !string_app_assoc. Qed.

Section references.
Context `{UuidTextLaws}.

Definition tenant_valid (t : TenantId) : Prop := (tenant_uuid t < 2 ^ 128)%N.

Lemma uuid_text_inj u v :
  (u < 2 ^ 128)%N -> (v < 2 ^ 128)%N -> uuid_to_string u = uuid_to_string v -> u = v.
Proof.
  intros Hu Hv Heq. apply uuid_parse_print in Hu. apply uuid_parse_print in Hv. congruence.
Qed.

Lemma usage_reference_inj t1 t2 m1 m2 last v :
  tenant_valid t1 -> tenant_valid t2 ->
  usage_reference t1 m1 last v = usage_reference t2 m2 last v -> t1 = t2 /\ m1 = m2.
Proof.
  intros H1 H2 Heq. unfold usage_reference in Heq. apply (inj (String.append "usage:")) in Heq.
  rewrite !app_colon_assoc in Heq. do 2 apply string_app_inj_r in Heq.
  assert (m1 = m2) as ->.
  { apply (f_equal after_colon) in Heq. rewrite !after_colon_app in Heq by apply metric_no_colon.
    injection Heq as Heq. by destruct m1, m2. }
  split; [|done]. apply string_app_inj_r in Heq. destruct t1, t2. f_equal. by apply uuid_text_inj.
Qed.

End references.

(** ** What a tenant owes *)

Section settle_exact.
Context {env : Env} `{UuidTextLaws}.
Implicit Types l : Ledger.

(** The usage of a window in the store. *)
Definition window_usage l (t : TenantId) (m : UsageMetric) (from upto : Z) : Z :=
  sum_where (fun kv => usage_selected t None (Some m) from upto kv.1) snd (map_to_list (usage l)).

Definition charged_before l (p : PricingConfig) (t : TenantId) (m : UsageMetric) (from : Z) : Prop :=
  is_Some (credit_txn_by_ref l !! usage_reference t m from (pc_version p)).

#[export] Instance charged_before_dec l p t m from : Decision (charged_before l p t m from).
Proof. unfold charged_before. apply _. Defined.

Definition metric_due l (p : PricingConfig) (t : TenantId) (from total : Z) (m : UsageMetric) : Z :=
  if decide (m = StorageBytes \/ charged_before l p t m from) then 0 else rate p m total.

(** The price of the window, over all metrics. *)
Definition due l (p : PricingConfig) (t : TenantId) (from upto : Z) : Z :=
  sum_where (fun _ => true) (fun m => metric_due l p t from (wrap_u64 (window_usage l t m from upto)) m) all_metrics.

Definition refs_resolve l : Prop :=
  forall r id, credit_txn_by_ref l !! r = Some id -> is_Some (credit_transactions l !! id).

Lemma refs_resolve_ok l : ledger_ok l -> refs_resolve l.
Proof. intros [_ Hr] r id Hid. destruct (Hr r id Hid) as (x & Hx & _). by exists x. Qed.

Lemma rate_nonneg p m units : 0 <= units -> 0 <= rate p m units.
Proof.
  intros Hu. unfold rate. destruct (pc_rules p !! m) as [[size price]|]; [|done].
  destruct ((size <=? 0) || (price <=? 0) || (units =? 0)) eqn:Hz; [done|].
  apply orb_false_iff in Hz as [Hz _]. apply orb_false_iff in Hz as [Hs Hp].
  apply Z.min_glb; [|vm_compute; discriminate]. apply Z.div_pos; nia.
Qed.

Lemma rate_zero p m : rate p m 0 = 0.
Proof. unfold rate. destruct (pc_rules p !! m) as [[size price]|]; [|done]. by rewrite orb_true_r. Qed.

(** ** The usage a round aggregates *)

Lemma aggregate_lookup bs m :
  default 0 (aggregate bs !! m) = wrap_u64 (sum_where (fun b => bool_decide (ub_metric b = m)) ub_value bs).
Proof.
  unfold aggregate.
  assert (forall (a : gmap UsageMetric Z) z, default 0 (a !! m) = wrap_u64 z ->
    default 0 (foldl (fun a b => <[ub_metric b := u64_add (default 0 (a !! ub_metric b)) (ub_value b)]> a) a bs !! m) =
    wrap_u64 (z + sum_where (fun b => bool_decide (ub_metric b = m)) ub_value bs)) as Hgen.
  { induction bs as [|b bs IH]; intros a z Ha; simpl; [by rewrite Z.add_0_r|].
    rewrite (IH _ (z + if bool_decide (ub_metric b = m) then ub_value b else 0)); [f_equal; lia|].
    case_bool_decide as Hm.
    - subst m. rewrite lookup_insert_eq. simpl. rewrite Ha. apply u64_add_wrap.
    - rewrite lookup_insert_ne by done. by rewrite Z.add_0_r. }
  by apply (Hgen ∅ 0).
Qed.

Lemma all_metrics_in m : m ∈ all_metrics.
Proof. destruct m; repeat (first [left; fail | right]); left. Qed.

(** A sum over a map from metrics, by metric. *)
Lemma sum_by_metric (a : gmap UsageMetric Z) (f : UsageMetric -> Z -> Z) :
  (forall m, f m 0 = 0) ->
  sum_where (fun _ => true) (fun mt : UsageMetric * Z => f mt.1 mt.2) (map_to_list a) =
  sum_where (fun _ => true) (fun m => f m (default 0 (a !! m))) all_metrics.
Proof.
  intros Hf0. induction a as [|k v a Hk IH] using map_ind.
  - rewrite map_to_list_empty. simpl. rewrite !lookup_empty. simpl. by rewrite !Hf0.
  - rewrite (sum_where_perm _ _ _ _ (map_to_list_insert a k v Hk)). simpl sum_where at 1. rewrite IH. clear IH.
    assert (forall ms, NoDup ms ->
      sum_where (fun _ => true) (fun m => f m (default 0 (<[k:=v]> a !! m))) ms =
      (if decide (k ∈ ms) then f k v else 0) + sum_where (fun _ => true) (fun m => f m (default 0 (a !! m))) ms) as Hms.
    { induction 1 as [|m ms Hm _ IH]; [done|]. cbn [sum_where]. rewrite IH. destruct (decide (k = m)) as [<-|Hne].
      - rewrite lookup_insert_eq, Hk, (decide_False (P:=k ∈ ms)), decide_True by (done || by left). simpl. rewrite Hf0. lia.
      - rewrite lookup_insert_ne by done. destruct (decide (k ∈ ms)) as [Hin|Hin].
        + rewrite decide_True by (by right). lia.
        + rewrite decide_False by (rewrite elem_of_cons; naive_solver). lia. }
    rewrite Hms, decide_True; [done|apply all_metrics_in|].
    unfold all_metrics. repeat constructor; set_solver.
Qed.

(** ** One charge after the other *)

(** What a part of a round has done: the references it must write are there,
    only references it may write are new, and each balance went down by its
    amount. *)
Record charged (must may : string -> Prop) (amount : TenantId -> Z) (s s' : Settlement) : Prop := {
  ch_catalog : st_catalog s' = st_catalog s;
  ch_pricing : st_pricing s' = st_pricing s;
  ch_usage : usage (st_ledger s') = usage (st_ledger s);
  ch_resolve : refs_resolve (st_ledger s');
  ch_refs : forall r, ~ may r ->
    credit_txn_by_ref (st_ledger s') !! r = credit_txn_by_ref (st_ledger s) !! r;
  ch_mono : forall r, is_Some (credit_txn_by_ref (st_ledger s) !! r) ->
    is_Some (credit_txn_by_ref (st_ledger s') !! r);
  ch_must : forall r, must r -> is_Some (credit_txn_by_ref (st_ledger s') !! r);
  ch_balance : forall t, balance (st_ledger s') t = balance (st_ledger s) t - amount t;
}.

Lemma charged_refl (s : Settlement) (must may : string -> Prop) amount :
  refs_resolve (st_ledger s) -> (forall r, must r -> is_Some (credit_txn_by_ref (st_ledger s) !! r)) ->
  (forall t, amount t = 0) -> charged must may amount s s.
Proof. intros Hr Hm Ha. split; try done. intros t. rewrite Ha. lia. Qed.

Lemma charged_weaken must must' may may' a a' s s' :
  charged must may a s s' -> (forall r, must' r -> must r) -> (forall r, may r -> may' r) ->
  (forall t, a' t = a t) -> charged must' may' a' s s'.
Proof. intros [] Hmust Hmay Ha. split; try done; [auto|auto|]. intros t. by rewrite Ha. Qed.

Lemma charged_trans g1 g2 g f1 f2 f a1 a2 a s1 s2 s3 :
  charged g1 f1 a1 s1 s2 -> charged g2 f2 a2 s2 s3 ->
  (forall r, g r -> g1 r \/ g2 r) -> (forall r, f1 r \/ f2 r -> f r) -> (forall t, a t = a1 t + a2 t) ->
  charged g f a s1 s3.
Proof.
  intros [] [] Hg Hf Ha. split; [congruence|congruence|congruence|done| | | |].
  - intros r Hr. rewrite ch_refs1, ch_refs0; auto.
  - auto.
  - intros r [?|?]%Hg; auto.
  - intros t. rewrite ch_balance1, ch_balance0, Ha. lia.
Qed.

Lemma append_usage txn u : preserves (fun l _ => usage l = u) (append_credit_transaction txn).
Proof. unfold append_credit_transaction, get_credit_account, record_transaction, led_now. by pres; intros l e Hl. Qed.

Hypothesis Hok : forall n, fault n = None.

Lemma on_ledger_run {A} (m : M Ledger CombeeError A) s e :
  on_ledger m s e =
  let '(r, l', e') := m (st_ledger s) (bump_call e) in
  (r, mkSettlement (st_catalog s) l' (st_pricing s) (last_settled_bucket s), e').
Proof. unfold on_ledger, zoom, store_call, bind, fallible. by rewrite Hok. Qed.

(** The reference of a metric that has something to charge. *)
Definition must_write (t : TenantId) (from : Z) (p : PricingConfig) (mt : UsageMetric * Z) (r : string) : Prop :=
  mt.1 <> StorageBytes /\ rate p mt.1 mt.2 <> 0 /\ r = usage_reference t mt.1 from (pc_version p).

Lemma settle_metric_run p t from now m total s e :
  refs_resolve (st_ledger s) ->
  is_i64 (balance (st_ledger s) t - metric_due (st_ledger s) p t from total m) ->
  exists n s' e', settle_metric p t from now m total s e = (Ok n, s', e') /\
    charged (must_write t from p (m, total)) (fun r => r = usage_reference t m from (pc_version p))
      (fun t' => if decide (t' = t) then metric_due (st_ledger s) p t from total m else 0) s s'.
Proof.
  intros Hr Hi. unfold settle_metric, metric_due, must_write in *. cbn [fst snd].
  destruct (decide (m = StorageBytes)) as [Hm|Hm].
  { rewrite decide_True by (by left). eexists _, s, e. split; [done|]. apply charged_refl; [done|by intros r [? _]|].
    intros t'. by repeat destruct (decide _). }
  destruct (Z.eqb_spec (rate p m total) 0) as [Hz|Hz].
  { eexists _, s, e. split; [done|]. apply charged_refl; [done|by intros r (_ & ? & _)|]. intros t'. rewrite Hz.
    by repeat destruct (decide _). }
  unfold bind at 1, fresh_uuid. unfold bind, attempt. rewrite on_ledger_run.
  set (r0 := usage_reference t m from (pc_version p)) in *.
  set (txn := mkTxn _ t _ _ _ _ _ _ _).
  destruct (credit_txn_by_ref (st_ledger s) !! r0) as [id|] eqn:Href.
  - destruct (Hr _ _ Href) as [x Hx].
    assert (lookup_reference r0 (st_ledger s) = Some x) as Hl by (unfold lookup_reference; by rewrite Href).
    assert (append_credit_transaction txn (st_ledger s) (bump_call (bump_uuid e)) =
      (Ok x, st_ledger s, bump_call (bump_uuid e))) as ->.
    { unfold append_credit_transaction, bind, gets. simpl. by rewrite Hl. }
    eexists _, _, _. split; [done|]. rewrite decide_True by (right; by exists id).
    destruct s; apply charged_refl; [done|by intros r (_ & _ & ->); exists id|]. intros t'. by repeat destruct (decide _).
  - assert (~ (m = StorageBytes \/ charged_before (st_ledger s) p t m from)) as Hnew.
    { intros [?|[id Hid]]; [done|]. fold r0 in Hid. congruence. }
    rewrite (decide_False _ _ Hnew) in Hi |- *.
    pose proof (append_usage txn (usage (st_ledger s)) (st_ledger s) (bump_call (bump_uuid e)) eq_refl) as Hu.
    destruct (append_new_run txn (st_ledger s) (bump_call (bump_uuid e)))
      as (l1 & e1 & Hrun & (x & Htx & _) & Hrefs & _ & _ & _ & Hb).
    { simpl. unfold lookup_reference. by rewrite Href. }
    rewrite Hrun in Hu |- *. eexists _, _, _. split; [done|]. simpl in Hrefs.
    split; simpl; [done|done|exact Hu| | | | |].
    + intros r id. rewrite Hrefs, Htx. intros [[<- <-]|[_ Hid]]%lookup_insert_Some; [by rewrite lookup_insert_eq|].
      apply Hr in Hid. by apply lookup_insert_is_Some'; right.
    + intros r Hne. rewrite Hrefs. by rewrite lookup_insert_ne.
    + intros r Hs. rewrite Hrefs. apply lookup_insert_is_Some'. by right.
    + intros r (_ & _ & ->). rewrite Hrefs, lookup_insert_eq. by eexists.
    + intros t'. rewrite Hb. simpl. destruct (decide (t' = t)) as [->|]; [|lia].
      rewrite i64_saturating_add_id; [lia|].
      by replace (balance (st_ledger s) t + - rate p m total) with (balance (st_ledger s) t - rate p m total) by lia.
Qed.

Lemma metric_due_nonneg l p t from total m : 0 <= total -> 0 <= metric_due l p t from total m.
Proof. intros Ht. unfold metric_due. destruct (decide _); [done|]. by apply rate_nonneg. Qed.

Lemma metric_due_kept must may a s s' p t from total m :
  charged must may a s s' -> ~ may (usage_reference t m from (pc_version p)) ->
  metric_due (st_ledger s') p t from total m = metric_due (st_ledger s) p t from total m.
Proof.
  intros Hc Hn. unfold metric_due. apply decide_ext. unfold charged_before.
  by rewrite (ch_refs _ _ _ _ _ Hc).
Qed.

Definition metrics_due l p t from (mts : list (UsageMetric * Z)) : Z :=
  sum_where (fun _ => true) (fun mt => metric_due l p t from mt.2 mt.1) mts.

Lemma metrics_due_nonneg l p t from mts :
  Forall (fun mt => 0 <= mt.2) mts -> 0 <= metrics_due l p t from mts.
Proof.
  unfold metrics_due. induction 1 as [|mt mts Hmt _ IH]; simpl; [done|].
  pose proof (metric_due_nonneg l p t from mt.2 mt.1 Hmt). lia.
Qed.

(** The references of some metrics of a tenant. *)
Definition refs_of (t : TenantId) (from : Z) (p : PricingConfig) (ms : list UsageMetric) (r : string) : Prop :=
  exists m, m ∈ ms /\ r = usage_reference t m from (pc_version p).

Lemma settle_metrics_run p t from now mts s e :
  tenant_valid t -> NoDup mts.*1 -> Forall (fun mt => 0 <= mt.2) mts ->
  refs_resolve (st_ledger s) -> is_i64 (balance (st_ledger s) t) ->
  is_i64 (balance (st_ledger s) t - metrics_due (st_ledger s) p t from mts) ->
  exists ns s' e', mmap mts (fun mt => settle_metric p t from now mt.1 mt.2) s e = (Ok ns, s', e') /\
    charged (fun r => exists mt, mt ∈ mts /\ must_write t from p mt r) (refs_of t from p mts.*1)
      (fun t' => if decide (t' = t) then metrics_due (st_ledger s) p t from mts else 0) s s'.
Proof.
  intros Ht. revert s e. induction mts as [|[m total] mts IH]; intros s e Hnd Hpos Hr Hb Hi; simpl.
  { exists [], s, e. split; [done|].
    apply charged_refl; [done|by intros r (? & ?%elem_of_nil & _)|]. intros t'. by destruct (decide _). }
  apply NoDup_cons in Hnd as [Hm Hnd]. apply Forall_cons in Hpos as [Hm0 Hpos]. simpl in Hm0.
  unfold metrics_due in Hi. cbn [sum_where fst snd] in Hi. fold (metrics_due (st_ledger s) p t from mts) in Hi.
  pose proof (metric_due_nonneg (st_ledger s) p t from total m Hm0).
  pose proof (metrics_due_nonneg (st_ledger s) p t from mts Hpos).
  destruct (settle_metric_run p t from now m total s e) as (n & s1 & e1 & Hrun & Hc1);
    [done|unfold is_i64 in *; lia|].
  assert (metrics_due (st_ledger s1) p t from mts = metrics_due (st_ledger s) p t from mts) as Hkeep.
  { unfold metrics_due. clear -Hc1 Hm Ht H0. induction mts as [|[m' tot'] mts IH]; simpl; [done|].
    simpl in Hm. rewrite IH by set_solver. f_equal. eapply metric_due_kept; [done|].
    intros Heq. apply usage_reference_inj in Heq as [_ <-]; [|done|done]. set_solver. }
  pose proof (ch_balance _ _ _ _ _ Hc1 t) as Hb1. cbn beta in Hb1. rewrite decide_True in Hb1 by done.
  destruct (IH s1 e1) as (ns & s2 & e2 & Hrun2 & Hc2); [done|done|apply Hc1| | |].
  { unfold is_i64 in *. lia. }
  { rewrite Hkeep. unfold is_i64 in *. lia. }
  unfold bind. rewrite Hrun, Hrun2. eexists _, _, _. split; [done|].
  eapply charged_trans; [exact Hc1|exact Hc2| | |].
  - intros r (mt & [->|Hin]%elem_of_cons & Hmt); [by left|right; by exists mt].
  - intros r [->|(m' & Hm' & ->)]; [by exists m; split; [left|]|exists m'; split; [by right|done]].
  - intros t'. cbn beta. rewrite Hkeep. by destruct (decide (t' = t)).
Qed.

Lemma wrap_u64_nonneg z : 0 <= wrap_u64 z.
Proof. unfold wrap_u64. apply Z.mod_pos_bound. lia. Qed.

Lemma aggregate_nonneg bs : Forall (fun mt => 0 <= mt.2) (map_to_list (aggregate bs)).
Proof.
  apply Forall_forall. intros [m v] Hin%elem_of_map_to_list. simpl.
  pose proof (aggregate_lookup bs m) as Ha. rewrite Hin in Ha. simpl in Ha. rewrite Ha. apply wrap_u64_nonneg.
Qed.

Lemma window_usage_of_query l t from upto m :
  sum_where (fun b => bool_decide (ub_metric b = m)) ub_value
    (merge_sort usage_le
      ((fun kv => mkUsageBucket (uk_tenant kv.1) (uk_cell kv.1) (uk_metric kv.1) (uk_bucket kv.1) kv.2) <$>
       filter (fun kv => usage_selected t None None from upto kv.1 = true) (map_to_list (usage l)))) =
  window_usage l t m from upto.
Proof.
  unfold window_usage. rewrite merge_sort_Permutation, sum_where_fmap, sum_where_filter.
  apply sum_where_ext. intros [k v]. simpl. unfold usage_selected.
  destruct (bool_decide (uk_tenant k = t)); simpl; [|done].
  destruct (bool_decide (uk_metric k = m)), (from <=? uk_bucket k), (uk_bucket k <=? upto); done.
Qed.

(** The references a round must write for a tenant. *)
Definition tenant_must l (t : TenantId) (from upto : Z) (p : PricingConfig) (r : string) : Prop :=
  exists m, must_write t from p (m, wrap_u64 (window_usage l t m from upto)) r.

Lemma settle_tenant_run p t from upto now s e :
  tenant_valid t -> refs_resolve (st_ledger s) -> is_i64 (balance (st_ledger s) t) ->
  is_i64 (balance (st_ledger s) t - due (st_ledger s) p t from upto) ->
  exists n s' e', settle_tenant p from upto now t s e = (Ok n, s', e') /\
    charged (tenant_must (st_ledger s) t from upto p) (refs_of t from p all_metrics)
      (fun t' => if decide (t' = t) then due (st_ledger s) p t from upto else 0) s s'.
Proof.
  intros Ht Hr Hb Hi. unfold settle_tenant, bind at 1. rewrite on_ledger_run.
  unfold query_usage, gets at 1. set (bs := merge_sort _ _).
  assert (metrics_due (st_ledger s) p t from (map_to_list (aggregate bs)) = due (st_ledger s) p t from upto) as Hdue.
  { unfold metrics_due, due.
    rewrite (sum_by_metric (aggregate bs) (fun m total => metric_due (st_ledger s) p t from total m)).
    - apply sum_where_ext_val. intros m. rewrite aggregate_lookup. unfold bs. by rewrite window_usage_of_query.
    - intros m. unfold metric_due. rewrite rate_zero. by destruct (decide _). }
  destruct (settle_metrics_run p t from now (map_to_list (aggregate bs)) s (bump_call e))
    as (ns & s' & e' & Hrun & Hc);
    [done|apply NoDup_fst_map_to_list|apply aggregate_nonneg|done|done|by rewrite Hdue|].
  rewrite Hdue in Hc. unfold bind.
  assert (mkSettlement (st_catalog s) (st_ledger s) (st_pricing s) (last_settled_bucket s) = s) as -> by (by destruct s).
  rewrite Hrun. eexists _, _, _. split; [done|].
  eapply charged_weaken; [exact Hc| | |done].
  - intros r (m & Hm & Hrate & ->). exists (m, wrap_u64 (window_usage (st_ledger s) t m from upto)). split; [|done].
    cbn [fst snd] in *. apply elem_of_map_to_list.
    pose proof (aggregate_lookup bs m) as Ha. unfold bs in Ha at 2. rewrite window_usage_of_query in Ha.
    destruct (aggregate bs !! m); simpl in Ha; [by rewrite Ha|]. by rewrite <- Ha, rate_zero in Hrate.
  - intros r (m & _ & ->). exists m. split; [apply all_metrics_in|done].
Qed.

Lemma due_nonneg l p t from upto : 0 <= due l p t from upto.
Proof.
  unfold due. generalize all_metrics. intros ms. induction ms as [|m ms IH]; simpl; [done|].
  pose proof (metric_due_nonneg l p t from (wrap_u64 (window_usage l t m from upto)) m (wrap_u64_nonneg _)). lia.
Qed.

Lemma due_kept must may a s s' p t from upto :
  charged must may a s s' -> (forall m, ~ may (usage_reference t m from (pc_version p))) ->
  due (st_ledger s') p t from upto = due (st_ledger s) p t from upto.
Proof.
  intros Hc Hn. apply sum_where_ext_val. intros m. unfold window_usage. rewrite (ch_usage _ _ _ _ _ Hc).
  by eapply metric_due_kept.
Qed.

Lemma settle_tenants_run p from upto now ids s e :
  Forall tenant_valid ids -> NoDup ids -> refs_resolve (st_ledger s) ->
  (forall t, t ∈ ids -> is_i64 (balance (st_ledger s) t) /\
     is_i64 (balance (st_ledger s) t - due (st_ledger s) p t from upto)) ->
  exists ns s' e', mmap ids (settle_tenant p from upto now) s e = (Ok ns, s', e') /\
    charged (fun r => exists t, t ∈ ids /\ tenant_must (st_ledger s) t from upto p r)
      (fun r => exists t, t ∈ ids /\ refs_of t from p all_metrics r)
      (fun t => if decide (t ∈ ids) then due (st_ledger s) p t from upto else 0) s s'.
Proof.
  intros Hv Hnd. revert s e. induction Hnd as [|t ids Ht Hnd IH]; intros s e Hr Hi; simpl.
  { exists [], s, e. split; [done|]. apply charged_refl; [done|set_solver|done]. }
  apply Forall_cons in Hv as [Htv Hv].
  destruct (settle_tenant_run p t from upto now s e) as (n & s1 & e1 & Hrun & Hc1); [done|done|apply Hi; by left..|].
  assert (forall t', t' ∈ ids -> t' <> t /\
    due (st_ledger s1) p t' from upto = due (st_ledger s) p t' from upto /\
    balance (st_ledger s1) t' = balance (st_ledger s) t') as Hrest.
  { intros t' Hin. assert (t' <> t) as Hne by (intros ->; done). split; [done|]. split.
    - eapply due_kept; [exact Hc1|]. intros m (m' & _ & Heq).
      apply usage_reference_inj in Heq as [? _]; [done| |done]. by eapply Forall_forall in Hv.
    - rewrite (ch_balance _ _ _ _ _ Hc1), decide_False by done. lia. }
  destruct (IH Hv s1 e1) as (ns & s2 & e2 & Hrun2 & Hc2); [apply Hc1| |].
  { intros t' Hin. destruct (Hrest t' Hin) as (_ & -> & ->). apply Hi. by right. }
  unfold bind. rewrite Hrun, Hrun2. eexists _, _, _. split; [done|].
  eapply charged_trans; [exact Hc1|exact Hc2| | |].
  - intros r (t' & [->|Hin]%elem_of_cons & Hm); [by left|]. right. exists t'. split; [done|].
    destruct Hm as [m Hm]. exists m. unfold window_usage. by rewrite (ch_usage _ _ _ _ _ Hc1).
  - intros r [Hm|(t' & Hin & Hm)]; [exists t; split; [by left|done]|exists t'; split; [by right|done]].
  - intros t'. cbn beta. destruct (decide (t' = t)) as [->|Hne].
    + rewrite decide_True by (by left). rewrite decide_False by done. lia.
    + destruct (decide (t' ∈ ids)) as [Hin|Hin].
      * rewrite decide_True by (by right). destruct (Hrest t' Hin) as (_ & -> & _). lia.
      * rewrite decide_False by (rewrite elem_of_cons; naive_solver). lia.
Qed.

(** ** Rounds *)

(** The tenants of a round: all that are known, and the default one. *)
Definition settled_tenants (c : Catalog) : list TenantId :=
  let ids := t_id <$> sort_by_key (fun t => (t_created_at t, 0)) (values (tenants c)) in
  if decide (DEFAULT_TENANT ∈ ids) then ids else ids ++ [DEFAULT_TENANT].

Definition tenants_keyed (c : Catalog) : Prop :=
  forall t rec, tenants c !! t = Some rec -> t_id rec = t /\ tenant_valid t.

Lemma settled_tenants_ok c :
  tenants_keyed c -> NoDup (settled_tenants c) /\ Forall tenant_valid (settled_tenants c).
Proof.
  intros Hk. unfold settled_tenants. set (ids := t_id <$> _).
  assert (ids ≡ₚ (map_to_list (tenants c)).*1) as Hp.
  { unfold ids, sort_by_key. rewrite merge_sort_Permutation. unfold values. rewrite <- list_fmap_compose.
    match goal with |- ?a ≡ₚ ?b => assert (a = b) as -> end; [|done]. apply list_fmap_ext.
    intros i [t rec] Hin%list_elem_of_lookup_2%elem_of_map_to_list. by destruct (Hk _ _ Hin). }
  assert (NoDup ids) as Hnd by (rewrite Hp; apply NoDup_fst_map_to_list).
  assert (Forall tenant_valid ids) as Hv.
  { rewrite Hp. apply Forall_fmap, Forall_forall. intros [t rec] Hin%elem_of_map_to_list. by destruct (Hk _ _ Hin). }
  destruct (decide _) as [|Hn]; [done|]. split.
  - apply NoDup_app. split; [done|]. split; [set_solver|apply NoDup_singleton].
  - apply Forall_app. split; [done|]. by repeat constructor.
Qed.

(** A round on working stores. *)
Lemma settle_once_run s e from upto :
  refs_resolve (st_ledger s) -> tenants_keyed (st_catalog s) ->
  settle_window (last_settled_bucket s) (clock (e_clock e)) = Some (from, upto) ->
  (forall t, t ∈ settled_tenants (st_catalog s) -> is_i64 (balance (st_ledger s) t) /\
     is_i64 (balance (st_ledger s) t - due (st_ledger s) (st_pricing s) t from upto)) ->
  exists n s' e', settle_once s e = (Ok n, s', e') /\ last_settled_bucket s' = bucket_start (clock (e_clock e)) /\
    charged (fun r => exists t, t ∈ settled_tenants (st_catalog s) /\
          tenant_must (st_ledger s) t from upto (st_pricing s) r)
      (fun r => exists t, t ∈ settled_tenants (st_catalog s) /\ refs_of t from (st_pricing s) all_metrics r)
      (fun t => if decide (t ∈ settled_tenants (st_catalog s))
                then due (st_ledger s) (st_pricing s) t from upto else 0) s s'.
Proof.
  intros Hr Hk Hw Hi. unfold settle_once, bind at 1, read_clock. unfold bind at 1, gets at 1. rewrite Hw.
  unfold bind at 1, gets at 1. unfold bind at 1, on_catalog, zoom, store_call, bind, fallible at 1. rewrite Hok.
  unfold list_tenants, gets. fold (settled_tenants (st_catalog s)).
  assert (mkSettlement (st_catalog s) (st_ledger s) (st_pricing s) (last_settled_bucket s) = s) as -> by (by destruct s).
  destruct (settled_tenants_ok _ Hk) as [Hnd Hv].
  destruct (settle_tenants_run (st_pricing s) from upto (clock (e_clock e)) (settled_tenants (st_catalog s)) s
    (bump_call (bump_clock e))) as (ns & s' & e' & Hrun & Hc); [done..|].
  rewrite Hrun. unfold modify, mret. eexists _, _, _. split; [done|]. split; [done|].
  destruct Hc. by split.
Qed.

(** C24: a settlement round on a store that answers returns, moves the
    watermark to the present minute, and takes from every tenant it settles,
    metric by metric, the price of the usage the store holds for the window's
    minutes, where nothing was charged under the window's reference for that
    metric before. A metric for which something was charged under that
    reference (by a round that failed later on, say) is charged nothing, however
    much the window's usage has grown since. Conditions: there are minutes to
    settle, the references of the ledger resolve, tenants are stored under their
    own ids, and every settled tenant's balance is in the range of i64 before
    and after. *)
Theorem settle_round_exact s e from upto :
  refs_resolve (st_ledger s) -> tenants_keyed (st_catalog s) ->
  settle_window (last_settled_bucket s) (clock (e_clock e)) = Some (from, upto) ->
  (forall t, t ∈ settled_tenants (st_catalog s) -> is_i64 (balance (st_ledger s) t) /\
     is_i64 (balance (st_ledger s) t - due (st_ledger s) (st_pricing s) t from upto)) ->
  let '(r, s', _) := settle_once s e in
  is_Ok r = true /\ last_settled_bucket s' = bucket_start (clock (e_clock e)) /\
  forall t, balance (st_ledger s') t = balance (st_ledger s) t -
    if decide (t ∈ settled_tenants (st_catalog s)) then due (st_ledger s) (st_pricing s) t from upto else 0.
Proof.
  intros Hr Hk Hw Hi. destruct (settle_once_run s e from upto) as (n & s' & e' & -> & Hl & Hc); [done..|].
  split; [done|]. split; [done|]. apply Hc.
Qed.

Lemma due_settled s s' must may a t from upto p :
  charged must may a s s' -> (forall r, tenant_must (st_ledger s) t from upto p r -> must r) ->
  due (st_ledger s') p t from upto = 0.
Proof.
  intros Hc Hm. unfold due. rewrite (sum_where_ext_val _ _ (fun _ => 0)).
  - by generalize all_metrics; intros ms; induction ms.
  - intros m. unfold metric_due. destruct (decide _) as [|Hn]; [done|].
    apply Decidable.not_or in Hn as [Hs Hn]. unfold window_usage in *. rewrite (ch_usage _ _ _ _ _ Hc).
    destruct (decide (rate p m (wrap_u64 (window_usage (st_ledger s) t m from upto)) = 0)) as [|Hne]; [done|].
    destruct Hn. apply (ch_must _ _ _ _ _ Hc), Hm. by exists m.
Qed.

(** Settling a window again, by the same process or by another one on the
    same store, charges nothing. *)
Theorem settle_repeat_free s e s2 e2 from upto :
  refs_resolve (st_ledger s) -> tenants_keyed (st_catalog s) ->
  settle_window (last_settled_bucket s) (clock (e_clock e)) = Some (from, upto) ->
  (forall t, t ∈ settled_tenants (st_catalog s) -> is_i64 (balance (st_ledger s) t) /\
     is_i64 (balance (st_ledger s) t - due (st_ledger s) (st_pricing s) t from upto)) ->
  let '(_, s', _) := settle_once s e in
  st_catalog s2 = st_catalog s' -> st_ledger s2 = st_ledger s' -> st_pricing s2 = st_pricing s' ->
  settle_window (last_settled_bucket s2) (clock (e_clock e2)) = Some (from, upto) ->
  let '(r2, s2', _) := settle_once s2 e2 in
  is_Ok r2 = true /\ forall t, balance (st_ledger s2') t = balance (st_ledger s') t.
Proof.
  intros Hr Hk Hw Hi. destruct (settle_once_run s e from upto) as (n & s' & e' & -> & Hl & Hc); [done..|].
  intros Hcat Hled Hpr Hw2. rewrite (ch_catalog _ _ _ _ _ Hc) in Hcat. rewrite (ch_pricing _ _ _ _ _ Hc) in Hpr.
  assert (forall t, t ∈ settled_tenants (st_catalog s) -> due (st_ledger s') (st_pricing s) t from upto = 0) as Hfree.
  { intros t Ht. eapply due_settled; [exact Hc|]. intros r Hm. by exists t. }
  assert (forall t, t ∈ settled_tenants (st_catalog s) -> is_i64 (balance (st_ledger s') t)) as Hb.
  { intros t Ht. rewrite (ch_balance _ _ _ _ _ Hc), decide_True by done. by apply Hi. }
  pose proof (settle_once_run s2 e2 from upto) as Hrun. rewrite Hled, Hcat, Hpr in Hrun.
  destruct Hrun as (n2 & s2' & e2' & -> & _ & Hc2); [apply Hc|done|done| |].
  { intros t Ht. rewrite Hfree, Z.sub_0_r by done. by split; apply Hb. }
  split; [done|]. intros t. rewrite (ch_balance _ _ _ _ _ Hc2), Hled.
  destruct (decide _) as [Ht|]; [rewrite Hfree by done|]; lia.
Qed.

End settle_exact.

(** ** Where the references do not protect *)

Definition acme_tenant : TenantId := mkTenantId 5.

(** A thousand reads of a second tenant in each of the minutes at 900 and 960;
    a thousand cost ten. *)
Definition two_minutes (last : Z) : Settlement :=
  mkSettlement (with_tenants (fun _ => {[acme_tenant := mkTenantRecord acme_tenant 0 "active"]}) Catalog_empty)
    (mkLedger (<[mkUsageKey acme_tenant None KvRead 900 := 1000]>
                {[mkUsageKey acme_tenant None KvRead 960 := 1000]}) ∅ ∅ ∅ ∅ ∅ ∅ ∅) priced last.

Lemma settle_round_exact_witness :
  let '(r, s', _) := settle_once (env:=env_still) (H:=decimal_uuid_text) (two_minutes 840) eff0 in
  balance (st_ledger s') acme_tenant = -10.
Proof.
  pose proof (settle_round_exact (env:=env_still) (H0:=decimal_uuid_laws) (fun _ => eq_refl) (two_minutes 840) eff0
    840 900) as Hx.
  destruct (settle_once _ eff0) as [[r s'] e'].
  destruct Hx as (_ & _ & Hb).
  - intros r0 id Hid. discriminate Hid.
  - intros t rec. unfold two_minutes. simpl. intros [<- <-]%lookup_singleton_Some. split; [reflexivity|]. reflexivity.
  - reflexivity.
  - intros t Ht. replace (balance _ t) with 0 by reflexivity.
    assert (t = acme_tenant \/ t = DEFAULT_TENANT) as [-> | ->].
    { change (settled_tenants _) with [acme_tenant; DEFAULT_TENANT] in Ht. set_solver. }
    all: split; vm_compute; split; discriminate.
  - rewrite Hb. vm_compute. reflexivity.
Defined.

(** The store fails once, when the round asks for the second tenant's usage. *)
Definition env_query_fails : Env := {|
  clock n := 1000 + 60 * Z.of_nat n; instant _ := 0; uuid_v4 n := N.of_nat n;
  fault n := if (n =? 3)%nat then Some "timeout"%string else None |}.

(** A round that fails half way has charged the tenants before the
    failure; the next one charges a longer window under the same reference, so
    for those tenants the new minutes stay free: 2000 reads, worth 20, cost
    10. *)
Theorem partial_round_undercharges :
  let s1 := after (env:=env_query_fails) (two_minutes 840, eff0) in
  let s2 := after (env:=env_query_fails) s1 in
  balance (st_ledger s1.1) acme_tenant = -10 /\ last_settled_bucket s1.1 = 840 /\
  960 < last_settled_bucket s2.1 /\ balance (st_ledger s2.1) acme_tenant = -10.
Proof. vm_compute. repeat split. Qed.

(** Two processes on one store whose watermarks differ settle overlapping
    windows under different references: the minute at 960 is charged by
    both. *)
Theorem replicas_charge_twice :
  let s1 := after (env:=env_append_fails) (two_minutes 840, mkEff 1 0 5 0) in
  let s2 := after (env:=env_append_fails)
    (mkSettlement (st_catalog s1.1) (st_ledger s1.1) (st_pricing s1.1) 960, s1.2) in
  balance (st_ledger s1.1) acme_tenant = -20 /\ balance (st_ledger s2.1) acme_tenant = -30.
Proof. vm_compute. repeat split. Qed.
