(* ===== verification/MeterFleet.v ===== *)
(** crates/api-server/src/usage.rs with several API servers on one store: a
    request records usage while the flusher of its process is between two
    writes, a write fails, or succeeds and its answer is lost, and a process
    crashes with usage that no store has seen. A step runs from one await to
    the next. *)

From Stdlib Require Import ZArith Lia String Ascii.
From stdpp Require Import gmap strings list fin_maps sorting relations.
From S2P Require Import Prelude Common Kv Catalog Ledger Billing BillingSpec.

(** A process: its counters, and what its running flush has still to write. *)
Record Replica := mkReplica { rp_counters : gmap UsageKey Z; rp_batch : list (UsageKey * Z) }.

Record Fleet := mkFleet { fl_replicas : gmap nat Replica; fl_store : Ledger }.

(** How the [usage_add] of a flush ends: done, refused, or done with its
    answer lost. *)
Inductive WriteOutcome := Applied | Refused | Unanswered.

#[export] Instance WriteOutcome_eq_dec : EqDecision WriteOutcome.
Proof. solve_decision. Defined.

Inductive FleetStep :=
| FStart (r : nat)
| FRecord (r : nat) (key : UsageKey) (delta : Z)
(** [flush_once] takes the counters, *)
| FDrain (r : nat)
(** and writes the next key of its batch *)
| FWrite (r : nat) (o : WriteOutcome)
| FCrash (r : nat).

Definition set_replica (r : nat) (p : Replica) (f : Fleet) : Fleet :=
  mkFleet (<[r := p]> (fl_replicas f)) (fl_store f).

Definition add_counter (key : UsageKey) (delta : Z) (c : gmap UsageKey Z) : gmap UsageKey Z :=
  <[key := u64_add (default 0 (c !! key)) delta]> c.

Definition store_usage (key : UsageKey) (delta : Z) (l : Ledger) : Ledger :=
  with_usage (fun u => <[key := u64_add (default 0 (u !! key)) delta]> u) l.

(** The store after a write, and whether the flusher is told of success. *)
Definition write_outcome (o : WriteOutcome) (key : UsageKey) (delta : Z) (l : Ledger) : bool * Ledger :=
  match o with
  | Applied => (true, store_usage key delta l)
  | Refused => (false, l)
  | Unanswered => (false, store_usage key delta l)
  end.

Definition fleet_exec (a : FleetStep) (f : Fleet) : option Fleet :=
  match a with
  | FStart r =>
      match fl_replicas f !! r with
      | None => Some (set_replica r (mkReplica ∅ []) f)
      | Some _ => None
      end
  | FRecord r key delta =>
      p ← fl_replicas f !! r;
      if decide (delta = 0) then Some f
      else Some (set_replica r (mkReplica (add_counter key delta (rp_counters p)) (rp_batch p)) f)
  | FDrain r =>
      p ← fl_replicas f !! r;
      match rp_batch p with
      | [] => Some (set_replica r (mkReplica ∅ (map_to_list (rp_counters p))) f)
      | _ :: _ => None
      end
  | FWrite r o =>
      p ← fl_replicas f !! r;
      match rp_batch p with
      | [] => None
      | (key, delta) :: rest =>
          let '(told, l) := write_outcome o key delta (fl_store f) in
          let counters := if told : bool then rp_counters p else add_counter key delta (rp_counters p) in
          Some (mkFleet (<[r := mkReplica counters rest]> (fl_replicas f)) l)
      end
  | FCrash r => _ ← fl_replicas f !! r; Some (mkFleet (delete r (fl_replicas f)) (fl_store f))
  end.

Fixpoint fleet_run (l : list FleetStep) (f : Fleet) : option Fleet :=
  match l with
  | [] => Some f
  | a :: l' => f' ← fleet_exec a f; fleet_run l' f'
  end.

Definition fleet0 : Fleet := mkFleet ∅ Ledger_empty.

(** ** Accounts of a run *)

Definition if_key (key : UsageKey) (d : Z) (k : UsageKey) : Z := if decide (key = k) then d else 0.

(** What a process has of a key, not stored yet. *)
Definition held (k : UsageKey) (_ : nat) (p : Replica) : Z :=
  default 0 (rp_counters p !! k) + amount_in (rp_batch p) k.

Definition stored (k : UsageKey) (f : Fleet) : Z := default 0 (usage (fl_store f) !! k).

(** What a step records for a key, loses of it, or counts a second time. *)
Definition recorded_by (a : FleetStep) (k : UsageKey) : Z :=
  match a with FRecord _ key delta => if_key key delta k | _ => 0 end.

Definition lost_by (a : FleetStep) (f : Fleet) (k : UsageKey) : Z :=
  match a with FCrash r => from_option (held k r) 0 (fl_replicas f !! r) | _ => 0 end.

Definition doubled_by (a : FleetStep) (f : Fleet) (k : UsageKey) : Z :=
  match a with
  | FWrite r Unanswered =>
      match rp_batch <$> fl_replicas f !! r with Some ((key, d) :: _) => if_key key d k | _ => 0 end
  | _ => 0
  end.

(** The sums over a run. *)
Fixpoint run_sum (count : FleetStep -> Fleet -> Z) (l : list FleetStep) (f : Fleet) : Z :=
  match l with
  | [] => 0
  | a :: l' => count a f + match fleet_exec a f with Some f' => run_sum count l' f' | None => 0 end
  end.

Definition recorded (k : UsageKey) := run_sum (fun a _ => recorded_by a k).
Definition lost (k : UsageKey) := run_sum (fun a f => lost_by a f k).
Definition doubled (k : UsageKey) := run_sum (fun a f => doubled_by a f k).

(** Everything a fleet knows of a key. *)
Definition known (k : UsageKey) (f : Fleet) : Z := stored k f + map_sum (held k) (fl_replicas f).

(** ** Conservation *)

Definition eq_u64 (a b : Z) : Prop := wrap_u64 a = wrap_u64 b.

#[export] Instance eq_u64_equiv : Equivalence eq_u64.
Proof. split; intros ?; unfold eq_u64; [done|by symmetry|congruence]. Qed.

#[export] Instance eq_u64_add : Proper (eq_u64 ==> eq_u64 ==> eq_u64) Z.add.
Proof.
  intros a b Hab c d Hcd. unfold eq_u64, wrap_u64 in *. by rewrite Zplus_mod, Hab, Hcd, <- Zplus_mod.
Qed.

#[export] Instance eq_u64_sub : Proper (eq_u64 ==> eq_u64 ==> eq_u64) Z.sub.
Proof.
  intros a b Hab c d Hcd. unfold eq_u64, wrap_u64 in *. by rewrite Zminus_mod, Hab, Hcd, <- Zminus_mod.
Qed.

Lemma eq_u64_wrap a : eq_u64 (wrap_u64 a) a.
Proof. unfold eq_u64, wrap_u64. apply Zmod_mod. Qed.

Lemma lookup_add_counter key d c k : eq_u64 (default 0 (add_counter key d c !! k)) (default 0 (c !! k) + if_key key d k).
Proof.
  unfold add_counter, if_key. destruct (decide (key = k)) as [<-|Hne].
  - rewrite lookup_insert_eq. apply eq_u64_wrap.
  - rewrite lookup_insert_ne by done. by rewrite Z.add_0_r.
Qed.

Lemma stored_usage key d k rs l :
  eq_u64 (stored k (mkFleet rs (store_usage key d l))) (stored k (mkFleet rs l) + if_key key d k).
Proof. apply (lookup_add_counter key d (usage l) k). Qed.

Lemma known_replica k f r p p' l :
  fl_replicas f !! r = Some p ->
  known k (mkFleet (<[r := p']> (fl_replicas f)) l) =
  known k f + (stored k (mkFleet ∅ l) - stored k f) + (held k r p' - held k r p).
Proof. intros Hr. unfold known. simpl. rewrite map_sum_insert, Hr. simpl. unfold stored. simpl. lia. Qed.

Lemma fleet_step_conserves a f f' k :
  fleet_exec a f = Some f' ->
  eq_u64 (known k f' + lost_by a f k) (known k f + recorded_by a k + doubled_by a f k).
Proof.
  destruct a as [r|r key d|r|r o|r]; simpl; intros Hex.
  - destruct (fl_replicas f !! r) eqn:Hr; [done|]. injection Hex as <-. unfold known, set_replica. simpl.
    rewrite map_sum_insert_None by done. unfold held, stored. simpl. rewrite lookup_empty. simpl.
    unfold eq_u64. f_equal. lia.
  - destruct (fl_replicas f !! r) as [p|] eqn:Hr; [|done]. simpl in Hex. unfold if_key.
    destruct (decide (d = 0)) as [->|]; [injection Hex as <-|].
    { destruct (decide _); by rewrite !Z.add_0_r. }
    injection Hex as <-. unfold set_replica. rewrite (known_replica _ _ _ _ _ _ Hr). unfold held. simpl.
    rewrite lookup_add_counter. unfold if_key, eq_u64, stored. f_equal. simpl. lia.
  - destruct (fl_replicas f !! r) as [p|] eqn:Hr; [|done]. simpl in Hex.
    destruct (rp_batch p) as [|] eqn:Hb; [|done]. injection Hex as <-. unfold set_replica.
    rewrite (known_replica _ _ _ _ _ _ Hr). unfold held. simpl. rewrite Hb, lookup_empty, amount_in_map.
    unfold eq_u64, stored. f_equal. simpl. lia.
  - destruct (fl_replicas f !! r) as [p|] eqn:Hr; [|done]. simpl in Hex.
    destruct (rp_batch p) as [|[key d] rest] eqn:Hb; [done|].
    assert (held k r p = default 0 (rp_counters p !! k) + (if_key key d k + amount_in rest k)) as Hh
      by (unfold held; by rewrite Hb).
    destruct o; simpl in Hex; injection Hex as <-; rewrite (known_replica _ _ _ _ _ _ Hr), Hh; unfold held; simpl;
      rewrite ?lookup_add_counter, ?stored_usage; unfold eq_u64, stored; simpl; rewrite ?Hb; f_equal; lia.
  - destruct (fl_replicas f !! r) as [p|] eqn:Hr; [|done]. simpl in Hex. injection Hex as <-.
    unfold known, stored. simpl. rewrite (map_sum_delete _ (fl_replicas f) r p Hr). unfold eq_u64. f_equal. lia.
Qed.

Lemma fleet_run_conserves l f f' k :
  fleet_run l f = Some f' -> eq_u64 (known k f' + lost k l f) (known k f + recorded k l f + doubled k l f).
Proof.
  revert f. induction l as [|a l IH]; intros f; simpl; [intros [= ->]; by rewrite !Z.add_0_r|].
  unfold lost, recorded, doubled. cbn [run_sum]. destruct (fleet_exec a f) as [f1|] eqn:Ha; [|done]. simpl.
  intros Hl. specialize (IH _ Hl). pose proof (fleet_step_conserves a f f1 k Ha) as Hs.
  fold (lost k l f1) (recorded k l f1) (doubled k l f1).
  rewrite (Z.add_comm (lost_by a f k)), Z.add_assoc, IH.
  replace (known k f1 + recorded k l f1 + doubled k l f1 + lost_by a f k)
    with (known k f1 + lost_by a f k + (recorded k l f1 + doubled k l f1)) by lia.
  rewrite Hs. unfold eq_u64. f_equal. lia.
Qed.

Definition is_crash (a : FleetStep) : bool := match a with FCrash _ => true | _ => false end.
Definition is_unanswered (a : FleetStep) : bool := match a with FWrite _ Unanswered => true | _ => false end.

Lemma run_sum_zero (count : FleetStep -> Fleet -> Z) (P : FleetStep -> bool) l f :
  (forall a f, P a = false -> count a f = 0) -> forallb (fun a => negb (P a)) l = true -> run_sum count l f = 0.
Proof.
  intros Hz. revert f. induction l as [|a l IH]; intros f; simpl; [done|].
  intros [Ha Hl]%andb_true_iff. rewrite Hz by (by destruct (P a)).
  destruct (fleet_exec a f); [by rewrite IH|done].
Qed.

(** C17: however requests, flushes, failed writes, lost answers, crashes and
    restarts of several processes interleave, no usage is lost or made up: for
    every key, what is stored plus what the processes hold plus what crashed
    with its process is what was recorded plus what was written a second time
    because the answer to the first write was lost (in 64-bit arithmetic).
    Without crashes nothing is lost, without lost answers nothing is counted
    twice. *)
Theorem fleet_conserves (l : list FleetStep) (f : Fleet) (k : UsageKey) :
  fleet_run l fleet0 = Some f ->
  wrap_u64 (stored k f + map_sum (held k) (fl_replicas f) + lost k l fleet0) =
    wrap_u64 (recorded k l fleet0 + doubled k l fleet0) /\
  (forallb (fun a => negb (is_crash a)) l = true -> lost k l fleet0 = 0) /\
  (forallb (fun a => negb (is_unanswered a)) l = true -> doubled k l fleet0 = 0).
Proof.
  intros Hl. split; [|split].
  - exact (fleet_run_conserves l fleet0 f k Hl).
  - apply run_sum_zero. by intros [].
  - apply run_sum_zero. by intros [| | |r []|].
Qed.

(** ** Progress *)

Lemma finish_batch r p f :
  fl_replicas f !! r = Some p ->
  exists l, fleet_run (replicate (length (rp_batch p)) (FWrite r Applied)) f =
    Some (mkFleet (<[r := mkReplica (rp_counters p) []]> (fl_replicas f)) l).
Proof.
  destruct p as [c b]. simpl. revert f. induction b as [|[key d] b IH]; intros f Hr; simpl.
  { exists (fl_store f). rewrite insert_id by done. by destruct f. }
  rewrite Hr. simpl. destruct (IH (mkFleet (<[r := mkReplica c b]> (fl_replicas f)) (store_usage key d (fl_store f))))
    as [l ->]; [apply lookup_insert_eq|]. exists l. simpl. by rewrite insert_insert_eq.
Qed.

(** A flusher whose writes are answered leaves its process with nothing to
    flush: the batch that runs, then the counters. *)
Definition flush_steps (r : nat) (p : Replica) : list FleetStep :=
  replicate (length (rp_batch p)) (FWrite r Applied) ++ FDrain r ::
  replicate (length (map_to_list (rp_counters p))) (FWrite r Applied).

Lemma fleet_run_app l1 l2 f : fleet_run (l1 ++ l2) f = (f' ← fleet_run l1 f; fleet_run l2 f').
Proof. revert f. induction l1 as [|a l1 IH]; intros f; simpl; [done|]. destruct (fleet_exec a f); [apply IH|done]. Qed.

Lemma flush_replica r p f :
  fl_replicas f !! r = Some p ->
  exists l, fleet_run (flush_steps r p) f = Some (mkFleet (<[r := mkReplica ∅ []]> (fl_replicas f)) l).
Proof.
  intros Hr. unfold flush_steps. rewrite fleet_run_app.
  destruct (finish_batch r p f Hr) as [l1 ->]. simpl. rewrite lookup_insert_eq. simpl.
  set (f1 := set_replica _ _ _).
  destruct (finish_batch r (mkReplica ∅ (map_to_list (rp_counters p))) f1) as [l2 Hl2]; [apply lookup_insert_eq|].
  simpl in Hl2. rewrite Hl2. exists l2. by rewrite !insert_insert_eq.
Qed.

(** The steps of the flushers whose writes succeed. *)
Definition flushing (a : FleetStep) : bool :=
  match a with FDrain _ | FWrite _ Applied => true | _ => false end.

Lemma flush_all (todo : list nat) f :
  NoDup todo -> (forall r, r ∈ todo -> is_Some (fl_replicas f !! r)) ->
  exists l f', fleet_run l f = Some f' /\ forallb flushing l = true /\
    forall r, fl_replicas f' !! r =
      if decide (r ∈ todo) then Some (mkReplica ∅ []) else fl_replicas f !! r.
Proof.
  intros Hnd. revert f. induction Hnd as [|r todo Hr _ IH]; intros f Hin; [exists [], f; done|].
  destruct (Hin r) as [p Hp]; [by left|]. destruct (flush_replica r p f Hp) as [l1 Hl1].
  destruct (IH (mkFleet (<[r := mkReplica ∅ []]> (fl_replicas f)) l1)) as (l2 & f2 & Hl2 & Hf2 & Hr2).
  { intros r' Hr'. simpl. apply lookup_insert_is_Some'. right. apply Hin. by right. }
  exists (flush_steps r p ++ l2), f2. rewrite fleet_run_app, Hl1. split; [done|]. split.
  - unfold flush_steps. rewrite !forallb_app. simpl. rewrite Hf2.
    assert (forall n, forallb flushing (replicate n (FWrite r Applied)) = true) as Hrep by (by induction n).
    by rewrite !Hrep.
  - intros r'. rewrite Hr2. simpl. destruct (decide (r' = r)) as [->|Hne].
    + rewrite decide_False by done. rewrite lookup_insert_eq, decide_True by (by left). done.
    + rewrite lookup_insert_ne by done. destruct (decide (r' ∈ todo)) as [H1|H1].
      * by rewrite decide_True by (by right).
      * by rewrite decide_False by (rewrite elem_of_cons; naive_solver).
Qed.

(** Whatever has happened, once the flushers run and the store answers
    them, all that is known of a key is in the store. *)
Theorem fleet_catches_up (f : Fleet) :
  exists l f', fleet_run l f = Some f' /\ forallb flushing l = true /\
    forall k, map_sum (held k) (fl_replicas f') = 0 /\
      wrap_u64 (stored k f') = wrap_u64 (stored k f + map_sum (held k) (fl_replicas f)).
Proof.
  destruct (flush_all (map_to_list (fl_replicas f)).*1 f) as (l & f' & Hrun & Hfl & Hr).
  { apply NoDup_fst_map_to_list. }
  { intros r ([r0 p] & -> & Hin%elem_of_map_to_list)%list_elem_of_fmap. by exists p. }
  exists l, f'. split; [done|]. split; [done|]. intros k.
  assert (map_sum (held k) (fl_replicas f') = 0) as Hz.
  { rewrite (map_sum_ext _ (fun _ _ => 0)).
    - generalize (fl_replicas f'). intros m. induction m as [|i x m Hi IH] using map_ind; [done|].
      by rewrite map_sum_insert_None, IH.
    - intros r p Hp. rewrite Hr in Hp. destruct (decide _) as [|Hn].
      + injection Hp as <-. unfold held. simpl. by rewrite lookup_empty.
      + destruct Hn. apply list_elem_of_fmap. exists (r, p). split; [done|]. by apply elem_of_map_to_list. }
  split; [done|]. pose proof (fleet_run_conserves l f f' k Hrun) as Hc.
  assert (lost k l f = 0 /\ recorded k l f = 0 /\ doubled k l f = 0) as (Hl & Hrec & Hd).
  { assert (forallb (fun a => negb (negb (flushing a))) l = true) as Hn.
    { rewrite <- Hfl. clear. induction l as [|a l IH]; simpl; [done|]. by rewrite IH, negb_involutive. }
    split; [|split]; (apply (run_sum_zero _ (fun a => negb (flushing a))); [by intros [| | |? []|]|exact Hn]). }
  rewrite Hl, Hrec, Hd, !Z.add_0_r in Hc. unfold known in Hc. by rewrite Hz, Z.add_0_r in Hc.
Qed.

(** ** The steps are those of the code *)

Section code.
Context {env : Env}.

Lemma flush_batch_steps r batch n c f e :
  fl_replicas f !! r = Some (mkReplica c batch) ->
  let '(_, m', _) := flush_batch batch n (mkUsageMeter c (fl_store f)) e in
  exists os, Forall (fun o => o <> Unanswered) os /\
    fleet_run (FWrite r <$> os) f =
      Some (mkFleet (<[r := mkReplica (counters m') []]> (fl_replicas f)) (sink m')).
Proof.
  revert n c f e. induction batch as [|[key d] batch IH]; intros n c f e Hr; simpl.
  { exists []. split; [done|]. simpl. rewrite insert_id by done. by destruct f. }
  unfold bind at 1, attempt, on_sink, zoom. simpl. unfold store_call, bind at 1, fallible.
  destruct (fault (e_call e)) as [msg|]; simpl.
  - unfold bind at 1, modify. specialize (IH n (add_counter key d c)
      (set_replica r (mkReplica (add_counter key d c) batch) f) (bump_call e) (lookup_insert_eq _ _ _)).
    unfold bump_counter. simpl in IH |- *. fold (add_counter key d c).
    destruct (flush_batch batch n _ _) as [[x m'] e']. destruct IH as (os & Hos & Hrun).
    exists (Refused :: os). split; [by constructor|].
    rewrite fmap_cons. cbn [fleet_run fleet_exec]. rewrite Hr. cbn.
    etrans; [exact Hrun|]. simpl. by rewrite insert_insert_eq.
  - specialize (IH (n + 1)%nat c (mkFleet (<[r := mkReplica c batch]> (fl_replicas f)) (store_usage key d (fl_store f)))
      (bump_call e) (lookup_insert_eq _ _ _)).
    unfold usage_add, modify. simpl in IH |- *. fold (store_usage key d (fl_store f)).
    destruct (flush_batch batch (n + 1) _ _) as [[x m'] e']. destruct IH as (os & Hos & Hrun).
    exists (Applied :: os). split; [by constructor|].
    rewrite fmap_cons. cbn [fleet_run fleet_exec]. rewrite Hr. cbn.
    etrans; [exact Hrun|]. simpl. by rewrite insert_insert_eq.
Qed.

(** A flush that nothing interrupts is a drain followed by its writes. *)
Theorem flush_once_steps r c f e :
  fl_replicas f !! r = Some (mkReplica c []) ->
  let '(_, m', _) := flush_once (mkUsageMeter c (fl_store f)) e in
  exists os, Forall (fun o => o <> Unanswered) os /\
    fleet_run (FDrain r :: (FWrite r <$> os)) f =
      Some (mkFleet (<[r := mkReplica (counters m') []]> (fl_replicas f)) (sink m')).
Proof.
  intros Hr. unfold flush_once, bind at 1, gets. simpl. destruct (decide (map_to_list c = [])) as [Hc|Hc].
  - exists []. split; [done|]. simpl. rewrite Hr. simpl. rewrite Hc.
    apply map_to_list_empty_iff in Hc as ->. done.
  - unfold bind at 1, modify. simpl.
    pose proof (flush_batch_steps r (map_to_list c) 0 ∅ (set_replica r (mkReplica ∅ (map_to_list c)) f) e
      (lookup_insert_eq _ _ _)) as Hb. simpl in Hb.
    destruct (flush_batch _ _ _ _) as [[x m'] e']. destruct Hb as (os & Hos & Hrun).
    exists os. split; [done|]. cbn [fleet_run fleet_exec]. rewrite Hr. cbn.
    etrans; [exact Hrun|]. simpl. by rewrite insert_insert_eq.
Qed.

(** And recording is one step, with the present minute in the key. *)
Theorem record_usage_step r p f t cell m d e :
  fl_replicas f !! r = Some p ->
  let '(_, u, _) := record_usage t cell m d (mkUsageMeter (rp_counters p) (fl_store f)) e in
  fleet_exec (FRecord r (mkUsageKey t cell m (bucket_start (clock (e_clock e)))) d) f =
    Some (set_replica r (mkReplica (counters u) (rp_batch p)) f) /\ sink u = fl_store f.
Proof.
  intros Hr. unfold record_usage. destruct (Z.eqb_spec d 0) as [->|Hd]; simpl; rewrite Hr; simpl.
  - split; [|done]. unfold set_replica. rewrite insert_id by (by destruct p).
    by destruct f.
  - by destruct (decide (d = 0)).
Qed.

End code.

(** Two processes: one records during its flush and has a write refused and
    one whose answer is lost; the other crashes before it flushes. *)
Definition busy_key : UsageKey := mkUsageKey DEFAULT_TENANT None KvRead 960.

Definition busy_run : list FleetStep := [
  FStart 0; FStart 1; FRecord 0 busy_key 5; FRecord 1 busy_key 7; FDrain 0; FRecord 0 busy_key 2;
  FWrite 0 Refused; FDrain 0; FWrite 0 Unanswered; FCrash 1; FDrain 0; FWrite 0 Applied].

Lemma busy_run_books :
  is_Some (fleet_run busy_run fleet0) /\ lost busy_key busy_run fleet0 = 7 /\
  recorded busy_key busy_run fleet0 = 14 /\ doubled busy_key busy_run fleet0 = 7.
Proof. vm_compute. repeat split. by eexists. Qed.

Lemma fleet_conserves_witness :
  exists f, fleet_run busy_run fleet0 = Some f /\ lost busy_key busy_run fleet0 = 7 /\
    recorded busy_key busy_run fleet0 = 14 /\ doubled busy_key busy_run fleet0 = 7 /\
    wrap_u64 (stored busy_key f + map_sum (held busy_key) (fl_replicas f) + lost busy_key busy_run fleet0) =
    wrap_u64 (recorded busy_key busy_run fleet0 + doubled busy_key busy_run fleet0).
Proof.
  destruct busy_run_books as ([f Hf] & Hlost & Hrec & Hd).
  exists f. split; [exact Hf|]. split; [exact Hlost|]. split; [exact Hrec|]. split; [exact Hd|].
  exact (proj1 (fleet_conserves busy_run f busy_key Hf)).
Defined.
