(* ===== verification/Access.v ===== *)
(** crates/api-server: the middleware every public request passes, [auth.rs],
    [quota.rs] and the metering of [usage.rs], and the guards of the control
    plane and of the operators' API. *)

From Stdlib Require Import ZArith Lia String Ascii.
From stdpp Require Import gmap strings list fin_maps.
From S2P Require Import Prelude Common Kv SqlGate Sql Catalog Ledger Billing.

(** ** Requests and responses *)

(** What polling a body yields; a body at its end yields [End] for ever. *)
Inductive Poll := Pending | Frame (data : option Z) | FrameErr | End.

(** Whom a counted body is charged to, and as what. *)
Record Counted := mkCounted { ct_tenant : TenantId; ct_cell : option DatabaseId; ct_metric : UsageMetric }.

(** [CountingBody]: [cb_inner] is what the wrapped body still has to yield. *)
Record CountingBody := mkCountingBody {
  cb_inner : list Poll;
  cb_bytes : Z;
  cb_done : bool;
  cb_on_done : option Counted;
}.

Record Request := mkRequest {
  rq_method : string;
  rq_path : string;
  rq_headers : list (string * string);
  rq_auth : option AuthContext;
  rq_body : CountingBody;
}.

Record Response (B : Type) := mkResponse {
  rs_status : Z;
  rs_content : string * string + B;
  rs_body : CountingBody;
}.
Arguments mkResponse {B}.
Arguments rs_status {B}.
Arguments rs_content {B}.
Arguments rs_body {B}.

(** A body nobody counts. *)
Definition plain_body (polls : list Poll) : CountingBody := mkCountingBody polls 0 true None.

(** [(StatusCode, Json(ErrorBody { code, error })).into_response()] *)
Definition error_response {B} (status : Z) (code error : string) : Response B :=
  mkResponse status (inl (code, error)) (plain_body []).

(** The textual form of a header value belongs to the [http] crate. *)
Class HttpText := { header_to_str : string -> option string }.

Definition header (name : string) (req : Request) : option string :=
  snd <$> List.find (fun h => bool_decide (h.1 = name)) (rq_headers req).

Definition has_header (name : string) (req : Request) : bool :=
  match header name req with Some _ => true | None => false end.

Definition header_text `{HttpText} (name : string) (req : Request) : option string :=
  v ← header name req; header_to_str v.

Definition strip_prefix (p s : string) : option string :=
  if String.prefix p s then Some (String.substring (String.length p) (String.length s - String.length p) s)
  else None.

(** [path.split('/').filter(|s| !s.is_empty())] *)
Fixpoint path_segments_aux (s cur : string) : list string :=
  let flush := match cur with EmptyString => [] | _ => [cur] end in
  match s with
  | EmptyString => flush
  | String.String c rest =>
      if decide (c = "/"%char) then flush ++ path_segments_aux rest EmptyString
      else path_segments_aux rest (cur +:+ String.String c EmptyString)
  end.

Definition path_segments (path : string) : list string := path_segments_aux path EmptyString.

Definition parse_cell_from_path `{UuidText} (path : string) : option DatabaseId :=
  match path_segments path with
  | v1 :: databases :: id :: _ =>
      if decide (v1 = "v1"%string /\ databases = "databases"%string)
      then DatabaseId_from_str id else None
  | _ => None
  end.

(** ** usage.rs: the SQL heuristic and the self paths *)

(** The first item of [split_whitespace]. *)
Fixpoint until_whitespace (b : bytes) : bytes :=
  match b with
  | [] => []
  | c :: b' =>
      if (length (trim_start b) =? length b)%nat then c :: until_whitespace b' else []
  end.

Definition is_read_sql (sql : string) : bool :=
  let first := lowercase (until_whitespace (trim_start (as_bytes sql))) in
  existsb (fun w => bool_decide (first = as_bytes w)) ["select"; "with"; "pragma"; "explain"]%string.

Definition USAGE_SELF_PATHS : list string :=
  ["/v1/usage/summary"; "/v1/usage/timeseries"; "/v1/cells/"; "/v1/credits/balance";
   "/v1/credits/transactions"]%string.

(** ** The state of the API server the middleware touches *)

(** The directory, the meter in front of the ledger, and the in-flight
    counters. *)
Record Api := mkApi {
  api_catalog : Catalog;
  api_meter : UsageMeter Ledger;
  inflight : gmap string Z;
}.

Inductive AuthMode := AuthOff | AuthKey.

#[export] Instance AuthMode_eq_dec : EqDecision AuthMode.
Proof. solve_decision. Defined.

Record ApiConfig := mkApiConfig {
  auth_mode : AuthMode;
  control_plane_token : option string;
  admin_token : option string;
  bff_service_key : option string;
  api_quota : QuotaConfig;
  min_credit_balance_units : Z;
}.

(** [AuthMode::from_env], on the value of COMBEE_AUTH. *)
Definition auth_mode_from_env (v : option string) : AuthMode :=
  match v with
  | Some s => if decide (s = "key"%string \/ s = "db"%string) then AuthKey else AuthOff
  | None => AuthOff
  end.

(** A server state that has these parts. *)
Class HasApi (S : Type) := { api_of : S -> Api; put_api : Api -> S -> S }.

Class HasApiLaws (S : Type) `{HasApi S} := {
  api_of_put : forall a s, api_of (put_api a s) = a;
  put_api_of : forall s, put_api (api_of s) s = s;
}.

#[export] Instance api_has_api : HasApi Api := {| api_of s := s; put_api a _ := a |}.
#[export] Instance api_has_api_laws : HasApiLaws Api.
Proof. by split. Qed.

Section access.
Context {env : Env} `{UuidText} `{HttpText} {S : Type} `{HasApi S} {B : Type}.
(** [combee_common::api_key::hash]: SHA-256 in hexadecimal. *)
Variable hash : string -> string.
Variable cfg : ApiConfig.

Abbreviation SrvM := (M S CombeeError).

Definition on_api {A} (m : M Api CombeeError A) : SrvM A := zoom api_of put_api m.

(** The metadata store, behind calls that may fail. *)
Definition on_directory {A} (m : M Catalog CombeeError A) : SrvM A :=
  on_api (zoom api_catalog (fun c a => mkApi c (api_meter a) (inflight a)) (store_call m)).

Definition on_accounts {A} (m : M Ledger CombeeError A) : SrvM A :=
  on_api (zoom (fun a => sink (api_meter a))
    (fun l a => mkApi (api_catalog a) (mkUsageMeter (counters (api_meter a)) l) (inflight a))
    (store_call m)).

Definition on_meter {A} (m : M (UsageMeter Ledger) CombeeError A) : SrvM A :=
  on_api (zoom api_meter (fun u a => mkApi (api_catalog a) u (inflight a)) m).

Definition Next := Request -> SrvM (Response B).

Definition unauthorized (error : string) : SrvM (Response B) :=
  mret (error_response 401 "unauthorized" error).

(** ** auth.rs *)

Definition with_auth (a : AuthContext) (req : Request) : Request :=
  mkRequest (rq_method req) (rq_path req) (rq_headers req) (Some a) (rq_body req).

(** [FromRequestParts for AuthContext]: the handlers' view of the tenant. *)
Definition request_auth (req : Request) : AuthContext :=
  default (mkAuthContext DEFAULT_TENANT false) (rq_auth req).

(** [Authorization: Bearer <token>] or a header of its own. *)
Definition token_presented (own_header expected : string) (req : Request) : bool :=
  let bearer_ok :=
    match (v ← header_text "authorization" req; strip_prefix "Bearer " v) with
    | Some t => bool_decide (t = expected)
    | None => false
    end in
  let header_ok :=
    match header_text own_header req with
    | Some t => bool_decide (t = expected)
    | None => false
    end in
  bearer_ok || header_ok.

Definition internal_auth (next : Next) (req : Request) : SrvM (Response B) :=
  if has_header "x-api-key" req then unauthorized "unauthorized" else
  match control_plane_token cfg with
  | Some expected =>
      if negb (token_presented "x-control-token" expected req) then unauthorized "unauthorized"
      else next req
  | None => next req
  end.

Definition admin_auth (next : Next) (req : Request) : SrvM (Response B) :=
  let is_bff := match bff_service_key cfg with
                | Some bff => bool_decide (header_text "x-api-key" req = Some bff)
                | None => false
                end in
  if is_bff then
    if decide (rq_method req = "POST"%string /\ rq_path req = "/admin/tenants"%string) then next req
    else unauthorized "bff service key cannot call this admin endpoint"
  else if has_header "x-api-key" req then unauthorized "unauthorized" else
  match admin_token cfg with
  | None => unauthorized "COMBEE_ADMIN_TOKEN not configured"
  | Some expected =>
      if negb (token_presented "x-admin-token" expected req) then unauthorized "unauthorized"
      else next req
  end.

(** The tail of [auth_middleware]: an internal request may name the tenant it
    acts for. *)
Definition on_behalf (tenant : TenantId) (internal : bool) (next : Next) (req : Request)
    : SrvM (Response B) :=
  match (if internal then header_text "x-combee-on-behalf-tenant" req else None) with
  | Some raw =>
      match TenantId_from_str raw with
      | Some t => next (with_auth (mkAuthContext t internal) req)
      | None => mret (error_response 400 "invalid_request" "invalid x-combee-on-behalf-tenant")
      end
  | None => next (with_auth (mkAuthContext tenant internal) req)
  end.

Definition auth_middleware (next : Next) (req : Request) : SrvM (Response B) :=
  if decide (auth_mode cfg = AuthKey) then
    match header_text "x-api-key" req with
    | Some key =>
        let internal := bool_decide (bff_service_key cfg = Some key) in
        let! found := attempt (on_directory (lookup_api_key_by_hash (hash key))) in
        match found with
        | Ok (Some record) => on_behalf (k_tenant record) internal next req
        | _ => unauthorized "unauthorized"
        end
    | None => unauthorized "unauthorized"
    end
  else on_behalf DEFAULT_TENANT false next req.

(** ** quota.rs *)

(** [try_enter]: the counter appears with the first look at it, and goes up
    when the limit (0 means none) is not reached. *)
Definition try_enter (key : string) (max : nat) (m : gmap string Z) : bool * gmap string Z :=
  let cur := default 0 (m !! key) in
  if (0 <? max)%nat && (Z.of_nat max <=? cur) then (false, <[key := cur]> m)
  else (true, <[key := wrap_u64 (cur + 1)]> m).

(** [Guard::drop] *)
Definition guard_drop (key : string) (m : gmap string Z) : gmap string Z :=
  match m !! key with
  | Some v => let v' := u64_saturating_sub v 1 in
              if v' =? 0 then delete key m else <[key := v']> m
  | None => m
  end.

Definition on_inflight {A} (f : gmap string Z -> A * gmap string Z) : SrvM A :=
  on_api (fun a e => let '(r, m) := f (inflight a) in (Ok r, mkApi (api_catalog a) (api_meter a) m, e)).

Definition drop_guard (key : string) : SrvM unit := on_inflight (fun m => (tt, guard_drop key m)).

Definition quota_response : Response B :=
  error_response 429 "quota_exceeded" "concurrency limit exceeded".

Definition credit_quota (next : Next) (req : Request) : SrvM (Response B) :=
  match rq_auth req with
  | Some auth =>
      if auth_internal auth then next req else
      let! account := attempt (on_accounts (get_credit_account (auth_tenant auth))) in
      match account with
      | Ok acc =>
          if balance_units acc <? min_credit_balance_units cfg then
            mret (error_response 402 "insufficient_credits" "credit balance below minimum; top up to continue")
          else next req
      | Err _ => next req
      end
  | None => next req
  end.

(** The guards are dropped by [let _ = (tenant_guard, cell_guard)], cell guard
    last (a tuple drops its fields in order), before the request is passed
    on; a guard alive at an early return is dropped there. *)
Definition concurrency_quota (next : Next) (req : Request) : SrvM (Response B) :=
  let tenant := from_option auth_tenant DEFAULT_TENANT (rq_auth req) in
  let cell := parse_cell_from_path (rq_path req) in
  let q := api_quota cfg in
  let tenant_key := "t:" +:+ uuid_to_string (tenant_uuid tenant) in
  let! entered := on_inflight (try_enter tenant_key (max_per_tenant_concurrency q)) in
  if negb entered then
    do! on_meter (record_usage tenant cell Requests 1) in mret quota_response
  else
    match cell with
    | Some c =>
        if (0 <? max_per_cell_concurrency q)%nat then
          let key := "c:" +:+ uuid_to_string (database_uuid c) in
          let! entered := on_inflight (try_enter key (max_per_cell_concurrency q)) in
          if negb entered then
            do! on_meter (record_usage tenant (Some c) Requests 1) in
            do! drop_guard tenant_key in mret quota_response
          else
            do! drop_guard tenant_key in do! drop_guard key in next req
        else do! drop_guard tenant_key in next req
    | None => do! drop_guard tenant_key in next req
    end.

(** ** usage.rs: the metering middleware *)

(** [CountingBody::new] around a body that is not wrapped yet. *)
Definition count_body (who : Counted) (b : CountingBody) : CountingBody :=
  mkCountingBody (cb_inner b) 0 false (Some who).

Definition poll_frame (b : CountingBody) : SrvM (Poll * CountingBody) :=
  match cb_inner b with
  | (Frame (Some n) as p) :: rest =>
      mret (p, mkCountingBody rest (u64_add (cb_bytes b) n) (cb_done b) (cb_on_done b))
  | End :: _ | [] =>
      if cb_done b then mret (End, b) else
      let b' := mkCountingBody (cb_inner b) (cb_bytes b) true None in
      match cb_on_done b with
      | Some who =>
          do! on_meter (record_usage (ct_tenant who) (ct_cell who) (ct_metric who) (cb_bytes b)) in
          mret (End, b')
      | None => mret (End, b')
      end
  | p :: rest => mret (p, mkCountingBody rest (cb_bytes b) (cb_done b) (cb_on_done b))
  end.

Definition map_body (f : CountingBody -> CountingBody) (req : Request) : Request :=
  mkRequest (rq_method req) (rq_path req) (rq_headers req) (rq_auth req) (f (rq_body req)).

Definition map_response (f : CountingBody -> CountingBody) (r : Response B) : Response B :=
  mkResponse (rs_status r) (rs_content r) (f (rs_body r)).

Definition usage_tracking (next : Next) (req : Request) : SrvM (Response B) :=
  let auth := rq_auth req in
  if from_option auth_internal false auth then next req else
  if existsb (fun p => String.prefix p (rq_path req)) USAGE_SELF_PATHS then next req else
  let tenant := from_option auth_tenant DEFAULT_TENANT auth in
  let cell := parse_cell_from_path (rq_path req) in
  let req' := map_body (count_body (mkCounted tenant cell BytesIn)) req in
  do! on_meter (record_usage tenant cell Requests 1) in
  let! response := next req' in
  mret (map_response (count_body (mkCounted tenant cell BytesOut)) response).

(** ** app.rs: the layers around the public routes, outermost first *)

(** [logging] is [request_logging] of logging.rs, which needs the metrics of the
    process. *)
Definition public_app (logging : Next -> Next) (handler : Next) : Next :=
  auth_middleware (credit_quota (usage_tracking (logging (concurrency_quota handler)))).

End access.
