(* ===== verification/AccessSpec.v ===== *)
(** What the middleware guarantees: no handler runs without authentication,
    tenants cannot reach the control planes, a body is charged once, and what
    the in-flight limit really does. *)

From Stdlib Require Import ZArith Lia String Ascii.
From stdpp Require Import gmap strings list fin_maps.
From S2P Require Import Prelude Common Kv SqlGate Sql Catalog Ledger Billing Access.

Section access.
Context {env : Env} `{UuidText} `{HttpText} {S : Type} `{HasApiLaws S} {B : Type}.
Variable hash : string -> string.
Variable cfg : ApiConfig.

Abbreviation SrvM := (M S CombeeError).
Implicit Types (next : Next (S:=S) (B:=B)) (req : Request) (s : S) (e : Eff).

(** ** Authentication *)

(** The key of the request is a live key of the directory; only the holder of
    the service key is internal, and only an internal request acts for
    another tenant than the key's. *)
Definition authorised req (a : AuthContext) (c : Catalog) : Prop :=
  (auth_mode cfg = AuthOff /\ a = mkAuthContext DEFAULT_TENANT false) \/
  (auth_mode cfg = AuthKey /\ exists key id rec,
     header_text "x-api-key" req = Some key /\
     api_keys c !! id = Some rec /\ k_hash rec = hash key /\ k_revoked_at rec = None /\
     auth_internal a = bool_decide (bff_service_key cfg = Some key) /\
     (auth_internal a = false -> auth_tenant a = k_tenant rec) /\
     (auth_tenant a <> k_tenant rec -> exists raw,
        header_text "x-combee-on-behalf-tenant" req = Some raw /\
        TenantId_from_str raw = Some (auth_tenant a))).

(** A request that was turned away, with nothing changed. *)
Definition rejected (r : result CombeeError (Response B) * S * Eff) s e : Prop :=
  exists resp e', r = (Ok resp, s, e') /\ (e' = e \/ e' = bump_call e) /\
    (rs_status resp = 401 \/ rs_status resp = 400).

Lemma find_live c h rec :
  List.find (key_matches h) (values (api_keys c)) = Some rec ->
  exists id, api_keys c !! id = Some rec /\ k_hash rec = h /\ k_revoked_at rec = None.
Proof.
  intros Hf. apply List.find_some in Hf as [Hin Hm]. unfold key_matches in Hm.
  apply andb_true_iff in Hm as [Hh%bool_decide_eq_true Hr%bool_decide_eq_true].
  apply list_elem_of_In in Hin. unfold values in Hin.
  apply list_elem_of_fmap in Hin as ([id rec'] & -> & Hin). apply elem_of_map_to_list in Hin.
  by exists id.
Qed.

(** The call to the directory leaves the server as it was. *)
Lemma lookup_key_run h s e :
  exists r, attempt (on_directory (lookup_api_key_by_hash h)) s e = (Ok r, s, bump_call e) /\
    (forall rec, r = Ok (Some rec) -> exists id,
      api_keys (api_catalog (api_of s)) !! id = Some rec /\ k_hash rec = h /\ k_revoked_at rec = None).
Proof.
  unfold attempt, on_directory, on_api, zoom, store_call, bind, fallible, lookup_api_key_by_hash, gets.
  destruct (fault _) as [msg|]; simpl.
  - exists (Err (Internal msg)). split; [|by intros rec [=]]. by destruct (api_of s) eqn:Ha; simpl; rewrite <- Ha, put_api_of.
  - exists (Ok (List.find (key_matches h) (values (api_keys (api_catalog (api_of s)))))).
    split; [|intros rec [= Hf]; by apply find_live].
    by destruct (api_of s) eqn:Ha; simpl; rewrite <- Ha, put_api_of.
Qed.

Lemma on_behalf_cases tenant internal next req s e :
  (exists resp, on_behalf tenant internal next req s e = (Ok resp, s, e) /\ rs_status resp = 400) \/
  (exists t, on_behalf tenant internal next req s e =
     next (with_auth (mkAuthContext t internal) req) s e /\
   (internal = false -> t = tenant) /\
   (t <> tenant -> exists raw,
      header_text "x-combee-on-behalf-tenant" req = Some raw /\ TenantId_from_str raw = Some t)).
Proof.
  unfold on_behalf.
  destruct internal; [|by right; exists tenant].
  destruct (header_text _ req) as [raw|] eqn:Hraw; [|by right; exists tenant].
  destruct (TenantId_from_str raw) as [t|] eqn:Ht.
  - right. exists t. split; [done|]. split; [done|]. intros _. by exists raw.
  - left. by eexists.
Qed.

Lemma auth_cases next req s e :
  rejected (auth_middleware hash cfg next req s e) s e \/
  (exists a e', auth_middleware hash cfg next req s e = next (with_auth a req) s e' /\
     (e' = e \/ e' = bump_call e) /\ authorised req a (api_catalog (api_of s))).
Proof.
  unfold auth_middleware. destruct (decide (auth_mode cfg = AuthKey)) as [Hmode|Hmode].
  - destruct (header_text "x-api-key" req) as [key|] eqn:Hkey;
      [|left; eexists _, _; split; [done|]; split; by left].
    unfold bind. destruct (lookup_key_run (hash key) s e) as (r & -> & Hlive).
    destruct r as [[rec|]|]; try (left; eexists _, _; split; [done|]; split; [by right|by left]).
    destruct (Hlive rec eq_refl) as (id & Hid & Hh & Hr).
    destruct (on_behalf_cases (k_tenant rec) (bool_decide (bff_service_key cfg = Some key)) next req s
      (bump_call e)) as [Hrej|(t & -> & Hint & Hbeh)].
    { left. destruct Hrej as (resp & -> & Hst). eexists _, _. split; [done|].
      split; [by right|by right]. }
    right. eexists _, _. split; [reflexivity|]. split; [by right|]. right. split; [done|].
    exists key, id, rec. simpl. split_and!; auto.
  - right. exists (mkAuthContext DEFAULT_TENANT false), e. split; [done|]. split; [by left|].
    left. by destruct (auth_mode cfg).
Qed.

(** ** Complete mediation *)

(** A property of the server that metering, counting and reading the clock do
    not touch. *)
Record quiet (I : S -> Eff -> Prop) : Prop := {
  quiet_clock : forall s e, I s e -> I s (bump_clock e);
  quiet_call : forall s e, I s e -> I s (bump_call e);
  quiet_meter : forall m n s e,
    I s e -> I (put_api (mkApi (api_catalog (api_of s)) (mkUsageMeter m (sink (api_meter (api_of s)))) n) s) e;
  quiet_account : forall t now s e,
    credit_accounts (sink (api_meter (api_of s))) !! t = None -> I s e ->
    I (put_api (mkApi (api_catalog (api_of s)) (mkUsageMeter (counters (api_meter (api_of s)))
        (with_accounts <[t := mkAccount t 0 0 now]> (sink (api_meter (api_of s))))) (inflight (api_of s))) s) e;
}.

(** [I], in a state where the request is authorised. *)
Definition entry (I : S -> Eff -> Prop) req (a : AuthContext) (s : S) (e : Eff) : Prop :=
  I s e /\ authorised req a (api_catalog (api_of s)).

Section mediation.
Context {I : S -> Eff -> Prop} (HI : quiet I).

Lemma entry_quiet req a : quiet (entry I req a).
Proof.
  split.
  - intros s e [Hi Ha]. split; [by apply (quiet_clock I HI)|done].
  - intros s e [Hi Ha]. split; [by apply (quiet_call I HI)|done].
  - intros m n s e [Hi Ha]. split; [by apply (quiet_meter I HI)|by rewrite api_of_put].
  - intros t now s e Hacc [Hi Ha]. split; [by apply (quiet_account I HI)|by rewrite api_of_put].
Qed.

Lemma pres_record t c m d : preserves I (on_meter (record_usage t c m d)).
Proof.
  intros s e Hs. unfold on_meter, on_api, zoom, record_usage.
  destruct (d =? 0); simpl.
  - destruct (api_of s) as [cat [cs l] fl] eqn:Ha; simpl.
    pose proof (quiet_meter I HI cs fl s e Hs) as Hq. by rewrite Ha in Hq.
  - apply (quiet_meter I HI), (quiet_clock I HI), Hs.
Qed.

Lemma pres_inflight {A} (f : gmap string Z -> A * gmap string Z) : preserves I (on_inflight f).
Proof.
  intros s e Hs. unfold on_inflight, on_api, zoom. destruct (f _) as [r m] eqn:Hf.
  destruct (api_of s) as [cat [cs l] fl] eqn:Ha; simpl in *.
  pose proof (quiet_meter I HI cs m s e Hs) as Hq. by rewrite Ha in Hq.
Qed.

Lemma pres_account t : preserves I (on_accounts (get_credit_account t)).
Proof.
  intros s e Hs. unfold on_accounts, on_api, zoom, store_call, get_credit_account, bind, fallible, gets, led_now,
    read_clock, modify, mret.
  destruct (fault _); simpl.
  - destruct (api_of s) as [cat [cs l] fl] eqn:Ha.
    pose proof (quiet_meter I HI cs fl s _ (quiet_call I HI _ _ Hs)) as Hq. by rewrite Ha in Hq.
  - destruct (credit_accounts (sink (api_meter (api_of s))) !! t) eqn:Hacc; simpl.
    + destruct (api_of s) as [cat [cs l] fl] eqn:Ha.
      pose proof (quiet_meter I HI cs fl s _ (quiet_call I HI _ _ Hs)) as Hq. by rewrite Ha in Hq.
    + apply (quiet_account I HI); [done|]. by apply (quiet_clock I HI), (quiet_call I HI).
Qed.

#[local] Hint Resolve pres_record pres_inflight pres_account : combee.

End mediation.

(** A middleware takes a handler that leads from [P] to [Q] to one that does. *)
Section layers.
Context {P Q : S -> Eff -> Prop} (HP : quiet P) (HPQ : forall s e, P s e -> Q s e).

Definition leads {A} (m : SrvM A) : Prop := hoare P m (fun _ s e => Q s e).

Lemma leads_bind {A C} (m : SrvM A) (k : A -> SrvM C) :
  preserves P m -> (forall a, leads (k a)) -> leads (bind m k).
Proof. intros Hm Hk. eapply hoare_bind; [exact Hm|exact Hk|auto]. Qed.

Lemma leads_ret {A} (a : A) : leads (mret a).
Proof. intros s e Hs. by apply HPQ. Qed.

Ltac layer :=
  repeat match goal with
  | |- leads (if ?b then _ else _) => destruct b
  | |- leads (match ?x with _ => _ end) => destruct x
  | |- leads (mret _) => apply leads_ret
  | |- leads (bind _ _) => apply leads_bind; [|intros ?]
  | |- preserves _ (attempt _) => apply preserves_attempt
  end; auto using pres_record, pres_inflight, pres_account.

Lemma leads_concurrency next req : leads (next req) -> leads (concurrency_quota cfg next req).
Proof. intros Hn. unfold concurrency_quota, drop_guard. layer. Qed.

Lemma leads_credit next req : leads (next req) -> leads (credit_quota cfg next req).
Proof. intros Hn. unfold credit_quota. layer. Qed.

Lemma leads_usage next req :
  (forall f, leads (next (map_body f req))) -> leads (next req) -> leads (usage_tracking next req).
Proof.
  intros Hf Hn. unfold usage_tracking.
  destruct (from_option _ _ _); [done|]. destruct (existsb _ _); [done|].
  apply leads_bind; [by apply pres_record|]. intros _.
  eapply hoare_bind; [apply Hf| |auto]. by intros r s e Hs.
Qed.

End layers.

(** The request the handler sees: the same call, with a tenant attached. *)
Definition same_call req req' : Prop :=
  rq_method req' = rq_method req /\ rq_path req' = rq_path req /\ rq_headers req' = rq_headers req.

(** C14: complete mediation: whatever property of the server authorised
    handler runs keep, every public request keeps. A handler runs only with a
    tenant in its context, one that a live key of the directory (or the
    default tenant when authentication is off) entitles the request to. The
    logging layer is any that keeps what the layers inside it keep. *)
Theorem complete_mediation (I : S -> Eff -> Prop) logging handler req :
  quiet I ->
  (forall a next req', hoare (entry I req a) (next req') (fun _ s e => I s e) ->
     hoare (entry I req a) (logging next req') (fun _ s e => I s e)) ->
  (forall a req', same_call req req' -> rq_auth req' = Some a ->
     hoare (entry I req a) (handler req') (fun _ s e => I s e)) ->
  preserves I (public_app (B:=B) hash cfg logging handler req).
Proof.
  intros HI Hlog Hh s e Hs. unfold public_app.
  destruct (auth_cases (credit_quota cfg (usage_tracking (logging (concurrency_quota cfg handler)))) req s e)
    as [(resp & e' & -> & He & _)|(a & e' & -> & He & Hauth)].
  { destruct He as [->| ->]; [done|by apply (quiet_call I HI)]. }
  assert (entry I req a s e') as Hentry.
  { split; [|done]. destruct He as [->| ->]; [done|by apply (quiet_call I HI)]. }
  assert (forall req', same_call req req' -> rq_auth req' = Some a ->
    leads (P:=entry I req a) (Q:=I) (logging (concurrency_quota cfg handler) req')) as Hp.
  { intros req' Hsame Ha. apply Hlog, leads_concurrency; [by apply entry_quiet|by intros ? ? []|].
    by apply (Hh a). }
  assert (leads (P:=entry I req a) (Q:=I)
    (credit_quota cfg (usage_tracking (logging (concurrency_quota cfg handler))) (with_auth a req))) as Hl.
  { apply leads_credit; [by apply entry_quiet|by intros ? ? []|].
    apply leads_usage; [by apply entry_quiet|by intros ? ? []| |]; intros; by apply Hp. }
  exact (Hl s e' Hentry).
Qed.

(** ** The control planes *)

(** Turned away by a guard of the control plane, with nothing changed. *)
Definition turned_away (r : result CombeeError (Response B) * S * Eff) s e : Prop :=
  exists resp, r = (Ok resp, s, e) /\ rs_status resp = 401.

(** Tenants stay out of the control planes: a request that carries any API
    key never reaches the node API, and reaches the operators' API only with
    the service key, to create a tenant; without a key it needs the token
    (which the operators' API always demands, and the node API when one is
    configured). *)
Theorem control_planes_closed next req s e :
  (turned_away (internal_auth cfg next req s e) s e \/
   (internal_auth cfg next req s e = next req s e /\ header "x-api-key" req = None /\
    forall t, control_plane_token cfg = Some t -> token_presented "x-control-token" t req = true)) /\
  (turned_away (admin_auth cfg next req s e) s e \/
   (admin_auth cfg next req s e = next req s e /\
    ((rq_method req = "POST"%string /\ rq_path req = "/admin/tenants"%string /\
      exists bff, bff_service_key cfg = Some bff /\ header_text "x-api-key" req = Some bff) \/
     (header "x-api-key" req = None /\ exists t, admin_token cfg = Some t /\
      token_presented "x-admin-token" t req = true)))).
Proof.
  split.
  - unfold internal_auth, has_header, unauthorized.
    destruct (header "x-api-key" req) eqn:Hk; [left; by eexists|].
    destruct (control_plane_token cfg) as [t|]; [|by right].
    destruct (token_presented _ t req) eqn:Ht; simpl; [|left; by eexists].
    right. split; [done|]. split; [done|]. by intros ? [= <-].
  - unfold admin_auth, has_header, unauthorized.
    destruct (bff_service_key cfg) as [bff|] eqn:Hb; [case_bool_decide as Hbff|].
    + destruct (decide _) as [[Hm Hp]|]; [|left; by eexists].
      right. split; [done|]. left. split; [done|]. split; [done|]. by exists bff.
    + destruct (header "x-api-key" req) eqn:Hk; [left; by eexists|].
      destruct (admin_token cfg) as [t|]; [|left; by eexists].
      destruct (token_presented _ t req) eqn:Ht; simpl; [|left; by eexists].
      right. split; [done|]. right. eauto.
    + destruct (header "x-api-key" req) eqn:Hk; [left; by eexists|].
      destruct (admin_token cfg) as [t|]; [|left; by eexists].
      destruct (token_presented _ t req) eqn:Ht; simpl; [|left; by eexists].
      right. split; [done|]. right. eauto.
Qed.

(** ** Bodies are charged once *)

Fixpoint poll_times (n : nat) (b : CountingBody) : SrvM CountingBody :=
  match n with
  | O => mret b
  | Datatypes.S n' => let! pb := poll_frame b in poll_times n' pb.2
  end.

Definition frame_bytes (p : Poll) : Z := match p with Frame (Some n) => n | _ => 0 end.

(** What the frames still to come add to the counter, with wrap-around. *)
Definition total_from (z : Z) (polls : list Poll) : Z :=
  foldl (fun acc p => match p with Frame (Some n) => u64_add acc n | _ => acc end) z polls.

Lemma poll_one p rest z d who s e :
  p <> End ->
  poll_frame (mkCountingBody (p :: rest) z d who) s e =
  (Ok (p, mkCountingBody rest (total_from z [p]) d who), s, e).
Proof. by destruct p as [|[n|]| |]. Qed.

Lemma poll_step n p rest z d who s e :
  p <> End ->
  poll_times (Datatypes.S n) (mkCountingBody (p :: rest) z d who) s e =
  poll_times n (mkCountingBody rest (total_from z [p]) d who) s e.
Proof.
  intros Hp. change (poll_times (Datatypes.S n) ?b) with (bind (poll_frame b) (fun pb => poll_times n pb.2)).
  unfold bind. by rewrite poll_one.
Qed.

Lemma poll_done n b s e :
  cb_done b = true -> cb_inner b = [] -> poll_times n b s e = (Ok b, s, e).
Proof.
  intros Hd Hi. induction n as [|n IH]; [done|]. simpl. unfold bind, poll_frame. by rewrite Hi, Hd.
Qed.

(** A counted body is charged exactly once, when its end is polled, with
    the bytes of all its data frames; polling on adds nothing, and nothing is
    charged before the end. *)
Theorem body_charged_once polls who n s e :
  (forall p, p ∈ polls -> p <> End) ->
  let b := count_body who (plain_body polls) in
  ((n <= length polls)%nat -> exists b', poll_times n b s e = (Ok b', s, e)) /\
  ((length polls < n)%nat -> exists b',
     poll_times n b s e =
     bind (on_meter (record_usage (ct_tenant who) (ct_cell who) (ct_metric who) (total_from 0 polls)))
       (fun _ => mret b') s e).
Proof.
  intros Hend. unfold count_body, plain_body. simpl. generalize 0 as z. revert n.
  induction polls as [|p polls IH]; intros n z.
  - split; intros Hn; simpl in Hn.
    + assert (n = 0%nat) as -> by lia. by eexists.
    + destruct n as [|n]; [lia|]. simpl. unfold bind at 1, poll_frame. simpl. unfold bind.
      exists (mkCountingBody [] z true None).
      destruct (on_meter _ s e) as [[[u|err] s1] e1]; simpl; [|done]. by rewrite poll_done.
  - destruct n as [|n]; [split; intros Hn; [by eexists|simpl in Hn; lia]|].
    assert (p <> End) as Hp by (apply Hend; left).
    rewrite !poll_step by done.
    destruct (IH (fun q Hq => Hend q ltac:(by right)) n (total_from z [p])) as [Hlow Hhigh].
    split; intros Hn; simpl in Hn; [apply Hlow; lia|].
    destruct Hhigh as (b' & Hb); [lia|]. exists b'. etransitivity; [exact Hb|].
    by destruct p as [|[m|]| |].
Qed.

(** ** The in-flight limit *)

Lemma enter_absent key max m :
  m !! key = None -> try_enter key max m = (true, <[key := 1]> m).
Proof.
  intros Hk. unfold try_enter. rewrite Hk. simpl.
  replace ((0 <? max)%nat && (Z.of_nat max <=? 0)) with false; [done|].
  symmetry. apply andb_false_iff. destruct (Nat.ltb_spec 0 max); [right|left]; lia.
Qed.

Lemma drop_entered key m : m !! key = None -> guard_drop key (<[key := 1]> m) = m.
Proof. intros Hk. unfold guard_drop. rewrite lookup_insert_eq. simpl. by rewrite delete_insert_id. Qed.

Lemma on_inflight_run {A} (f : gmap string Z -> A * gmap string Z) s e :
  exists s', on_inflight f s e = (Ok (f (inflight (api_of s))).1, s', e) /\
    inflight (api_of s') = (f (inflight (api_of s))).2.
Proof.
  unfold on_inflight, on_api, zoom. destruct (f _) as [r m]. eexists. split; [reflexivity|].
  by rewrite api_of_put.
Qed.

Lemma drop_guard_run key s e (k : SrvM (Response B)) :
  exists s', bind (drop_guard key) (fun _ => k) s e = k s' e /\
    inflight (api_of s') = guard_drop key (inflight (api_of s)).
Proof.
  unfold bind, drop_guard.
  destruct (on_inflight_run (fun m => (tt, guard_drop key m)) s e) as (s2 & -> & Hs2). by exists s2.
Qed.

(** The in-flight limit is never in force: a request that arrives while no
    counter is up is passed on, whatever the limits, and when it is passed on
    no counter is up any more. The counters are given back before the handler
    runs, so requests being handled are never counted. *)
Theorem concurrency_limit_void next req s e :
  inflight (api_of s) = ∅ ->
  exists s', concurrency_quota cfg next req s e = next req s' e /\ inflight (api_of s') = ∅.
Proof.
  intros Hempty. unfold concurrency_quota.
  set (tk := ("t:" +:+ _)%string). set (mt := max_per_tenant_concurrency _).
  unfold bind at 1. destruct (on_inflight_run (try_enter tk mt) s e) as (s1 & -> & Hs1).
  rewrite Hempty, enter_absent in * by done. simpl in *.
  pose proof (fun k => drop_guard_run tk s1 e k) as Hout.
  rewrite Hs1, drop_entered in Hout by done.
  destruct (parse_cell_from_path (rq_path req)) as [c|]; [|apply Hout].
  destruct (0 <? max_per_cell_concurrency _)%nat; [|apply Hout].
  set (ck := ("c:" +:+ _)%string). set (mc := max_per_cell_concurrency _).
  assert (tk <> ck) as Hne by done.
  unfold bind at 1. destruct (on_inflight_run (try_enter ck mc) s1 e) as (s2 & -> & Hs2).
  rewrite Hs1, enter_absent in * by (by rewrite lookup_insert_ne). simpl in *.
  destruct (drop_guard_run tk s2 e (bind (drop_guard ck) (fun _ => next req))) as (s3 & -> & Hs3).
  destruct (drop_guard_run ck s3 e (next req)) as (s4 & -> & Hs4).
  exists s4. split; [done|]. rewrite Hs4, Hs3, Hs2, insert_insert_ne by done.
  rewrite drop_entered by (by rewrite lookup_insert_ne). by apply drop_entered.
Qed.

End access.

(** ** Concrete requests *)

Definition ascii_headers : HttpText := {| header_to_str := Some |}.

Definition sample_api_config : ApiConfig :=
  mkApiConfig AuthKey None (Some "ops"%string) (Some "bff"%string) QuotaConfig_default 0.

Definition sample_api : Api := mkApi Catalog_empty (mkUsageMeter ∅ Ledger_empty) ∅.

Definition sample_request : Request :=
  mkRequest "GET" "/v1/databases/7/kv" [("x-api-key", "k1")]%string None
    (plain_body [Frame (Some 10); Pending; Frame None; Frame (Some 5)]).

Definition list_handler {env : Env} (req : Request) : M Api CombeeError (Response nat) :=
  let! cells := on_directory (list_databases (auth_tenant (request_auth req))) in
  mret (mkResponse 200 (inr (length cells)) (plain_body [])).

Lemma body_charged_once_witness :
  exists b', poll_times (env:=env_still) (H1:=api_has_api) 6
      (count_body (mkCounted DEFAULT_TENANT None BytesIn) (rq_body sample_request)) sample_api eff0 =
    bind (on_meter (record_usage (env:=env_still) DEFAULT_TENANT None BytesIn 15)) (fun _ => mret b') sample_api eff0.
Proof.
  refine (proj2 (body_charged_once (env:=env_still) (H1:=api_has_api)
    [Frame (Some 10); Pending; Frame None; Frame (Some 5)] (mkCounted DEFAULT_TENANT None BytesIn) 6
    sample_api eff0 _) _); [|simpl; lia].
  intros p Hp ->. repeat (apply elem_of_cons in Hp as [Hp|Hp]; [discriminate|]).
  by apply elem_of_nil in Hp.
Defined.

Lemma concurrency_limit_void_witness :
  exists s', concurrency_quota (env:=env_still) (H:=decimal_uuid_text) (H1:=api_has_api) sample_api_config
      (list_handler (env:=env_still)) sample_request sample_api eff0 = list_handler (env:=env_still) sample_request s' eff0 /\
    inflight s' = ∅.
Proof.
  exact (concurrency_limit_void (env:=env_still) (H:=decimal_uuid_text) (H1:=api_has_api) sample_api_config
    (list_handler (env:=env_still)) sample_request sample_api eff0 eq_refl).
Defined.
