(* ===== verification/Metrics.v ===== *)
(** crates/common/src/metrics.rs: the process-wide registry of counters,
    gauges and histograms, and its text exposition. *)

From Stdlib Require Import ZArith Lia String Ascii SpecFloat.
From stdpp Require Import gmap strings list fin_maps sorting.
From S2P Require Import Prelude.

(** ** [f64] *)

(** A binary64 number as sign, mantissa and exponent; addition rounds to the
    nearest with 53 bits. *)
Definition f64 : Type := spec_float.
Definition f64_add : f64 -> f64 -> f64 := SFadd 53 1024.
Definition f64_zero : f64 := S754_zero false.

Definition is_finite (v : f64) : bool :=
  match v with S754_zero _ | S754_finite _ _ _ => true | _ => false end.

(** The value of a finite number in units of 2^-1074, the least one: an
    integer. *)
Definition f64_scaled (v : f64) : Z :=
  match v with
  | S754_finite s m e => (if s then -1 else 1) * (Zpos m * 2 ^ (e + 1074))
  | _ => 0
  end.

(** [v <= w] for a finite [w]. *)
Definition f64_le (v w : f64) : bool :=
  match v with
  | S754_nan => false
  | S754_infinity s => s
  | _ => f64_scaled v <=? f64_scaled w
  end.

(** The bounds with the text [to_string] prints for them. *)
Definition DURATION_BUCKETS : list (f64 * string) := [
  (S754_finite false 4611686018427388 (-62), "0.001"%string);
  (S754_finite false 4611686018427388 (-61), "0.002"%string);
  (S754_finite false 5764607523034235 (-60), "0.005"%string);
  (S754_finite false 5764607523034235 (-59), "0.01"%string);
  (S754_finite false 5764607523034235 (-58), "0.02"%string);
  (S754_finite false 7205759403792794 (-57), "0.05"%string);
  (S754_finite false 7205759403792794 (-56), "0.1"%string);
  (S754_finite false 4503599627370496 (-54), "0.25"%string);
  (S754_finite false 4503599627370496 (-53), "0.5"%string);
  (S754_finite false 4503599627370496 (-52), "1"%string);
  (S754_finite false 5629499534213120 (-51), "2.5"%string);
  (S754_finite false 5629499534213120 (-50), "5"%string);
  (S754_finite false 5629499534213120 (-49), "10"%string)].

(** ** The registry *)

Record Histogram := mkHistogram { h_buckets : list Z; h_count : Z; h_sum : f64 }.

Definition Histogram_new : Histogram := mkHistogram (replicate (length DURATION_BUCKETS) 0) 0 f64_zero.

Definition observe (v : f64) (h : Histogram) : Histogram :=
  mkHistogram
    (if is_finite v
     then zip_with (fun n (b : f64 * string) => if f64_le v b.1 then u64_add n 1 else n) (h_buckets h) DURATION_BUCKETS
     else h_buckets h)
    (u64_add (h_count h) 1) (f64_add (h_sum h) v).

Record Registry := mkRegistry {
  reg_counters : gmap string Z;
  reg_gauges : gmap string Z;
  reg_histograms : gmap string Histogram;
}.

Definition Registry_new : Registry := mkRegistry ∅ ∅ ∅.

Definition MAX_SERIES : nat := 5000.

Definition DQUOTE : ascii := Ascii.ascii_of_nat 34.
Definition BACKSLASH : ascii := Ascii.ascii_of_nat 92.
Definition str1 (c : ascii) : string := String.String c EmptyString.

(** Backslashes, then double quotes, get a backslash before them: both at once,
    since the second pass does not touch what the first one inserts. *)
Fixpoint escape_label (v : string) : string :=
  match v with
  | EmptyString => EmptyString
  | String.String c rest =>
      if decide (c = BACKSLASH \/ c = DQUOTE)
      then String.String BACKSLASH (String.String c (escape_label rest))
      else String.String c (escape_label rest)
  end.

Definition label_text (l : string * string) : string :=
  l.1 +:+ "=" +:+ str1 DQUOTE +:+ escape_label l.2 +:+ str1 DQUOTE.

Fixpoint labels_text (labels : list (string * string)) : string :=
  match labels with
  | [] => EmptyString
  | [l] => label_text l
  | l :: rest => label_text l +:+ "," +:+ labels_text rest
  end.

Definition series_key (name : string) (labels : list (string * string)) : string :=
  match labels with
  | [] => name
  | _ => name +:+ "{" +:+ labels_text labels +:+ "}"
  end.

Definition counter_add (name : string) (labels : list (string * string)) (delta : Z) (r : Registry) : Registry :=
  if delta =? 0 then r else
  let k := series_key name labels in
  match reg_counters r !! k with
  | Some v => mkRegistry (<[k := u64_add v delta]> (reg_counters r)) (reg_gauges r) (reg_histograms r)
  | None =>
      if (size (reg_counters r) <? MAX_SERIES)%nat
      then mkRegistry (<[k := delta]> (reg_counters r)) (reg_gauges r) (reg_histograms r)
      else r
  end.

Definition counter_inc (name : string) (labels : list (string * string)) : Registry -> Registry :=
  counter_add name labels 1.

Definition gauge_set (name : string) (labels : list (string * string)) (v : Z) (r : Registry) : Registry :=
  let k := series_key name labels in
  if match reg_gauges r !! k with Some _ => true | None => (size (reg_gauges r) <? MAX_SERIES)%nat end
  then mkRegistry (reg_counters r) (<[k := v]> (reg_gauges r)) (reg_histograms r)
  else r.

Definition histogram_observe (name : string) (labels : list (string * string)) (v : f64) (r : Registry) : Registry :=
  let k := series_key name labels in
  match reg_histograms r !! k with
  | Some h => mkRegistry (reg_counters r) (reg_gauges r) (<[k := observe v h]> (reg_histograms r))
  | None =>
      if (size (reg_histograms r) <? MAX_SERIES)%nat
      then mkRegistry (reg_counters r) (reg_gauges r) (<[k := observe v Histogram_new]> (reg_histograms r))
      else r
  end.

(** ** Exposition *)

(** The text, with numbers that are printed as [f64] left as numbers. *)
Inductive Piece := PText (s : string) | PFloat (v : f64).

(** A [BTreeMap]'s order. *)
Definition str_le (a b : string) : Prop := String.leb a b = true.
#[export] Instance str_le_dec : RelDecision str_le.
Proof. intros a b. unfold str_le. apply _. Defined.
Definition key_le {V} (a b : string * V) : Prop := str_le a.1 b.1.
#[export] Instance key_le_dec {V} : RelDecision (@key_le V).
Proof. intros a b. unfold key_le. apply _. Defined.
Definition btree {V} (m : gmap string V) : list (string * V) := merge_sort key_le (map_to_list m).

Definition newline : string := str1 (Ascii.ascii_of_nat 10).

Definition render_series (kv : string * Z) : list Piece := [PText (kv.1 +:+ " " +:+ i64_to_string kv.2 +:+ newline)].

Definition render_map (mtype help : string) (m : gmap string Z) : list Piece :=
  PText ("# HELP " +:+ help +:+ newline +:+ "# TYPE " +:+ mtype +:+ newline) :: concat (render_series <$> btree m).

(** [format!("{v:.0}")] for a whole number below 10^15, else [{v}]. *)
Definition format_sum (v : f64) : Piece :=
  match v with
  | S754_zero s => PText (if s then "-0" else "0")
  | S754_finite s m e =>
      let z := (if s then -1 else 1) * (Zpos m * 2 ^ (e + 1074)) in
      if (z mod 2 ^ 1074 =? 0) && (Z.abs z <? 10 ^ 15 * 2 ^ 1074) then PText (i64_to_string (z / 2 ^ 1074)) else PFloat v
  | _ => PFloat v
  end.

Definition bucket_line (base le : string) (n : Z) : Piece :=
  PText (base +:+ "_bucket{le=" +:+ str1 DQUOTE +:+ le +:+ str1 DQUOTE +:+ "} " +:+ i64_to_string n +:+ newline).

Definition render_histogram (kv : string * Histogram) : list Piece :=
  zip_with (fun n (b : f64 * string) => bucket_line kv.1 b.2 n) (h_buckets kv.2) DURATION_BUCKETS ++
  [bucket_line kv.1 "+Inf" (h_count kv.2);
   PText (kv.1 +:+ "_count " +:+ i64_to_string (h_count kv.2) +:+ newline);
   PText (kv.1 +:+ "_sum "); format_sum (h_sum kv.2); PText newline].

Definition render (r : Registry) : list Piece :=
  render_map "counter" "combee counters" (reg_counters r) ++
  PText ("# HELP combee_gauges combee gauges" +:+ newline +:+ "# TYPE combee_gauges gauge" +:+ newline) ::
  concat (render_series <$> btree (reg_gauges r)) ++
  concat (render_histogram <$> btree (reg_histograms r)).

(** ** Updates as data *)

Inductive MetricOp :=
| OCounter (name : string) (labels : list (string * string)) (delta : Z)
| OGauge (name : string) (labels : list (string * string)) (v : Z)
| OObserve (name : string) (labels : list (string * string)) (v : f64).

Definition run_metric (op : MetricOp) : Registry -> Registry :=
  match op with
  | OCounter n l d => counter_add n l d
  | OGauge n l v => gauge_set n l v
  | OObserve n l v => histogram_observe n l v
  end.

Definition run_metrics (ops : list MetricOp) (r : Registry) : Registry := foldl (fun r op => run_metric op r) r ops.
