(* ===== verification/MetricsSpec.v ===== *)
(** What the metrics registry guarantees: its size is bounded, histograms are
    cumulative, and different series do not share a key. *)

From Stdlib Require Import ZArith Lia String Ascii SpecFloat.
From stdpp Require Import gmap strings list fin_maps sorting.
From S2P Require Import Prelude Metrics.

(** ** Well-formed registries *)

Lemma bounds_ascend :
  forall i j b c, (i < j)%nat -> DURATION_BUCKETS !! i = Some b -> DURATION_BUCKETS !! j = Some c ->
    f64_scaled b.1 <= f64_scaled c.1.
Proof.
  assert (forallb (fun p : nat * nat => match DURATION_BUCKETS !! p.1, DURATION_BUCKETS !! p.2 with
    | Some b, Some c => negb (p.1 <? p.2)%nat || (f64_scaled b.1 <=? f64_scaled c.1) | _, _ => true end)
    (list_prod (seq 0 13) (seq 0 13)) = true) as Hall by (vm_compute; reflexivity).
  rewrite forallb_forall in Hall. intros i j b c Hij Hi Hj.
  assert (i < 13 /\ j < 13)%nat as [Hi' Hj'].
  { split; [apply lookup_lt_Some in Hi|apply lookup_lt_Some in Hj]; simpl in *; lia. }
  specialize (Hall (i, j) (proj2 (in_prod_iff _ _ i j) (conj (proj2 (in_seq 13 0 i) ltac:(lia)) (proj2 (in_seq 13 0 j) ltac:(lia))))).
  simpl in Hall. rewrite Hi, Hj in Hall. apply Nat.ltb_lt in Hij. rewrite Hij in Hall. simpl in Hall. lia.
Qed.

(** Thirteen buckets, each counting the observations up to its bound: no
    bucket counts more than a later one, or than the total. *)
Record hist_ok (limit : Z) (h : Histogram) : Prop := {
  hist_length : length (h_buckets h) = length DURATION_BUCKETS;
  hist_cumulative : forall i j x y, (i <= j)%nat -> h_buckets h !! i = Some x -> h_buckets h !! j = Some y ->
    0 <= x <= y /\ y <= h_count h;
  hist_count : 0 <= h_count h <= limit;
}.

Lemma f64_le_trans v b c : is_finite v = true -> f64_scaled b <= f64_scaled c -> f64_le v b = true -> f64_le v c = true.
Proof. unfold f64_le. destruct v; try done; intros _ H1 H2; apply Z.leb_le in H2; apply Z.leb_le; lia. Qed.

Lemma observe_ok limit v h : hist_ok limit h -> limit < U64_MAX -> hist_ok (limit + 1) (observe v h).
Proof.
  intros [Hlen Hcum Hcnt] Hlim.
  assert (forall x, 0 <= x <= limit -> u64_add x 1 = x + 1) as Hadd.
  { intros x Hx. unfold u64_add. apply wrap_u64_id. unfold is_u64. lia. }
  split; simpl.
  - destruct (is_finite v); [|done]. rewrite length_zip_with, Hlen. apply Nat.min_id.
  - intros i j x y Hij. rewrite Hadd by done. destruct (is_finite v) eqn:Hfin.
    + rewrite !lookup_zip_with_Some. intros (n & b & -> & Hn & Hb) (m & c & -> & Hm & Hc).
      destruct (Hcum i j n m Hij Hn Hm) as [[H1 H2] H3].
      assert (f64_le v b.1 = true -> f64_le v c.1 = true) as Hle.
      { intros Hv. destruct (decide (i = j)) as [->|Hne]; [congruence|].
        eapply f64_le_trans; [done| |exact Hv]. eapply (bounds_ascend i j); [lia|done|done]. }
      destruct (f64_le v b.1) eqn:Eb, (f64_le v c.1) eqn:Ec; rewrite ?Hadd by lia; try lia.
    + intros Hx Hy. destruct (Hcum i j x y Hij Hx Hy). lia.
  - rewrite Hadd by done. lia.
Qed.

Lemma hist_new_ok : hist_ok 0 Histogram_new.
Proof.
  split; [apply length_replicate| |done].
  intros i j x y _ Hx Hy. apply lookup_replicate in Hx as [-> _], Hy as [-> _]. simpl. lia.
Qed.

Lemma hist_weaken n m h : hist_ok n h -> n <= m -> hist_ok m h.
Proof. intros [H1 H2 H3] Hle. split; [done|done|lia]. Qed.

Record registry_ok (limit : Z) (r : Registry) : Prop := {
  counters_bounded : (size (reg_counters r) <= MAX_SERIES)%nat;
  gauges_bounded : (size (reg_gauges r) <= MAX_SERIES)%nat;
  histograms_bounded : (size (reg_histograms r) <= MAX_SERIES)%nat;
  histograms_ok : forall k h, reg_histograms r !! k = Some h -> hist_ok limit h;
}.

Lemma size_insert_bounded {V} (m : gmap string V) k v :
  (size m <= MAX_SERIES)%nat -> (is_Some (m !! k) \/ (size m < MAX_SERIES)%nat) ->
  (size (<[k := v]> m) <= MAX_SERIES)%nat.
Proof.
  intros Hm Hk. destruct (m !! k) as [w|] eqn:E.
  - by rewrite map_size_insert_Some by (by rewrite E).
  - rewrite map_size_insert_None by done. destruct Hk as [[? ?]|]; [done|lia].
Qed.

Lemma run_metric_ok limit op r :
  0 <= limit < U64_MAX -> registry_ok limit r -> registry_ok (limit + 1) (run_metric op r).
Proof.
  intros Hlim [Hc Hg Hh Hok].
  assert (forall k h, reg_histograms r !! k = Some h -> hist_ok (limit + 1) h) as Hok'.
  { intros k h Hk. eapply hist_weaken; [by eapply Hok|lia]. }
  assert (forall k h v, hist_ok limit h -> (forall k' h', <[k := observe v h]> (reg_histograms r) !! k' = Some h' ->
    hist_ok (limit + 1) h')) as Hobs.
  { intros k h v Hh0 k' h' [[_ <-]|[_ Hk]]%lookup_insert_Some; [apply observe_ok; [done|lia]|by eapply Hok']. }
  destruct op as [name labels d|name labels v|name labels v]; simpl.
  - unfold counter_add. destruct (d =? 0); [by split|]. destruct (reg_counters r !! _) eqn:Hk.
    + split; simpl; [apply size_insert_bounded; [done|left; by rewrite Hk]|done..].
    + destruct (size (reg_counters r) <? MAX_SERIES)%nat eqn:Hs; [|by split]. apply Nat.ltb_lt in Hs.
      split; simpl; [apply size_insert_bounded; auto|done..].
  - unfold gauge_set. destruct (reg_gauges r !! _) eqn:Hk.
    + split; simpl; [done|apply size_insert_bounded; [done|left; by rewrite Hk]|done..].
    + destruct (size (reg_gauges r) <? MAX_SERIES)%nat eqn:Hs; [|by split]. apply Nat.ltb_lt in Hs.
      split; simpl; [done|apply size_insert_bounded; auto|done..].
  - unfold histogram_observe. destruct (reg_histograms r !! _) as [h|] eqn:Hk.
    + split; simpl; [done|done|apply size_insert_bounded; [done|left; by rewrite Hk]|].
      apply Hobs. by eapply Hok.
    + destruct (size (reg_histograms r) <? MAX_SERIES)%nat eqn:Hs; [|by split]. apply Nat.ltb_lt in Hs.
      split; simpl; [done|done|apply size_insert_bounded; auto|].
      apply Hobs. eapply hist_weaken; [apply hist_new_ok|lia].
Qed.

Lemma run_metrics_ok ops limit r :
  0 <= limit -> limit + Z.of_nat (length ops) <= U64_MAX -> registry_ok limit r ->
  registry_ok (limit + Z.of_nat (length ops)) (run_metrics ops r).
Proof.
  revert limit r. induction ops as [|op ops IH]; intros limit r H0 Hlim Hr; simpl.
  - by rewrite Z.add_0_r.
  - replace (limit + Z.of_nat (S (length ops))) with (limit + 1 + Z.of_nat (length ops)) by lia.
    simpl in Hlim. apply IH; [lia|lia|]. apply run_metric_ok; [lia|done].
Qed.

(** C38: the registry is well-formed whatever is recorded, up to 2^64 - 1
    updates: no more than [MAX_SERIES] series of each kind, however many
    label values are used, and every histogram has its thirteen buckets, each
    at most the next one and at most the count, so that the exposition is
    cumulative as its readers need it. *)
Theorem registry_well_formed (ops : list MetricOp) :
  Z.of_nat (length ops) <= U64_MAX -> registry_ok (Z.of_nat (length ops)) (run_metrics ops Registry_new).
Proof.
  intros Hn. apply (run_metrics_ok ops 0); [done|done|].
  split; simpl; rewrite ?map_size_empty; try (unfold MAX_SERIES; lia). intros k h. by rewrite lookup_empty.
Qed.

(** ** Keys *)

Definition plain (c : ascii) (s : string) : Prop := c ∉ list_ascii_of_string s.

Lemma split_at_char (c : ascii) (a b r1 r2 : string) :
  plain c a -> plain c b -> a +:+ String.String c r1 = b +:+ String.String c r2 -> a = b /\ r1 = r2.
Proof.
  unfold plain. revert b. induction a as [|x a IH]; intros [|y b] Ha Hb; cbn.
  - by intros [= ->].
  - intros [= -> _]. destruct Hb. by left.
  - intros [= -> _]. destruct Ha. by left.
  - intros [= -> Heq]. assert (a = b /\ r1 = r2) as [-> ->]; [|done].
    apply IH; [..|exact Heq]; intros Hin; [apply Ha|apply Hb]; by right.
Qed.

Lemma escape_split v w r1 r2 :
  escape_label v +:+ String.String DQUOTE r1 = escape_label w +:+ String.String DQUOTE r2 -> v = w /\ r1 = r2.
Proof.
  revert w. induction v as [|x v IH]; intros [|y w]; cbn [escape_label].
  - by intros [= ->].
  - case_decide as Hy; cbn; [by intros [= ]|]. intros [= Heq _]. exfalso. apply Hy. right. by rewrite <- Heq.
  - case_decide as Hx; cbn; [by intros [= ]|]. intros [= Heq _]. exfalso. apply Hx. right. by rewrite Heq.
  - case_decide as Hx; case_decide as Hy; cbn.
    + intros [= -> Heq]. by destruct (IH _ Heq) as [-> ->].
    + intros [= Heq _]. exfalso. apply Hy. left. by rewrite <- Heq.
    + intros [= Heq _]. exfalso. apply Hx. left. by rewrite Heq.
    + intros [= -> Heq]. by destruct (IH _ Heq) as [-> ->].
Qed.

Lemma append_assoc_str (a b c : string) : (a +:+ b) +:+ c = a +:+ (b +:+ c).
Proof.
  induction a as [|x a IH]; [done|]. change (String.String x ((a +:+ b) +:+ c) = String.String x (a +:+ (b +:+ c))).
  by rewrite IH.
Qed.

Lemma str1_append c s : str1 c +:+ s = String.String c s.
Proof. done. Qed.

Definition EQUALS : ascii := "="%char.
Definition BRACE : ascii := "{"%char.

(** The text of a label determines it and what follows. *)
Lemma label_split l m r1 r2 :
  plain EQUALS l.1 -> plain EQUALS m.1 -> label_text l +:+ r1 = label_text m +:+ r2 -> l = m /\ r1 = r2.
Proof.
  intros Hl Hm. unfold label_text. rewrite !append_assoc_str, !str1_append. intros Heq.
  apply split_at_char in Heq as [H1 H2]; [|done|done]. cbn in H2. injection H2 as H2.
  apply escape_split in H2 as [H2 ->]. destruct l, m; simpl in *. by subst.
Qed.

Lemma labels_split ls ms r1 r2 :
  Forall (fun l => plain EQUALS l.1) ls -> Forall (fun l => plain EQUALS l.1) ms -> ls <> [] -> ms <> [] ->
  labels_text ls +:+ String.String "}"%char r1 = labels_text ms +:+ String.String "}"%char r2 -> ls = ms.
Proof.
  intros Hls. revert ms. induction Hls as [|l ls Hl Hls IH]; intros ms Hms Hne Hne'; [done|].
  destruct Hms as [|m ms Hm Hms]; [done|]. destruct ls as [|l' ls], ms as [|m' ms].
  - intros Heq. by apply label_split in Heq as [-> _].
  - intros Heq. change (labels_text (m :: m' :: ms)) with (label_text m +:+ "," +:+ labels_text (m' :: ms)) in Heq.
    rewrite !append_assoc_str in Heq. apply label_split in Heq as [_ Heq]; [|done|done]. by cbn in Heq.
  - intros Heq. change (labels_text (l :: l' :: ls)) with (label_text l +:+ "," +:+ labels_text (l' :: ls)) in Heq.
    rewrite !append_assoc_str in Heq. apply label_split in Heq as [_ Heq]; [|done|done]. by cbn in Heq.
  - intros Heq. change (labels_text (l :: l' :: ls)) with (label_text l +:+ "," +:+ labels_text (l' :: ls)) in Heq.
    change (labels_text (m :: m' :: ms)) with (label_text m +:+ "," +:+ labels_text (m' :: ms)) in Heq.
    rewrite !append_assoc_str in Heq. apply label_split in Heq as [-> Heq]; [|done|done].
    cbn in Heq. injection Heq as Heq. by rewrite (IH (m' :: ms)).
Qed.

(** Different series have different keys, whatever their label values are:
    names are without a brace and label names without an equals sign, as the
    program's all are. *)
Theorem series_key_injective (n m : string) (ls ms : list (string * string)) :
  plain BRACE n -> plain BRACE m ->
  Forall (fun l => plain EQUALS l.1) ls -> Forall (fun l => plain EQUALS l.1) ms ->
  series_key n ls = series_key m ms -> n = m /\ ls = ms.
Proof.
  intros Hn Hm Hls Hms. unfold series_key.
  assert (forall a b x, plain BRACE a -> a = b +:+ String.String BRACE x -> False) as Hno.
  { intros a b x Ha ->. apply Ha. clear. induction b as [|y b IH]; cbn; [by left|by right]. }
  destruct ls as [|l ls], ms as [|m0 ms].
  - by intros ->.
  - intros Heq. by destruct (Hno _ _ _ Hn Heq).
  - intros Heq. symmetry in Heq. by destruct (Hno _ _ _ Hm Heq).
  - intros Heq. apply split_at_char in Heq as [-> Heq]; [|done|done]. cbn in Heq. split; [done|].
    by eapply (labels_split (l :: ls) (m0 :: ms) EmptyString EmptyString).
Qed.

Lemma registry_well_formed_witness :
  registry_ok 2 (run_metrics [OCounter "requests" [("op", "sql")]%string 3; OObserve "seconds" [] (S754_finite false 1 0)]
    Registry_new).
Proof.
  apply (registry_well_formed
    [OCounter "requests" [("op", "sql")]%string 3; OObserve "seconds" [] (S754_finite false 1 0)]).
  vm_compute. discriminate.
Defined.

Lemma series_key_injective_witness : ("x"%string = "x"%string) /\ [("op", "a")]%string = [("op", "a")]%string.
Proof.
  apply (series_key_injective "x" "x" [("op", "a")]%string [("op", "a")]%string); try reflexivity;
    try (unfold plain; apply (bool_decide_unpack _); vm_compute; exact I);
    repeat constructor; unfold plain; apply (bool_decide_unpack _); vm_compute; exact I.
Defined.
