(* ===== verification/Backup.v ===== *)
(** crates/data-node: [backup.rs] and the backup, restore and replication
    operations of [lib.rs]. The object store is a map from object names to
    bytes that several nodes share; what SQLite makes of a main file and a WAL
    is a parameter. *)

From Stdlib Require Import ZArith Lia String Ascii.
From stdpp Require Import gmap strings list fin_maps sorting.
From S2P Require Import Prelude Common Kv SqlGate Sql Cache Manager DataNode Catalog.

(** The files of a Cell as bytes: how the n-th copy finds the content split
    between main file and WAL, what VACUUM INTO writes, the content SQLite
    sees in a main file with or without a WAL, what PRAGMA integrity_check
    says of it, and the WAL that the n-th call finds beside the main file of a
    Cell that is closed (none, when the last connection removed it). *)
Class Images (U : Type) := {
  split_files : nat -> CellDb U -> string * option string;
  vacuum_into : CellDb U -> string;
  open_images : string -> option string -> CellDb U;
  integrity_result : CellDb U -> string;
  leftover_wal : nat -> option string;
}.

(** Documented behaviour of SQLite: main file and WAL together hold the
    content, VACUUM INTO writes a complete copy, an empty WAL adds nothing. *)
Class ImagesLaws (U : Type) `{Images U} := {
  open_split : forall n c, open_images (split_files n c).1 (split_files n c).2 = c;
  open_vacuum : forall c, open_images (vacuum_into c) None = c;
  open_empty_wal : forall m, open_images m (Some EmptyString) = open_images m None;
}.

(** Readings of the system clock in milliseconds. *)
Class MillisClock := { clock_ms : nat -> Z }.

(** A data node and the object store it was configured with, if any. *)
Record Site (U : Type) := mkSite { site_node : Node U; bucket : option (gmap string string) }.
Arguments mkSite {U}.
Arguments site_node {U}.
Arguments bucket {U}.

Record BackupInfo := mkBackupInfo {
  bi_key : string;
  bi_size_bytes : Z;
  bi_created_at : Z;
  bi_checksum : option string;
}.

(** ** Object names *)

(** The text after the first occurrence of [needle]: [name.find], then the
    slice behind it. *)
Fixpoint text_after (needle s : string) : option string :=
  if String.prefix needle s
  then Some (String.substring (String.length needle) (String.length s - String.length needle) s)
  else match s with
       | EmptyString => None
       | String.String _ rest => text_after needle rest
       end.

(** [rest.split('.').next()] *)
Fixpoint before_dot (s : string) : string :=
  match s with
  | EmptyString => EmptyString
  | String.String c rest => if decide (c = "."%char) then EmptyString else String.String c (before_dot rest)
  end.

(** [str::parse::<u128>] *)
Definition in_u128 (z : Z) : option Z := if decide (0 <= z < 2 ^ 128) then Some z else None.

Definition parse_u128 (s : string) : option Z :=
  match s with
  | String.String "+"%char rest => z ← parse_digits rest; in_u128 z
  | _ => z ← parse_digits s; in_u128 z
  end.

Definition parse_rev (name : string) : option Z :=
  match text_after "snapshot-" name with
  | Some rest => parse_u128 (before_dot rest)
  | None =>
      match text_after "wal-" name with
      | Some rest => parse_u128 (before_dot rest)
      | None => None
      end
  end.

(** One round of incremental backups: snapshot and WAL object. *)
Record IncrMeta := mkIncrMeta { im_snap : option string; im_wal : option string }.

Definition incr_add (m : gmap Z IncrMeta) (name : string) : gmap Z IncrMeta :=
  match parse_rev name with
  | Some rev =>
      let e := default (mkIncrMeta None None) (m !! rev) in
      if string_contains "snapshot-" name then <[rev := mkIncrMeta (Some name) (im_wal e)]> m
      else if string_contains "wal-" name then <[rev := mkIncrMeta (im_snap e) (Some name)]> m
      else <[rev := e]> m
  | None => m
  end.

(** [by_rev.values().rev().find(|m| m.snap.is_some())] *)
Definition newest_round (m : gmap Z IncrMeta) : option (string * option string) :=
  r ← List.find (fun p : Z * IncrMeta => match im_snap p.2 with Some _ => true | None => false end)
        (sort_by_key (fun p => (- p.1, 0)) (map_to_list m));
  (fun s => (s, im_wal r.2)) <$> im_snap r.2.

Section backup.
Context {env : Env} `{UuidText} `{MillisClock} {U : Type} `{CellFiles U} `{SqlEngine U} `{Images U}.
Variable cfg : DataNodeConfig.
(** SHA-256 in hexadecimal. *)
Variable sha256_hex : string -> string.
(** [object_store::path::Path::from] *)
Variable obj_path : string -> string.

Abbreviation SiteM := (M (Site U) CombeeError).

Definition on_node {A} (m : M (Node U) CombeeError A) : SiteM A :=
  zoom site_node (fun n s => mkSite n (bucket s)) m.

Definition read_ms : SiteM Z := fun s e => (Ok (clock_ms (e_clock e)), s, bump_clock e).

Definition prefix (db : DatabaseId) : string := "backups/" +:+ DatabaseId_to_string db +:+ "/".
Definition incr_prefix (db : DatabaseId) : string := prefix db +:+ "incr/".

Definition snap_key (db : DatabaseId) (rev : Z) : string :=
  incr_prefix db +:+ "snapshot-" +:+ i64_to_string rev +:+ ".sqlite".
Definition wal_key (db : DatabaseId) (rev : Z) : string :=
  incr_prefix db +:+ "wal-" +:+ i64_to_string rev +:+ ".sqlite-wal".

(** Object names the program makes up are plain segments, which
    [object_store] keeps as they are. *)
Definition snapshot_key (db : DatabaseId) (ts_ms : Z) (u : N) : string :=
  prefix db +:+ i64_to_string ts_ms +:+ "-" +:+ uuid_to_string u +:+ ".sqlite".

Definition internal (context : string) (msg : string) : CombeeError := Internal (context +:+ msg).

(** ** The object store *)

Definition store_of : SiteM (gmap string string) :=
  let! b := gets bucket in
  match b with
  | Some objects => mret objects
  | None => mfail (Internal "object storage not configured")
  end.

Definition put_object (context key bytes : string) : SiteM unit :=
  do! fallible (internal context) in
  modify (fun s => mkSite (site_node s) (<[key := bytes]> <$> bucket s)).

Definition get_object (key : string) : SiteM string :=
  do! fallible (internal ("download backup " +:+ key +:+ ": ")) in
  let! objects := store_of in
  match objects !! key with
  | None => mfail (Internal ("download backup " +:+ key +:+ ": not found"))
  | Some bytes => do! fallible (internal "download backup bytes: ") in mret bytes
  end.

Definition list_objects (context pre : string) : SiteM (list string) :=
  do! fallible (internal context) in
  let! objects := store_of in
  mret (map_to_list (filter (fun kv : string * string => String.prefix pre kv.1 = true) objects)).*1.

(** ** Full snapshots *)

Definition upload_snapshot (db : DatabaseId) (bytes : string) : SiteM BackupInfo :=
  do! fallible (internal "snapshot metadata: ") in
  do! fallible (internal "snapshot read: ") in
  let! ts_ms := read_ms in
  let! u := fresh_uuid in
  let key := snapshot_key db ts_ms u in
  do! put_object "upload backup: " key bytes in
  let! now := read_clock in
  mret (mkBackupInfo key (Z.of_nat (String.length bytes)) (Z.max now 0) (Some (sha256_hex bytes))).

Definition list_snapshots (db : DatabaseId) : SiteM (list string) :=
  let! names := list_objects "list backups: " (prefix db) in
  mret (merge_sort String.le names).

(** Fetches an object and puts it in the place of a file: directory, temporary
    file, rename. *)
Definition download_snapshot (key : string) (install : string -> SiteM unit) : SiteM string :=
  let! bytes := get_object key in
  do! fallible (internal "create dir: ") in
  do! fallible (internal "write snapshot: ") in
  do! fallible (internal "atomic replace: ") in
  do! install bytes in
  mret bytes.

(** A new main file, beside the WAL that may have been left there, *)
Definition install_main (db : DatabaseId) (bytes : string) : SiteM unit :=
  let! call := next_call in
  on_node (modify (set_files <[db := open_images bytes (leftover_wal call)]>)).

(** a new WAL, *)
Definition install_wal (db : DatabaseId) (main wal : string) : SiteM unit :=
  on_node (modify (set_files <[db := open_images main (Some wal)]>)).

(** and [let _ = remove_file(wal)]. *)
Definition remove_wal (db : DatabaseId) (main : string) : SiteM unit :=
  ignore (
    do! fallible (internal "remove wal: ") in
    on_node (modify (set_files <[db := open_images main None]>))).

Definition backup (db : DatabaseId) : SiteM BackupInfo :=
  do! store_of in
  let! bytes := on_node (with_conn cfg db (
    let! _ts := read_clock in
    let! _name := fresh_uuid in
    do! fallible SqlError in
    gets (fun n => vacuum_into (cell_of db n)))) in
  let! info := upload_snapshot db bytes in
  do! ignore (fallible (internal "remove temporary file: ")) in
  let! _now := read_clock in
  mret info.

(** ** Incremental backups *)

Definition upload_incr (db : DatabaseId) (snap_bytes : string) (wal_bytes : option string)
    : SiteM BackupInfo :=
  let! rev := read_ms in
  do! put_object "upload incr snapshot: " (snap_key db rev) snap_bytes in
  let! wal_size :=
    match wal_bytes with
    | Some EmptyString | None => mret 0%nat
    | Some w =>
        do! put_object "upload incr wal: " (wal_key db rev) w in
        mret (String.length (wal_key db rev))
    end in
  mret (mkBackupInfo (snap_key db rev)
    (u64_add (Z.of_nat (String.length snap_bytes)) (Z.of_nat wal_size)) (rev / 1000)
    (Some (sha256_hex snap_bytes))).

Definition latest_incr (db : DatabaseId) : SiteM (option (string * option string)) :=
  let! names := list_objects "list incr backups: " (incr_prefix db) in
  mret (newest_round (foldl incr_add ∅ names)).

Definition restore_from_incr (db : DatabaseId) : SiteM bool :=
  let! latest := latest_incr db in
  match latest with
  | None => mret false
  | Some (snap, wal) =>
      let! main := download_snapshot snap (install_main db) in
      do! (match wal with
           | Some k => do! download_snapshot k (install_wal db main) in mret tt
           | None => remove_wal db main
           end) in
      mret true
  end.

(** Main file and WAL are copied while the Cell's lock is held. *)
Definition copy_files (db : DatabaseId) : M (Node U) CombeeError (string * option string) :=
  let! _dir := fresh_uuid in
  do! fallible (internal "create tmp dir: ") in
  let! images := (fun n e => (Ok (split_files (e_call e) (cell_of db n)), n, e)) in
  do! fallible (internal "copy db: ") in
  do! (match images.2 with
       | Some _ => fallible (internal "copy wal: ")
       | None => mret tt
       end) in
  mret images.

Definition incremental_backup (db : DatabaseId) : SiteM BackupInfo :=
  do! store_of in
  let! (snap, wal) := on_node (with_conn cfg db (copy_files db)) in
  do! fallible (internal "read snap tmp: ") in
  do! (match wal with Some _ => fallible (internal "read wal tmp: ") | None => mret tt end) in
  let! info := upload_incr db snap wal in
  do! ignore (fallible (internal "remove tmp dir: ")) in
  mret info.

(** ** Restore and replication *)

Definition restore_version (db : DatabaseId) (v : string) : SiteM unit :=
  if negb (String.prefix (prefix db) v) then
    mfail (InvalidRequest ("backup key must be under '" +:+ prefix db +:+ "'"))
  else
    let! main := download_snapshot (obj_path v) (install_main db) in
    remove_wal db main.

Definition restore_latest (db : DatabaseId) : SiteM unit :=
  let! found := restore_from_incr db in
  if found : bool then mret tt else
  let! metas := list_snapshots db in
  match last metas with
  | None => mfail (Internal ("no backups found for " +:+ DatabaseId_to_string db))
  | Some latest =>
      let! main := download_snapshot latest (install_main db) in
      remove_wal db main
  end.

Definition integrity_check (db : DatabaseId) : SiteM string :=
  on_node (with_conn cfg db (
    do! fallible (internal "integrity check: ") in
    gets (fun n => integrity_result (cell_of db n)))).

Definition restore (db : DatabaseId) (version : option string) : SiteM unit :=
  do! store_of in
  do! on_node (close_database db) in
  do! (match version with Some v => restore_version db v | None => restore_latest db end) in
  let! res := integrity_check db in
  if trims_to_ok res then on_node (clear_cache db)
  else
    do! on_node (close_database db) in
    mfail (Internal ("restored database integrity check failed: " +:+ res)).

Definition replicate_from_primary (db : DatabaseId) : SiteM bool :=
  do! store_of in
  do! on_node (close_database db) in
  let! applied := restore_from_incr db in
  if applied : bool then do! on_node (clear_cache db) in mret true else mret false.

(** One tick of [spawn_replica_loop], for the Cells the API server names. *)
Definition replica_tick (dbs : list DatabaseId) : SiteM unit :=
  mfor dbs (fun db => ignore (replicate_from_primary db)).

(** One tick of [spawn_incremental_backup]. *)
Definition backup_tick : SiteM unit :=
  let! dbs := gets (fun s => active_databases (site_node s)) in
  mfor dbs (fun db => ignore (incremental_backup db)).

End backup.
