(* ===== verification/BackupSpec.v ===== *)
(** Backups: the names of the objects parse back, the newest round is found,
    what was backed up is what a restore brings back, on any node, and a
    restore reads no other Cell's objects. *)

From Stdlib Require Import ZArith Lia String Ascii DecimalString.
From stdpp Require Import gmap strings list fin_maps sorting.
From S2P Require Import Prelude Common Kv SqlGate Sql Cache Manager DataNode NodeInv NodeCapacity Catalog Backup.

#[local] Arguments String.append !_ _ / : simpl nomatch.

(** ** Object names *)

Fixpoint all_chars (f : ascii -> bool) (s : string) : bool :=
  match s with
  | EmptyString => true
  | String.String c rest => f c && all_chars f rest
  end.

Definition is_hex (c : ascii) : bool :=
  is_digit c || ((97 <=? nat_of_ascii c)%nat && (nat_of_ascii c <=? 102)%nat) || bool_decide (c = "-"%char).

(** The hyphenated form of a uuid has hexadecimal digits and hyphens only. *)
Class UuidHexLaw `{UuidText} := { uuid_print_hex : forall u, all_chars is_hex (uuid_to_string u) = true }.

Lemma prefix_cons_ne c needle d s : c <> d -> String.prefix (String.String c needle) (String.String d s) = false.
Proof. intros Hne. simpl. by destruct (ascii_dec c d). Qed.

(** No occurrence of the needle begins in a text without its first letter. *)
Lemma text_after_skip c needle a s :
  all_chars (fun d => negb (bool_decide (c = d))) a = true ->
  text_after (String.String c needle) (a +:+ s) = text_after (String.String c needle) s.
Proof.
  induction a as [|d a IH]; [done|]. intros Ha. simpl in Ha. apply andb_true_iff in Ha as [Hd Ha].
  apply negb_true_iff, bool_decide_eq_false in Hd. simpl. destruct (ascii_dec c d); [done|]. by apply IH.
Qed.

Lemma all_chars_impl (f g : ascii -> bool) s :
  (forall c, f c = true -> g c = true) -> all_chars f s = true -> all_chars g s = true.
Proof.
  intros Hfg. induction s as [|c s IH]; [done|]. simpl. rewrite !andb_true_iff. naive_solver.
Qed.

Lemma digits_string z : 0 <= z -> all_chars is_digit (i64_to_string z) = true.
Proof.
  intros Hz. unfold i64_to_string. destruct (to_int_cases z) as [[_ (d & -> & Hd & _)]|[? _]]; [|lia].
  simpl. assert (all_chars is_digit (DecimalString.NilEmpty.string_of_uint d) = true) as He
    by (clear; induction d; simpl; auto). by destruct d.
Qed.

Lemma before_dot_app a b :
  all_chars (fun c => negb (bool_decide (c = "."%char))) a = true ->
  before_dot (a +:+ String.String "." b) = a.
Proof.
  induction a as [|c a IH]; [done|]. simpl. intros Ha. apply andb_true_iff in Ha as [Hc Ha].
  apply negb_true_iff, bool_decide_eq_false in Hc. rewrite decide_False by done. by rewrite IH.
Qed.

Lemma digit_is c d : is_digit c = true -> is_digit d = false -> c <> d.
Proof. intros Hc Hd ->. congruence. Qed.

Lemma digits_no c s : is_digit c = false -> all_chars is_digit s = true ->
  all_chars (fun d => negb (bool_decide (c = d))) s = true.
Proof.
  intros Hc. apply all_chars_impl. intros d Hd. apply negb_true_iff, bool_decide_eq_false. intros ->. congruence.
Qed.

Lemma hex_no c s : is_hex c = false -> all_chars is_hex s = true ->
  all_chars (fun d => negb (bool_decide (c = d))) s = true.
Proof.
  intros Hc. apply all_chars_impl. intros d Hd. apply negb_true_iff, bool_decide_eq_false. intros ->. congruence.
Qed.

Lemma parse_u128_print z : 0 <= z < 2 ^ 128 -> parse_u128 (i64_to_string z) = Some z.
Proof.
  intros Hz. unfold i64_to_string.
  destruct (to_int_cases z) as [[Hs (d & -> & Hd & Hv)]|[? _]]; [|lia]. simpl.
  pose proof (parse_digits_print d Hd) as Hp. unfold parse_u128.
  destruct (NilZero.string_of_uint d) as [|c s] eqn:E; [done|].
  pose proof (string_of_uint_head _ _ _ E) as Hc.
  assert (forall r, (match c with "+"%char => z ← parse_digits s; in_u128 z | _ => r end) = r) as Hm
    by (intros r; by destruct c as [[] [] [] [] [] [] [] []]).
  rewrite Hm, Hp. simpl. unfold in_u128. rewrite Hv. by rewrite decide_True.
Qed.

Lemma substring_all s : String.substring 0 (String.length s) s = s.
Proof. induction s; simpl; congruence. Qed.

Lemma prefix_app a s : String.prefix a (a +:+ s) = true.
Proof. induction a as [|c a IH]; simpl; [by destruct s|]. by destruct (ascii_dec c c). Qed.

Lemma substring_app a s :
  String.substring (String.length a) (String.length (a +:+ s) - String.length a) (a +:+ s) = s.
Proof.
  induction a as [|c a IH]; simpl; [|exact IH]. rewrite Nat.sub_0_r. apply substring_all.
Qed.

Lemma text_after_unfold needle s :
  text_after needle s =
  if String.prefix needle s
  then Some (String.substring (String.length needle) (String.length s - String.length needle) s)
  else match s with EmptyString => None | String.String _ rest => text_after needle rest end.
Proof. by destruct s. Qed.

Lemma text_after_here needle s : text_after needle (needle +:+ s) = Some s.
Proof. by rewrite text_after_unfold, prefix_app, substring_app. Qed.

Lemma text_after_step needle d s :
  String.prefix needle (String.String d s) = false ->
  text_after needle (String.String d s) = text_after needle s.
Proof. intros Hp. by rewrite text_after_unfold, Hp. Qed.

(** Walks over literal text in which the needle does not begin. *)
Ltac walk := repeat (rewrite text_after_step by reflexivity).

Section names.
Context `{UuidHexLaw}.

(** The search for a marker reaches the end of the directory part. *)
Lemma text_after_dir c needle db rest :
  is_hex c = false -> String.String c needle = "snapshot-"%string \/ String.String c needle = "wal-"%string ->
  text_after (String.String c needle) (incr_prefix db +:+ rest) = text_after (String.String c needle) rest.
Proof.
  intros Hc Hn. unfold incr_prefix, prefix, DatabaseId_to_string. rewrite !string_app_assoc.
  destruct Hn as [Hn|Hn]; rewrite Hn; simpl String.append; walk; rewrite <- Hn;
    rewrite text_after_skip by (by apply hex_no, uuid_print_hex); rewrite Hn; by walk.
Qed.

Lemma text_after_digits c needle z rest :
  is_digit c = false -> 0 <= z ->
  text_after (String.String c needle) (i64_to_string z +:+ rest) = text_after (String.String c needle) rest.
Proof. intros Hc Hz. apply text_after_skip, digits_no; [done|]. by apply digits_string. Qed.

Lemma before_dot_rev z rest : 0 <= z -> before_dot (i64_to_string z +:+ String.String "." rest) = i64_to_string z.
Proof.
  intros Hz. apply before_dot_app. eapply all_chars_impl; [|by apply digits_string].
  intros c Hc. apply negb_true_iff, bool_decide_eq_false. by apply digit_is.
Qed.

Lemma parse_rev_snap db rev : 0 <= rev < 2 ^ 128 -> parse_rev (snap_key db rev) = Some rev.
Proof.
  intros Hr. unfold parse_rev, snap_key. rewrite text_after_dir by auto.
  rewrite text_after_here. rewrite before_dot_rev by lia. by apply parse_u128_print.
Qed.

Lemma wal_no_snapshot rev : 0 <= rev ->
  text_after "snapshot-" ("wal-" +:+ i64_to_string rev +:+ ".sqlite-wal") = None.
Proof. intros Hr. simpl String.append. walk. rewrite text_after_digits by (done || lia). by walk. Qed.

Lemma parse_rev_wal db rev : 0 <= rev < 2 ^ 128 -> parse_rev (wal_key db rev) = Some rev.
Proof.
  intros Hr. unfold parse_rev, wal_key. rewrite text_after_dir by auto.
  rewrite wal_no_snapshot by lia. rewrite text_after_dir by auto. rewrite text_after_here. rewrite before_dot_rev by lia.
  by apply parse_u128_print.
Qed.

Lemma contains_text_after needle s :
  string_contains needle s = match text_after needle s with Some _ => true | None => false end.
Proof.
  induction s as [|c s IH]; rewrite text_after_unfold; cbn [string_contains].
  - by destruct (String.prefix needle _).
  - destruct (String.prefix needle _); [done|]. by rewrite IH.
Qed.

Lemma snap_key_contains db rev : string_contains "snapshot-" (snap_key db rev) = true.
Proof. rewrite contains_text_after. unfold snap_key. by rewrite text_after_dir, text_after_here by auto. Qed.

Lemma wal_key_contains db rev : 0 <= rev ->
  string_contains "snapshot-" (wal_key db rev) = false /\ string_contains "wal-" (wal_key db rev) = true.
Proof.
  intros Hr. rewrite !contains_text_after. unfold wal_key. rewrite !text_after_dir by auto.
  rewrite wal_no_snapshot by done. by rewrite text_after_here.
Qed.

Lemma incr_prefix_keys db rev :
  String.prefix (incr_prefix db) (snap_key db rev) = true /\
  String.prefix (incr_prefix db) (wal_key db rev) = true.
Proof. split; apply prefix_app. Qed.

End names.

(** ** The newest round *)

(** Every round in the table was named by an object, and the round [rev]
    holds just the objects of that revision. *)
Definition round_of (rev : Z) (sk wk : string) (names : list string) (m : gmap Z IncrMeta) : Prop :=
  (forall r, is_Some (m !! r) -> exists k, k ∈ names /\ parse_rev k = Some r) /\
  (sk ∈ names -> from_option im_snap None (m !! rev) = Some sk) /\
  (from_option im_wal None (m !! rev) = if decide (wk ∈ names) then Some wk else None).

Lemma incr_add_other m name rev :
  parse_rev name <> Some rev -> incr_add m name !! rev = m !! rev.
Proof.
  intros Hr. unfold incr_add. destruct (parse_rev name) as [r|]; [|done].
  assert (r <> rev) by congruence. repeat case_match; by rewrite lookup_insert_ne.
Qed.

Lemma incr_add_keys m name r :
  is_Some (incr_add m name !! r) -> is_Some (m !! r) \/ parse_rev name = Some r.
Proof.
  intros Hs. destruct (decide (parse_rev name = Some r)); [by right|left].
  by rewrite incr_add_other in Hs.
Qed.

Section rounds.
Context (rev : Z) (sk wk : string).
Context (Hsk : parse_rev sk = Some rev) (Hwk : parse_rev wk = Some rev).
Context (Hsk_s : string_contains "snapshot-" sk = true).
Context (Hwk_s : string_contains "snapshot-" wk = false) (Hwk_w : string_contains "wal-" wk = true).

Lemma incr_add_snap m :
  incr_add m sk !! rev = Some (mkIncrMeta (Some sk) (im_wal (default (mkIncrMeta None None) (m !! rev)))).
Proof using Hsk Hsk_s. unfold incr_add. rewrite Hsk, Hsk_s. apply lookup_insert_eq. Qed.

Lemma incr_add_wal m :
  incr_add m wk !! rev = Some (mkIncrMeta (im_snap (default (mkIncrMeta None None) (m !! rev))) (Some wk)).
Proof using Hwk Hwk_s Hwk_w. unfold incr_add. rewrite Hwk, Hwk_s, Hwk_w. apply lookup_insert_eq. Qed.

Lemma rounds_fold names :
  (forall k, k ∈ names -> parse_rev k = Some rev -> k = sk \/ k = wk) ->
  round_of rev sk wk names (foldl incr_add ∅ names).
Proof using Hsk Hwk Hsk_s Hwk_s Hwk_w.
  induction names as [|k names IH] using rev_ind; intros Honly.
  { split_and!; [|by intros ?%elem_of_nil|by rewrite decide_False by apply not_elem_of_nil].
    intros r [x Hx]. simpl in Hx. by rewrite lookup_empty in Hx. }
  destruct IH as (Hkeys & Hs & Hw).
  { intros k' Hk'. apply Honly. apply elem_of_app. by left. }
  rewrite foldl_app. simpl. set (m := foldl incr_add ∅ names) in *.
  assert (k ∈ names ++ [k]) as Hk by (apply elem_of_app; right; by apply list_elem_of_singleton).
  split_and!.
  - intros r [Hm|Hp]%incr_add_keys; [|by exists k].
    destruct (Hkeys r Hm) as (k' & Hin & Hp). exists k'. split; [|done]. apply elem_of_app. by left.
  - intros Hin. destruct (decide (parse_rev k = Some rev)) as [Hp|Hp].
    + destruct (Honly k Hk Hp) as [-> | ->].
      * rewrite incr_add_snap. done.
      * rewrite incr_add_wal. simpl. apply elem_of_app in Hin as [Hin|Hin].
        -- specialize (Hs Hin). by destruct (m !! rev).
        -- apply list_elem_of_singleton in Hin. congruence.
    + rewrite incr_add_other by done. apply Hs. apply elem_of_app in Hin as [Hin|Hin]; [done|].
      apply list_elem_of_singleton in Hin. congruence.
  - destruct (decide (parse_rev k = Some rev)) as [Hp|Hp].
    + destruct (Honly k Hk Hp) as [-> | ->].
      * rewrite incr_add_snap. simpl. rewrite (decide_ext _ (wk ∈ names)).
        -- rewrite <- Hw. by destruct (m !! rev).
        -- rewrite elem_of_app, list_elem_of_singleton. split; [intros [?|?]; [done|congruence]|by left].
      * rewrite incr_add_wal. by rewrite decide_True.
    + rewrite incr_add_other by done. rewrite (decide_ext _ (wk ∈ names)); [done|].
      rewrite elem_of_app, list_elem_of_singleton. split; [intros [?|?]; [done|congruence]|by left].
Qed.

End rounds.

Lemma newest_round_max m rev meta sk :
  m !! rev = Some meta -> im_snap meta = Some sk ->
  (forall r, is_Some (m !! r) -> r <> rev -> r < rev) ->
  newest_round m = Some (sk, im_wal meta).
Proof.
  intros Hm Hsk Hmax. unfold newest_round, sort_by_key.
  pose proof (merge_sort_Permutation (by_key (fun p : Z * IncrMeta => (- p.1, 0))) (map_to_list m)) as Hperm.
  assert (StronglySorted (by_key (fun p : Z * IncrMeta => (- p.1, 0)))
    (merge_sort (by_key (fun p => (- p.1, 0))) (map_to_list m))) as Hsorted.
  { apply StronglySorted_merge_sort.
    - intros x y z. unfold by_key, lex_le. simpl. lia.
    - intros x y. unfold by_key, lex_le. simpl. lia. }
  assert ((rev, meta) ∈ merge_sort (by_key (fun p : Z * IncrMeta => (- p.1, 0))) (map_to_list m)) as Hin
    by (rewrite Hperm; by apply elem_of_map_to_list).
  destruct (merge_sort _ _) as [|[r meta'] l]; [by apply elem_of_nil in Hin|].
  assert (m !! r = Some meta') as Hr.
  { apply elem_of_map_to_list. rewrite <- Hperm. left. }
  assert (r = rev) as ->.
  { destruct (decide (r = rev)) as [|Hne]; [done|].
    pose proof (Hmax r (mk_is_Some _ _ Hr) Hne) as Hlt.
    apply elem_of_cons in Hin as [[= -> _]|Hin]; [done|].
    apply StronglySorted_inv in Hsorted as [_ Hall]. rewrite Forall_forall in Hall.
    specialize (Hall _ Hin). unfold by_key, lex_le in Hall. simpl in Hall. lia. }
  assert (meta' = meta) as -> by congruence. simpl. rewrite Hsk. simpl. by rewrite Hsk.
Qed.

(** ** A Cell that can be served *)

(** The content passes the check at opening, and the manifest is of a format
    this binary reads. *)
Definition readable (db : DatabaseId) {U} (n : Node U) : Prop :=
  match manifests n !! db with Some (Some v) => v <= CELL_FORMAT_VERSION | _ => True end.

Section serve.
Context {env : Env} (Hfault : forall n, fault n = None).
Context `{UuidText} {U : Type} `{CellFiles U} `{SqlEngine U} (cfg : DataNodeConfig).
Implicit Types (n : Node U) (db : DatabaseId).

Definition sound_cell (c : CellDb U) : Prop := trims_to_ok (quick_check_result c) = true.

(** The Cell, the cache and the format stay as they are. *)
Definition same_cell db n n' : Prop :=
  cell_of db n' = cell_of db n /\ cache n' = cache n /\ (readable db n -> readable db n') /\
  (forall c, files n !! db = Some c -> files n' !! db = Some c).

Lemma same_cell_refl db n : same_cell db n n.
Proof. done. Qed.

Lemma same_cell_trans db n1 n2 n3 : same_cell db n1 n2 -> same_cell db n2 n3 -> same_cell db n1 n3.
Proof. intros (?&?&?&?) (?&?&?&?). split_and!; [congruence|congruence|auto|auto]. Qed.

Lemma same_cell_conns db f n : same_cell db n (set_conns f n).
Proof. done. Qed.

Lemma same_cell_open db n : same_cell db n (set_files <[db := cell_of db n]> n).
Proof.
  split_and!; [|done|done|].
  - unfold cell_of at 1. simpl. by rewrite lookup_insert_eq.
  - intros c Hc. simpl. rewrite lookup_insert_eq. unfold cell_of. by rewrite Hc.
Qed.

Lemma returns_checkpoint n (Q : unit -> Node U -> Prop) : Q tt n -> returns checkpoint n Q.
Proof using Hfault. intros HQ. unfold checkpoint. by ret_step. Qed.

Lemma returns_evict db n (Q : unit -> Node U -> Prop) :
  (forall n', same_cell db n n' -> Q tt n') -> returns evict_lru n Q.
Proof using Hfault.
  intros HQ. unfold evict_lru, checkpoint. ret. destruct (min_by_last_used _) as [[id t]|]; ret; by apply HQ.
Qed.

Lemma returns_drop_conn db db' n (Q : unit -> Node U -> Prop) :
  (forall n', same_cell db n n' -> Q tt n') -> returns (drop_conn db') n Q.
Proof using Hfault.
  intros HQ. unfold drop_conn, checkpoint. ret. destruct (conns n !! db'); ret; by apply HQ.
Qed.

Lemma returns_open db n (Q : unit -> Node U -> Prop) :
  sound_cell (cell_of db n) ->
  (forall n', same_cell db n n' -> Q tt n') -> returns (open_ db) n Q.
Proof using Hfault.
  intros Hs HQ. unfold open_, init_schema, quick_check. ret.
  destruct (same_cell_open db n) as [-> _]. rewrite Hs. ret. apply HQ, same_cell_open.
Qed.

Lemma returns_activate db now n (Q : unit -> Node U -> Prop) :
  sound_cell (cell_of db n) -> readable db n ->
  (forall n', same_cell db n n' -> Q tt n') -> returns (activate cfg db now) n Q.
Proof using Hfault.
  intros Hs Hr HQ. unfold activate. ret.
  assert (forall n1, same_cell db n n1 -> returns
    (let! opened := attempt (open_ db) in
     match opened with
     | Err e => do! mark_readonly db in mfail e
     | Ok _ =>
         do! check_format_version db in
         do! modify (set_interrupts (fun s => {[db]} ∪ s)) in
         do! ignore (write_manifest cfg db) in
         modify (set_conns <[db := now]>)
     end) n1 Q) as Hopen.
  { intros n1 H1n. ret. apply returns_open; [destruct H1n as [-> _]; exact Hs|]. intros n2 H12.
    pose proof (same_cell_trans _ _ _ _ H1n H12) as H2n.
    assert (readable db n2) as Hr2 by (destruct H2n as (_&_&Hr2&_); auto).
    unfold check_format_version. ret.
    assert (returns (do! modify (set_interrupts (fun s => {[db]} ∪ s)) in
         do! ignore (write_manifest cfg db) in modify (set_conns <[db := now]>)) n2 Q) as Htail.
    { unfold write_manifest. ret. apply HQ. eapply same_cell_trans; [exact H2n|].
      split_and!; [done|done| |done]. intros _. unfold readable. simpl. by rewrite lookup_insert_eq. }
    unfold readable in Hr2. destruct (manifests n2 !! db) as [[v|]|]; [|by apply returns_ret..].
    replace (CELL_FORMAT_VERSION <? v) with false by lia. by apply returns_ret. }
  destruct (_ <=? _)%nat; [|by apply returns_ret, Hopen]. apply returns_evict with (db := db). intros n' Hn'. by apply Hopen.
Qed.

(** The closure of [with_conn] runs on the Cell's content, and its effect
    stays. *)
Lemma returns_with_conn {A} db (f : M (Node U) CombeeError A) n (Q : A -> Node U -> Prop) :
  sound_cell (cell_of db n) -> readable db n ->
  (forall n', same_cell db n n' -> returns f n' (fun a n2 => forall g, Q a (set_conns g n2))) ->
  returns (with_conn cfg db f) n Q.
Proof using Hfault.
  intros Hs Hr Hf. unfold with_conn. ret.
  assert (forall n1, same_cell db n n1 -> returns
    (let! result := attempt f in let! used := read_instant in
     do! modify (set_conns <[db := used]>) in mlift result) n1 Q) as Hbody.
  { intros n1 H1n. ret. eapply returns_weaken; [by apply Hf|]. simpl. intros a n2 HQ. ret.
    intros e. by eexists _, _, _. }
  destruct (conns n !! db); [by apply returns_ret, Hbody|]. by apply returns_activate.
Qed.

End serve.

(** ** Round trips *)

Section roundtrip.
Context {env : Env} (Hfault : forall n, fault n = None).
Context `{UuidHexLaw} `{MillisClock} {U : Type} `{CellFiles U} `{SqlEngine U} `{ImagesLaws U}.
Implicit Types (s : Site U) (n : Node U) (db : DatabaseId) (objs : gmap string string).

Lemma returns_store s objs (Q : gmap string string -> Site U -> Prop) :
  bucket s = Some objs -> Q objs s -> returns store_of s Q.
Proof. intros Hb HQ. unfold store_of. ret. rewrite Hb. by ret. Qed.

Lemma returns_put s objs context key bytes (Q : unit -> Site U -> Prop) :
  bucket s = Some objs -> Q tt (mkSite (site_node s) (Some (<[key := bytes]> objs))) ->
  returns (put_object context key bytes) s Q.
Proof using Hfault. intros Hb HQ. unfold put_object. ret. by rewrite Hb. Qed.

Lemma returns_list s objs context pre (Q : list string -> Site U -> Prop) :
  bucket s = Some objs ->
  Q (map_to_list (filter (fun kv : string * string => String.prefix pre kv.1 = true) objs)).*1 s ->
  returns (list_objects context pre) s Q.
Proof using Hfault.
  intros Hb HQ. unfold list_objects. ret. eapply returns_store; [done|]. by ret.
Qed.

Lemma returns_download s objs key bytes install (Q : string -> Site U -> Prop) :
  bucket s = Some objs -> objs !! key = Some bytes ->
  returns (install bytes) s (fun _ s' => Q bytes s') ->
  returns (download_snapshot key install) s Q.
Proof using Hfault.
  intros Hb Hk HQ. unfold download_snapshot, get_object, on_node. ret.
  eapply returns_store; [done|]. rewrite Hk. ret. intros e. destruct (HQ e) as (a & s' & e' & Hrun & Hq).
  eexists a, s', e'. split; [exact Hrun|]. by ret.
Qed.

(** Whatever WAL was beside the new main file, it is removed. *)
Lemma returns_install_main s db bytes (Q : unit -> Site U -> Prop) :
  (forall c, Q tt (mkSite (set_files <[db := c]> (site_node s)) (bucket s))) -> returns (install_main db bytes) s Q.
Proof. intros HQ. unfold install_main, on_node. ret. apply HQ. Qed.

Lemma returns_remove_wal s db main (Q : unit -> Site U -> Prop) :
  Q tt (mkSite (set_files <[db := open_images main None]> (site_node s)) (bucket s)) ->
  returns (remove_wal db main) s Q.
Proof using Hfault. intros HQ. unfold remove_wal, on_node. by ret. Qed.

(** The objects after one upload. *)
Definition uploaded objs db (rev : Z) (snap : string) (wal : option string) : gmap string string :=
  let objs1 := <[snap_key db rev := snap]> objs in
  match wal with
  | Some EmptyString | None => objs1
  | Some w => <[wal_key db rev := w]> objs1
  end.

(** Every round in the store is older than [rev]. *)
Definition older objs db (rev : Z) : Prop :=
  forall name r, is_Some (objs !! name) -> String.prefix (incr_prefix db) name = true ->
    parse_rev name = Some r -> r < rev.

Definition wal_sent (wal : option string) : bool :=
  match wal with Some EmptyString | None => false | Some _ => true end.

Lemma snap_ne_wal db rev : 0 <= rev -> snap_key db rev <> wal_key db rev.
Proof.
  intros Hr Heq. pose proof (snap_key_contains db rev) as Hc. rewrite Heq in Hc.
  destruct (wal_key_contains db rev Hr) as [Hc' _]. congruence.
Qed.

Lemma elem_of_listed objs pre k :
  k ∈ (map_to_list (filter (fun kv : string * string => String.prefix pre kv.1 = true) objs)).*1 <->
  is_Some (objs !! k) /\ String.prefix pre k = true.
Proof.
  rewrite list_elem_of_fmap. split.
  - intros ([k' v] & -> & Hin). apply elem_of_map_to_list, map_lookup_filter_Some in Hin as [? ?]. eauto.
  - intros [[v Hv] Hp]. exists (k, v). split; [done|]. apply elem_of_map_to_list, map_lookup_filter_Some. eauto.
Qed.

Lemma uploaded_names objs db rev snap wal k :
  is_Some (uploaded objs db rev snap wal !! k) <->
  k = snap_key db rev \/ (wal_sent wal = true /\ k = wal_key db rev) \/ is_Some (objs !! k).
Proof.
  assert (forall k' v (m : gmap string string), is_Some (<[k' := v]> m !! k) <-> k = k' \/ is_Some (m !! k)) as Hi.
  { intros k' v m. rewrite lookup_insert_is_Some. destruct (decide (k' = k)); naive_solver. }
  unfold uploaded. destruct wal as [[|c w]|]; simpl; rewrite !Hi; naive_solver.
Qed.

Lemma newest_uploaded objs db rev snap wal :
  0 <= rev < 2 ^ 128 -> older objs db rev ->
  newest_round (foldl incr_add ∅ (map_to_list (filter (fun kv : string * string =>
    String.prefix (incr_prefix db) kv.1 = true) (uploaded objs db rev snap wal))).*1) =
  Some (snap_key db rev, if wal_sent wal then Some (wal_key db rev) else None).
Proof.
  intros Hr Hold. set (names := (map_to_list _).*1).
  destruct (wal_key_contains db rev ltac:(lia)) as [Hw1 Hw2].
  destruct (incr_prefix_keys db rev) as [Hp1 Hp2].
  assert (forall k, k ∈ names <-> (k = snap_key db rev \/ (wal_sent wal = true /\ k = wal_key db rev) \/
    is_Some (objs !! k)) /\ String.prefix (incr_prefix db) k = true) as Hnames.
  { intros k. unfold names. by rewrite elem_of_listed, uploaded_names. }
  destruct (rounds_fold rev (snap_key db rev) (wal_key db rev) (parse_rev_snap db rev Hr)
    (parse_rev_wal db rev Hr) (snap_key_contains db rev) Hw1 Hw2 names) as (Hkeys & Hs & Hw).
  { intros k [[->|[[_ ->]|Hin]] Hpre]%Hnames Hk; [by left|by right|].
    pose proof (Hold k rev Hin Hpre Hk). lia. }
  specialize (Hs ltac:(apply Hnames; auto)).
  destruct (foldl incr_add ∅ names !! rev) as [meta|] eqn:Hm; [|done]. simpl in *.
  erewrite newest_round_max; [|exact Hm|exact Hs|].
  - rewrite Hw. f_equal. f_equal. destruct (decide _) as [Hin|Hin].
    + apply Hnames in Hin as [[Heq|[[-> _]|Hin]] _]; [|done|].
      * symmetry in Heq. by apply snap_ne_wal in Heq; [|lia].
      * pose proof (Hold _ rev Hin Hp2 (parse_rev_wal db rev Hr)). lia.
    + destruct (wal_sent wal) eqn:Hsent; [|done]. exfalso. apply Hin, Hnames. auto.
  - intros r Hsome Hne. destruct (Hkeys r Hsome) as (k & [[->|[[_ ->]|Hin]] Hpre]%Hnames & Hk).
    + rewrite parse_rev_snap in Hk by done. congruence.
    + rewrite parse_rev_wal in Hk by done. congruence.
    + by apply (Hold k).
Qed.

Lemma returns_ms s (Q : Z -> Site U -> Prop) : (forall k, Q (clock_ms k) s) -> returns read_ms s Q.
Proof. intros HQ e. by eexists _, _, _. Qed.

Lemma returns_upload_incr sha256_hex s objs db snap wal (Q : BackupInfo -> Site U -> Prop) :
  bucket s = Some objs ->
  (forall k info, bi_key info = snap_key db (clock_ms k) ->
     Q info (mkSite (site_node s) (Some (uploaded objs db (clock_ms k) snap wal)))) ->
  returns (upload_incr sha256_hex db snap wal) s Q.
Proof using Hfault.
  intros Hb HQ. unfold upload_incr. apply returns_seq, returns_ms. intros k.
  apply returns_seq. eapply returns_put; [done|]. apply returns_seq.
  destruct wal as [[|c w]|]; ret; try by apply (HQ k).
  eapply returns_put; [done|]. ret. by apply (HQ k).
Qed.

Lemma returns_restore_incr s objs db (Q : bool -> Site U -> Prop) rev c snap wal :
  bucket s = Some (uploaded objs db rev snap wal) ->
  0 <= rev < 2 ^ 128 -> older objs db rev -> open_images snap wal = c ->
  (forall n', files n' = <[db := c]> (files (site_node s)) -> cache n' = cache (site_node s) ->
     manifests n' = manifests (site_node s) -> Q true (mkSite n' (Some (uploaded objs db rev snap wal)))) ->
  returns (restore_from_incr db) s Q.
Proof using Hfault H0 H5.
  intros Hb Hr Hold Hopen HQ. unfold restore_from_incr, latest_incr.
  apply returns_seq, returns_seq. eapply returns_list; [exact Hb|]. apply returns_ret.
  rewrite newest_uploaded by done.
  assert (uploaded objs db rev snap wal !! snap_key db rev = Some snap) as Hsnap.
  { pose proof (snap_ne_wal db rev ltac:(lia)). unfold uploaded.
    destruct wal as [[|x w]|]; rewrite ?lookup_insert_ne by congruence; by rewrite lookup_insert_eq. }
  apply returns_seq. eapply returns_download; [exact Hb|exact Hsnap|]. apply returns_install_main. intros c0.
  apply returns_seq. destruct wal as [[|x w]|]; simpl.
  - apply returns_remove_wal. rewrite Hb. ret. apply HQ; [|done..]. simpl.
    by rewrite insert_insert_eq, <- Hopen, open_empty_wal.
  - apply returns_seq. eapply returns_download; [| |].
    { cbn [bucket]. rewrite Hb. reflexivity. }
    { unfold uploaded. apply lookup_insert_eq. }
    unfold install_wal, on_node. ret. rewrite Hb. apply HQ; [|done..].
    simpl. by rewrite insert_insert_eq, Hopen.
  - apply returns_remove_wal. rewrite Hb. ret. apply HQ; [|done..]. simpl. by rewrite insert_insert_eq, Hopen.
Qed.

(** No entry of the cache belongs to the Cell. *)
Definition uncached db n : Prop := forall key, cache_inner (cache n) !! (db, key) = None.

Lemma returns_clear db n (Q : unit -> Node U -> Prop) :
  (forall n', same_cell db n n' \/ files n' = files n -> files n' = files n -> uncached db n' -> Q tt n') ->
  returns (clear_cache db) n Q.
Proof.
  intros HQ. unfold clear_cache. ret. apply HQ; [by right|done|].
  intros key. simpl. rewrite cache_clear_database_lookup. by rewrite decide_True.
Qed.

(** The check and the clearing at the end of a restore. *)
Lemma returns_verified cfg db c s (Q : unit -> Site U -> Prop) :
  files (site_node s) !! db = Some c -> sound_cell c -> readable db (site_node s) ->
  trims_to_ok (integrity_result c) = true ->
  (forall n', files n' !! db = Some c -> uncached db n' -> Q tt (mkSite n' (bucket s))) ->
  returns (let! res := integrity_check cfg db in
           if trims_to_ok res then on_node (clear_cache db)
           else do! on_node (close_database db) in
                mfail (Internal ("restored database integrity check failed: " +:+ res))) s Q.
Proof using Hfault.
  intros Hc Hs Hr Hint HQ. assert (cell_of db (site_node s) = c) as Hcell by (unfold cell_of; by rewrite Hc).
  unfold integrity_check, on_node. apply returns_seq, returns_zoom.
  apply returns_with_conn; [done|by rewrite Hcell|done|]. intros n1 (Hc1 & _ & _ & Hf1). ret. intros g.
  rewrite Hc1, Hcell, Hint. apply returns_zoom, returns_clear. intros n2 _ Hf Hun. simpl.
  apply HQ; [|done]. rewrite Hf. simpl. by apply Hf1.
Qed.

Lemma returns_when {T} (o : option string) err (s : T) (Q : unit -> T -> Prop) :
  Q tt s -> returns (match o with Some _ => fallible (E:=CombeeError) err | None => mret tt end) s Q.
Proof using Hfault. intros HQ. destruct o; by ret. Qed.

Lemma returns_copy db c n1 (Q : string * option string -> Node U -> Prop) :
  cell_of db n1 = c ->
  (forall snap wal, open_images snap wal = c -> Q (snap, wal) n1) ->
  returns (fun n e => (Ok (split_files (e_call e) (cell_of db n)), n, e) : Result _ * _ * _) n1 Q.
Proof.
  intros Hc HQ e. eexists _, _, _. split; [reflexivity|]. rewrite Hc.
  pose proof (open_split (e_call e) c) as Hs. destruct (split_files _ c) as [snap wal]. by apply HQ.
Qed.

Section trip.
Variable cfg : DataNodeConfig.
Variable sha256_hex : string -> string.
Variable obj_path : string -> string.
Context (db : DatabaseId) (c : CellDb U) (objs : gmap string string).
Context (Hsound : sound_cell c) (Hint : trims_to_ok (integrity_result c) = true).

(** What a restore or a replication leaves behind. *)
Definition brought_back (s : Site U) : Prop :=
  files (site_node s) !! db = Some c /\ uncached db (site_node s).

Lemma restore_uploaded rev snap wal n2 :
  0 <= rev < 2 ^ 128 -> older objs db rev -> open_images snap wal = c -> readable db n2 ->
  returns (restore cfg obj_path db None) (mkSite n2 (Some (uploaded objs db rev snap wal)))
    (fun _ s2 => brought_back s2) /\
  returns (replicate_from_primary db) (mkSite n2 (Some (uploaded objs db rev snap wal)))
    (fun applied s2 => applied = true /\ brought_back s2).
Proof using Hfault Hsound Hint H0 H5.
  intros Hr Hold Hopen Hread. split.
  - unfold restore, on_node at 1, close_database at 1. apply returns_seq.
    eapply returns_store; [done|]. apply returns_seq, returns_zoom, (returns_drop_conn Hfault db).
    intros n3 (_ & _ & Hread3 & _). apply returns_seq. unfold restore_latest. apply returns_seq.
    eapply returns_restore_incr; [done..|]. intros n4 Hf _ Hman. apply returns_ret.
    apply (returns_verified cfg db c); simpl site_node; [|done| |done|].
    + by rewrite Hf, lookup_insert_eq.
    + unfold readable. rewrite Hman. by apply Hread3.
    + by split.
  - unfold replicate_from_primary, on_node at 1, close_database at 1. apply returns_seq.
    eapply returns_store; [done|]. apply returns_seq, returns_zoom, (returns_drop_conn Hfault db).
    intros n3 _. apply returns_seq. eapply returns_restore_incr; [done..|]. intros n4 Hf _ _.
    unfold on_node. cbv beta iota. apply returns_seq, returns_zoom, returns_clear. intros n5 _ Hf5 Hun. ret.
    split; [done|]. split; [|done]. simpl. rewrite Hf5. simpl. rewrite Hf. apply lookup_insert_eq.
Qed.

(** C21: an incremental backup can be restored: what it archives is the content
    of the Cell, and a restore without a version, or a replica's catch-up, on
    any node that shares the store, brings exactly that content back and
    leaves nothing of the Cell in the cache. *)
Theorem incremental_roundtrip (s : Site U) :
  bucket s = Some objs -> cell_of db (site_node s) = c -> readable db (site_node s) ->
  (forall k, 0 <= clock_ms k < 2 ^ 128 /\ older objs db (clock_ms k)) ->
  returns (incremental_backup cfg sha256_hex db) s (fun _ s1 =>
    cell_of db (site_node s1) = c /\
    forall n2, readable db n2 ->
      returns (restore cfg obj_path db None) (mkSite n2 (bucket s1)) (fun _ s2 => brought_back s2) /\
      returns (replicate_from_primary db) (mkSite n2 (bucket s1))
        (fun applied s2 => applied = true /\ brought_back s2)).
Proof using Hfault Hsound Hint H0 H5.
  intros Hb Hc Hr Hclock. unfold incremental_backup, on_node.
  apply returns_seq. eapply returns_store; [done|]. apply returns_seq, returns_zoom.
  apply returns_with_conn; [done|by rewrite Hc|done|]. intros n1 (Hc1 & _). rewrite Hc in Hc1.
  unfold copy_files. ret. eapply returns_copy; [done|]. intros snap wal Hsplit. ret.
  apply returns_when. ret. intros g. ret. apply returns_when.
  apply returns_seq. eapply returns_upload_incr; [exact Hb|]. intros rv info _. ret.
  split; [done|]. intros n2 Hn2. destruct (Hclock rv) as [Hrange Hold]. by apply restore_uploaded.
Qed.

(** A full backup can be restored by its key: on any node that shares the
    store the restore brings the archived content back, when the store leaves
    the names the backup gives as they are. *)
Theorem full_roundtrip (s : Site U) :
  bucket s = Some objs -> cell_of db (site_node s) = c -> readable db (site_node s) ->
  (forall ts u, obj_path (snapshot_key db ts u) = snapshot_key db ts u) ->
  returns (backup cfg sha256_hex db) s (fun info s1 =>
    cell_of db (site_node s1) = c /\
    forall n2, readable db n2 ->
      returns (restore cfg obj_path db (Some (bi_key info))) (mkSite n2 (bucket s1))
        (fun _ s2 => brought_back s2)).
Proof using Hfault Hsound Hint H5.
  intros Hb Hc Hr Hpath. unfold backup, on_node at 1. apply returns_seq.
  eapply returns_store; [done|]. apply returns_seq, returns_zoom.
  apply returns_with_conn; [done|by rewrite Hc|done|]. intros n1 (Hc1 & _). rewrite Hc in Hc1.
  ret. intros g. unfold upload_snapshot. ret. apply returns_ms. intros rv. ret.
  eapply returns_put; [exact Hb|]. ret. split; [done|]. intros n2 Hn2. simpl bi_key. simpl bucket.
  unfold restore, on_node at 1, close_database at 1. apply returns_seq.
  eapply returns_store; [done|]. apply returns_seq, returns_zoom, (returns_drop_conn Hfault db).
  intros n3 (_ & _ & Hread3 & _). apply returns_seq. unfold restore_version.
  unfold snapshot_key at 1. rewrite prefix_app. apply returns_seq. rewrite Hpath.
  eapply returns_download; [done|apply lookup_insert_eq|]. apply returns_install_main. intros c0.
  apply returns_remove_wal.
  apply (returns_verified cfg db c); simpl site_node; [|done|by apply Hread3|done|by split].
  simpl. rewrite lookup_insert_eq. by rewrite Hc1, open_vacuum.
Qed.

End trip.

End roundtrip.

(** ** Confinement *)

Section confined.
Context {env : Env} `{UuidText} `{MillisClock} {U : Type} `{CellFiles U} `{SqlEngine U} `{Images U}.
Variable cfg : DataNodeConfig.
Variable obj_path : string -> string.
Context (db : DatabaseId).
Implicit Types (s : Site U) (objs : gmap string string).

(** The objects that are the Cell's own. *)
Definition own (name : string) : Prop :=
  String.prefix (prefix db) name = true \/ name = ("backups/" +:+ DatabaseId_to_string db)%string.

Definition agree objs objs' : Prop := forall name, own name -> objs !! name = objs' !! name.

(** Two sites that differ in other Cells' objects at most. *)
Definition similar s s' : Prop :=
  site_node s = site_node s' /\
  match bucket s, bucket s' with
  | Some o, Some o' => agree o o'
  | None, None => True
  | _, _ => False
  end.

(** The same outcome, and similar sites again. *)
Definition blind {A} (m : M (Site U) CombeeError A) : Prop :=
  forall s s' e, similar s s' ->
    let '(r, t, f) := m s e in let '(r', t', f') := m s' e in r = r' /\ similar t t' /\ f = f'.

Lemma blind_bind {A B} (m : M (Site U) CombeeError A) (k : A -> M (Site U) CombeeError B) :
  blind m -> (forall a, blind (k a)) -> blind (bind m k).
Proof.
  intros Hm Hk s s' e Hs. specialize (Hm s s' e Hs). unfold bind.
  destruct (m s e) as [[[a|err] t] f], (m s' e) as [[[a'|err'] t'] f']; destruct Hm as ([= <-] & Ht & <-);
    [by apply Hk|done].
Qed.

Lemma blind_ret {A} (a : A) : blind (mret a).
Proof. by intros s s' e Hs. Qed.
Lemma blind_fail {A} err : blind (mfail (A:=A) err).
Proof. by intros s s' e Hs. Qed.
Lemma blind_fallible err : blind (fallible err).
Proof. intros s s' e Hs. unfold fallible. by destruct (fault _). Qed.
Lemma blind_ignore {A} (m : M (Site U) CombeeError A) : blind m -> blind (ignore m).
Proof.
  intros Hm s s' e Hs. specialize (Hm s s' e Hs). unfold ignore.
  destruct (m s e) as [[r t] f], (m s' e) as [[r' t'] f']. by destruct Hm as (_ & ? & <-).
Qed.
Lemma blind_on_node {A} (m : M (Node U) CombeeError A) : blind (on_node m).
Proof.
  intros s s' e [Hn Hb]. unfold on_node, zoom. rewrite Hn. by destruct (m _ e) as [[r n] f].
Qed.

Lemma blind_store {A} (m : M (Site U) CombeeError A) : blind m -> blind (do! store_of in m).
Proof.
  intros Hm s s' e Hs. pose proof Hs as [Hn Hb]. unfold store_of, bind, gets, mret, mfail.
  destruct (bucket s) as [o|] eqn:H1b, (bucket s') as [o'|] eqn:H2b; try done. by apply Hm.
Qed.
Lemma blind_get key : own key -> blind (get_object key).
Proof.
  intros Hk. unfold get_object. apply blind_bind; [apply blind_fallible|]. intros _.
  intros s s' e Hs. pose proof Hs as [Hn Hb]. unfold store_of, bind, gets, mret, mfail.
  destruct (bucket s) as [o|], (bucket s') as [o'|]; try done.
  rewrite (Hb key Hk). destruct (o' !! key); [|done]. by apply (blind_bind _ _ (blind_fallible _) (fun _ => blind_ret _)).
Qed.

Lemma blind_list context pre :
  (forall name, String.prefix pre name = true -> own name) -> blind (list_objects context pre).
Proof.
  intros Hpre. unfold list_objects. apply blind_bind; [apply blind_fallible|]. intros _.
  intros s s' e Hs. pose proof Hs as [Hn Hb]. unfold store_of, bind, gets, mret, mfail.
  destruct (bucket s) as [o|], (bucket s') as [o'|]; try done. split; [|done]. do 3 f_equal.
  apply map_eq. intros name. apply option_eq. intros v. rewrite !map_lookup_filter_Some. simpl.
  split; intros [Hl Hp]; (split; [|done]); [rewrite <- (Hb name)|rewrite (Hb name)]; auto.
Qed.

Lemma blind_next_call : blind next_call.
Proof. by intros s s' e Hs. Qed.

Lemma blind_install_main id bytes : blind (install_main id bytes).
Proof. apply blind_bind; [apply blind_next_call|]. intros i. apply blind_on_node. Qed.

Lemma blind_remove_wal id main : blind (remove_wal id main).
Proof. apply blind_ignore, blind_bind; [apply blind_fallible|]. intros _. apply blind_on_node. Qed.

Lemma blind_download key install :
  own key -> (forall bytes, blind (install bytes)) -> blind (download_snapshot key install).
Proof.
  intros Hk Hinstall. unfold download_snapshot.
  repeat first [by apply blind_get | apply blind_fallible | apply Hinstall
    | apply blind_ret | apply blind_bind; [|intros ?]].
Qed.

(** The objects of the newest round were listed. *)
Definition listed (names : list string) (m : gmap Z IncrMeta) : Prop :=
  forall r meta, m !! r = Some meta -> (forall k, im_snap meta = Some k -> k ∈ names) /\
    (forall k, im_wal meta = Some k -> k ∈ names).

Lemma incr_add_listed names m name : name ∈ names -> listed names m -> listed names (incr_add m name).
Proof.
  intros Hin Hm. unfold incr_add. destruct (parse_rev name) as [rev|]; [|done].
  assert (listed names m -> forall e, (forall k, im_snap e = Some k -> k ∈ names) ->
    (forall k, im_wal e = Some k -> k ∈ names) -> listed names (<[rev := e]> m)) as Hins.
  { intros _ e Hs Hw r meta [[<- <-]|[_ Hl]]%lookup_insert_Some; [done|by apply (Hm r)]. }
  assert (forall k, (im_snap (default (mkIncrMeta None None) (m !! rev)) = Some k -> k ∈ names) /\
    (im_wal (default (mkIncrMeta None None) (m !! rev)) = Some k -> k ∈ names)) as Hold.
  { intros k. destruct (m !! rev) as [meta|] eqn:He; [|done]. destruct (Hm rev meta He). auto. }
  repeat case_match; apply Hins; try done; simpl; intros k; destruct (Hold k);
    first [by intros [= <-] | done].
Qed.

Lemma newest_listed names snap wal :
  newest_round (foldl incr_add ∅ names) = Some (snap, wal) ->
  snap ∈ names /\ (forall k, wal = Some k -> k ∈ names).
Proof.
  assert (forall l m, (forall k, k ∈ l -> k ∈ names) -> listed names m -> listed names (foldl incr_add m l)) as Hfold.
  { induction l as [|k l IH]; intros m Hl Hm; [done|]. simpl. apply IH.
    - intros k' Hk'. apply Hl. by right.
    - apply incr_add_listed; [|done]. apply Hl. left. }
  specialize (Hfold names ∅ (fun k Hk => Hk)).
  unfold newest_round. destruct (List.find _ _) as [[r meta]|] eqn:Hfind; [|done]. simpl.
  apply List.find_some in Hfind as [Hin _]. apply list_elem_of_In in Hin. unfold sort_by_key in Hin.
  rewrite merge_sort_Permutation in Hin. apply elem_of_map_to_list in Hin.
  destruct (im_snap meta) as [k|] eqn:Hs; [|done]. intros [= <- <-].
  assert (listed names ∅) as Hempty by (by intros ? ? ?%lookup_empty_Some).
  destruct (Hfold Hempty r meta Hin). auto.
Qed.

Lemma own_prefix name : String.prefix (prefix db) name = true -> own name.
Proof. by left. Qed.

Lemma prefix_trans a b c : String.prefix (a +:+ b) c = true -> String.prefix a c = true.
Proof.
  revert c. induction a as [|x a IH]; intros c; [by destruct c|]. destruct c as [|y c]; [done|].
  simpl. destruct (ascii_dec x y); [apply IH|done].
Qed.

(** A listing that is followed by work on what was listed. *)
Lemma blind_list_bind {A} context pre (k : list string -> M (Site U) CombeeError A) :
  (forall name, String.prefix pre name = true -> own name) ->
  (forall names, Forall own names -> blind (k names)) -> blind (bind (list_objects context pre) k).
Proof.
  intros Hpre Hk s s' e Hs. pose proof (blind_list context pre Hpre s s' e Hs) as Hl. unfold bind.
  assert (forall names t f, list_objects context pre s e = (Ok names, t, f) -> Forall own names) as Hown.
  { intros names t f. unfold list_objects, fallible, store_of, gets, mret, mfail, bind.
    destruct (fault _); [done|]. destruct (bucket s) as [o|]; [|done]. intros [= <- _ _].
    apply Forall_forall. intros name Hin. apply elem_of_listed in Hin as [_ Hin]. by apply Hpre. }
  destruct (list_objects context pre s e) as [[[a|err] t] f],
    (list_objects context pre s' e) as [[[a'|err'] t'] f']; destruct Hl as ([= <-] & Ht & <-); [|done].
  apply Hk; [by eapply Hown|done].
Qed.

Lemma blind_restore_incr : blind (restore_from_incr db).
Proof.
  unfold restore_from_incr, latest_incr.
  assert (forall names, Forall own names -> blind (match newest_round (foldl incr_add ∅ names) with
    | None => mret false
    | Some (snap, wal) =>
        let! main := download_snapshot snap (install_main db) in
        do! (match wal with
             | Some k => do! download_snapshot k (install_wal db main) in mret tt
             | None => remove_wal db main
             end) in mret true
    end)) as Hrest.
  { intros names Hown. destruct (newest_round _) as [[snap wal]|] eqn:Hn; [|apply blind_ret].
    apply newest_listed in Hn as [Hsnap Hwal]. rewrite Forall_forall in Hown.
    apply blind_bind; [apply blind_download; [by apply Hown|intros; apply blind_install_main]|]. intros main.
    apply blind_bind; [|intros _; apply blind_ret]. destruct wal as [k|].
    - apply blind_bind; [apply blind_download; [by apply Hown, Hwal|intros; apply blind_on_node]|].
      intros _. apply blind_ret.
    - apply blind_remove_wal. }
  intros s s' e Hs. rewrite !bind_assoc. revert s s' e Hs.
  apply blind_list_bind; [|intros names Hown; by apply Hrest].
  intros name Hp. apply own_prefix, (prefix_trans _ _ _ Hp).
Qed.

(** C25: a restore reads no other Cell's backups: outcome and node are the same
    whatever objects lie in the store outside the Cell's own directory, also
    when the caller names the object to restore; the only thing asked of the
    object store's paths is that a name under a directory stays under it. *)
Theorem restore_confined version :
  (forall name, String.prefix (prefix db) name = true -> own (obj_path name)) ->
  blind (restore cfg obj_path db version).
Proof.
  intros Hpath. unfold restore. apply blind_store.
  apply blind_bind; [apply blind_on_node|]. intros _. apply blind_bind; [destruct version as [v|]|].
  - unfold restore_version. destruct (negb _) eqn:Hv; [apply blind_fail|].
    apply blind_bind; [|intros main; apply blind_remove_wal].
    apply blind_download; [|intros; apply blind_install_main]. apply Hpath. by apply negb_false_iff in Hv.
  - unfold restore_latest. apply blind_bind; [apply blind_restore_incr|]. intros [|]; [apply blind_ret|].
    unfold list_snapshots. intros s s' e Hs. rewrite !bind_assoc. revert s s' e Hs.
    apply blind_list_bind; [by left|]. intros names Hown.
    intros s s' e Hs. rewrite !bind_ret. revert s s' e Hs.
    destruct (last (merge_sort String.le names)) as [latest|] eqn:Hlast; [|apply blind_fail].
    apply blind_bind; [|intros main; apply blind_remove_wal].
    apply blind_download; [|intros; apply blind_install_main].
    rewrite Forall_forall in Hown. apply Hown. apply last_Some_elem_of in Hlast.
    by rewrite merge_sort_Permutation in Hlast.
  - intros _. apply blind_bind; [apply blind_on_node|]. intros res.
    destruct (trims_to_ok res); [apply blind_on_node|].
    apply blind_bind; [apply blind_on_node|]. intros _. apply blind_fail.
Qed.

End confined.

(** ** Concrete files *)

#[local] Instance KvRow_eq_dec : EqDecision KvRow.
Proof. solve_decision. Defined.
#[local] Instance KvRow_countable : Countable KvRow.
Proof.
  by apply (inj_countable' (fun r => (row_value r, row_expires_at r, row_version r))
    (fun p => mkKvRow p.1.1 p.1.2 p.2)); intros [].
Defined.

Definition encode_cell (c : CellDb unit) : string := i64_to_string (Z.pos (encode (cell_kv c))).
Definition decode_cell (s : string) : CellDb unit :=
  mkCellDb (default ∅ (z ← parse_digits s; decode (Z.to_pos z))) tt.

Lemma decode_encode_cell c : decode_cell (encode_cell c) = c.
Proof.
  unfold decode_cell, encode_cell, i64_to_string.
  destruct (to_int_cases (Z.pos (encode (cell_kv c)))) as [[_ (d & -> & Hd & Hv)]|[? _]]; [|lia].
  simpl. rewrite parse_digits_print by done. simpl. rewrite Hv. simpl. rewrite decode_encode. by destruct c as [t []].
Qed.

(** Everything is in the WAL until VACUUM. *)
Definition sample_images : Images unit := {|
  split_files _ c := (encode_cell (mkCellDb ∅ tt), Some (encode_cell c));
  vacuum_into := encode_cell;
  open_images m w := match w with Some EmptyString | None => decode_cell m | Some w => decode_cell w end;
  integrity_result _ := "ok"%string;
  leftover_wal _ := None;
|}.

Lemma encode_cell_nonempty c : encode_cell c <> EmptyString.
Proof.
  unfold encode_cell, i64_to_string.
  destruct (to_int_cases (Z.pos (encode (cell_kv c)))) as [[_ (d & -> & Hd & Hv)]|[? _]]; [|lia].
  by destruct d.
Qed.

Lemma sample_images_laws : ImagesLaws (H:=sample_images) unit.
Proof.
  split; simpl.
  - intros _ c. destruct (encode_cell c) eqn:E; [by apply encode_cell_nonempty in E|].
    rewrite <- E. apply decode_encode_cell.
  - apply decode_encode_cell.
  - done.
Qed.

Lemma decimal_hex_law : UuidHexLaw (H:=decimal_uuid_text).
Proof.
  split. intros u. simpl. eapply all_chars_impl; [|apply digits_string; lia].
  intros c Hc. unfold is_hex. by rewrite Hc.
Qed.

Definition clock_5s : MillisClock := {| clock_ms _ := 5000 |}.
Definition sample_content : CellDb unit := mkCellDb {[ "k"%string := mkKvRow "v" None 1 ]} tt.
Definition sample_site : Site unit :=
  mkSite (mkNode {[cell_a := sample_content]} ∅ ∅ ∅ ∅ KvCache_new ∅) (Some ∅).

Lemma incremental_roundtrip_witness :
  returns (incremental_backup (env:=env_still) (H:=decimal_uuid_text) (H0:=clock_5s) (H1:=plain_files)
      (H3:=sample_images) sample_config (fun s => s) cell_a) sample_site (fun _ s1 =>
    returns (restore (env:=env_still) (H:=decimal_uuid_text) (H1:=plain_files) (H3:=sample_images)
      sample_config (fun s => s) cell_a None) (mkSite Node_new (bucket s1))
      (fun _ s2 => files (site_node s2) !! cell_a = Some sample_content)).
Proof.
  eapply returns_weaken.
  - apply (incremental_roundtrip (env:=env_still) (fun _ => eq_refl) (H:=decimal_uuid_text) (H0:=decimal_hex_law) (H1:=clock_5s)
      (H2:=plain_files) (H4:=sample_images) (H5:=sample_images_laws) sample_config (fun s => s) (fun s => s)
      cell_a sample_content ∅); [reflexivity|reflexivity|reflexivity|reflexivity|exact I|].
    intros k. split; [simpl; lia|]. intros name r [x Hx]. by rewrite lookup_empty in Hx.
  - simpl. intros _ s1 [_ Hback]. destruct (Hback Node_new I) as [Hrestore _].
    eapply returns_weaken; [exact Hrestore|]. by intros _ s2 [Hf _].
Defined.

Lemma full_roundtrip_witness :
  returns (backup (env:=env_still) (H:=decimal_uuid_text) (H0:=clock_5s) (H1:=plain_files)
      (H3:=sample_images) sample_config (fun s => s) cell_a) sample_site (fun info s1 =>
    returns (restore (env:=env_still) (H:=decimal_uuid_text) (H1:=plain_files) (H3:=sample_images)
      sample_config (fun s => s) cell_a (Some (bi_key info))) (mkSite Node_new (bucket s1))
      (fun _ s2 => files (site_node s2) !! cell_a = Some sample_content)).
Proof.
  eapply returns_weaken.
  - by apply (full_roundtrip (env:=env_still) (fun _ => eq_refl) (H:=decimal_uuid_text) (H1:=clock_5s)
      (H2:=plain_files) (H4:=sample_images) (H5:=sample_images_laws) sample_config (fun s => s) (fun s => s)
      cell_a sample_content ∅).
  - simpl. intros info s1 [_ Hback].
    eapply returns_weaken; [exact (Hback Node_new I)|]. by intros _ s2 [Hf _].
Defined.

Lemma restore_confined_witness :
  blind (U:=unit) (H:=decimal_uuid_text) cell_a
    (restore (env:=env_still) (H:=decimal_uuid_text) (H1:=plain_files) (H3:=sample_images)
      sample_config (fun s => s) cell_a (Some "backups/1/x.sqlite"%string)).
Proof.
  apply (restore_confined (env:=env_still) (H:=decimal_uuid_text) (H1:=plain_files) (H3:=sample_images)
    sample_config (fun s => s) cell_a (Some "backups/1/x.sqlite"%string)).
  intros name Hn. by left.
Defined.
