(* ===== verification/SiteCoherence.v ===== *)
(** Cache coherence over everything a data node does: the requests on its
    Cells, backups, restores and a replica's catch-up, with an object store
    that other nodes write as well. A deletion, a restore or a catch-up that
    fails may leave the entries of its Cell behind; the steps below keep count
    of those Cells. *)

From Stdlib Require Import ZArith Lia String Ascii.
From stdpp Require Import gmap strings list fin_maps relations sorting.
From S2P Require Import Prelude Common Kv KvSpec SqlGate Sql Cache Manager DataNode NodeInv NodeCapacity Coherence Catalog Backup BackupSpec.

(** ** What a site does *)

Inductive SiteOp :=
| SNode (op : NodeOp)
| SBackup (db : DatabaseId)
| SIncremental (db : DatabaseId)
| SRestore (db : DatabaseId) (version : option string)
| SReplicate (db : DatabaseId).

Section site.
Context {env : Env} `{UuidText} `{MillisClock} {U : Type} `{CellFiles U} `{SqlEngine U} `{Images U}.
Context (cfg : DataNodeConfig) (sha256_hex obj_path : string -> string).
Implicit Types (s : Site U) (X : gset DatabaseId).

(** The answer says whether the files of the Cell were replaced. *)
Definition run_site (op : SiteOp) : M (Site U) CombeeError bool :=
  match op with
  | SNode op => do! on_node (run_node cfg op) in mret false
  | SBackup db => do! backup cfg sha256_hex db in mret false
  | SIncremental db => do! incremental_backup cfg sha256_hex db in mret false
  | SRestore db version => do! restore cfg obj_path db version in mret true
  | SReplicate db => replicate_from_primary db
  end.

(** The Cells whose entries may be stale: a deletion, a restore or a catch-up
    failed, and neither a reset nor a later one that succeeded has dropped the
    entries since. *)
Definition suspects (op : SiteOp) (r : Result bool) X : gset DatabaseId :=
  match op, r with
  | SNode op, _ => distrust op (is_Ok r) X
  | SRestore db _, Ok _ | SReplicate db, Ok true => X ∖ {[db]}
  | SRestore db _, Err _ | SReplicate db, Err _ => X ∪ {[db]}
  | _, _ => X
  end.

(** A step is an operation, with any outcome, whose successive readings of the
    clock are at most [D] seconds apart, or a change of the shared store. *)
Inductive site_step (D : Z) : Site U * Eff * gset DatabaseId -> Site U * Eff * gset DatabaseId -> Prop :=
| site_op op s e X r s' e' :
    run_site op s e = (r, s', e') -> window D (e_clock e) (e_clock e') ->
    site_step D (s, e, X) (s', e', suspects op r X)
| site_store s e X objects :
    site_step D (s, e, X) (mkSite (site_node s) objects, e, X).

Section invariant.
Context (D : Z) (HD : 0 <= D).
Hypothesis clock_mono : forall i, clock i <= clock (S i).
Hypothesis clock_range : forall i, 0 <= clock i <= I64_MAX.

Definition at_site X (w : nat) s (e : Eff) : Prop := coherent_from D X w (site_node s) e.

Lemma at_site_mono X Y w s e : X ⊆ Y -> at_site X w s e -> at_site Y w s e.
Proof using Type. intros HXY [Hw Hc]. split; [exact Hw|]. intros Hwin db key v HY. apply (Hc Hwin). clear -HXY HY. set_solver. Qed.

Lemma site_on_node {A} X w (m : M (Node U) CombeeError A) :
  preserves (coherent_from D X w) m -> preserves (at_site X w) (on_node m).
Proof. intros Hm s e Hs. unfold on_node, zoom. specialize (Hm _ e Hs). by destruct (m _ e) as [[r n] e']. Qed.

Lemma site_fallible X w err : preserves (at_site X w) (fallible (E:=CombeeError) err).
Proof using HD clock_mono.
  intros s e Hs. pose proof (pres_fallible (coherent_closed D HD X clock_mono w) err (site_node s) e Hs) as Hf.
  revert Hf. unfold fallible. by destruct (fault _).
Qed.

Lemma site_next_call X w : preserves (at_site X w) (next_call (E:=CombeeError)).
Proof using HD clock_mono. intros s e Hs. exact (closed_call _ (coherent_closed D HD X clock_mono w) _ _ Hs). Qed.

Lemma site_clock X w : preserves (at_site X w) (read_clock (E:=CombeeError)).
Proof using HD clock_mono. intros s e Hs. exact (closed_clock _ (coherent_closed D HD X clock_mono w) _ _ Hs). Qed.

Lemma site_ms X w : preserves (at_site X w) read_ms.
Proof using HD clock_mono. intros s e Hs. exact (closed_clock _ (coherent_closed D HD X clock_mono w) _ _ Hs). Qed.

Lemma site_uuid X w : preserves (at_site X w) (fresh_uuid (E:=CombeeError)).
Proof using Type. by intros s e Hs. Qed.

Lemma site_put X w context key bytes : preserves (at_site X w) (put_object context key bytes).
Proof using HD clock_mono. unfold put_object. pres; [apply site_fallible|]. by intros s e Hs. Qed.

Lemma node_uuid X w : preserves (coherent_from D X w) (fresh_uuid (S:=Node U) (E:=CombeeError)).
Proof using Type. by intros n e Hn. Qed.

#[local] Hint Resolve site_fallible site_next_call site_clock site_ms site_uuid site_put node_uuid : combee.

Lemma site_with_conn {A} X w db (f : M (Node U) CombeeError A) :
  preserves (coherent_from D X w) f -> preserves (at_site X w) (on_node (with_conn cfg db f)).
Proof using HD clock_mono.
  intros Hf. apply site_on_node, (pres_with_conn cfg (coherent_closed D HD X clock_mono w)), Hf.
Qed.

Lemma site_close X w db : preserves (at_site X w) (on_node (close_database db)).
Proof using HD clock_mono. apply site_on_node, (pres_drop_conn (coherent_closed D HD X clock_mono w)). Qed.

(** The files of a suspect Cell may be replaced. *)
Lemma site_install X w db c : db ∈ X -> preserves (at_site X w) (on_node (modify (set_files <[db := c]>))).
Proof using HD clock_mono.
  intros Hdb. apply site_on_node, (from_any_file D HD X clock_mono w db); [done|].
  intros db' Hne m. by rewrite lookup_insert_ne.
Qed.

#[local] Hint Resolve site_close site_install : combee.

Lemma site_download X w key install :
  (forall bytes, preserves (at_site X w) (install bytes)) -> preserves (at_site X w) (download_snapshot key install).
Proof using HD clock_mono. intros Hi. unfold download_snapshot, get_object, store_of. pres. Qed.

Lemma site_latest X w db : preserves (at_site X w) (latest_incr db).
Proof using HD clock_mono. unfold latest_incr, list_objects, store_of. pres. Qed.

Lemma site_remove_wal X w db main : db ∈ X -> preserves (at_site X w) (remove_wal db main).
Proof using HD clock_mono. intros Hdb. unfold remove_wal. pres. Qed.

Lemma store_coherent X w : preserves (at_site X w) store_of.
Proof using Type. unfold store_of. apply preserves_bind; [by intros s e Hs|]. intros [objects|]; by intros s e Hs. Qed.

(** Without a round in the store nothing is touched. *)
Lemma site_restore_incr X w db :
  hoare (at_site X w) (restore_from_incr db)
    (fun r s e => at_site (match r with Ok false => X | _ => X ∪ {[db]} end) w s e).
Proof using HD clock_mono.
  clear clock_range sha256_hex obj_path. assert (db ∈ X ∪ {[db]}) as Hdb by set_solver.
  unfold restore_from_incr. apply (hoare_bind _ _ _ (fun _ => at_site X w)); [apply site_latest| |].
  - intros [[snap wal]|]; [|by intros s e Hs].
    match goal with |- hoare _ ?m _ =>
      assert (hoare (at_site (X ∪ {[db]}) w) m (fun r s e => at_site (X ∪ {[db]}) w s e /\ r <> Ok false)) as Hm end.
    { apply (hoare_bind _ _ _ (fun _ => at_site (X ∪ {[db]}) w)); [| |by intros].
      - apply site_download. intros bytes. unfold install_main. pres.
      - intros main. apply (hoare_bind _ _ _ (fun _ => at_site (X ∪ {[db]}) w)); [| |by intros].
        + destruct wal as [k|]; [|exact (site_remove_wal _ w db main Hdb)].
          apply (preserves_bind (at_site (X ∪ {[db]}) w)); [|intros _; apply preserves_ret].
          apply site_download. intros bytes. unfold install_wal. pres.
        + intros _ s e Hs. by split. }
    intros s e Hs. apply (at_site_mono X (X ∪ {[db]})) in Hs; [|set_solver]. specialize (Hm s e Hs).
    destruct (bind _ _ s e) as [[[[]|err] s'] e']; destruct Hm as [Hm Hne]; done.
  - intros err s e Hs. eapply at_site_mono; [|exact Hs]. set_solver.
Qed.

Lemma site_backup X w db : preserves (at_site X w) (backup cfg sha256_hex db).
Proof using HD clock_mono.
  pose proof (coherent_closed (U:=U) D HD X clock_mono w) as HI.
  unfold backup, store_of, upload_snapshot. pres. apply site_with_conn. pres.
Qed.

Lemma site_incremental X w db : preserves (at_site X w) (incremental_backup cfg sha256_hex db).
Proof using HD clock_mono.
  pose proof (coherent_closed (U:=U) D HD X clock_mono w) as HI.
  unfold incremental_backup, store_of, upload_incr. pres. apply site_with_conn. unfold copy_files. pres.
  by intros n e Hn.
Qed.

Lemma site_clear X w db :
  hoare (at_site X w) (on_node (clear_cache db)) (fun _ s e => at_site (X ∖ {[db]}) w s e).
Proof using Type. intros s e Hs. exact (clear_trusts D X w db (site_node s) e Hs). Qed.

Lemma site_restore X w db version :
  hoare (at_site X w) (restore cfg obj_path db version)
    (fun r s e => at_site (if is_Ok r then X ∖ {[db]} else X ∪ {[db]}) w s e).
Proof using HD clock_mono.
  clear clock_range sha256_hex. intros s e Hs. apply (at_site_mono X (X ∪ {[db]})) in Hs; [|set_solver]. revert s e Hs.
  change (hoare (at_site (X ∪ {[db]}) w) (restore cfg obj_path db version)
    (fun r s e => at_site (if is_Ok r then X ∖ {[db]} else X ∪ {[db]}) w s e)).
  assert (db ∈ X ∪ {[db]}) as Hdb by set_solver.
  pose proof (coherent_closed (U:=U) D HD (X ∪ {[db]}) clock_mono w) as HI.
  unfold restore. apply (hoare_bind _ _ _ (fun _ => at_site (X ∪ {[db]}) w)); [apply store_coherent|intros _|done].
  apply (hoare_bind _ _ _ (fun _ => at_site (X ∪ {[db]}) w)); [apply site_close|intros _|done].
  apply (hoare_bind _ _ _ (fun _ => at_site (X ∪ {[db]}) w)); [|intros _|done].
  { change (preserves (at_site (X ∪ {[db]}) w)
      (match version with Some v => restore_version obj_path db v | None => restore_latest db end)).
    unfold restore_version, restore_latest, list_snapshots, list_objects, store_of, remove_wal.
    pres; try (apply site_download; intros bytes; unfold install_main; pres).
    intros s e Hs. pose proof (site_restore_incr (X ∪ {[db]}) w db s e Hs) as Hincr.
    destruct (restore_from_incr db s e) as [[r s'] e']. eapply at_site_mono; [|exact Hincr].
    destruct r as [[]|]; set_solver. }
  apply (hoare_bind _ _ _ (fun _ => at_site (X ∪ {[db]}) w)); [|intros res|done].
  { unfold integrity_check. apply site_with_conn. pres. }
  destruct (trims_to_ok res).
  - intros s e Hs. pose proof (site_clear (X ∪ {[db]}) w db s e Hs) as Hc.
    unfold on_node, zoom, clear_cache, modify in *. simpl in *. eapply at_site_mono; [|exact Hc]. set_solver.
  - apply (hoare_bind _ _ _ (fun _ => at_site (X ∪ {[db]}) w)); [apply site_close|intros _|done]. by intros s e Hs.
Qed.

Lemma site_replicate X w db :
  hoare (at_site X w) (replicate_from_primary db) (fun r s e => at_site (suspects (SReplicate db) r X) w s e).
Proof using HD clock_mono.
  clear clock_range sha256_hex obj_path. assert (forall err s e, at_site X w s e -> at_site (suspects (SReplicate db) (Err err) X) w s e) as Herr.
  { intros err s e Hs. eapply at_site_mono; [|exact Hs]. simpl. set_solver. }
  unfold replicate_from_primary.
  apply (hoare_bind _ _ _ (fun _ => at_site X w)); [apply store_coherent|intros _|done].
  apply (hoare_bind _ _ _ (fun _ => at_site X w)); [apply site_close|intros _|done].
  eapply hoare_bind; [apply site_restore_incr| |by intros].
  intros [|]; [|by intros s e Hs]. apply (hoare_bind _ _ _ (fun _ => at_site (X ∖ {[db]}) w)).
  - intros s e Hs. pose proof (site_clear (X ∪ {[db]}) w db s e Hs) as Hc.
    unfold on_node, zoom, clear_cache, modify in *. simpl in *. eapply at_site_mono; [|exact Hc]. set_solver.
  - by intros _ s e Hs.
  - intros err s e Hs. eapply at_site_mono; [|exact Hs]. simpl. set_solver.
Qed.

Lemma run_site_trusts X w op :
  hoare (at_site X w) (run_site op) (fun r s e => at_site (suspects op r X) w s e).
Proof using HD clock_mono clock_range.
  destruct op as [op|db|db|db version|db]; simpl.
  - intros s e Hs. pose proof (run_trusts cfg D HD clock_mono clock_range X w op (site_node s) e Hs) as Hrun.
    unfold bind, on_node, zoom. by destruct (run_node cfg op (site_node s) e) as [[[a|err] n] e'].
  - apply preserves_bind; [apply site_backup|intros a; by intros s e Hs].
  - apply preserves_bind; [apply site_incremental|intros a; by intros s e Hs].
  - intros s e Hs. pose proof (site_restore X w db version s e Hs) as Hr. unfold bind.
    by destruct (restore cfg obj_path db version s e) as [[[a|err] s'] e'].
  - apply site_replicate.
Qed.

Lemma site_steps_coherent p q : rtc (site_step D) p q ->
  coherent D p.2 (site_node p.1.1) p.1.2 -> coherent D q.2 (site_node q.1.1) q.1.2.
Proof using HD clock_mono clock_range.
  induction 1 as [|p q r Hs _ IH]; [done|]. intros Hp. apply IH.
  destruct Hs as [op s e X r0 s' e' Hrun Hwin|s e X objects]; simpl in *; [|done].
  assert (at_site X (e_clock e) s e) as Hf by (split; [done|by intros _]).
  destruct (hoare_run _ _ _ _ _ _ _ _ (run_site_trusts X (e_clock e) op) Hf Hrun) as [_ Hc]. by apply Hc.
Qed.

End invariant.

(** C1: cache coherence. After any sequence of requests, backups, restores,
    catch-ups, evictions from the cache and background ticks of a node, with
    any outcomes and faults, and with a store that others write too: every
    cached entry of a Cell is backed by the stored row, with the same value
    and an expiry time at most [D] seconds past the stored one; or the row has
    expired and was collected, and the entry expires at most [D] seconds after
    the present. Excepted are the Cells [X] of which a deletion, a restore or a
    catch-up has failed and whose entries no later one, and no reset, has
    dropped. [D] bounds the time between successive clock readings of one
    operation; the clock does not go back. *)
Theorem cache_coherent (D : Z) (objects : option (gmap string string)) (s : Site U) (e : Eff) (X : gset DatabaseId) :
  0 <= D -> (forall i, clock i <= clock (S i)) -> (forall i, 0 <= clock i <= I64_MAX) ->
  rtc (site_step D) (mkSite Node_new objects, eff0, ∅) (s, e, X) ->
  forall db key v, db ∉ X -> cache_inner (cache (site_node s)) !! (db, key) = Some v ->
    entry_ok D (clock (e_clock e)) (cell_kv (cell_of db (site_node s))) key v.
Proof.
  intros HD Hmono Hrange Hr. by apply (site_steps_coherent D HD Hmono Hrange _ _ Hr).
Qed.

(** C3: GET through the cache reads the abstract store. After any history as
    in the theorem above, on a Cell that is not excepted, what GET returns,
    from the cache or from SQLite, is the live value of the key at one of its
    own clock readings; or, when the stored entry has expired less than [D]
    seconds ago, still that entry with a remaining time of at most [D]
    seconds ([D] bounds the time between successive clock readings of one
    operation: with readings within one second, [D = 0], this cannot happen).
    While SQLite works and the Cell is open, GET does return, if what is
    stored is UTF-8. *)
Theorem kv_get_linearizes (D : Z) (objects : option (gmap string string)) (s : Site U) (e : Eff)
    (X : gset DatabaseId) (db : DatabaseId) (key : string) :
  0 <= D <= I64_MAX -> (forall i, clock i <= clock (S i)) -> (forall i, 0 <= clock i <= I64_MAX) ->
  rtc (site_step D) (mkSite Node_new objects, eff0, ∅) (s, e, X) -> db ∉ X ->
  let n := site_node s in
  let '(r, _, e') := kv_get cfg db key n e in
  (forall o, r = Ok o ->
     (exists i, (e_clock e <= i < e_clock e')%nat /\
        entry_value <$> o = fst <$> view (clock i) (cell_kv (cell_of db n)) !! key) \/
     (exists v left, o = Some (mkKvEntry v (Some left)) /\ 0 < left <= D /\
        view (clock (e_clock e)) (cell_kv (cell_of db n)) !! key = None)) /\
  ((forall i, fault i = None) -> is_Some (conns n !! db) ->
   (forall row, cell_kv (cell_of db n) !! key = Some row -> utf8_valid (row_value row) = true) ->
   is_Ok r = true).
Proof.
  intros [HD HDmax] Hmono Hrange Hr HX n.
  assert (coherent D X n e) as Hcoh by (by apply (site_steps_coherent D HD Hmono Hrange _ _ Hr)).
  pose proof (kv_get_reads cfg D X db key n e Hmono Hrange HDmax Hcoh HX) as Hread.
  pose proof (kv_get_answers cfg db key n e) as Hans.
  destruct (kv_get cfg db key n e) as [[r n'] e'] eqn:Hrun. by split.
Qed.

End site.

(** ** A concrete history *)

Definition still_ms : MillisClock := {| clock_ms _ := 1000000 |}.

Definition sample_site_ops : list SiteOp :=
  [SNode (NSet cell_a "k" "v1" (Some 60) false false 0); SIncremental cell_a; SNode (NLookup cell_a "k");
   SNode (NSet cell_a "k" "v2" None false false 0); SRestore cell_a None; SNode (NGet cell_a "k");
   SRestore cell_b None].

Section sample.
#[local] Existing Instances env_still decimal_uuid_text still_ms plain_files no_engine sample_images.

Definition run_sites (ops : list SiteOp) (c : Site unit * Eff * gset DatabaseId) :=
  foldl (fun c op => let '(r, s, e) := run_site sample_config (fun x => x) (fun x => x) op c.1.1 c.1.2 in
                     (s, e, suspects op r c.2)) c ops.

Definition site0 : Site unit * Eff * gset DatabaseId := (mkSite Node_new (Some ∅), eff0, ∅).

Lemma run_sites_steps ops c :
  rtc (site_step sample_config (fun x => x) (fun x => x) 0) c (run_sites ops c).
Proof.
  revert c. induction ops as [|op ops IH]; intros [[s e] X]; [apply rtc_refl|]. simpl.
  destruct (run_site _ _ _ op s e) as [[r s'] e'] eqn:Hrun. eapply rtc_l; [|apply IH].
  apply site_op; [exact Hrun|]. intros i _ _. simpl. lia.
Qed.

(** After the restore the cache holds the value of the backup; a restore of
    the other Cell, which has none, has failed. *)
Lemma cache_coherent_witness :
  let c := run_sites sample_site_ops site0 in
  entry_ok 0 1000 (cell_kv (cell_of cell_a (site_node c.1.1))) "k" (mkCachedValue "v1" (Some 1060)) /\ cell_b ∈ c.2.
Proof.
  intros c. split.
  - apply (cache_coherent sample_config (fun x => x) (fun x => x) 0 (Some ∅) c.1.1 c.1.2 c.2 (Z.le_refl 0)
      env_still_mono env_still_range).
    + unfold c. rewrite <- (surjective_pairing (run_sites sample_site_ops site0).1).
      rewrite <- (surjective_pairing (run_sites sample_site_ops site0)). apply run_sites_steps.
    + apply (bool_decide_eq_true (cell_a ∉ c.2)). vm_compute. reflexivity.
    + vm_compute. reflexivity.
  - apply (bool_decide_eq_true (cell_b ∈ c.2)). vm_compute. reflexivity.
Defined.

Lemma kv_get_linearizes_witness :
  let c := run_sites sample_site_ops site0 in
  exists i, (e_clock c.1.2 <= i < S (e_clock c.1.2))%nat /\
    Some "v1"%string = fst <$> view (clock i) (cell_kv (cell_of cell_a (site_node c.1.1))) !! "k"%string.
Proof.
  intros c.
  assert (rtc (site_step sample_config (fun x => x) (fun x => x) 0) site0 (c.1.1, c.1.2, c.2)) as Hr.
  { unfold c. rewrite <- (surjective_pairing (run_sites sample_site_ops site0).1).
    rewrite <- (surjective_pairing (run_sites sample_site_ops site0)). apply run_sites_steps. }
  assert (cell_a ∉ c.2) as HX by (apply (bool_decide_eq_true (cell_a ∉ c.2)); vm_compute; reflexivity).
  pose proof (kv_get_linearizes sample_config (fun x => x) (fun x => x) 0 (Some ∅) c.1.1 c.1.2 c.2 cell_a "k"
    ltac:(unfold I64_MAX; lia) env_still_mono env_still_range Hr HX) as Hget.
  assert ((kv_get sample_config cell_a "k" (site_node c.1.1) c.1.2).1.1 = Ok (Some (mkKvEntry "v1" (Some 60)))) as Hok
    by (vm_compute; reflexivity).
  assert (e_clock (kv_get sample_config cell_a "k" (site_node c.1.1) c.1.2).2 = S (e_clock c.1.2)) as Hclock
    by (vm_compute; reflexivity).
  clearbody c. cbv zeta in Hget. destruct (kv_get _ _ _ _ _) as [[r n'] e']. simpl in Hok, Hclock. rewrite Hclock in Hget.
  destruct Hget as [Hget _]. destruct (Hget _ Hok) as [Hi|(v & left & _ & Hlate & _)]; [exact Hi|exfalso; lia].
Defined.

End sample.
