(* ===== verification/NodeApi.v ===== *)
(** The data node's process boundary: the RPC messages (common/src/rpc.rs,
    protocol.rs), the node's router with its handlers (data-node/src/server.rs),
    and the two clients of the API server (api-server/src/client.rs,
    [DataNodeClient] with [LocalDataNodeClient] and [RemoteDataNodeClient]). *)

From Stdlib Require Import ZArith Lia String Ascii.
From stdpp Require Import gmap strings list fin_maps.
From S2P Require Import Prelude Common Kv SqlGate Sql Cache Manager DataNode Catalog Ledger Billing Access Backup Metrics.

(** ** Messages *)

Record KvSetRequest := mkKvSetRequest {
  ks_value : string; ks_ttl : option Z; ks_nx : bool; ks_xx : bool }.
Record KvIncrRequest := mkKvIncrRequest { ki_key : string; ki_delta : Z; ki_ttl : option Z }.
Record KvExpireRequest := mkKvExpireRequest { ke_key : string; ke_ttl : option Z }.

(** A field of a JSON object: its value as the type it is read at. *)
Inductive Field :=
| FDb (d : DatabaseId)
| FText (s : string)
| FInt (z : Z)
| FTexts (l : list string)
| FItems (l : list KvSetItem)
| FSql (r : SqlRequest)
| FTx (statements : list SqlRequest)
| FSet (r : KvSetRequest)
| FExpire (r : KvExpireRequest)
| FIncr (r : KvIncrRequest)
| FMaybe (v : option string).

Definition Body : Type := list (string * Field).

Fixpoint field (name : string) (b : Body) : option Field :=
  match b with
  | [] => None
  | (k, v) :: rest => if decide (k = name) then Some v else field name rest
  end.

Definition as_db (f : option Field) : option DatabaseId := match f with Some (FDb d) => Some d | _ => None end.
Definition as_text (f : option Field) : option string := match f with Some (FText s) => Some s | _ => None end.
Definition as_int (f : option Field) : option Z := match f with Some (FInt z) => Some z | _ => None end.
Definition as_texts (f : option Field) : option (list string) := match f with Some (FTexts l) => Some l | _ => None end.
Definition as_items (f : option Field) : option (list KvSetItem) := match f with Some (FItems l) => Some l | _ => None end.
Definition as_sql (f : option Field) : option SqlRequest := match f with Some (FSql r) => Some r | _ => None end.
Definition as_tx (f : option Field) : option (list SqlRequest) := match f with Some (FTx l) => Some l | _ => None end.
Definition as_set (f : option Field) : option KvSetRequest := match f with Some (FSet r) => Some r | _ => None end.
Definition as_expire (f : option Field) : option KvExpireRequest :=
  match f with Some (FExpire r) => Some r | _ => None end.
Definition as_incr (f : option Field) : option KvIncrRequest := match f with Some (FIncr r) => Some r | _ => None end.

(** A request struct with [Serialize] and [Deserialize]. *)
Class Struct (A : Type) := {
  to_json : A -> Body;
  of_json : Body -> option A;
  of_to_json : forall a, of_json (to_json a) = Some a;
}.

Record RpcDb := mkRpcDb { rd_db : DatabaseId }.
#[export] Instance RpcDb_struct : Struct RpcDb.
Proof. refine {|
  to_json r := [("db"%string, FDb (rd_db r))];
  of_json b := mkRpcDb <$> as_db (field "db" b);
  of_to_json := _ |}. by intros []. Defined.

Record RpcSql := mkRpcSql { rs_db : DatabaseId; rs_req : SqlRequest; rs_generation : Z }.
#[export] Instance RpcSql_struct : Struct RpcSql.
Proof. refine {|
  to_json r := [("db"%string, FDb (rs_db r)); ("req"%string, FSql (rs_req r)); ("generation"%string, FInt (rs_generation r))];
  of_json b := db ← as_db (field "db" b); req ← as_sql (field "req" b); g ← as_int (field "generation" b);
    Some (mkRpcSql db req g);
  of_to_json := _ |}. by intros []. Defined.

Record RpcTransaction := mkRpcTransaction { rt_db : DatabaseId; rt_req : list SqlRequest; rt_generation : Z }.
#[export] Instance RpcTransaction_struct : Struct RpcTransaction.
Proof. refine {|
  to_json r := [("db"%string, FDb (rt_db r)); ("req"%string, FTx (rt_req r)); ("generation"%string, FInt (rt_generation r))];
  of_json b := db ← as_db (field "db" b); req ← as_tx (field "req" b); g ← as_int (field "generation" b);
    Some (mkRpcTransaction db req g);
  of_to_json := _ |}. by intros []. Defined.

Record RpcKvGet := mkRpcKvGet { rg_db : DatabaseId; rg_key : string }.
#[export] Instance RpcKvGet_struct : Struct RpcKvGet.
Proof. refine {|
  to_json r := [("db"%string, FDb (rg_db r)); ("key"%string, FText (rg_key r))];
  of_json b := db ← as_db (field "db" b); key ← as_text (field "key" b); Some (mkRpcKvGet db key);
  of_to_json := _ |}. by intros []. Defined.

Record RpcKvScan := mkRpcKvScan { rc_db : DatabaseId; rc_prefix : string; rc_limit : Z; rc_cursor : string }.
#[export] Instance RpcKvScan_struct : Struct RpcKvScan.
Proof. refine {|
  to_json r := [("db"%string, FDb (rc_db r)); ("prefix"%string, FText (rc_prefix r)); ("limit"%string, FInt (rc_limit r));
    ("cursor"%string, FText (rc_cursor r))];
  of_json b := db ← as_db (field "db" b); p ← as_text (field "prefix" b); l ← as_int (field "limit" b);
    c ← as_text (field "cursor" b); Some (mkRpcKvScan db p l c);
  of_to_json := _ |}. by intros []. Defined.

Record RpcKvSet := mkRpcKvSet { rk_db : DatabaseId; rk_key : string; rk_req : KvSetRequest; rk_generation : Z }.
#[export] Instance RpcKvSet_struct : Struct RpcKvSet.
Proof. refine {|
  to_json r := [("db"%string, FDb (rk_db r)); ("key"%string, FText (rk_key r)); ("req"%string, FSet (rk_req r));
    ("generation"%string, FInt (rk_generation r))];
  of_json b := db ← as_db (field "db" b); key ← as_text (field "key" b); req ← as_set (field "req" b);
    g ← as_int (field "generation" b); Some (mkRpcKvSet db key req g);
  of_to_json := _ |}. by intros []. Defined.

Record RpcKvKeys := mkRpcKvKeys { ry_db : DatabaseId; ry_keys : list string }.
#[export] Instance RpcKvKeys_struct : Struct RpcKvKeys.
Proof. refine {|
  to_json r := [("db"%string, FDb (ry_db r)); ("keys"%string, FTexts (ry_keys r))];
  of_json b := db ← as_db (field "db" b); keys ← as_texts (field "keys" b); Some (mkRpcKvKeys db keys);
  of_to_json := _ |}. by intros []. Defined.

Record RpcKvSetItems := mkRpcKvSetItems { rm_db : DatabaseId; rm_items : list KvSetItem; rm_generation : Z }.
#[export] Instance RpcKvSetItems_struct : Struct RpcKvSetItems.
Proof. refine {|
  to_json r := [("db"%string, FDb (rm_db r)); ("items"%string, FItems (rm_items r)); ("generation"%string, FInt (rm_generation r))];
  of_json b := db ← as_db (field "db" b); items ← as_items (field "items" b); g ← as_int (field "generation" b);
    Some (mkRpcKvSetItems db items g);
  of_to_json := _ |}. by intros []. Defined.

Record RpcKvIncr := mkRpcKvIncr { ri_db : DatabaseId; ri_req : KvIncrRequest; ri_generation : Z }.
#[export] Instance RpcKvIncr_struct : Struct RpcKvIncr.
Proof. refine {|
  to_json r := [("db"%string, FDb (ri_db r)); ("req"%string, FIncr (ri_req r)); ("generation"%string, FInt (ri_generation r))];
  of_json b := db ← as_db (field "db" b); req ← as_incr (field "req" b); g ← as_int (field "generation" b);
    Some (mkRpcKvIncr db req g);
  of_to_json := _ |}. by intros []. Defined.

Record RpcKvExpire := mkRpcKvExpire { rx_db : DatabaseId; rx_req : KvExpireRequest; rx_generation : Z }.
#[export] Instance RpcKvExpire_struct : Struct RpcKvExpire.
Proof. refine {|
  to_json r := [("db"%string, FDb (rx_db r)); ("req"%string, FExpire (rx_req r)); ("generation"%string, FInt (rx_generation r))];
  of_json b := db ← as_db (field "db" b); req ← as_expire (field "req" b); g ← as_int (field "generation" b);
    Some (mkRpcKvExpire db req g);
  of_to_json := _ |}. by intros []. Defined.

Record RpcKvDel := mkRpcKvDel { re_db : DatabaseId; re_key : string; re_generation : Z }.
#[export] Instance RpcKvDel_struct : Struct RpcKvDel.
Proof. refine {|
  to_json r := [("db"%string, FDb (re_db r)); ("key"%string, FText (re_key r)); ("generation"%string, FInt (re_generation r))];
  of_json b := db ← as_db (field "db" b); key ← as_text (field "key" b); g ← as_int (field "generation" b);
    Some (mkRpcKvDel db key g);
  of_to_json := _ |}. by intros []. Defined.

Record RpcFence := mkRpcFence { rf_db : DatabaseId; rf_generation : Z }.
#[export] Instance RpcFence_struct : Struct RpcFence.
Proof. refine {|
  to_json r := [("db"%string, FDb (rf_db r)); ("generation"%string, FInt (rf_generation r))];
  of_json b := db ← as_db (field "db" b); g ← as_int (field "generation" b); Some (mkRpcFence db g);
  of_to_json := _ |}. by intros []. Defined.

(** [version] has [#[serde(default)]]. *)
Record RpcRestore := mkRpcRestore { ro_db : DatabaseId; ro_version : option string }.
#[export] Instance RpcRestore_struct : Struct RpcRestore.
Proof. refine {|
  to_json r := [("db"%string, FDb (ro_db r)); ("version"%string, FMaybe (ro_version r))];
  of_json b := db ← as_db (field "db" b);
    match field "version" b with
    | None => Some (mkRpcRestore db None)
    | Some (FMaybe v) => Some (mkRpcRestore db v)
    | Some (FText v) => Some (mkRpcRestore db (Some v))
    | Some _ => None
    end;
  of_to_json := _ |}. by intros []. Defined.

(** ** Answers *)

(** The data of an answer: its value as the type it is read at. *)
Inductive RpcData :=
| DSql (r : SqlResult)
| DSqls (l : list SqlResult)
| DEntry (o : option KvEntry)
| DBool (b : bool)
| DTexts (l : list (option string))
| DUnit
| DTtl (o : option Z)
| DInt (z : Z)
| DScan (r : RpcKvScanResult)
| DBackup (r : BackupInfo).

Class Wire (A : Type) := {
  enc : A -> RpcData;
  dec : RpcData -> option A;
  dec_enc : forall a, dec (enc a) = Some a;
}.

#[export] Instance sql_wire : Wire SqlResult.
Proof. refine {| enc := DSql; dec d := match d with DSql r => Some r | _ => None end;
  dec_enc := _ |}. done. Defined.
#[export] Instance sqls_wire : Wire (list SqlResult).
Proof. refine {| enc := DSqls; dec d := match d with DSqls r => Some r | _ => None end;
  dec_enc := _ |}. done. Defined.
#[export] Instance entry_wire : Wire (option KvEntry).
Proof. refine {| enc := DEntry; dec d := match d with DEntry r => Some r | _ => None end;
  dec_enc := _ |}. done. Defined.
#[export] Instance bool_wire : Wire bool.
Proof. refine {| enc := DBool; dec d := match d with DBool r => Some r | _ => None end;
  dec_enc := _ |}. done. Defined.
#[export] Instance texts_wire : Wire (list (option string)).
Proof. refine {| enc := DTexts; dec d := match d with DTexts r => Some r | _ => None end;
  dec_enc := _ |}. done. Defined.
Lemma unit_dec_enc (a : unit) : match DUnit with DUnit => Some tt | _ => None end = Some a.
Proof. by destruct a. Qed.
#[export] Instance unit_wire : Wire unit :=
  {| enc _ := DUnit; dec d := match d with DUnit => Some tt | _ => None end; dec_enc := unit_dec_enc |}.
#[export] Instance ttl_wire : Wire (option Z).
Proof. refine {| enc := DTtl; dec d := match d with DTtl r => Some r | _ => None end;
  dec_enc := _ |}. done. Defined.
#[export] Instance int_wire : Wire Z.
Proof. refine {| enc := DInt; dec d := match d with DInt r => Some r | _ => None end;
  dec_enc := _ |}. done. Defined.
#[export] Instance scan_wire : Wire RpcKvScanResult.
Proof. refine {| enc := DScan; dec d := match d with DScan r => Some r | _ => None end;
  dec_enc := _ |}. done. Defined.
#[export] Instance backup_wire : Wire BackupInfo.
Proof. refine {| enc := DBackup; dec d := match d with DBackup r => Some r | _ => None end;
  dec_enc := _ |}. done. Defined.

Arguments RpcOk {T} data.
Arguments RpcErr {T} rkind rmessage.

Definition rpc_fmap {A B} (f : A -> B) (r : RpcResponse A) : RpcResponse B :=
  match r with RpcOk a => RpcOk (f a) | RpcErr k m => RpcErr k m end.

Inductive Payload := PRpc (text : string) | PPlain (text : string) | PMetrics (text : list Piece).
Record HttpResp := mkHttpResp { hr_status : Z; hr_payload : Payload }.

(** serde_json: the texts of requests and answers, and what they are read as. *)
Class JsonText := {
  json_text : Body -> string;
  json_read : string -> option Body;
  answer_text : RpcResponse RpcData -> string;
  answer_read : string -> option (RpcResponse RpcData);
}.

(** axum's [DefaultBodyLimit], which the node's router does not change. *)
Definition DEFAULT_BODY_LIMIT : Z := 2097152.

(** ** The interface between API server and data node *)

(** [trait DataNodeClient] *)
Class DataNodeClient (S : Type) := {
  dc_execute_sql : DatabaseId -> SqlRequest -> Z -> M S CombeeError SqlResult;
  dc_execute_transaction : DatabaseId -> list SqlRequest -> Z -> M S CombeeError (list SqlResult);
  dc_kv_get : DatabaseId -> string -> M S CombeeError (option KvEntry);
  dc_kv_set : DatabaseId -> string -> KvSetRequest -> Z -> M S CombeeError bool;
  dc_kv_del : DatabaseId -> string -> Z -> M S CombeeError bool;
  dc_kv_exists : DatabaseId -> string -> M S CombeeError bool;
  dc_kv_mget : DatabaseId -> list string -> M S CombeeError (list (option string));
  dc_kv_mset : DatabaseId -> list KvSetItem -> Z -> M S CombeeError unit;
  dc_kv_ttl : DatabaseId -> string -> M S CombeeError (option Z);
  dc_kv_expire : DatabaseId -> KvExpireRequest -> Z -> M S CombeeError bool;
  dc_kv_incr : DatabaseId -> KvIncrRequest -> Z -> M S CombeeError Z;
  dc_fence_cell : DatabaseId -> Z -> M S CombeeError unit;
  dc_replicate : DatabaseId -> M S CombeeError bool;
  dc_ensure_database : DatabaseId -> M S CombeeError unit;
  dc_delete_database : DatabaseId -> M S CombeeError unit;
  dc_backup : DatabaseId -> M S CombeeError BackupInfo;
  dc_restore : DatabaseId -> option string -> M S CombeeError unit;
  dc_incremental_backup : DatabaseId -> M S CombeeError BackupInfo;
  dc_storage_bytes : DatabaseId -> M S CombeeError Z;
  dc_reset_database : DatabaseId -> M S CombeeError unit;
  dc_kv_scan : DatabaseId -> string -> Z -> string -> M S CombeeError RpcKvScanResult;
  dc_active_count : S -> nat;
}.

(** A data node process: node, object store and the process's metrics. *)
Record Proc (U : Type) := mkProc { pr_site : Site U; pr_metrics : Registry }.
Arguments mkProc {U}.
Arguments pr_site {U}.
Arguments pr_metrics {U}.

Section node_api.
Context {env : Env} `{UuidText} `{MillisClock} {U : Type} `{CellFiles U} `{SqlEngine U} `{Images U} `{HttpText} `{JsonText}.
Variable cfg : DataNodeConfig.
Variables (sha256_hex obj_path : string -> string).

Abbreviation ProcM := (M (Proc U) CombeeError).

Definition at_site {A} (m : M (Site U) CombeeError A) : ProcM A :=
  zoom pr_site (fun t p => mkProc t (pr_metrics p)) m.
Definition at_cell {A} (m : M (Node U) CombeeError A) : ProcM A := at_site (on_node m).

Definition active_count (p : Proc U) : nat := size (conns (site_node (pr_site p))).

(** [impl DataNodeClient for LocalDataNodeClient] *)
Definition local_client : DataNodeClient (Proc U) := {|
  dc_execute_sql db req g := at_cell (node_execute_sql cfg db req g);
  dc_execute_transaction db req g := at_cell (node_execute_transaction cfg db req g);
  dc_kv_get db key := at_cell (kv_get cfg db key);
  dc_kv_set db key req g := at_cell (kv_set cfg db key (ks_value req) (ks_ttl req) (ks_nx req) (ks_xx req) g);
  dc_kv_del db key g := at_cell (kv_del cfg db key g);
  dc_kv_exists db key := at_cell (kv_exists cfg db key);
  dc_kv_mget db keys := at_cell (kv_mget cfg db keys);
  dc_kv_mset db items g := at_cell (kv_mset cfg db items g);
  dc_kv_ttl db key := at_cell (kv_ttl cfg db key);
  dc_kv_expire db req g := at_cell (kv_expire cfg db (ke_key req) (ke_ttl req) g);
  dc_kv_incr db req g := at_cell (kv_incr cfg db (ki_key req) (ki_delta req) (ki_ttl req) g);
  dc_fence_cell db g := at_cell (fence_cell db g);
  dc_replicate db := at_site (replicate_from_primary db);
  dc_ensure_database db := at_cell (ensure_database cfg db);
  dc_delete_database db := at_cell (node_delete_database cfg db);
  dc_backup db := at_site (backup cfg sha256_hex db);
  dc_restore db version := at_site (restore cfg obj_path db version);
  dc_incremental_backup db := at_site (incremental_backup cfg sha256_hex db);
  dc_storage_bytes db := at_cell (storage_bytes db);
  dc_reset_database db := at_cell (reset_database db);
  dc_kv_scan db prefix limit cursor := at_cell (kv_scan cfg db prefix limit cursor);
  dc_active_count := active_count;
|}.

(** ** server.rs: the handlers *)

(** [Json(rpc): Json<A>], the call, [Json(RpcResponse::from_result(r))]. *)
Definition rpc_handler {A R} `{Struct A, Wire R} (op : A -> ProcM R) (text : string) : ProcM HttpResp :=
  if DEFAULT_BODY_LIMIT <? Z.of_nat (String.length text) then
    mret (mkHttpResp 413 (PPlain "Failed to buffer the request body: length limit exceeded"))
  else
    match json_read text with
    | None => mret (mkHttpResp 400 (PPlain "Failed to parse the request body as JSON"))
    | Some b =>
        match of_json b with
        | None => mret (mkHttpResp 422 (PPlain "Failed to deserialize the JSON body into the target type"))
        | Some rpc =>
            let! r := attempt (op rpc) in
            mret (mkHttpResp 200 (PRpc (answer_text (rpc_fmap enc (from_result r)))))
        end
    end.

Definition rpc_execute_sql : string -> ProcM HttpResp :=
  rpc_handler (fun rpc => at_cell (node_execute_sql cfg (rs_db rpc) (rs_req rpc) (rs_generation rpc))).
Definition rpc_execute_transaction : string -> ProcM HttpResp :=
  rpc_handler (fun rpc => at_cell (node_execute_transaction cfg (rt_db rpc) (rt_req rpc) (rt_generation rpc))).
Definition rpc_kv_get : string -> ProcM HttpResp :=
  rpc_handler (fun rpc => at_cell (kv_get cfg (rg_db rpc) (rg_key rpc))).
Definition rpc_kv_set : string -> ProcM HttpResp :=
  rpc_handler (fun rpc => at_cell (kv_set cfg (rk_db rpc) (rk_key rpc) (ks_value (rk_req rpc)) (ks_ttl (rk_req rpc))
    (ks_nx (rk_req rpc)) (ks_xx (rk_req rpc)) (rk_generation rpc))).
Definition rpc_kv_del : string -> ProcM HttpResp :=
  rpc_handler (fun rpc => at_cell (kv_del cfg (re_db rpc) (re_key rpc) (re_generation rpc))).
Definition rpc_kv_exists : string -> ProcM HttpResp :=
  rpc_handler (fun rpc => at_cell (kv_exists cfg (rg_db rpc) (rg_key rpc))).
Definition rpc_kv_mget : string -> ProcM HttpResp :=
  rpc_handler (fun rpc => at_cell (kv_mget cfg (ry_db rpc) (ry_keys rpc))).
Definition rpc_kv_mset : string -> ProcM HttpResp :=
  rpc_handler (fun rpc => at_cell (kv_mset cfg (rm_db rpc) (rm_items rpc) (rm_generation rpc))).
Definition rpc_kv_ttl : string -> ProcM HttpResp :=
  rpc_handler (fun rpc => at_cell (kv_ttl cfg (rg_db rpc) (rg_key rpc))).
Definition rpc_kv_expire : string -> ProcM HttpResp :=
  rpc_handler (fun rpc => at_cell (kv_expire cfg (rx_db rpc) (ke_key (rx_req rpc)) (ke_ttl (rx_req rpc)) (rx_generation rpc))).
Definition rpc_kv_incr : string -> ProcM HttpResp :=
  rpc_handler (fun rpc => at_cell (kv_incr cfg (ri_db rpc) (ki_key (ri_req rpc)) (ki_delta (ri_req rpc))
    (ki_ttl (ri_req rpc)) (ri_generation rpc))).
Definition rpc_fence_cell : string -> ProcM HttpResp :=
  rpc_handler (fun rpc => at_cell (fence_cell (rf_db rpc) (rf_generation rpc))).
Definition rpc_replicate : string -> ProcM HttpResp :=
  rpc_handler (fun rpc => at_site (replicate_from_primary (rd_db rpc))).
Definition rpc_ensure_database : string -> ProcM HttpResp :=
  rpc_handler (fun rpc => at_cell (ensure_database cfg (rd_db rpc))).
Definition rpc_delete_database : string -> ProcM HttpResp :=
  rpc_handler (fun rpc => at_cell (node_delete_database cfg (rd_db rpc))).
Definition rpc_incremental_backup : string -> ProcM HttpResp :=
  rpc_handler (fun rpc => at_site (incremental_backup cfg sha256_hex (rd_db rpc))).
Definition rpc_backup : string -> ProcM HttpResp :=
  rpc_handler (fun rpc => at_site (backup cfg sha256_hex (rd_db rpc))).
Definition rpc_restore : string -> ProcM HttpResp :=
  rpc_handler (fun rpc => at_site (restore cfg obj_path (ro_db rpc) (ro_version rpc))).
Definition rpc_storage_bytes : string -> ProcM HttpResp :=
  rpc_handler (fun rpc => at_cell (storage_bytes (rd_db rpc))).
Definition rpc_kv_scan : string -> ProcM HttpResp :=
  rpc_handler (fun rpc => at_cell (kv_scan cfg (rc_db rpc) (rc_prefix rpc) (rc_limit rpc) (rc_cursor rpc))).
Definition rpc_reset_database : string -> ProcM HttpResp :=
  rpc_handler (fun rpc => at_cell (reset_database (rd_db rpc))).

(** ** server.rs: the router *)

Definition rpc_routes : list (string * (string -> ProcM HttpResp)) := [
  ("/rpc/execute_sql"%string, rpc_execute_sql);
  ("/rpc/execute_transaction"%string, rpc_execute_transaction);
  ("/rpc/kv_get"%string, rpc_kv_get);
  ("/rpc/kv_set"%string, rpc_kv_set);
  ("/rpc/kv_del"%string, rpc_kv_del);
  ("/rpc/kv_exists"%string, rpc_kv_exists);
  ("/rpc/kv_mget"%string, rpc_kv_mget);
  ("/rpc/kv_mset"%string, rpc_kv_mset);
  ("/rpc/kv_ttl"%string, rpc_kv_ttl);
  ("/rpc/kv_expire"%string, rpc_kv_expire);
  ("/rpc/kv_incr"%string, rpc_kv_incr);
  ("/rpc/ensure_database"%string, rpc_ensure_database);
  ("/rpc/delete_database"%string, rpc_delete_database);
  ("/rpc/fence_cell"%string, rpc_fence_cell);
  ("/rpc/replicate"%string, rpc_replicate);
  ("/rpc/backup"%string, rpc_backup);
  ("/rpc/incremental_backup"%string, rpc_incremental_backup);
  ("/rpc/restore"%string, rpc_restore);
  ("/rpc/storage_bytes"%string, rpc_storage_bytes);
  ("/rpc/kv_scan"%string, rpc_kv_scan);
  ("/rpc/reset_database"%string, rpc_reset_database)].

Fixpoint route {A} (path : string) (l : list (string * A)) : option A :=
  match l with
  | [] => None
  | (p, h) :: rest => if decide (p = path) then Some h else route path rest
  end.

Definition rpc_unauthorized : HttpResp := mkHttpResp 401 (PPlain "unauthorized").

Definition rpc_auth (token : option string) (next : Request -> ProcM HttpResp) (req : Request) : ProcM HttpResp :=
  if has_header "x-api-key" req then mret rpc_unauthorized else
  match token with
  | Some expected =>
      if negb (token_presented "x-control-token" expected req) then mret rpc_unauthorized else next req
  | None => next req
  end.

(** [DataNode::ready]: the data directory is there and a file can be created
    in it; the probe's removal does not matter. *)
Definition node_ready : ProcM bool :=
  let! is_dir := attempt (fallible Internal) in
  match is_dir with
  | Err _ => mret false
  | Ok _ =>
      let! created := attempt (fallible Internal) in
      match created with
      | Err _ => mret false
      | Ok _ => do! ignore (fallible Internal) in mret true
      end
  end.

Definition ready_response (ok : bool) : HttpResp :=
  if ok then mkHttpResp 200 (PPlain "ok") else mkHttpResp 503 (PPlain "storage_not_writable").

Definition data_labels : list (string * string) := [("service", "data-node"); ("node_role", "data")]%string.

Definition set_node_gauges (p : Proc U) : Proc U :=
  let active := Z.of_nat (active_count p) in
  mkProc (pr_site p) (gauge_set "combee_active_cells" data_labels active
    (gauge_set "combee_open_sqlite_connections" data_labels active (pr_metrics p))).

(** [router]: the probes are outside the authenticated part. *)
Definition node_router (token : option string) (req : Request) (text : string) : ProcM HttpResp :=
  if decide (rq_path req = "/health"%string) then
    mret (if decide (rq_method req = "GET"%string) then mkHttpResp 200 (PPlain "ok") else mkHttpResp 405 (PPlain EmptyString))
  else if decide (rq_path req = "/ready"%string) then
    if decide (rq_method req = "GET"%string) then let! ok := node_ready in mret (ready_response ok)
    else mret (mkHttpResp 405 (PPlain EmptyString))
  else if decide (rq_path req = "/metrics"%string) then
    if decide (rq_method req = "GET"%string) then
      do! modify set_node_gauges in
      let! text := gets (fun p => render (pr_metrics p)) in
      mret (mkHttpResp 200 (PMetrics text))
    else mret (mkHttpResp 405 (PPlain EmptyString))
  else
    match route (rq_path req) rpc_routes with
    | None => mret (mkHttpResp 404 (PPlain EmptyString))
    | Some h =>
        rpc_auth token (fun req =>
          if decide (rq_method req = "POST"%string) then h text else mret (mkHttpResp 405 (PPlain EmptyString))) req
    end.

(** ** client.rs: the remote client *)

(** The request [call] sends; [rid] is the id of the request being served. *)
Definition rpc_request (token rid : option string) (path : string) : Request :=
  mkRequest "POST" ("/" +:+ path)
    (match token with Some t => [("x-control-token"%string, t)] | None => [] end ++
     match rid with Some r => [("x-request-id"%string, r)] | None => [] end) None (plain_body []).

(** [RemoteDataNodeClient::call], the node's side included: the request or the
    answer may be lost. *)
Definition remote_call {A R} `{Struct A, Wire R} (client_token rid node_token : option string) (path : string) (body : A)
    : ProcM R :=
  do! fallible (fun m => Internal ("data node rpc " +:+ path +:+ ": " +:+ m)) in
  let! resp := node_router node_token (rpc_request client_token rid path) (json_text (to_json body)) in
  do! fallible (fun m => Internal ("data node rpc " +:+ path +:+ " decode: " +:+ m)) in
  if negb ((200 <=? hr_status resp) && (hr_status resp <? 300)) then
    mfail (Internal ("data node rpc " +:+ path +:+ ": HTTP " +:+ i64_to_string (hr_status resp)))
  else
    match hr_payload resp with
    | PRpc text =>
        match answer_read text with
        | Some (RpcOk d) =>
            match dec d with
            | Some r => mret r
            | None => mfail (Internal ("data node rpc " +:+ path +:+ " decode"))
            end
        | Some (RpcErr k m) => let! u := fresh_uuid in mfail (from_kind (mkDatabaseId u) k m)
        | None => mfail (Internal ("data node rpc " +:+ path +:+ " decode"))
        end
    | _ => mfail (Internal ("data node rpc " +:+ path +:+ " decode"))
    end.

(** [impl DataNodeClient for RemoteDataNodeClient] *)
Definition remote_client (client_token rid node_token : option string) : DataNodeClient (Proc U) :=
  let call {A R} `{Struct A, Wire R} (path : string) (body : A) : ProcM R :=
    remote_call client_token rid node_token path body in {|
  dc_execute_sql db req g := call "rpc/execute_sql" (mkRpcSql db req g);
  dc_execute_transaction db req g := call "rpc/execute_transaction" (mkRpcTransaction db req g);
  dc_kv_get db key := call "rpc/kv_get" (mkRpcKvGet db key);
  dc_kv_set db key req g := call "rpc/kv_set" (mkRpcKvSet db key req g);
  dc_kv_del db key g := call "rpc/kv_del" (mkRpcKvDel db key g);
  dc_kv_exists db key := call "rpc/kv_exists" (mkRpcKvGet db key);
  dc_kv_mget db keys := call "rpc/kv_mget" (mkRpcKvKeys db keys);
  dc_kv_mset db items g := call "rpc/kv_mset" (mkRpcKvSetItems db items g);
  dc_kv_ttl db key := call "rpc/kv_ttl" (mkRpcKvGet db key);
  dc_kv_expire db req g := call "rpc/kv_expire" (mkRpcKvExpire db req g);
  dc_kv_incr db req g := call "rpc/kv_incr" (mkRpcKvIncr db req g);
  dc_fence_cell db g := call "rpc/fence_cell" (mkRpcFence db g);
  dc_replicate db := call "rpc/replicate" (mkRpcDb db);
  dc_ensure_database db := call "rpc/ensure_database" (mkRpcDb db);
  dc_delete_database db := call "rpc/delete_database" (mkRpcDb db);
  dc_backup db := call "rpc/backup" (mkRpcDb db);
  dc_restore db version := call "rpc/restore" (mkRpcRestore db version);
  dc_incremental_backup db := call "rpc/incremental_backup" (mkRpcDb db);
  dc_storage_bytes db := call "rpc/storage_bytes" (mkRpcDb db);
  dc_reset_database db := call "rpc/reset_database" (mkRpcDb db);
  dc_kv_scan db prefix limit cursor := call "rpc/kv_scan" (mkRpcKvScan db prefix limit cursor);
  dc_active_count _ := 0%nat;
|}.

End node_api.
