(* ===== verification/NodeApiSpec.v ===== *)
(** The data node behind its RPC boundary: a remote call does what the local
    call does, and nothing reaches a node past its authentication. *)

From Stdlib Require Import ZArith Lia String Ascii.
From stdpp Require Import gmap strings list fin_maps.
From S2P Require Import Prelude Common Kv SqlGate Sql Cache Manager DataNode Catalog Ledger Billing NodeCapacity Access AccessSpec Backup BackupSpec Metrics NodeApi.

(** ** Calls as data *)

Inductive ClientOp :=
| XSql (db : DatabaseId) (req : SqlRequest) (g : Z)
| XTx (db : DatabaseId) (req : list SqlRequest) (g : Z)
| XGet (db : DatabaseId) (key : string)
| XSet (db : DatabaseId) (key : string) (req : KvSetRequest) (g : Z)
| XDel (db : DatabaseId) (key : string) (g : Z)
| XExists (db : DatabaseId) (key : string)
| XMget (db : DatabaseId) (keys : list string)
| XMset (db : DatabaseId) (items : list KvSetItem) (g : Z)
| XTtl (db : DatabaseId) (key : string)
| XExpire (db : DatabaseId) (req : KvExpireRequest) (g : Z)
| XIncr (db : DatabaseId) (req : KvIncrRequest) (g : Z)
| XFence (db : DatabaseId) (g : Z)
| XReplicate (db : DatabaseId)
| XEnsure (db : DatabaseId)
| XDelete (db : DatabaseId)
| XBackup (db : DatabaseId)
| XRestore (db : DatabaseId) (version : option string)
| XIncremental (db : DatabaseId)
| XStorage (db : DatabaseId)
| XReset (db : DatabaseId)
| XScan (db : DatabaseId) (prefix : string) (limit : Z) (cursor : string).

Definition as_data {S A} `{Wire A} (m : M S CombeeError A) : M S CombeeError RpcData := let! a := m in mret (enc a).

Definition run_client {S} (c : DataNodeClient S) (op : ClientOp) : M S CombeeError RpcData :=
  match op with
  | XSql db req g => as_data (dc_execute_sql db req g)
  | XTx db req g => as_data (dc_execute_transaction db req g)
  | XGet db k => as_data (dc_kv_get db k)
  | XSet db k req g => as_data (dc_kv_set db k req g)
  | XDel db k g => as_data (dc_kv_del db k g)
  | XExists db k => as_data (dc_kv_exists db k)
  | XMget db ks => as_data (dc_kv_mget db ks)
  | XMset db items g => as_data (dc_kv_mset db items g)
  | XTtl db k => as_data (dc_kv_ttl db k)
  | XExpire db req g => as_data (dc_kv_expire db req g)
  | XIncr db req g => as_data (dc_kv_incr db req g)
  | XFence db g => as_data (dc_fence_cell db g)
  | XReplicate db => as_data (dc_replicate db)
  | XEnsure db => as_data (dc_ensure_database db)
  | XDelete db => as_data (dc_delete_database db)
  | XBackup db => as_data (dc_backup db)
  | XRestore db v => as_data (dc_restore db v)
  | XIncremental db => as_data (dc_incremental_backup db)
  | XStorage db => as_data (dc_storage_bytes db)
  | XReset db => as_data (dc_reset_database db)
  | XScan db p l c => as_data (dc_kv_scan db p l c)
  end.

(** The struct a call sends. *)
Definition body_of (op : ClientOp) : Body :=
  match op with
  | XSql db req g => to_json (mkRpcSql db req g)
  | XTx db req g => to_json (mkRpcTransaction db req g)
  | XGet db k | XExists db k | XTtl db k => to_json (mkRpcKvGet db k)
  | XSet db k req g => to_json (mkRpcKvSet db k req g)
  | XDel db k g => to_json (mkRpcKvDel db k g)
  | XMget db ks => to_json (mkRpcKvKeys db ks)
  | XMset db items g => to_json (mkRpcKvSetItems db items g)
  | XExpire db req g => to_json (mkRpcKvExpire db req g)
  | XIncr db req g => to_json (mkRpcKvIncr db req g)
  | XFence db g => to_json (mkRpcFence db g)
  | XRestore db v => to_json (mkRpcRestore db v)
  | XReplicate db | XEnsure db | XDelete db | XBackup db | XIncremental db | XStorage db | XReset db =>
      to_json (mkRpcDb db)
  | XScan db p l c => to_json (mkRpcKvScan db p l c)
  end.

Section wire.
Context {env : Env} `{UuidText} `{JsonText}.

Definition lost (e : CombeeError) : Prop := exists msg, e = Internal msg.

Definition fits (b : Body) : bool := Z.of_nat (String.length (json_text b)) <=? DEFAULT_BODY_LIMIT.

(** The answer of [m] survives the wire. *)
Definition answer_survives {S} (m : M S CombeeError RpcData) (s : S) (e : Eff) : Prop :=
  let answer := from_result (m s (bump_call e)).1.1 in answer_read (answer_text answer) = Some answer.

(** [r], [s1] is what the caller sees of [m] when it runs in another process.
    The request is lost, or its body is over the limit, and nothing has
    happened; or [m] has run as it runs locally, and its answer is lost; or the
    answer arrives: the value, or the error that [from_kind] makes of the
    error's kind and text. *)
Definition seen_remotely {S A} (fits : bool) (m : M S CombeeError A) (s : S) (e : Eff) (r : Result A) (s1 : S) : Prop :=
  match fault (e_call e), fits with
  | Some _, _ | None, false => s1 = s /\ exists x, r = Err x /\ lost x
  | None, true =>
      let '(r0, s0, e0) := m s (bump_call e) in
      s1 = s0 /\
      match fault (e_call e0) with
      | Some _ => exists x, r = Err x /\ lost x
      | None => r = into_result (mkDatabaseId (uuid_v4 (e_uuid e0))) (from_result r0)
      end
  end.

End wire.

Section node_api_spec.
Context {env : Env} `{UuidText} `{MillisClock} {U : Type} `{CellFiles U} `{SqlEngine U} `{Images U} `{HttpText} `{JsonText}.
Variable cfg : DataNodeConfig.
Variables (sha256_hex obj_path : string -> string).

(** The token the client sends is the one the node expects, if it expects
    one, and is a header value. *)
Definition tokens_match (client_token node_token : option string) : Prop :=
  match node_token with
  | None => True
  | Some t => client_token = Some t /\ header_to_str t = Some t
  end.

Lemma rpc_request_passes client_token rid node_token path (next : Request -> M (Proc U) CombeeError HttpResp) :
  tokens_match client_token node_token ->
  rpc_auth node_token next (rpc_request client_token rid path) = next (rpc_request client_token rid path).
Proof.
  intros Ht. unfold rpc_auth.
  assert (has_header "x-api-key" (rpc_request client_token rid path) = false) as ->
    by (by destruct client_token, rid).
  destruct node_token as [t|]; [|done]. destruct Ht as [-> Ht].
  assert (token_presented "x-control-token" t (rpc_request (Some t) rid path) = true) as ->; [|done].
  unfold token_presented. apply orb_true_iff. right. unfold header_text. simpl. rewrite Ht. by apply bool_decide_eq_true_2.
Qed.

(** One call through the router, for the route of its path. *)
Lemma remote_call_seen {A R} `{Struct A, Wire R} client_token rid node_token path (body : A)
    (op : A -> M (Proc U) CombeeError R) s e :
  tokens_match client_token node_token ->
  json_read (json_text (to_json body)) = Some (to_json body) -> answer_survives (as_data (op body)) s e ->
  node_router cfg sha256_hex obj_path node_token (rpc_request client_token rid path) (json_text (to_json body)) =
    rpc_auth node_token (fun _ => rpc_handler op (json_text (to_json body))) (rpc_request client_token rid path) ->
  let '(r, s1, _) := remote_call cfg sha256_hex obj_path client_token rid node_token path body s e in
  seen_remotely (fits (to_json body)) (op body) s e r s1.
Proof.
  intros Ht Hread Hans Hroute. unfold remote_call, seen_remotely, bind at 1, fallible at 1.
  destruct (fault (e_call e)); [split; [done|]; eexists; split; [done|by eexists]|].
  rewrite Hroute, rpc_request_passes by done. unfold bind at 1, rpc_handler, fits. rewrite Z.leb_antisym.
  destruct (DEFAULT_BODY_LIMIT <? _); simpl negb.
  { unfold mret, bind, fallible. destruct (fault (e_call (bump_call e))); (split; [done|]); eexists; (split; [done|by eexists]). }
  rewrite Hread, of_to_json. unfold answer_survives, as_data, bind in Hans.
  unfold bind at 1, attempt. destruct (op body s (bump_call e)) as [[r0 s0] e0]. unfold mret at 1.
  unfold bind at 1, fallible at 1. destruct (fault (e_call e0)); [split; [done|]; eexists; split; [done|by eexists]|].
  destruct r0 as [a|x]; simpl in Hans |- *; rewrite Hans; simpl; [by rewrite dec_enc|done].
Qed.

Lemma as_data_seen {A} `{Wire A} b (m m0 : M (Proc U) CombeeError A) s e :
  (let '(r, s1, _) := m s e in seen_remotely b m0 s e r s1) ->
  let '(r, s1, _) := as_data m s e in seen_remotely b (as_data m0) s e r s1.
Proof.
  unfold seen_remotely, as_data, bind. destruct (m s e) as [[r s1] e1].
  destruct (fault (e_call e)).
  - intros [-> (x & -> & Hx)]. simpl. by eauto.
  - destruct b; [|intros [-> (x & -> & Hx)]; simpl; by eauto].
    destruct (m0 s (bump_call e)) as [[r0 s0] e0]. destruct r0 as [a|y]; simpl.
    + destruct (fault (e_call e0)); [intros [-> (x & -> & Hx)]; simpl; by eauto|]. by intros [-> ->].
    + destruct (fault (e_call e0)); [intros [-> (x & -> & Hx)]; simpl; by eauto|]. by intros [-> ->].
Qed.

(** C11: a remote node is a local node behind a wire. For every call of the
    client interface, when both sides have the same control token and the JSON
    texts of the request and of the answer are read as what they were written
    from: the call leaves of the node what the local call leaves, and returns
    its value; an error comes back as the one [from_kind] makes of its kind and
    text (kinds it does not know become internal errors, and the printed error
    becomes the message, prefix included). A request that is lost,
    or whose text is longer than axum's limit of 2 MB, has no effect and gives
    an internal error; a lost answer gives an internal error and has the effect
    of the call. *)
Theorem remote_is_local (op : ClientOp) (client_token rid node_token : option string) (s : Proc U) (e : Eff) :
  tokens_match client_token node_token ->
  json_read (json_text (body_of op)) = Some (body_of op) ->
  answer_survives (run_client (local_client cfg sha256_hex obj_path) op) s e ->
  let '(r, s1, _) := run_client (remote_client cfg sha256_hex obj_path client_token rid node_token) op s e in
  seen_remotely (fits (body_of op)) (run_client (local_client cfg sha256_hex obj_path) op) s e r s1.
Proof.
  intros Ht Hread Hans. destruct op; apply as_data_seen.
  - by apply (remote_call_seen _ _ _ _ (mkRpcSql db req g)
      (fun rpc => at_cell (node_execute_sql cfg (rs_db rpc) (rs_req rpc) (rs_generation rpc)))).
  - by apply (remote_call_seen _ _ _ _ (mkRpcTransaction db req g)
      (fun rpc => at_cell (node_execute_transaction cfg (rt_db rpc) (rt_req rpc) (rt_generation rpc)))).
  - by apply (remote_call_seen _ _ _ _ (mkRpcKvGet db key) (fun rpc => at_cell (kv_get cfg (rg_db rpc) (rg_key rpc)))).
  - by apply (remote_call_seen _ _ _ _ (mkRpcKvSet db key req g)
      (fun rpc => at_cell (kv_set cfg (rk_db rpc) (rk_key rpc) (ks_value (rk_req rpc)) (ks_ttl (rk_req rpc))
        (ks_nx (rk_req rpc)) (ks_xx (rk_req rpc)) (rk_generation rpc)))).
  - by apply (remote_call_seen _ _ _ _ (mkRpcKvDel db key g)
      (fun rpc => at_cell (kv_del cfg (re_db rpc) (re_key rpc) (re_generation rpc)))).
  - by apply (remote_call_seen _ _ _ _ (mkRpcKvGet db key) (fun rpc => at_cell (kv_exists cfg (rg_db rpc) (rg_key rpc)))).
  - by apply (remote_call_seen _ _ _ _ (mkRpcKvKeys db keys) (fun rpc => at_cell (kv_mget cfg (ry_db rpc) (ry_keys rpc)))).
  - by apply (remote_call_seen _ _ _ _ (mkRpcKvSetItems db items g)
      (fun rpc => at_cell (kv_mset cfg (rm_db rpc) (rm_items rpc) (rm_generation rpc)))).
  - by apply (remote_call_seen _ _ _ _ (mkRpcKvGet db key) (fun rpc => at_cell (kv_ttl cfg (rg_db rpc) (rg_key rpc)))).
  - by apply (remote_call_seen _ _ _ _ (mkRpcKvExpire db req g)
      (fun rpc => at_cell (kv_expire cfg (rx_db rpc) (ke_key (rx_req rpc)) (ke_ttl (rx_req rpc)) (rx_generation rpc)))).
  - by apply (remote_call_seen _ _ _ _ (mkRpcKvIncr db req g)
      (fun rpc => at_cell (kv_incr cfg (ri_db rpc) (ki_key (ri_req rpc)) (ki_delta (ri_req rpc))
        (ki_ttl (ri_req rpc)) (ri_generation rpc)))).
  - by apply (remote_call_seen _ _ _ _ (mkRpcFence db g) (fun rpc => at_cell (fence_cell (rf_db rpc) (rf_generation rpc)))).
  - by apply (remote_call_seen _ _ _ _ (mkRpcDb db) (fun rpc => at_site (replicate_from_primary (rd_db rpc)))).
  - by apply (remote_call_seen _ _ _ _ (mkRpcDb db) (fun rpc => at_cell (ensure_database cfg (rd_db rpc)))).
  - by apply (remote_call_seen _ _ _ _ (mkRpcDb db) (fun rpc => at_cell (node_delete_database cfg (rd_db rpc)))).
  - by apply (remote_call_seen _ _ _ _ (mkRpcDb db) (fun rpc => at_site (backup cfg sha256_hex (rd_db rpc)))).
  - by apply (remote_call_seen _ _ _ _ (mkRpcRestore db version)
      (fun rpc => at_site (restore cfg obj_path (ro_db rpc) (ro_version rpc)))).
  - by apply (remote_call_seen _ _ _ _ (mkRpcDb db) (fun rpc => at_site (incremental_backup cfg sha256_hex (rd_db rpc)))).
  - by apply (remote_call_seen _ _ _ _ (mkRpcDb db) (fun rpc => at_cell (storage_bytes (rd_db rpc)))).
  - by apply (remote_call_seen _ _ _ _ (mkRpcDb db) (fun rpc => at_cell (reset_database (rd_db rpc)))).
  - by apply (remote_call_seen _ _ _ _ (mkRpcKvScan db prefix limit cursor)
      (fun rpc => at_cell (kv_scan cfg (rc_db rpc) (rc_prefix rpc) (rc_limit rpc) (rc_cursor rpc)))).
Qed.

(** ** The guard *)

Definition is_probe (path : string) : bool :=
  bool_decide (path = "/health"%string) || bool_decide (path = "/ready"%string) || bool_decide (path = "/metrics"%string).

Lemma ready_reads (p : Proc U) e : (node_ready p e).1.2 = p.
Proof. unfold node_ready, bind, attempt, ignore, fallible, mret. by repeat case_match; simplify_eq/=. Qed.

(** The probes look at the node and leave it. *)
Lemma probe_site token req (b : string) s e :
  is_probe (rq_path req) = true ->
  pr_site (node_router cfg sha256_hex obj_path token req b s e).1.2 = pr_site s.
Proof.
  unfold is_probe, node_router. intros Hp.
  destruct (decide (rq_path req = "/health"%string)); [done|].
  destruct (decide (rq_path req = "/ready"%string)).
  { destruct (decide _); [|done]. unfold bind. pose proof (ready_reads s e) as Hr.
    destruct (node_ready s e) as [[[ok|] s1] e2]; simpl in *; by subst. }
  destruct (decide (rq_path req = "/metrics"%string)); [by destruct (decide _)|].
  rewrite !bool_decide_eq_false_2 in Hp by done. done.
Qed.

Lemma probe_no_route path : is_probe path = true -> route path (rpc_routes cfg sha256_hex obj_path) = None.
Proof.
  unfold is_probe. intros Hp. apply orb_true_iff in Hp as [Hp|Hp]; [apply orb_true_iff in Hp as [Hp|Hp]|];
    apply bool_decide_eq_true in Hp as ->; reflexivity.
Qed.

Lemma router_rpc token req b :
  is_probe (rq_path req) = false ->
  node_router cfg sha256_hex obj_path token req b =
    match route (rq_path req) (rpc_routes cfg sha256_hex obj_path) with
    | None => mret (mkHttpResp 404 (PPlain EmptyString))
    | Some h => rpc_auth token (fun req =>
        if decide (rq_method req = "POST"%string) then h b else mret (mkHttpResp 405 (PPlain EmptyString))) req
    end.
Proof.
  unfold is_probe, node_router. intros Hp. apply orb_false_iff in Hp as [Hp Hm].
  apply orb_false_iff in Hp as [Hh Hr]. apply bool_decide_eq_false in Hm, Hh, Hr. by rewrite !decide_False.
Qed.

(** Nothing reaches a data node past its guard: a request that changes or
    reads a Cell, on whatever path and with whatever body, was a POST to one of
    the RPC routes, without a tenant's API key, and with the control token where
    one is configured; every other request leaves node and object store
    untouched, and a refused one is answered with 401. *)
Theorem node_guarded (token : option string) (req : Request) (b : string) (s : Proc U) (e : Eff) :
  let '(r, s1, _) := node_router cfg sha256_hex obj_path token req b s e in
  (pr_site s1 = pr_site s \/
   (is_Some (route (rq_path req) (rpc_routes cfg sha256_hex obj_path)) /\ rq_method req = "POST"%string /\
    has_header "x-api-key" req = false /\
    forall t, token = Some t -> token_presented "x-control-token" t req = true)) /\
  (is_Some (route (rq_path req) (rpc_routes cfg sha256_hex obj_path)) ->
   (has_header "x-api-key" req = true \/ exists t, token = Some t /\ token_presented "x-control-token" t req = false) ->
   r = Ok rpc_unauthorized /\ s1 = s).
Proof.
  destruct (is_probe (rq_path req)) eqn:Hprobe.
  - pose proof (probe_site token req b s e Hprobe) as Hs. rewrite (probe_no_route _ Hprobe).
    destruct (node_router cfg sha256_hex obj_path token req b s e) as [[r s1] e1].
    split; [by left|]. by intros [? ?].
  - rewrite (router_rpc _ _ _ Hprobe). destruct (route _ _) as [h|].
    2:{ split; [by left|]. by intros [? ?]. }
    unfold rpc_auth. destruct (has_header "x-api-key" req) eqn:Hkey; [split; [by left|done]|].
    destruct token as [t|].
    + destruct (token_presented "x-control-token" t req) eqn:Htok; simpl; [|split; [by left|done]].
      destruct (decide (rq_method req = "POST"%string)) as [Hm|].
      * destruct (h b s e) as [[r s1] e1]. split; [right; naive_solver|].
        intros _ [Hx|(t0 & [= <-] & Hx)]; congruence.
      * split; [by left|]. intros _ [Hx|(t0 & [= <-] & Hx)]; congruence.
    + destruct (decide (rq_method req = "POST"%string)) as [Hm|].
      * destruct (h b s e) as [[r s1] e1]. split; [right; naive_solver|].
        intros _ [Hx|(t0 & [=] & Hx)]; congruence.
      * split; [by left|]. intros _ [Hx|(t0 & [=] & Hx)]; congruence.
Qed.

End node_api_spec.

(** ** A concrete call *)

Definition still_ms : MillisClock := {| clock_ms _ := 1000 |}.

Definition sample_proc : Proc unit := mkProc sample_site Registry_new.

(** JSON for one request and its answer. *)
Definition get_json : JsonText := {|
  json_text b := match b with [(_, FDb _); (_, FText key)] => key | _ => EmptyString end;
  json_read text := Some [("db"%string, FDb cell_a); ("key"%string, FText text)];
  answer_text a := match a with RpcOk (DEntry (Some x)) => entry_value x | _ => "null"%string end;
  answer_read text := Some (RpcOk (DEntry (if decide (text = "null"%string) then None else Some (mkKvEntry text None))));
|}.

Lemma remote_is_local_witness :
  let '(r, s1, _) := run_client (remote_client (env := env_still) (H := decimal_uuid_text) (H0 := still_ms)
      (H1 := plain_files) (H2 := no_engine) (H3 := sample_images) (H4 := ascii_headers) (H5 := get_json) sample_config
      (fun s => s) (fun s => s) (Some "secret"%string) None (Some "secret"%string)) (XGet cell_a "k") sample_proc eff0 in
  seen_remotely (env := env_still) (H := decimal_uuid_text) true (run_client (local_client (env := env_still) (H := decimal_uuid_text) (H0 := still_ms)
      (H1 := plain_files) (H2 := no_engine) (H3 := sample_images) sample_config (fun s => s) (fun s => s))
      (XGet cell_a "k")) sample_proc eff0 r s1.
Proof.
  apply (remote_is_local (env := env_still) (H := decimal_uuid_text) (H0 := still_ms)
      (H1 := plain_files) (H2 := no_engine) (H3 := sample_images) (H4 := ascii_headers) (H5 := get_json) sample_config
      (fun s => s) (fun s => s) (XGet cell_a "k") (Some "secret"%string) None (Some "secret"%string) sample_proc eff0);
    [split; reflexivity|reflexivity|vm_compute; reflexivity].
Defined.
