(* ===== verification/Routing.v ===== *)
(** crates/api-server: [nodes.rs] (the registry of data nodes), the routing
    half of [client.rs] and [failover.rs]. The server's state holds what these
    keep, and the data-node processes it can reach, by address: a remote call
    runs the node's operation there, and may be lost on the way in or out. *)

From Stdlib Require Import ZArith Lia String Ascii.
From stdpp Require Import gmap strings list fin_maps.
From S2P Require Import Prelude Common Kv SqlGate Sql Cache Manager DataNode Catalog Ledger Billing Access Backup.

(** Instants are in nanoseconds. *)
Definition from_secs (n : Z) : Z := n * 1000000000.
Definition as_secs (d : Z) : Z := d / 1000000000.

Definition HEARTBEAT_TIMEOUT : Z := from_secs 10.
Definition PG_CACHE_TTL : Z := from_secs 3.
Definition ROUTE_CACHE_TTL : Z := from_secs 5.

Record NodeEntry := mkNodeEntry {
  ne_addr : string;
  ne_capacity : Z;
  ne_active_conns : Z;
  ne_last_heartbeat : Z;
  ne_registered_at : Z;
}.

Record NodeInfo := mkNodeInfo {
  ni_id : NodeId;
  ni_addr : string;
  ni_capacity : Z;
  ni_active_conns : Z;
  ni_healthy : bool;
  ni_age_secs : Z;
}.

(** [nr_shared]: the metadata store is the authority and [nr_inner] a cache. *)
Record NodeRegistry := mkNodeRegistry {
  nr_inner : gmap NodeId NodeEntry;
  nr_rr : Z;
  nr_shared : bool;
  nr_last_refresh : Z;
}.

(** A data-node client; a remote one knows the Cell whose route it drops when
    a call fails. *)
Inductive Client := LocalClient | RemoteClient (base : string) (on_error : option DatabaseId).

Record Server (U : Type) := mkServer {
  sv_api : Api;
  sv_registry : NodeRegistry;
  sv_clients : gmap NodeId Client;
  sv_routes : gmap DatabaseId (NodeId * Z);
  sv_nodes : gmap string (Node U);
  sv_local : option (Node U);
  sv_bucket : option (gmap string string);
}.
Arguments mkServer {U}.
Arguments sv_api {U}.
Arguments sv_registry {U}.
Arguments sv_clients {U}.
Arguments sv_routes {U}.
Arguments sv_nodes {U}.
Arguments sv_local {U}.
Arguments sv_bucket {U}.

Section updates.
Context {U : Type}.
Implicit Types s : Server U.

Definition set_api f s : Server U :=
  mkServer (f (sv_api s)) (sv_registry s) (sv_clients s) (sv_routes s) (sv_nodes s) (sv_local s) (sv_bucket s).
Definition set_registry f s : Server U :=
  mkServer (sv_api s) (f (sv_registry s)) (sv_clients s) (sv_routes s) (sv_nodes s) (sv_local s) (sv_bucket s).
Definition set_clients f s : Server U :=
  mkServer (sv_api s) (sv_registry s) (f (sv_clients s)) (sv_routes s) (sv_nodes s) (sv_local s) (sv_bucket s).
Definition set_routes f s : Server U :=
  mkServer (sv_api s) (sv_registry s) (sv_clients s) (f (sv_routes s)) (sv_nodes s) (sv_local s) (sv_bucket s).
Definition set_node (base : string) (n : Node U) (b : option (gmap string string)) s : Server U :=
  mkServer (sv_api s) (sv_registry s) (sv_clients s) (sv_routes s) (<[base := n]> (sv_nodes s)) (sv_local s) b.
Definition set_local (n : Node U) (b : option (gmap string string)) s : Server U :=
  mkServer (sv_api s) (sv_registry s) (sv_clients s) (sv_routes s) (sv_nodes s) (Some n) b.

End updates.

#[export] Instance server_has_api {U} : HasApi (Server U) := {| api_of := sv_api; put_api a := set_api (fun _ => a) |}.
#[export] Instance server_has_api_laws {U} : HasApiLaws (Server U).
Proof. split; [done|]. by intros []. Qed.

(** [base_url.trim_end_matches('/')] *)
Fixpoint drop_slashes (l : list ascii) : list ascii :=
  match l with
  | c :: l' => if decide (c = "/"%char) then drop_slashes l' else l
  | [] => []
  end.

Definition trim_slashes (s : string) : string :=
  String.string_of_list_ascii (rev (drop_slashes (rev (String.list_ascii_of_string s)))).

Section registry.
Context {env : Env} `{UuidText} {U : Type} `{Images U}.

Abbreviation SrvM := (M (Server U) CombeeError).

Definition set_inner f (r : NodeRegistry) : NodeRegistry :=
  mkNodeRegistry (f (nr_inner r)) (nr_rr r) (nr_shared r) (nr_last_refresh r).

Definition NodeRegistry_new (now : Z) : NodeRegistry := mkNodeRegistry ∅ 0 false now.
Definition NodeRegistry_with_pg (now : Z) : NodeRegistry := mkNodeRegistry ∅ 0 true (now - PG_CACHE_TTL).

(** ** nodes.rs *)

(** One record of the authority, as a cache entry. *)
Definition cache_record (now_unix : Z) (rec : DataNodeRecord) : SrvM unit :=
  let age := u64_saturating_sub now_unix (dn_last_heartbeat_at rec) in
  let! beat := read_instant in
  let! born := read_instant in
  modify (set_registry (set_inner <[dn_id rec :=
    mkNodeEntry (dn_addr rec) (dn_capacity rec) (dn_active_conns rec) (beat - from_secs age)
      (born - from_secs (u64_saturating_sub now_unix (dn_created_at rec)))]>)).

Definition ensure_fresh : SrvM unit :=
  let! shared := gets (fun s => nr_shared (sv_registry s)) in
  if negb shared then mret tt else
  let! now := read_instant in
  let! last := gets (fun s => nr_last_refresh (sv_registry s)) in
  if now - last <? PG_CACHE_TTL then mret tt else
  let! listed := attempt (on_directory list_data_nodes) in
  match listed with
  | Ok records =>
      let! now_unix := read_clock in
      do! modify (set_registry (set_inner (fun _ => ∅))) in
      do! mfor records (cache_record now_unix) in
      let! at_ := read_instant in
      modify (set_registry (fun r => mkNodeRegistry (nr_inner r) (nr_rr r) (nr_shared r) at_))
  | Err _ => mret tt
  end.

(** [if let Some(pg) = &self.pg { let _ = .. }] *)
Definition when_shared {A} (m : M Catalog CombeeError A) : SrvM unit :=
  let! shared := gets (fun s => nr_shared (sv_registry s)) in
  if shared : bool then ignore (on_directory m) else mret tt.

Definition register_with_id (id : option NodeId) (addr : string) (capacity : Z) : SrvM NodeId :=
  let! id := (match id with
              | Some i => mret i
              | None => let! u := fresh_uuid in mret (mkNodeId u)
              end) in
  let! now := read_instant in
  do! modify (set_registry (set_inner (fun g =>
        match g !! id with
        | Some e => <[id := mkNodeEntry addr capacity (ne_active_conns e) now (ne_registered_at e)]> g
        | None => <[id := mkNodeEntry addr capacity 0 now now]> g
        end))) in
  do! when_shared (upsert_data_node id addr capacity) in
  mret id.

Definition register (addr : string) (capacity : Z) : SrvM NodeId := register_with_id None addr capacity.

Definition heartbeat (id : NodeId) (active_conns : Z) : SrvM bool :=
  let! known := gets (fun s => nr_inner (sv_registry s) !! id) in
  match known with
  | Some e =>
      let! now := read_instant in
      do! modify (set_registry (set_inner
            <[id := mkNodeEntry (ne_addr e) (ne_capacity e) active_conns now (ne_registered_at e)]>)) in
      do! when_shared (heartbeat_data_node id active_conns) in
      mret true
  | None => mret false
  end.

Definition unregister (id : NodeId) : SrvM bool :=
  let! known := gets (fun s => nr_inner (sv_registry s) !! id) in
  match known with
  | Some _ =>
      do! modify (set_registry (set_inner (delete id))) in
      do! when_shared (unregister_data_node id) in
      mret true
  | None => mret false
  end.

(** [entry.last_heartbeat.elapsed() < HEARTBEAT_TIMEOUT], at the instant [now];
    [elapsed] saturates at zero. *)
Definition entry_healthy (now : Z) (e : NodeEntry) : bool :=
  Z.max 0 (now - ne_last_heartbeat e) <? HEARTBEAT_TIMEOUT.

Definition is_healthy (id : NodeId) : SrvM bool :=
  do! ensure_fresh in
  let! now := read_instant in
  gets (fun s => from_option (entry_healthy now) false (nr_inner (sv_registry s) !! id)).

Definition addr (id : NodeId) : SrvM (option string) :=
  do! ensure_fresh in
  let! now := read_instant in
  gets (fun s =>
    match nr_inner (sv_registry s) !! id with
    | Some e => if entry_healthy now e then Some (ne_addr e) else None
    | None => None
    end).

(** The healthy nodes in the order of the table; one reading of the clock
    stands for those of the entries. *)
Definition healthy : SrvM (list (NodeId * string)) :=
  do! ensure_fresh in
  let! now := read_instant in
  gets (fun s => (fun p : NodeId * NodeEntry => (p.1, ne_addr p.2)) <$>
    filter (fun p : NodeId * NodeEntry => entry_healthy now p.2 = true) (map_to_list (nr_inner (sv_registry s)))).

Definition pick : SrvM (option (NodeId * string)) :=
  let! nodes := healthy in
  if decide (nodes = []) then mret None else
  let! rr := gets (fun s => nr_rr (sv_registry s)) in
  do! modify (set_registry (fun r =>
        mkNodeRegistry (nr_inner r) (wrap_u64 (nr_rr r + 1)) (nr_shared r) (nr_last_refresh r))) in
  mret (nodes !! Z.to_nat (rr mod Z.of_nat (length nodes))).

Definition list_nodes : SrvM (list NodeInfo) :=
  do! ensure_fresh in
  let! now := read_instant in
  gets (fun s => (fun p : NodeId * NodeEntry =>
    mkNodeInfo p.1 (ne_addr p.2) (ne_capacity p.2) (ne_active_conns p.2) (entry_healthy now p.2)
      (as_secs (Z.max 0 (now - ne_registered_at p.2)))) <$> map_to_list (nr_inner (sv_registry s))).

(** ** client.rs: RoutingProvider *)

Definition invalidate_route (db : DatabaseId) : SrvM unit := modify (set_routes (delete db)).

Definition make_client (db : DatabaseId) (node_id : NodeId) (address : string) : SrvM Client :=
  let client := RemoteClient (trim_slashes address) (Some db) in
  do! modify (set_clients <[node_id := client]>) in
  mret client.

Definition unavailable (node : NodeId) : CombeeError :=
  Internal ("data node " +:+ uuid_to_string (node_uuid node) +:+ " unavailable").

Definition no_storage_node : CombeeError := Internal "database has no storage node assigned".

(** The part of [client_for] that asks the directory. *)
Definition client_from_authority (db : DatabaseId) : SrvM Client :=
  let! record := on_directory (get_database_by_id db) in
  match db_storage_node record with
  | Some node_id =>
      let! at_ := read_instant in
      do! modify (set_routes <[db := (node_id, at_)]>) in
      let! first := addr node_id in
      let! address :=
        (match first with
         | Some a => mret a
         | None =>
             do! invalidate_route db in
             let! rec2 := on_directory (get_database_by_id db) in
             match db_storage_node rec2 with
             | None => mfail no_storage_node
             | Some node2 =>
                 let! at2 := read_instant in
                 do! modify (set_routes <[db := (node2, at2)]>) in
                 let! second := addr node2 in
                 match second with Some a => mret a | None => mfail (unavailable node2) end
             end
         end) in
      make_client db node_id address
  | None =>
      let! local := gets sv_local in
      match local with Some _ => mret LocalClient | None => mfail no_storage_node end
  end.

Definition client_for (db : DatabaseId) : SrvM Client :=
  let! cached := gets (fun s => sv_routes s !! db) in
  match cached with
  | Some (node_id, at_) =>
      let! now := read_instant in
      if Z.max 0 (now - at_) <? ROUTE_CACHE_TTL then
        let! known := gets (fun s => sv_clients s !! node_id) in
        match known with
        | Some c => mret c
        | None =>
            let! a := addr node_id in
            match a with
            | Some a => make_client db node_id a
            | None => do! invalidate_route db in client_from_authority db
            end
        end
      else client_from_authority db
  | None => client_from_authority db
  end.

Definition client_for_node (node : NodeId) : SrvM Client :=
  let! a := addr node in
  match a with
  | None => mfail (unavailable node)
  | Some a =>
      let! known := gets (fun s => sv_clients s !! node) in
      match known with
      | Some c => mret c
      | None =>
          let client := RemoteClient (trim_slashes a) None in
          do! modify (set_clients <[node := client]>) in
          mret client
      end
  end.

(** ** client.rs: the calls *)

Definition notify_error (on_error : option DatabaseId) : SrvM unit :=
  match on_error with Some db => invalidate_route db | None => mret tt end.

(** A call that did not get through, or whose answer did not: the route is
    dropped, the caller sees an internal error. *)
Definition rpc_failed {A} (on_error : option DatabaseId) (path reason : string) : SrvM A :=
  do! notify_error on_error in
  mfail (Internal ("data node rpc " +:+ path +:+ ": " +:+ reason)).

(** Runs a node operation at the process of that address. *)
Definition at_node {A} (base : string) (n : Node U) (m : M (Site U) CombeeError A) : SrvM (Result A) :=
  fun s e => let '(r, t, e1) := m (mkSite n (sv_bucket s)) e in
    (Ok r, set_node base (site_node t) (bucket t) s, e1).

(** [RemoteDataNodeClient::call]: the request may be lost before the node sees
    it (or be refused, when its body is over the node's limit of 2 MB), nobody may listen at the address, and the answer may be lost after the
    node has done the work; a business error crosses as kind and message. *)
Definition rpc {A} (base : string) (on_error : option DatabaseId) (path : string)
    (m : M (Site U) CombeeError A) : SrvM A :=
  let! sent := attempt (fallible Internal) in
  let! node := gets (fun s => sv_nodes s !! base) in
  match sent, node with
  | Err _, _ => rpc_failed on_error path "send"
  | _, None => rpc_failed on_error path "connection refused"
  | Ok _, Some n =>
      let! r := at_node base n m in
      let! received := attempt (fallible Internal) in
      match received with
      | Err _ => rpc_failed on_error path "decode"
      | Ok _ =>
          let! u := fresh_uuid in
          mlift (into_result (mkDatabaseId u) (from_result r))
      end
  end.

(** [LocalDataNodeClient]: the node lives in this process. *)
Definition at_local {A} (m : M (Site U) CombeeError A) : SrvM A :=
  fun s e =>
    match sv_local s with
    | Some n => let '(r, t, e1) := m (mkSite n (sv_bucket s)) e in (r, set_local (site_node t) (bucket t) s, e1)
    | None => (Err no_storage_node, s, e)
    end.

Definition call {A} (c : Client) (path : string) (m : M (Site U) CombeeError A) : SrvM A :=
  match c with
  | LocalClient => at_local m
  | RemoteClient base on_error => rpc base on_error path m
  end.

(** ** failover.rs *)

Definition failover_cell (tenant : TenantId) (db : DatabaseId) : SrvM DatabaseRecord :=
  let! record := on_directory (get_database tenant db) in
  match db_replica_node record with
  | None => mfail (Internal ("cell " +:+ DatabaseId_to_string db +:+ " has no replica configured, cannot failover"))
  | Some replica =>
      let! replica_client := client_for_node replica in
      do! call replica_client "rpc/replicate" (replicate_from_primary db) in
      let! promoted := on_directory (promote_replica tenant db) in
      do! ignore (call replica_client "rpc/fence_cell" (on_node (fence_cell db (db_generation promoted)))) in
      do! invalidate_route db in
      do! (match db_storage_node record with
           | Some old =>
               if decide (old <> replica) then
                 let! c := attempt (client_for_node old) in
                 match c with
                 | Ok c => ignore (call c "rpc/fence_cell" (on_node (fence_cell db I64_MAX)))
                 | Err _ => mret tt
                 end
               else mret tt
           | None => mret tt
           end) in
      mret promoted
  end.

(** One round of [spawn_failover_scanner]. *)
Definition failover_scan : SrvM unit :=
  let! listed := attempt (on_directory list_all_databases) in
  match listed with
  | Err _ => mret tt
  | Ok records =>
      mfor records (fun rec =>
        match db_storage_node rec with
        | None => mret tt
        | Some primary =>
            match db_replica_node rec with
            | None => mret tt
            | Some _ =>
                let! up := is_healthy primary in
                if up : bool then mret tt else ignore (failover_cell (db_tenant rec) (db_id rec))
            end
        end)
  end.

End registry.
