(* ===== verification/RoutingSpec.v ===== *)
(** Placement, routing and failover: healthy nodes take turns, a route leads
    to the Cell's node, and after a failover the old primary refuses writes. *)

From Stdlib Require Import ZArith Lia String Ascii.
From stdpp Require Import gmap strings list fin_maps sorting.
From S2P Require Import Prelude Common Kv SqlGate Sql Cache Manager DataNode NodeInv NodeCapacity NodeSafety Catalog Ledger Billing Access Backup BackupSpec Routing.

(** ** Calls without faults *)

Section calls.
Context {env : Env} (Hfault : forall n, fault n = None).
Context `{UuidText} {U : Type} `{Images U}.
Implicit Types (s : Server U) (db : DatabaseId).

Abbreviation SrvM := (M (Server U) CombeeError).

Definition catalog_of s : Catalog := api_catalog (sv_api s).

Definition set_catalog (c : Catalog) s : Server U :=
  set_api (fun a => mkApi c (api_meter a) (inflight a)) s.

Lemma returns_directory {A} (m : M Catalog CombeeError A) s (Q : A -> Server U -> Prop) :
  returns m (catalog_of s) (fun a c => Q a (set_catalog c s)) -> returns (on_directory m) s Q.
Proof using Hfault.
  intros Hm. unfold on_directory, on_api, store_call. ret. eapply returns_weaken; [exact Hm|]. by intros a c HQ.
Qed.

(** The registry keeps its own table and the node's heartbeat is recent. *)
Definition alive s (node : NodeId) (address : string) : Prop :=
  nr_shared (sv_registry s) = false /\
  exists e, nr_inner (sv_registry s) !! node = Some e /\ ne_addr e = address /\
    forall k, entry_healthy (instant k) e = true.

Lemma returns_addr s node address (Q : option string -> Server U -> Prop) :
  alive s node address -> Q (Some address) s -> returns (addr node) s Q.
Proof.
  intros (Hsh & e & He & <- & Hh) HQ. unfold addr, ensure_fresh. ret. rewrite Hsh. simpl. ret. by rewrite He, Hh.
Qed.

(** The cached client of a node, if there is one, talks to the node's address. *)
Definition client_ok s (node : NodeId) (address : string) : Prop :=
  forall c, sv_clients s !! node = Some c -> exists h, c = RemoteClient (trim_slashes address) h.

Lemma returns_client_for_node s node address (Q : Client -> Server U -> Prop) :
  alive s node address -> client_ok s node address ->
  (forall h f, (f = id \/ f = <[node := RemoteClient (trim_slashes address) None]>) ->
     Q (RemoteClient (trim_slashes address) h) (set_clients f s)) ->
  returns (client_for_node node) s Q.
Proof.
  intros Ha Hc HQ. unfold client_for_node. apply returns_seq. eapply returns_addr; [done|]. ret.
  destruct (sv_clients s !! node) as [c|] eqn:E; ret.
  - destruct (Hc c E) as [h ->]. specialize (HQ h id ltac:(by left)). by destruct s.
  - apply HQ. by right.
Qed.

Lemma returns_rpc {A} s base h path n (m : M (Site U) CombeeError A) (Q : A -> Server U -> Prop) :
  sv_nodes s !! base = Some n ->
  returns m (mkSite n (sv_bucket s)) (fun a t => Q a (set_node base (site_node t) (bucket t) s)) ->
  returns (rpc base h path m) s Q.
Proof using Hfault.
  intros Hn Hm. unfold rpc. ret. rewrite Hn. apply returns_seq.
  intros e. destruct (Hm e) as (a & t & e1 & Hrun & HQ).
  exists (Ok a), (set_node base (site_node t) (bucket t) s), e1. unfold at_node. rewrite Hrun.
  split; [done|]. ret. intros e2. by eexists _, _, _.
Qed.

(** Downloading the newest round touches nothing but the Cell's file. *)
Lemma returns_restore_incr_any (t : Site U) db objs (Q : bool -> Site U -> Prop) :
  bucket t = Some objs ->
  (forall b n', generations n' = generations (site_node t) -> Q b (mkSite n' (Some objs))) ->
  returns (restore_from_incr db) t Q.
Proof using Hfault.
  intros Hb HQ. unfold restore_from_incr, latest_incr. apply returns_seq, returns_seq.
  eapply returns_list; [done|exact Hb|]. apply returns_ret.
  destruct (newest_round _) as [[snap wal]|] eqn:Hn.
  - apply newest_listed in Hn as [[[v Hsnap] _]%elem_of_listed Hwal].
    apply returns_seq. eapply returns_download; [done|exact Hb|exact Hsnap|].
    apply returns_install_main. intros c0. apply returns_seq. destruct wal as [k|].
    + destruct (proj1 (elem_of_listed _ _ _) (Hwal k eq_refl)) as [[w Hw] _].
      apply returns_seq. eapply returns_download; [done|exact Hb|exact Hw|]. unfold install_wal, on_node. ret.
      simpl. rewrite Hb. by apply HQ.
    + apply returns_remove_wal; [done|]. ret. simpl. rewrite Hb. by apply HQ.
  - ret. destruct t as [n b]. simpl in Hb. subst b. by apply HQ.
Qed.

Lemma returns_replicate (t : Site U) db objs (Q : bool -> Site U -> Prop) :
  bucket t = Some objs ->
  (forall b n', generations n' = generations (site_node t) -> Q b (mkSite n' (Some objs))) ->
  returns (replicate_from_primary db) t Q.
Proof using Hfault.
  intros Hb HQ. unfold replicate_from_primary, close_database, on_node, drop_conn, checkpoint.
  apply returns_seq. eapply returns_store; [exact Hb|]. ret.
  destruct (conns (site_node t) !! db); ret;
    (eapply returns_restore_incr_any; [exact Hb|]); intros b n2 Hg2;
    destruct b; unfold clear_cache; ret; apply HQ; simpl in *; congruence.
Qed.

End calls.

(** ** Failover *)

Section failover.
Context {env : Env} (Hfault : forall n, fault n = None).
Context `{UuidText} {U : Type} `{CellFiles U} `{SqlEngine U} `{Images U} (ncfg : DataNodeConfig).
Implicit Types (s : Server U) (db : DatabaseId).

(** A node the server talks to at an address of its own. *)
Record reachable s (node : NodeId) (address : string) : Prop := {
  re_alive : alive s node address;
  re_client : client_ok s node address;
  re_node : is_Some (sv_nodes s !! trim_slashes address);
}.

(** A node whose heartbeat is missing. *)
Definition silent s (node : NodeId) : Prop :=
  nr_shared (sv_registry s) = false /\
  forall k, from_option (entry_healthy (instant k)) false (nr_inner (sv_registry s) !! node) = false.

(** A Cell whose replica can take over: it is reachable, and there is an object
    store to catch up from. The primary is reachable or has gone silent, if
    there is one besides the replica. *)
Record can_fail_over s (tenant : TenantId) db (rec : DatabaseRecord) (replica : NodeId) (addr_new : string) : Prop := {
  cf_record : databases (catalog_of s) !! (tenant, db) = Some rec;
  cf_replica : db_replica_node rec = Some replica;
  cf_new : reachable s replica addr_new;
  cf_bucket : is_Some (sv_bucket s);
  cf_old : forall old, db_storage_node rec = Some old -> old <> replica ->
    silent s old \/ exists addr_old, reachable s old addr_old /\ trim_slashes addr_old <> trim_slashes addr_new;
}.

(** A Cell with a primary and a replica, both reachable at addresses of their
    own, and an object store. *)
Record failover_ready s (tenant : TenantId) db (rec : DatabaseRecord) (old replica : NodeId)
    (addr_old addr_new : string) : Prop := {
  fr_record : databases (catalog_of s) !! (tenant, db) = Some rec;
  fr_storage : db_storage_node rec = Some old;
  fr_replica : db_replica_node rec = Some replica;
  fr_distinct : old <> replica;
  fr_old : alive s old addr_old;
  fr_new : alive s replica addr_new;
  fr_old_client : client_ok s old addr_old;
  fr_new_client : client_ok s replica addr_new;
  fr_addresses : trim_slashes addr_old <> trim_slashes addr_new;
  fr_old_node : is_Some (sv_nodes s !! trim_slashes addr_old);
  fr_new_node : is_Some (sv_nodes s !! trim_slashes addr_new);
  fr_bucket : is_Some (sv_bucket s);
}.

Lemma ready_can_fail_over s tenant db rec old replica addr_old addr_new :
  failover_ready s tenant db rec old replica addr_old addr_new ->
  can_fail_over s tenant db rec replica addr_new /\ reachable s old addr_old.
Proof.
  intros []. split; [|done]. split; [done|done|done|done|]. intros old' Hold Hne. right. exists addr_old.
  replace old' with old by congruence. done.
Qed.

(** Its address is not found. *)
Lemma silent_client s node e : silent s node ->
  exists e', client_for_node node s e = (Err (unavailable node), s, e').
Proof.
  intros [Hsh Hno]. unfold client_for_node, addr, ensure_fresh, bind, gets, read_instant. rewrite Hsh. simpl.
  specialize (Hno (e_instant e)). destruct (nr_inner (sv_registry s) !! node) as [x|]; simpl in Hno; [rewrite Hno|];
    by eexists.
Qed.

Lemma returns_fence (t : Site U) db g (Q : unit -> Site U -> Prop) :
  Q tt (mkSite (set_generations <[db := g]> (site_node t)) (bucket t)) ->
  returns (on_node (fence_cell db g)) t Q.
Proof. intros HQ. unfold on_node, fence_cell. by ret. Qed.

(** The last step of a failover: the old primary is fenced, if it answers. *)
Lemma returns_fence_old (s : Server U) db old (Q : unit -> Server U -> Prop) :
  silent s old \/ (exists addr_old, reachable s old addr_old) ->
  (forall s', sv_api s' = sv_api s -> sv_routes s' = sv_routes s -> sv_registry s' = sv_registry s ->
     (forall base, (forall addr_old, reachable s old addr_old -> trim_slashes addr_old <> base) ->
        sv_nodes s' !! base = sv_nodes s !! base) ->
     (forall addr_old, reachable s old addr_old -> exists n_old,
        sv_nodes s' !! trim_slashes addr_old = Some n_old /\ generations n_old !! db = Some I64_MAX) -> Q tt s') ->
  returns (let! c := attempt (client_for_node old) in
           match c with
           | Ok c => ignore (call c "rpc/fence_cell" (on_node (fence_cell db I64_MAX)))
           | Err _ => mret tt
           end) s Q.
Proof using Hfault.
  intros [Hsil|[addr_old Hre]] HQ.
  - intros e. destruct (silent_client s old e Hsil) as (e' & Hc). unfold bind, attempt. rewrite Hc.
    eexists _, _, _. split; [reflexivity|]. apply HQ; [done..|]. intros addr_old Hre. exfalso.
    destruct Hsil as [_ Hno]. destruct (re_alive _ _ _ Hre) as (_ & x & Hx & _ & Hh).
    specialize (Hno 0%nat). rewrite Hx in Hno. simpl in Hno. by rewrite Hh in Hno.
  - pose proof Hre as [Ha Hc [n Hn]]. assert (forall a, reachable s old a -> a = addr_old) as Hone.
    { intros a [(_ & x & Hx & <- & _) _ _]. destruct Ha as (_ & y & Hy & <- & _). congruence. }
    apply returns_seq, returns_attempt, (returns_client_for_node _ _ addr_old); [done..|]. intros h f Hf.
    apply returns_ignore. eapply returns_rpc; [done|exact Hn|]. apply returns_fence. apply HQ; [done..| |].
    + intros base Hb. simpl. apply lookup_insert_ne. by apply Hb.
    + intros a Hra. rewrite (Hone a Hra). simpl. eexists. split; apply lookup_insert_eq.
Qed.

(** What a failover does to the server, in full, when [R] is what the
    catch-up leaves at the replica. *)
Lemma failover_run_any (R : Node U -> Prop) (s : Server U) (tenant : TenantId) db rec replica addr_new n_new :
  can_fail_over s tenant db rec replica addr_new ->
  sv_nodes s !! trim_slashes addr_new = Some n_new ->
  returns (replicate_from_primary db) (mkSite n_new (sv_bucket s)) (fun _ t => R (site_node t)) ->
  returns (failover_cell tenant db) s (fun promoted s' =>
    promoted = bump_generation (Some replica) None rec /\
    catalog_of s' = with_databases <[(tenant, db) := promoted]> (catalog_of s) /\
    sv_routes s' = delete db (sv_routes s) /\ sv_registry s' = sv_registry s /\
    (exists n1, R n1 /\
       sv_nodes s' !! trim_slashes addr_new = Some (set_generations <[db := db_generation promoted]> n1)) /\
    forall old addr_old, db_storage_node rec = Some old -> old <> replica -> reachable s old addr_old ->
      exists n_old, sv_nodes s' !! trim_slashes addr_old = Some n_old /\ generations n_old !! db = Some I64_MAX).
Proof using Hfault.
  intros [Hrec Hrep [Hnew Hcnew _] _ Hold] Hn_new Hcatch.
  unfold failover_cell. apply returns_seq, returns_directory; [done|].
  unfold get_database. ret. rewrite Hrec. ret. rewrite Hrep.
  apply returns_seq, (returns_client_for_node _ _ addr_new); [done..|]. intros h f Hf.
  set (s1 := set_clients f _). apply returns_seq. eapply returns_rpc; [done|exact Hn_new|].
  eapply returns_weaken; [exact Hcatch|]. intros b t1 HR.
  apply returns_seq, returns_directory; [done|]. unfold promote_replica, get_database, put_record.
  ret. match goal with |- returns (match ?x with _ => _ end) _ _ =>
    change x with (databases (catalog_of s) !! (tenant, db)) end.
  rewrite Hrec. ret. rewrite Hrep. ret.
  eapply returns_rpc; [done|apply lookup_insert_eq|]. apply returns_fence. unfold invalidate_route.
  apply returns_seq, returns_modify, returns_seq.
  match goal with |- returns _ ?t _ => set (s2 := t) end.
  assert (forall node a, node <> replica -> trim_slashes a <> trim_slashes addr_new ->
    reachable s node a -> reachable s2 node a) as Hkeep.
  { intros node a Hne Hb [Ha Hc Hn]. split; [done| |].
    - intros c Hcl. apply (Hc c). destruct Hf as [-> | ->]; [done|]. simpl in Hcl. by rewrite lookup_insert_ne in Hcl.
    - simpl. by rewrite !lookup_insert_ne by done. }
  assert (sv_nodes s2 !! trim_slashes addr_new =
    Some (set_generations <[db := db_generation (bump_generation (Some replica) None rec)]> (site_node t1))) as Hn2
    by apply lookup_insert_eq.
  destruct (db_storage_node rec) as [old|] eqn:Hst; [destruct (decide (old <> replica)) as [Hne|Hsame]|].
  - destruct (Hold old eq_refl Hne) as [Hsil|(a & Hre & Hb)].
    + apply returns_fence_old; [by left|]. intros s' E1 E2 E3 E4 E5. apply returns_ret. split; [done|].
      split; [unfold catalog_of; rewrite E1; done|]. split; [rewrite E2; done|]. split; [rewrite E3; done|].
      destruct Hsil as [Hsh Hno].
      assert (forall a', reachable s2 old a' -> False) as Hnot.
      { intros a' [(_ & x & Hx & _ & Hh) _ _]. specialize (Hno 0%nat). change (nr_inner (sv_registry s) !! old = Some x) in Hx.
        rewrite Hx in Hno. simpl in Hno. by rewrite Hh in Hno. }
      split; [exists (site_node t1); split; [exact HR|]; rewrite E4, Hn2; [done|]; intros a' Ha'; by destruct (Hnot a' Ha')|].
      intros old' a' [= <-] _ [(_ & x & Hx & _ & Hh) _ _]. exfalso. specialize (Hno 0%nat). rewrite Hx in Hno.
      simpl in Hno. by rewrite Hh in Hno.
    + pose proof (Hkeep _ _ Hne Hb Hre) as Hre2. apply returns_fence_old; [right; by exists a|].
      intros s' E1 E2 E3 E4 E5. apply returns_ret. split; [done|].
      split; [unfold catalog_of; rewrite E1; done|]. split; [rewrite E2; done|]. split; [rewrite E3; done|].
      assert (forall t a', nr_inner (sv_registry t) = nr_inner (sv_registry s) -> reachable t old a' -> a' = a) as Hone.
      { intros t a' Ht [(_ & x & Hx & <- & _) _ _]. destruct (re_alive _ _ _ Hre) as (_ & y & Hy & <- & _). congruence. }
      split; [exists (site_node t1); split; [exact HR|]; rewrite E4, Hn2; [done|]|].
      { intros a' Ha'. rewrite (Hone s2 a' eq_refl Ha'). done. }
      intros old' a' [= <-] _ Ha'. rewrite (Hone s a' eq_refl Ha'). by apply E5.
  - apply dec_stable in Hsame. subst old. ret. split_and!; try done; [by exists (site_node t1)|].
    by intros old' a' [= <-].
  - ret. split_and!; try done. by exists (site_node t1).
Qed.

Lemma failover_run_with (R : Node U -> Prop) (s : Server U) (tenant : TenantId) db rec old replica addr_old addr_new n_new :
  failover_ready s tenant db rec old replica addr_old addr_new ->
  sv_nodes s !! trim_slashes addr_new = Some n_new ->
  returns (replicate_from_primary db) (mkSite n_new (sv_bucket s)) (fun _ t => R (site_node t)) ->
  returns (failover_cell tenant db) s (fun promoted s' =>
    promoted = bump_generation (Some replica) None rec /\
    catalog_of s' = with_databases <[(tenant, db) := promoted]> (catalog_of s) /\
    sv_routes s' = delete db (sv_routes s) /\ sv_registry s' = sv_registry s /\
    exists n1 n_old,
      R n1 /\ sv_nodes s' !! trim_slashes addr_new = Some (set_generations <[db := db_generation promoted]> n1) /\
      sv_nodes s' !! trim_slashes addr_old = Some n_old /\ generations n_old !! db = Some I64_MAX).
Proof using Hfault.
  intros Hready Hn Hcatch. destruct (ready_can_fail_over _ _ _ _ _ _ _ _ Hready) as [Hcan Hre].
  eapply returns_weaken; [by apply (failover_run_any R _ _ _ _ _ _ _ Hcan Hn)|].
  intros promoted s' (Hp & Hc & Hr & Hg & (n1 & HR & Hn1) & Hold). do 4 (split; [done|]).
  destruct (Hold old addr_old (fr_storage _ _ _ _ _ _ _ _ Hready) (fr_distinct _ _ _ _ _ _ _ _ Hready) Hre)
    as (n_old & Hn2 & Hg2). by exists n1, n_old.
Qed.

Lemma failover_run (s : Server U) (tenant : TenantId) db rec old replica addr_old addr_new :
  failover_ready s tenant db rec old replica addr_old addr_new ->
  returns (failover_cell tenant db) s (fun promoted s' =>
    promoted = bump_generation (Some replica) None rec /\
    catalog_of s' = with_databases <[(tenant, db) := promoted]> (catalog_of s) /\
    sv_routes s' = delete db (sv_routes s) /\ sv_registry s' = sv_registry s /\
    exists n_new n_old,
      sv_nodes s' !! trim_slashes addr_new = Some n_new /\
      sv_nodes s' !! trim_slashes addr_old = Some n_old /\
      generations n_new !! db = Some (db_generation promoted) /\ generations n_old !! db = Some I64_MAX).
Proof using Hfault.
  intros Hready. pose proof (fr_new_node _ _ _ _ _ _ _ _ Hready) as [n_new Hn].
  pose proof (fr_bucket _ _ _ _ _ _ _ _ Hready) as [objs Hb].
  eapply returns_weaken.
  - apply (failover_run_with (fun _ => True) _ _ _ _ _ _ _ _ _ Hready Hn).
    eapply returns_replicate; [done|exact Hb|done].
  - intros promoted s' (-> & Hc & Hr & Hg & n1 & n_old & _ & Hn1 & Hn2 & Hn3). do 4 (split; [done|]).
    eexists _, _. split; [exact Hn1|]. split; [exact Hn2|]. split; [apply lookup_insert_eq|done].
Qed.

End failover.

(** ** Failover, whatever fails *)

Section any_faults.
Context {env : Env} `{UuidText} {U : Type} `{Images U}.
Implicit Types (s : Server U) (db : DatabaseId).

(** Neither the store nor the meter changes, and no route of [hidden] comes
    back. *)
Definition held (a : Api) (hidden : option DatabaseId) s (_ : Eff) : Prop :=
  sv_api s = a /\ forall db, hidden = Some db -> sv_routes s !! db = None.

Lemma held_env {A} a hidden (m : M (Server U) CombeeError A) :
  (forall s e, (m s e).1.2 = s) -> preserves (held a hidden) m.
Proof. intros Hm s e Hs. specialize (Hm s e). destruct (m s e) as [[r s'] e']. simpl in Hm. by subst s'. Qed.

Lemma held_registry a hidden f : preserves (held a hidden) (modify (E:=CombeeError) (set_registry f)).
Proof. by intros s e Hs. Qed.
Lemma held_clients a hidden f : preserves (held a hidden) (modify (E:=CombeeError) (set_clients f)).
Proof. by intros s e Hs. Qed.
Lemma held_routes a hidden db : preserves (held a hidden) (modify (E:=CombeeError) (set_routes (delete db))).
Proof.
  intros s e [Ha Hr]. split; [done|]. intros db' Hdb. simpl. apply lookup_delete_None. right. by apply Hr.
Qed.
Lemma held_fallible a hidden err : preserves (held a hidden) (fallible (E:=CombeeError) err).
Proof. apply held_env. intros s e. unfold fallible. by destruct (fault _). Qed.
Lemma held_instant a hidden : preserves (held a hidden) (read_instant (E:=CombeeError)).
Proof. by apply held_env. Qed.
Lemma held_clock a hidden : preserves (held a hidden) (read_clock (E:=CombeeError)).
Proof. by apply held_env. Qed.
Lemma held_uuid a hidden : preserves (held a hidden) (fresh_uuid (E:=CombeeError)).
Proof. by apply held_env. Qed.
Lemma held_mlift {A} a hidden (r : result CombeeError A) : preserves (held a hidden) (mlift r).
Proof. by apply held_env. Qed.

Lemma held_nodes a hidden : preserves (held a hidden) (on_directory list_data_nodes).
Proof.
  intros s e [Ha Hr]. unfold on_directory, on_api, zoom, store_call, bind, fallible.
  destruct (fault (e_call e)); (split; [|done]); simpl; rewrite Ha; by destruct a.
Qed.

#[local] Hint Resolve held_registry held_clients held_routes held_fallible held_instant held_clock held_uuid
  held_mlift held_nodes : combee.

Lemma held_client_for_node a hidden node : preserves (held a hidden) (client_for_node node).
Proof. unfold client_for_node, addr, ensure_fresh, cache_record. pres. Qed.

Lemma held_call {A} a hidden c path (m : M (Site U) CombeeError A) : preserves (held a hidden) (call c path m).
Proof.
  destruct c as [|base h]; simpl.
  - intros s e Hs. unfold at_local. destruct (sv_local s); [|done]. by destruct (m _ e) as [[r t] e1].
  - unfold rpc, rpc_failed, notify_error, invalidate_route. pres.
    intros s e Hs. unfold at_node. by destruct (m _ e) as [[r' t] e1].
Qed.

#[local] Hint Resolve held_client_for_node held_call : combee.

Lemma hoare_given {A} (P P' : Server U -> Eff -> Prop) (F : Prop) (m : M (Server U) CombeeError A) Q :
  (forall s e, P' s e -> P s e /\ F) -> (F -> hoare P m Q) -> hoare P' m Q.
Proof. intros HP Hm s e Hs. destruct (HP s e Hs) as [HPs HF]. by apply Hm. Qed.

(** After the promotion nothing can fail. *)
Lemma fences_hold a1 (rec1 : DatabaseRecord) c old (replica : NodeId) db :
  hoare (held a1 None)
    (do! ignore (call c "rpc/fence_cell" (on_node (fence_cell db (db_generation rec1)))) in
     do! invalidate_route db in
     do! (match old with
          | Some old =>
              if decide (old <> replica) then
                let! c := attempt (client_for_node old) in
                match c with
                | Ok c => ignore (call c "rpc/fence_cell" (on_node (fence_cell db I64_MAX)))
                | Err _ => mret tt
                end
              else mret tt
          | None => mret tt
          end) in
     mret rec1) (fun r t e => forall p, r = Ok p -> p = rec1 /\ held a1 (Some db) t e).
Proof.
  apply (hoare_bind _ _ _ (fun _ => held a1 None)); [|intros _|by intros].
  { apply (preserves_ignore (held a1 None)). apply held_call. }
  apply (hoare_bind _ _ _ (fun _ => held a1 (Some db))); [|intros _|by intros].
  { intros t e0 [Ha _]. split; [done|]. intros db' [= <-]. apply lookup_delete_eq. }
  apply (hoare_bind _ _ _ (fun _ => held a1 (Some db))); [|intros _ t e0 Ht p [= <-]; by split|by intros].
  match goal with |- hoare ?I ?m _ => change (preserves I m) end. pres.
Qed.

Lemma get_holds s tenant db :
  hoare (held (sv_api s) None) (on_directory (get_database tenant db))
    (fun r t e => forall rec, r = Ok rec ->
       held (sv_api s) None t e /\ databases (catalog_of s) !! (tenant, db) = Some rec).
Proof.
  intros t e [Ha _]. unfold on_directory, on_api, zoom, store_call, bind, fallible, get_database, bind, gets.
  destruct (fault (e_call e)); [done|]. simpl. rewrite Ha. change (api_catalog (sv_api s)) with (catalog_of s).
  destruct (databases (catalog_of s) !! (tenant, db)) as [rec|]; simpl; [|done]. intros rec' [= <-].
  split; [|done]. split; [|done]. simpl. unfold catalog_of. by destruct (sv_api s).
Qed.

Lemma promote_holds s tenant db rec replica :
  databases (catalog_of s) !! (tenant, db) = Some rec -> db_replica_node rec = Some replica ->
  let rec1 := bump_generation (Some replica) None rec in
  let a1 := mkApi (with_databases <[(tenant, db) := rec1]> (catalog_of s)) (api_meter (sv_api s)) (inflight (sv_api s)) in
  hoare (held (sv_api s) None) (on_directory (promote_replica tenant db))
    (fun r t e => forall p, r = Ok p -> p = rec1 /\ held a1 None t e).
Proof.
  intros Hrec Hrep rec1 a1 t e [Ha _].
  unfold on_directory, on_api, zoom, store_call, bind, fallible, promote_replica, get_database, bind, gets.
  destruct (fault (e_call e)); [by intros p|]. simpl. rewrite Ha. change (api_catalog (sv_api s)) with (catalog_of s).
  rewrite Hrec. simpl. rewrite Hrep. simpl. by intros p [= <-].
Qed.

(** A failover that is reported done has made the replica the primary. *)
Lemma failover_promotes s tenant db :
  hoare (held (sv_api s) None) (failover_cell tenant db) (fun r s' _ => forall promoted, r = Ok promoted ->
    exists rec replica, databases (catalog_of s) !! (tenant, db) = Some rec /\ db_replica_node rec = Some replica /\
      promoted = bump_generation (Some replica) None rec /\
      catalog_of s' = with_databases <[(tenant, db) := promoted]> (catalog_of s) /\ sv_routes s' !! db = None).
Proof.
  unfold failover_cell. eapply hoare_bind; [apply get_holds| |by intros err t e _ p].
  intros rec. apply (hoare_given (held (sv_api s) None) _ (databases (catalog_of s) !! (tenant, db) = Some rec));
    [by intros t e Ht; apply Ht|intros Hrec].
  destruct (db_replica_node rec) as [replica|] eqn:Hrep; [|by intros t e _ p].
  apply (hoare_bind _ _ _ (fun _ => held (sv_api s) None)); [apply held_client_for_node|intros c|by intros err t e _ p].
  apply (hoare_bind _ _ _ (fun _ => held (sv_api s) None)); [apply held_call|intros b|by intros err t e _ p].
  eapply hoare_bind; [by apply promote_holds| |by intros err t e _ p].
  intros p t e Ht. destruct (Ht p eq_refl) as [-> Hheld].
  pose proof (fences_hold _ (bump_generation (Some replica) None rec) c (db_storage_node rec) replica db t e Hheld) as Hlast.
  destruct (bind _ _ t e) as [[r t1] e1]. intros p ->. destruct (Hlast p eq_refl) as [-> [Ha Hr]].
  exists rec, replica. split_and!; try done; [|by apply Hr]. unfold catalog_of. by rewrite Ha.
Qed.

End any_faults.

Section failover_theorem.
Context {env : Env} `{UuidText} {U : Type} `{CellFiles U} `{SqlEngine U} `{Images U} (ncfg : DataNodeConfig).
Implicit Types (s : Server U) (db : DatabaseId).

(** A node that turns down every write to a Cell but those of one generation. *)
Definition refuses_but (g0 : Z) db (n : Node U) : Prop :=
  forall op g e, op_db op = Some db -> op_generation op = Some g -> g <> g0 ->
    exists msg, run_node ncfg op n e = (Err (Forbidden msg), n, e).


End failover_theorem.

Section reroute.
Context {env : Env} (Hfault : forall n, fault n = None).
Context `{UuidText} {U : Type} `{CellFiles U} `{SqlEngine U} `{Images U} (ncfg : DataNodeConfig).
Implicit Types (s : Server U) (db : DatabaseId).

(** The directory's answer for an id that only one tenant has. *)
Lemma returns_by_id (c : Catalog) tenant db rec (Q : DatabaseRecord -> Catalog -> Prop) :
  databases c !! (tenant, db) = Some rec -> db_id rec = db ->
  (forall k r, databases c !! k = Some r -> db_id r = db -> r = rec) ->
  Q rec c -> returns (get_database_by_id db) c Q.
Proof.
  intros Hrec Hid Honly HQ. unfold get_database_by_id. ret.
  destruct (List.find _ _) as [r|] eqn:Hf.
  - apply List.find_some in Hf as [Hin Hd%bool_decide_eq_true]. apply list_elem_of_In in Hin.
    apply list_elem_of_fmap in Hin as ([k r'] & -> & Hin). apply elem_of_map_to_list in Hin.
    rewrite (Honly k r' Hin Hd). by ret.
  - exfalso. assert (rec ∈ values (databases c)) as Hin.
    { apply list_elem_of_fmap. exists ((tenant, db), rec). by rewrite elem_of_map_to_list. }
    apply list_elem_of_In in Hin. apply (List.find_none _ _ Hf) in Hin.
    by rewrite bool_decide_eq_false in Hin.
Qed.

Lemma returns_client_for (s : Server U) tenant db rec node address (Q : Client -> Server U -> Prop) :
  sv_routes s !! db = None -> databases (catalog_of s) !! (tenant, db) = Some rec -> db_id rec = db ->
  (forall k r, databases (catalog_of s) !! k = Some r -> db_id r = db -> r = rec) ->
  db_storage_node rec = Some node -> alive s node address ->
  (forall t, let c := RemoteClient (trim_slashes address) (Some db) in
     Q c (set_clients <[node := c]> (set_routes <[db := (node, t)]> (set_catalog (catalog_of s) s)))) ->
  returns (client_for db) s Q.
Proof using Hfault.
  intros Hroute Hrec Hid Honly Hst Ha HQ. unfold client_for. ret. rewrite Hroute.
  unfold client_from_authority. apply returns_seq, returns_directory; [done|].
  apply (returns_by_id _ tenant _ rec); [done..|]. rewrite Hst. ret.
  apply (returns_addr _ _ address); [exact Ha|]. ret. unfold make_client. ret. apply HQ.
Qed.

(** After a failover requests go to the new primary: the next client of
    the Cell talks to the promoted node's address, although the old primary
    still answers and a route to it may have been cached. *)
Theorem failover_reroutes (s : Server U) (tenant : TenantId) db rec old replica addr_old addr_new :
  failover_ready s tenant db rec old replica addr_old addr_new -> db_id rec = db ->
  (forall k r, databases (catalog_of s) !! k = Some r -> db_id r = db -> k = (tenant, db)) ->
  returns (do! failover_cell tenant db in client_for db) s (fun c s' =>
    c = RemoteClient (trim_slashes addr_new) (Some db) /\
    exists t, sv_routes s' !! db = Some (replica, t)).
Proof using Hfault.
  intros Hready Hid Honly. pose proof (fr_new _ _ _ _ _ _ _ _ Hready) as Hnew.
  apply returns_seq. eapply returns_weaken; [by eapply failover_run|].
  intros promoted s' (-> & Hcat & Hroutes & Hreg & _).
  eapply (returns_client_for _ tenant _ (bump_generation (Some replica) None rec) replica addr_new).
  - rewrite Hroutes. apply lookup_delete_eq.
  - rewrite Hcat. apply lookup_insert_eq.
  - done.
  - intros k r. rewrite Hcat. simpl. intros [[<- <-]|[Hne Hl]]%lookup_insert_Some; [done|].
    intros Hr. by rewrite (Honly k r Hl Hr) in Hne.
  - done.
  - unfold alive in *. by rewrite Hreg.
  - intros t. split; [done|]. exists t. apply lookup_insert_eq.
Qed.

End reroute.

(** ** Placement *)

Section placement.
Context {env : Env} `{UuidText} {U : Type}.
Implicit Types (s : Server U) (nodes : list (NodeId * string)).

(** The registry keeps its own table, and [nodes] are the healthy ones, in
    table order, whenever one looks. *)
Definition stable s nodes : Prop :=
  nr_shared (sv_registry s) = false /\
  forall k, (fun p : NodeId * NodeEntry => (p.1, ne_addr p.2)) <$>
    filter (fun p : NodeId * NodeEntry => entry_healthy (instant k) p.2 = true)
      (map_to_list (nr_inner (sv_registry s))) = nodes.

Definition turn nodes (r : Z) : option (NodeId * string) :=
  nodes !! Z.to_nat (r mod Z.of_nat (length nodes)).

Lemma returns_pick s nodes (Q : option (NodeId * string) -> Server U -> Prop) :
  stable s nodes -> nodes <> [] ->
  (forall s', stable s' nodes -> nr_rr (sv_registry s') = wrap_u64 (nr_rr (sv_registry s) + 1) ->
     Q (turn nodes (nr_rr (sv_registry s))) s') ->
  returns pick s Q.
Proof.
  intros [Hsh Hn] Hne HQ. unfold pick, healthy, ensure_fresh. ret. rewrite Hsh. simpl. ret.
  rewrite Hn. rewrite decide_False by done. ret. apply HQ; [|done]. by split.
Qed.

Lemma returns_picks {A} (l : list A) s nodes r0 i :
  stable s nodes -> nodes <> [] -> nr_rr (sv_registry s) = r0 + Z.of_nat i -> 0 <= r0 ->
  r0 + Z.of_nat i + Z.of_nat (length l) <= 2 ^ 64 ->
  returns (mmap l (fun _ => pick)) s
    (fun picks _ => picks = (fun j => turn nodes (r0 + Z.of_nat j)) <$> seq i (length l)).
Proof.
  intros Hs Hne. revert s i Hs. induction l as [|x l IH]; intros s i Hs Hr H0 Hb; [simpl; ret; done|].
  simpl in Hb. simpl mmap. apply returns_seq, (returns_pick _ nodes); [done..|]. intros s1 Hs1 Hr1.
  apply returns_seq. destruct (decide (l = [])) as [->|Hl].
  { simpl. ret. by rewrite Hr. }
  eapply returns_weaken; [apply (IH s1 (S i) Hs1)|].
  - rewrite Hr1, Hr, wrap_u64_id; [lia|]. unfold is_u64, U64_MAX.
    assert (0 < length l)%nat by (destruct l; simpl; [done|lia]). lia.
  - done.
  - lia.
  - intros picks s2 ->. ret. simpl. by rewrite Hr.
Qed.

(** Placement is fair: as long as the healthy nodes stay the same, as many
    picks as there are healthy nodes give every one of them exactly once. *)
Theorem pick_round_robin s nodes :
  stable s nodes -> 0 <= nr_rr (sv_registry s) ->
  nr_rr (sv_registry s) + Z.of_nat (length nodes) <= 2 ^ 64 ->
  returns (mmap (seq 0 (length nodes)) (fun _ => pick)) s (fun picks _ => picks ≡ₚ Some <$> nodes).
Proof.
  intros Hs Hr Hb. destruct (decide (nodes = [])) as [->|Hne]; [simpl; ret; done|].
  eapply returns_weaken.
  { apply (returns_picks _ _ nodes (nr_rr (sv_registry s)) 0); [done|done|lia|done|].
    rewrite length_seq. lia. }
  intros picks s' ->. rewrite length_seq. set (r := nr_rr (sv_registry s)) in *.
  assert ((fun j => turn nodes (r + Z.of_nat j)) <$> seq 0 (length nodes) =
    Some <$> rotate (Z.to_nat r) nodes) as ->.
  { apply list_eq. intros j. rewrite !list_lookup_fmap.
    destruct (decide (j < length nodes)%nat) as [Hj|Hj].
    - rewrite lookup_seq_lt by done. simpl. rewrite lookup_rotate_r by done.
      assert (turn nodes (r + Z.of_nat j) = nodes !! rotate_nat_add (Z.to_nat r) j (length nodes)) as ->.
      { unfold turn, rotate_nat_add. by rewrite Z2Nat.id by done. }
      destruct (lookup_lt_is_Some_2 nodes (rotate_nat_add (Z.to_nat r) j (length nodes))) as [x ->]; [|done].
      apply rotate_nat_add_lt. lia.
    - rewrite lookup_seq_ge by lia.
      by rewrite (lookup_ge_None_2 (rotate _ _)) by (rewrite length_rotate; lia). }
  apply fmap_Permutation. unfold rotate. rewrite Permutation_app_comm. by rewrite take_drop.
Qed.

End placement.
