(* ===== verification/Agent.v ===== *)
(** A data node's membership: the agent of data-node/src/agent.rs, its replica
    duties (lib.rs, [spawn_replica_loop]), and the routes under /internal it
    calls (api-server/src/handlers/internal.rs). The state is a data node
    process, the disk file with its id, and the API server. *)

From Stdlib Require Import ZArith Lia String Ascii.
From stdpp Require Import gmap strings list fin_maps.
From S2P Require Import Prelude Common Kv SqlGate Sql Cache Manager DataNode Catalog Ledger Billing Access Backup Routing.

(** ** handlers/internal.rs *)

Section internal.
Context {env : Env} `{UuidText} {U : Type} `{Images U} `{HttpText}.
Variable acfg : ApiConfig.

Abbreviation SrvM := (M (Server U) CombeeError).

Definition internal_register (id : option NodeId) (address : string) (capacity : Z) : SrvM (Response NodeId) :=
  let! id := register_with_id id address capacity in
  mret (mkResponse 200 (inr id) (plain_body [])).

Definition status_only (found : bool) : Response unit :=
  if found then mkResponse 204 (inr tt) (plain_body []) else mkResponse 404 (inr tt) (plain_body []).

Definition internal_heartbeat (id : NodeId) (active_conns : Z) : SrvM (Response unit) :=
  let! found := heartbeat id active_conns in mret (status_only found).

Definition internal_unregister (id : NodeId) : SrvM (Response unit) :=
  let! found := unregister id in mret (status_only found).

Definition internal_list : SrvM (list NodeInfo) := list_nodes.

Definition internal_replicas (node : NodeId) : SrvM (list DatabaseId) :=
  let! records := on_directory (list_replicas_of node) in
  mret (db_id <$> records).

End internal.

(** ** agent.rs *)

Record AgentConfig := mkAgentConfig {
  ag_advertise_url : string;
  ag_capacity : Z;
  ag_control_token : option string;
}.

Record NodeAgent := mkNodeAgent { ag_id : option NodeId; ag_stopped : bool }.

(** [wd_file] is the content of the id file, which main.rs always names,
    [wd_agent] the running process. *)
Record World (U : Type) := mkWorld {
  wd_server : Server U;
  wd_agent : option NodeAgent;
  wd_file : option string;
}.
Arguments mkWorld {U}.
Arguments wd_server {U}.
Arguments wd_agent {U}.
Arguments wd_file {U}.

(** What becomes of writing the id file: [std::fs::write] truncates it first,
    so that a failed write leaves what got through. *)
Inductive DiskWrite := WriteOk | OpenFails | WriteFails (content : string).

Section agent.
Context {env : Env} `{UuidText} {U : Type} `{Images U} `{HttpText}.
Variable acfg : ApiConfig.
Variable gcfg : AgentConfig.

Abbreviation WorldM := (M (World U) string).

Definition set_agent (f : NodeAgent -> NodeAgent) (w : World U) : World U :=
  mkWorld (wd_server w) (f <$> wd_agent w) (wd_file w).
Definition set_file (c : option string) (w : World U) : World U := mkWorld (wd_server w) (wd_agent w) c.

Definition NodeId_to_string (id : NodeId) : string := uuid_to_string (node_uuid id).
Definition NodeId_from_str (s : string) : option NodeId := mkNodeId <$> uuid_from_str s.

Definition at_server {A} (m : M (Server U) CombeeError A) : WorldM (Result A) :=
  fun w e => let '(r, s, e1) := m (wd_server w) e in (Ok r, mkWorld s (wd_agent w) (wd_file w), e1).

Definition agent_request (method path : string) : Request :=
  mkRequest method path
    (match ag_control_token gcfg with Some t => [("x-control-token"%string, t)] | None => [] end) None (plain_body []).

Definition persist_id (d : DiskWrite) (id : NodeId) : WorldM unit :=
  match d with
  | WriteOk => modify (set_file (Some (NodeId_to_string id)))
  | OpenFails => mret tt
  | WriteFails content => modify (set_file (Some content))
  end.

Definition register_once (d : DiskWrite) : WorldM NodeId :=
  let! my_id := gets (fun w => a ← wd_agent w; ag_id a) in
  do! fallible (fun m => m) in
  let! resp := at_server (internal_auth acfg
    (fun _ => internal_register my_id (ag_advertise_url gcfg) (ag_capacity gcfg))
    (agent_request "POST" "/internal/nodes/register")) in
  do! fallible (fun m => m) in
  match resp with
  | Ok r =>
      if negb ((200 <=? rs_status r) && (rs_status r <? 300)) then mfail "register returned an error status"%string
      else
        match rs_content r with
        | inr id => do! persist_id d id in mret id
        | inl _ => mfail "decode"%string
        end
  | Err _ => mfail "register returned 500"%string
  end.

Definition agent_tick (d : DiskWrite) : WorldM unit :=
  let! r := attempt (register_once d) in
  match r with
  | Ok id => modify (set_agent (fun a => mkNodeAgent (Some id) (ag_stopped a)))
  | Err _ => mret tt
  end.

(** [NodeAgent::start]: the id of an earlier life, then a first tick. *)
Definition agent_start (readable : bool) (d : DiskWrite) : WorldM unit :=
  do! modify (fun w =>
    let persisted := if readable then (s ← wd_file w; NodeId_from_str s) else None in
    mkWorld (wd_server w) (Some (mkNodeAgent persisted false)) (wd_file w)) in
  agent_tick d.

(** One turn of [spawn_loop]. *)
Definition agent_loop (d : DiskWrite) : WorldM unit :=
  let! a := gets wd_agent in
  match a with
  | Some a => if ag_stopped a then mret tt else agent_tick d
  | None => mret tt
  end.

Definition agent_unregister : WorldM unit :=
  do! modify (set_agent (fun a => mkNodeAgent (ag_id a) true)) in
  let! id := gets (fun w => a ← wd_agent w; ag_id a) in
  match id with
  | None => mret tt
  | Some id =>
      ignore (
        do! fallible (fun m => m) in
        do! at_server (internal_auth acfg (fun _ => internal_unregister id)
              (agent_request "POST" "/internal/nodes/unregister")) in
        mret tt)
  end.

(** ** What happens to a node *)

Inductive NodeEvent :=
| EvStart (readable : bool) (d : DiskWrite)
| EvTick (d : DiskWrite)
| EvKill
| EvStop
| EvServerRestart.

(** [EvKill] is a crash, [EvStop] the shutdown of main.rs; a restarted server
    has an empty registry and empty caches. *)
Definition run_event (ev : NodeEvent) : WorldM unit :=
  match ev with
  | EvStart readable d => agent_start readable d
  | EvTick d => agent_loop d
  | EvKill => modify (fun w => mkWorld (wd_server w) None (wd_file w))
  | EvStop => do! agent_unregister in modify (fun w => mkWorld (wd_server w) None (wd_file w))
  | EvServerRestart =>
      let! now := read_instant in
      modify (fun w =>
        let s := wd_server w in
        let r := if nr_shared (sv_registry s) then NodeRegistry_with_pg now else NodeRegistry_new now in
        mkWorld (mkServer (sv_api s) r ∅ ∅ (sv_nodes s) (sv_local s) (sv_bucket s)) (wd_agent w) (wd_file w))
  end.

Fixpoint run_events (evs : list NodeEvent) (w : World U) (e : Eff) : World U * Eff :=
  match evs with
  | [] => (w, e)
  | ev :: rest => let '(_, w1, e1) := run_event ev w e in run_events rest w1 e1
  end.

End agent.

(** ** lib.rs: the duties of a replica *)

Section duties.
Context {env : Env} `{UuidText} {U : Type} `{Images U} `{HttpText}.
Variable acfg : ApiConfig.
Variable gcfg : AgentConfig.

(** One turn of [spawn_replica_loop] at a node with the given site: nothing
    before the registration, or when the list does not arrive. *)
Definition replica_duty (id : option NodeId) : M (Server U * Site U) CombeeError unit :=
  match id with
  | None => mret tt
  | Some node =>
      let! resp := attempt (
        do! fallible Internal in
        zoom fst (fun s p => (s, p.2)) (internal_auth acfg
          (fun _ => let! dbs := internal_replicas node in mret (mkResponse 200 (inr dbs) (plain_body [])))
          (agent_request gcfg "GET" ("/internal/nodes/" +:+ NodeId_to_string node +:+ "/replicas")))) in
      match resp with
      | Ok r =>
          match rs_content r with
          | inr dbs => zoom snd (fun t p => (p.1, t)) (replica_tick dbs)
          | inl _ => mret tt
          end
      | Err _ => mret tt
      end
  end.

End duties.
