(* ===== verification/AgentSpec.v ===== *)
(** What membership guarantees: a node gets registered as soon as the API
    server answers, and keeps its identity over crashes and restarts of either
    side; and what it does not do. *)

From Stdlib Require Import ZArith Lia String Ascii.
From stdpp Require Import gmap strings list fin_maps.
From S2P Require Import Prelude Common Kv SqlGate Sql Cache Manager DataNode Catalog Ledger Billing Access Backup Routing AccessSpec Agent.

Section agent_spec.
Context {env : Env} `{UuidText} {U : Type} `{HttpText}.
Variable acfg : ApiConfig.
Variable gcfg : AgentConfig.

(** ** The server's side *)

Definition counts_calls {S E A} (m : M S E A) : Prop := forall s e, (e_call e <= e_call (m s e).2)%nat.

Lemma upsert_counts id a cap : counts_calls (upsert_data_node id a cap).
Proof.
  intros c e. unfold upsert_data_node, now_unix, read_clock, bind, gets, modify.
  destruct (data_nodes c !! id); simpl; lia.
Qed.

Lemma unregister_counts id : counts_calls (unregister_data_node id).
Proof. intros c e. unfold unregister_data_node, bind, gets, modify, mret. simpl. lia. Qed.

(** The shared directory does not touch the registry. *)
Lemma when_shared_run {A} (m : M Catalog CombeeError A) (s : Server U) e :
  counts_calls m ->
  exists s' e', when_shared m s e = (Ok tt, s', e') /\ sv_registry s' = sv_registry s /\ (e_call e <= e_call e')%nat.
Proof.
  intros Hm. unfold when_shared, bind at 1, gets. destruct (nr_shared (sv_registry s)); [|by exists s, e].
  unfold ignore, on_directory, on_api, zoom, store_call, bind, fallible.
  destruct (fault (e_call e)); simpl.
  - eexists _, _. split; [reflexivity|]. split; [done|]. simpl. lia.
  - specialize (Hm (api_catalog (sv_api s)) (bump_call e)).
    destruct (m _ (bump_call e)) as [[r c] e1]. simpl in *. eexists _, _. split; [reflexivity|]. split; [done|]. lia.
Qed.

(** What registering an id does: an entry under it, nothing about any other. *)
Lemma register_run id a cap (s : Server U) e :
  exists s' e' at_ since,
    register_with_id (Some id) a cap s e = (Ok id, s', e') /\
    nr_inner (sv_registry s') =
      <[id := mkNodeEntry a cap (from_option ne_active_conns 0 (nr_inner (sv_registry s) !! id)) at_ since]>
        (nr_inner (sv_registry s)) /\
    at_ = instant (e_instant e) /\ (e_call e <= e_call e')%nat /\
    nr_shared (sv_registry s') = nr_shared (sv_registry s).
Proof.
  unfold register_with_id, bind at 1 2 3, mret at 1, read_instant, modify.
  destruct (when_shared_run (upsert_data_node id a cap) (set_registry (set_inner (fun g =>
    match g !! id with
    | Some e0 => <[id := mkNodeEntry a cap (ne_active_conns e0) (instant (e_instant e)) (ne_registered_at e0)]> g
    | None => <[id := mkNodeEntry a cap 0 (instant (e_instant e)) (instant (e_instant e))]> g
    end)) s) (bump_instant e) (upsert_counts id a cap)) as (s' & e' & Hrun & Hreg & Hcall).
  unfold bind. rewrite Hrun. simpl in *.
  destruct (nr_inner (sv_registry s) !! id) as [en|] eqn:Hid; eexists s', e', _, _;
    (split; [reflexivity|]); rewrite Hreg; simpl; rewrite Hid; by simpl.
Qed.

(** The request of the agent passes the guard when the tokens are the same. *)
Definition token_accepted : Prop :=
  match control_plane_token acfg with
  | None => True
  | Some t => ag_control_token gcfg = Some t /\ header_to_str t = Some t
  end.

Lemma agent_passes {S B} method path (next : Request -> M S CombeeError (Response B)) :
  token_accepted ->
  internal_auth acfg next (agent_request gcfg method path) = next (agent_request gcfg method path).
Proof.
  unfold token_accepted, internal_auth. intros Ht.
  assert (has_header "x-api-key" (agent_request gcfg method path) = false) as ->
    by (unfold agent_request; by destruct (ag_control_token gcfg)).
  destruct (control_plane_token acfg) as [t|]; [|done]. destruct Ht as [Ht Hs].
  assert (token_presented "x-control-token" t (agent_request gcfg method path) = true) as ->; [|done].
  unfold token_presented. apply orb_true_iff. right. unfold agent_request, header_text. rewrite Ht. simpl.
  rewrite Hs. by apply bool_decide_eq_true_2.
Qed.

Lemma internal_auth_cases {S B} (next : Request -> M S CombeeError (Response B)) req :
  internal_auth acfg next req = next req \/
  internal_auth acfg next req = mret (error_response 401 "unauthorized" "unauthorized").
Proof.
  unfold internal_auth, unauthorized. destruct (has_header _ _); [by right|].
  destruct (control_plane_token acfg); [|by left]. destruct (token_presented _ _ _); [by left|by right].
Qed.

(** The id a tick registers: the agent's own, or a new one. *)
Definition next_id (w : World U) (e : Eff) : NodeId :=
  default (mkNodeId (uuid_v4 (e_uuid e))) (a ← wd_agent w; ag_id a).

Lemma register_any id a cap (s : Server U) e :
  exists e1, register_with_id id a cap s e = register_with_id (Some (default (mkNodeId (uuid_v4 (e_uuid e))) id)) a cap s e1 /\
    e_call e1 = e_call e /\ e_instant e1 = e_instant e.
Proof. destruct id as [i|]; [by exists e|]. by exists (bump_uuid e). Qed.

(** ** A tick that gets through *)

(** A node that is up gets registered: from every state, when the API
    server accepts its token and the calls of one tick get through, after that
    tick the server has the node under its id, with its address and capacity,
    as healthy for the next ten seconds; the agent knows the id, and it is on
    disk. *)
Theorem tick_registers (a : NodeAgent) (w : World U) (e : Eff) :
  wd_agent w = Some a -> ag_stopped a = false -> token_accepted ->
  (forall n, (e_call e <= n)%nat -> fault n = None) ->
  exists w' e' id entry,
    run_event acfg gcfg (EvTick WriteOk) w e = (Ok tt, w', e') /\
    (forall i, ag_id a = Some i -> id = i) /\
    wd_agent w' = Some (mkNodeAgent (Some id) false) /\ wd_file w' = Some (NodeId_to_string id) /\
    nr_inner (sv_registry (wd_server w')) !! id = Some entry /\
    ne_addr entry = ag_advertise_url gcfg /\ ne_capacity entry = ag_capacity gcfg /\
    forall now, now < instant (e_instant e) + HEARTBEAT_TIMEOUT -> entry_healthy now entry = true.
Proof.
  intros Ha Hst Htok Hfault. destruct w as [s ag f]. simpl in Ha. subst ag.
  simpl. unfold agent_loop, bind at 1, gets. simpl. rewrite Hst.
  unfold agent_tick, attempt, register_once, bind at 1 2, gets. simpl.
  unfold bind at 1, fallible at 1. rewrite Hfault by lia. unfold bind at 1, at_server at 1. simpl.
  rewrite agent_passes by done. unfold internal_register, bind at 1.
  destruct (register_any (ag_id a) (ag_advertise_url gcfg) (ag_capacity gcfg) s (bump_call e)) as (e1 & -> & Hc1 & Hi1).
  set (id := default _ (ag_id a)).
  destruct (register_run id (ag_advertise_url gcfg) (ag_capacity gcfg) s e1)
    as (s' & e2 & at_ & since & Hrun & Hreg & Hat & Hc2 & _).
  rewrite Hrun. simpl. unfold bind at 1, fallible at 1. rewrite Hfault by (simpl in Hc1; lia). simpl.
  eexists _, _, id, _. split; [by destruct a; simpl in *; subst|].
  split; [unfold id; by intros i ->|]. split; [simpl; by rewrite Hst|]. split; [done|].
  split; [simpl; rewrite Hreg; apply lookup_insert_eq|]. split; [done|]. split; [done|].
  intros now Hnow. unfold entry_healthy. simpl. rewrite Hat, Hi1. simpl. unfold HEARTBEAT_TIMEOUT, from_secs in *. lia.
Qed.

(** ** Every run of a tick *)

(** Whatever is lost on the way: the registry gets at most an entry for the
    agent's id, and an agent that has an id gets no other. *)
Lemma register_once_run d (w : World U) e a :
  wd_agent w = Some a ->
  let '(r, w', _) := register_once acfg gcfg d w e in
  wd_agent w' = Some a /\
  (nr_inner (sv_registry (wd_server w')) = nr_inner (sv_registry (wd_server w)) \/
   exists id at_ since, nr_inner (sv_registry (wd_server w')) =
     <[id := mkNodeEntry (ag_advertise_url gcfg) (ag_capacity gcfg)
        (from_option ne_active_conns 0 (nr_inner (sv_registry (wd_server w)) !! id)) at_ since]>
       (nr_inner (sv_registry (wd_server w)))) /\
  match r with
  | Ok id => (forall i, ag_id a = Some i -> id = i) /\
      wd_file w' = match d with
                   | WriteOk => Some (NodeId_to_string id)
                   | OpenFails => wd_file w
                   | WriteFails c => Some c
                   end
  | Err _ => wd_file w' = wd_file w
  end.
Proof.
  intros Ha. destruct w as [s ag f]. simpl in Ha. subst ag.
  unfold register_once, bind at 1, gets. simpl. unfold bind at 1, fallible at 1.
  destruct (fault (e_call e)); [by eauto|]. unfold bind at 1, at_server at 1. simpl.
  destruct (internal_auth_cases (S:=Server U) (fun _ => internal_register (ag_id a) (ag_advertise_url gcfg) (ag_capacity gcfg))
    (agent_request gcfg "POST" "/internal/nodes/register")) as [->| ->].
  - unfold internal_register, bind at 1.
    destruct (register_any (ag_id a) (ag_advertise_url gcfg) (ag_capacity gcfg) s (bump_call e)) as (e1 & -> & _).
    set (id := default _ (ag_id a)).
    destruct (register_run id (ag_advertise_url gcfg) (ag_capacity gcfg) s e1)
      as (s' & e2 & at_ & since & Hrun & Hreg & _).
    rewrite Hrun. simpl. unfold bind at 1, fallible at 1. destruct (fault (e_call e2)); simpl; [by eauto 10|].
    unfold bind, persist_id. destruct d; simpl; (split; [done|]); (split; [by eauto|]);
      (split; [unfold id; by intros i ->|done]).
  - unfold mret, bind at 1, fallible at 1. simpl. destruct (fault _); simpl; by eauto.
Qed.

(** ** Identity *)

Definition has_identity (id : NodeId) (w : World U) : Prop :=
  wd_file w = Some (NodeId_to_string id) /\ forall a, wd_agent w = Some a -> ag_id a = Some id.

(** The id file can be read, and is not lost while it is written. *)
Definition disk_intact (ev : NodeEvent) : bool :=
  let kept d := match d with WriteFails _ => false | _ => true end in
  match ev with
  | EvStart readable d => readable && kept d
  | EvTick d => kept d
  | _ => true
  end.

Lemma tick_identity id d (w : World U) e a :
  (forall c, d <> WriteFails c) -> wd_agent w = Some a -> has_identity id w ->
  has_identity id (agent_tick acfg gcfg d w e).1.2.
Proof.
  intros Hd Ha [Hf Hag]. unfold agent_tick, attempt, bind.
  pose proof (register_once_run d w e a Ha) as Hrun. destruct (register_once acfg gcfg d w e) as [[r w'] e'].
  destruct Hrun as (Ha' & _ & Hr). specialize (Hag a Ha). destruct r as [id'|]; simpl.
  - destruct Hr as [Hid Hfile]. rewrite (Hid _ Hag) in *. split; simpl.
    + rewrite Hfile. destruct d; [done|done|by destruct (Hd content)].
    + rewrite Ha'. simpl. by intros a' [= <-].
  - split; [by rewrite Hr|]. intros a'. rewrite Ha'. by intros [= <-].
Qed.

Lemma at_server_keeps {A} (m : M (Server U) CombeeError A) (w : World U) e :
  wd_agent (at_server m w e).1.2 = wd_agent w /\ wd_file (at_server m w e).1.2 = wd_file w.
Proof. unfold at_server. by destruct (m (wd_server w) e) as [[r s] e1]. Qed.

Lemma unregister_file (w : World U) e : wd_file (agent_unregister acfg gcfg w e).1.2 = wd_file w.
Proof.
  unfold agent_unregister, bind at 1 2, modify, gets. simpl. destruct (_ ≫= _) as [id|]; [|done].
  unfold ignore, bind at 1, fallible. destruct (fault (e_call e)); [done|]. unfold bind.
  set (m := internal_auth _ _ _). set (w1 := set_agent _ _).
  pose proof (at_server_keeps m w1 (bump_call e)) as [_ Hf].
  destruct (at_server m w1 (bump_call e)) as [[[r|] w2] e2]; simpl in *; rewrite Hf; done.
Qed.

Context `{!UuidTextLaws}.

(** C35: a node keeps its identity: once its id is on disk, then over any
    sequence of crashes, shutdowns and starts of the node and restarts of the
    API server, with calls lost on the way in any pattern, the running agent
    has that id and registers no other, as long as the id file is readable and
    no write to it fails halfway. *)
Theorem identity_kept (id : NodeId) (evs : list NodeEvent) (w : World U) (e : Eff) :
  (node_uuid id < 2 ^ 128)%N -> has_identity id w -> forallb disk_intact evs = true ->
  has_identity id (run_events acfg gcfg evs w e).1.
Proof.
  intros Hid. revert w e. induction evs as [|ev evs IH]; intros w e Hw Hevs; [done|].
  simpl in Hevs. apply andb_true_iff in Hevs as [Hev Hevs]. simpl.
  assert (has_identity id (run_event acfg gcfg ev w e).1.2) as Hstep.
  { destruct ev as [readable d|d| | |]; simpl in *.
    - apply andb_true_iff in Hev as [-> Hd]. unfold agent_start, bind at 1, modify.
      eapply tick_identity; [by intros c ->|done|]. destruct Hw as [Hf _]. split; [done|]. simpl.
      rewrite Hf. simpl. unfold NodeId_from_str, NodeId_to_string. rewrite uuid_parse_print by done.
      destruct id. by intros a [= <-].
    - unfold agent_loop, bind, gets. destruct (wd_agent w) as [a|] eqn:Ha; [|done].
      destruct (ag_stopped a); [done|]. eapply tick_identity; [by intros c ->|exact Ha|done].
    - by destruct Hw.
    - unfold bind, modify. pose proof (unregister_file w e) as Hf. destruct Hw as [Hw _].
      destruct (agent_unregister acfg gcfg w e) as [[[u|] w1] e1] eqn:Hun; simpl in *.
      + split; [by rewrite Hf|done].
      + exfalso. clear -Hun. unfold agent_unregister, bind at 1 2, modify, gets, ignore, mret in Hun.
        destruct (_ ≫= _); [|done]. by destruct (bind _ _ _ _) as [[r w2] e2].
    - unfold bind, read_instant, modify. by destruct Hw. }
  destruct (run_event acfg gcfg ev w e) as [[r w1] e1]. by apply IH.
Qed.

(** ** What the agent does not do *)

Definition no_load (w : World U) : Prop :=
  forall id en, nr_inner (sv_registry (wd_server w)) !! id = Some en -> ne_active_conns en = 0.

(** Unregistering removes at most the node's entry. *)
Lemma unregister_registry (w : World U) e :
  exists f, nr_inner (sv_registry (wd_server (agent_unregister acfg gcfg w e).1.2)) = f (nr_inner (sv_registry (wd_server w))) /\
    forall g : gmap NodeId NodeEntry, f g ⊆ g.
Proof.
  unfold agent_unregister, bind at 1 2, modify, gets. simpl.
  destruct (_ ≫= _) as [id|]; [|by exists (fun g => g)].
  unfold ignore, bind at 1, fallible. destruct (fault (e_call e)); [by exists (fun g => g)|].
  unfold bind at 1, at_server. simpl.
  destruct (internal_auth_cases (S:=Server U) (fun _ => internal_unregister id)
    (agent_request gcfg "POST" "/internal/nodes/unregister")) as [->| ->]; [|by exists (fun g => g)].
  unfold internal_unregister, unregister, bind at 1 2, gets.
  destruct (nr_inner (sv_registry (wd_server w)) !! id); [|by exists (fun g => g)].
  unfold bind at 1, modify.
  destruct (when_shared_run (unregister_data_node id) (set_registry (set_inner (delete id)) (wd_server w))
    (bump_call e) (unregister_counts id)) as (s' & e' & Hrun & Hreg & _).
  unfold bind. rewrite Hrun. simpl. rewrite Hreg. exists (delete id). split; [done|]. intros g. apply delete_subseteq.
Qed.

Lemma tick_no_load d (w : World U) e a :
  wd_agent w = Some a -> no_load w -> no_load (agent_tick acfg gcfg d w e).1.2.
Proof.
  intros Ha Hn. unfold agent_tick, attempt, bind.
  pose proof (register_once_run d w e a Ha) as Hrun. destruct (register_once acfg gcfg d w e) as [[r w'] e'].
  destruct Hrun as (_ & Hreg & _).
  assert (no_load w') as Hn'.
  { intros id en. destruct Hreg as [->|(id' & at_ & since & ->)]; [by apply Hn|].
    intros [[<- <-]|[_ Hl]]%lookup_insert_Some; [|by eapply Hn]. simpl.
    destruct (nr_inner (sv_registry (wd_server w)) !! id') as [en|] eqn:Hl; [by eapply Hn|done]. }
  by destruct r.
Qed.

(** The load of a node never reaches the server: the agent only registers, and
    the heartbeat that carries the number of open connections is never sent;
    whatever happens, every node's count stays 0. *)
Theorem load_never_reported (evs : list NodeEvent) (w : World U) (e : Eff) :
  no_load w -> no_load (run_events acfg gcfg evs w e).1.
Proof.
  revert w e. induction evs as [|ev evs IH]; intros w e Hw; [done|]. simpl.
  assert (no_load (run_event acfg gcfg ev w e).1.2) as Hstep.
  { destruct ev as [readable d|d| | |]; simpl in *.
    - unfold agent_start, bind at 1, modify. by eapply tick_no_load.
    - unfold agent_loop, bind, gets. destruct (wd_agent w) as [a|] eqn:Ha; [|done].
      destruct (ag_stopped a); [done|]. by eapply tick_no_load.
    - done.
    - unfold bind, modify. pose proof (unregister_registry w e) as (f & Hf & Hsub).
      destruct (agent_unregister acfg gcfg w e) as [[[u|] w1] e1]; simpl in *; intros id en; simpl; rewrite Hf;
        intros Hl; eapply Hw, lookup_weaken; eauto.
    - unfold bind, read_instant, modify. intros id en. simpl.
      destruct (nr_shared _); simpl; by rewrite lookup_empty. }
  destruct (run_event acfg gcfg ev w e) as [[r w1] e1]. by apply IH.
Qed.

End agent_spec.

(** ** A concrete node *)

Definition agent_config : AgentConfig := mkAgentConfig "http://n1:9000" 100 (Some "ctl"%string).
Definition guarded_config : ApiConfig :=
  mkApiConfig AuthKey (Some "ctl"%string) None None QuotaConfig_default 0.
Definition node_world (a : option NodeAgent) (f : option string) : World unit :=
  mkWorld (mkServer sample_api (NodeRegistry_new 0) ∅ ∅ ∅ None None) a f.

(** A node killed while its id file was being rewritten comes back as another
    node: the old one stays in the registry, beside the new one. *)
Example identity_lost :
  let '(w, _) := run_events (env:=env_still) (H:=decimal_uuid_text) (H1:=ascii_headers) guarded_config agent_config
    [EvStart true WriteOk; EvTick (WriteFails EmptyString); EvKill; EvStart true WriteOk]
    (node_world None None) eff0 in
  ag_id <$> wd_agent w = Some (Some (mkNodeId 1)) /\
  elements (dom (nr_inner (sv_registry (wd_server w)))) ≡ₚ [mkNodeId 0; mkNodeId 1].
Proof. vm_compute. split; [done|]. apply perm_swap || done. Qed.

Lemma tick_registers_witness :
  exists w' e' id entry,
    run_event (env:=env_still) (H:=decimal_uuid_text) (H1:=ascii_headers) guarded_config agent_config (EvTick WriteOk)
      (node_world (Some (mkNodeAgent (Some (mkNodeId 7)) false)) None) eff0 = (Ok tt, w', e') /\
    id = mkNodeId 7 /\ nr_inner (sv_registry (wd_server w')) !! id = Some entry.
Proof.
  destruct (tick_registers (env:=env_still) (H:=decimal_uuid_text) (H0:=ascii_headers) guarded_config agent_config
    (mkNodeAgent (Some (mkNodeId 7)) false) (node_world (Some (mkNodeAgent (Some (mkNodeId 7)) false)) None) eff0
    eq_refl eq_refl (conj eq_refl eq_refl) (fun _ _ => eq_refl))
    as (w' & e' & id & entry & Hrun & Hid & _ & _ & Hreg & _).
  exists w', e', id, entry. split; [exact Hrun|]. split; [exact (Hid _ eq_refl)|exact Hreg].
Defined.

Lemma identity_kept_witness :
  has_identity (H:=decimal_uuid_text) (mkNodeId 7)
    (run_events (env:=env_still) (H:=decimal_uuid_text) (H1:=ascii_headers) guarded_config agent_config
      [EvKill; EvServerRestart; EvStart true WriteOk; EvTick OpenFails; EvStop; EvStart true WriteOk]
      (node_world (Some (mkNodeAgent (Some (mkNodeId 7)) false)) (Some "7"%string)) eff0).1.
Proof.
  apply (identity_kept (env:=env_still) (H:=decimal_uuid_text) (H0:=ascii_headers) guarded_config agent_config
    (H1 := decimal_uuid_laws)).
  - reflexivity.
  - split; [vm_compute; reflexivity|]. intros a Ha. injection Ha as <-. reflexivity.
  - reflexivity.
Defined.

Lemma load_never_reported_witness :
  no_load (run_events (env:=env_still) (H:=decimal_uuid_text) (H1:=ascii_headers) guarded_config agent_config
    [EvStart true WriteOk; EvTick WriteOk] (node_world None None) eff0).1.
Proof.
  apply (load_never_reported (env:=env_still) (H:=decimal_uuid_text) (H0:=ascii_headers) guarded_config agent_config).
  intros id en Hl. simpl in Hl. rewrite lookup_empty in Hl. discriminate.
Defined.
