(* ===== verification/Queries.v ===== *)
(** What the API server tells about itself: the usage routes
    (handlers/usage.rs), readiness and metrics (handlers/health.rs), the request
    log's metrics (logging.rs), the price list (handlers/credits.rs) and the
    lists of the operators (handlers/admin.rs, handlers/waitlist.rs). *)

From Stdlib Require Import ZArith Lia String Ascii SpecFloat.
From stdpp Require Import gmap strings list fin_maps sorting.
From S2P Require Import Prelude Common Kv SqlGate Sql Cache Manager DataNode Catalog Ledger Billing Access Backup Routing Metrics.

(** chrono: RFC 3339 to Unix seconds, and back ([None]: out of its range). *)
Class TimeText := {
  parse_from_rfc3339 : string -> option Z;
  from_timestamp_rfc3339 : Z -> option string;
}.

(** ** handlers/usage.rs: data *)

Record UsageQuery := mkUsageQuery {
  uq_from : option string;
  uq_to : option string;
  uq_metric : option string;
  uq_interval : option string;
}.

Record UsagePeriod := mkUsagePeriod { up_from : string; up_to : string }.

Record UsageOperations := mkUsageOperations { kv_reads : Z; kv_writes : Z; sql_reads : Z; sql_writes : Z }.

Record UsageSummary := mkUsageSummary {
  us_period : UsagePeriod;
  us_operations : UsageOperations;
  us_request_count : Z;
  us_bytes_in : Z;
  us_bytes_out : Z;
  us_current_storage_bytes : Z;
  us_storage_gb_hours : f64;
}.

Record TimeseriesPoint := mkTimeseriesPoint { tp_bucket_start : string; tp_value : Z }.

(** The local variables of [summarize]. *)
Record Totals := mkTotals {
  tot_ops : UsageOperations;
  tot_requests : Z;
  tot_bytes_in : Z;
  tot_bytes_out : Z;
  tot_storage_byte_secs : Z;
}.

(** [z as f64], and division. *)
Definition f64_of_Z (z : Z) : f64 := binary_normalize 53 1024 z 0 false.
Definition f64_div : f64 -> f64 -> f64 := SFdiv 53 1024.
Definition f64_mul : f64 -> f64 -> f64 := SFmul 53 1024.

Definition add_bucket (t : Totals) (b : UsageBucket) : Totals :=
  let o := tot_ops t in
  let v := ub_value b in
  match ub_metric b with
  | KvRead => mkTotals (mkUsageOperations (u64_add (kv_reads o) v) (kv_writes o) (sql_reads o) (sql_writes o))
      (tot_requests t) (tot_bytes_in t) (tot_bytes_out t) (tot_storage_byte_secs t)
  | KvWrite => mkTotals (mkUsageOperations (kv_reads o) (u64_add (kv_writes o) v) (sql_reads o) (sql_writes o))
      (tot_requests t) (tot_bytes_in t) (tot_bytes_out t) (tot_storage_byte_secs t)
  | SqlRead => mkTotals (mkUsageOperations (kv_reads o) (kv_writes o) (u64_add (sql_reads o) v) (sql_writes o))
      (tot_requests t) (tot_bytes_in t) (tot_bytes_out t) (tot_storage_byte_secs t)
  | SqlWrite => mkTotals (mkUsageOperations (kv_reads o) (kv_writes o) (sql_reads o) (u64_add (sql_writes o) v))
      (tot_requests t) (tot_bytes_in t) (tot_bytes_out t) (tot_storage_byte_secs t)
  | Requests => mkTotals o (u64_add (tot_requests t) v) (tot_bytes_in t) (tot_bytes_out t) (tot_storage_byte_secs t)
  | BytesIn => mkTotals o (tot_requests t) (u64_add (tot_bytes_in t) v) (tot_bytes_out t) (tot_storage_byte_secs t)
  | BytesOut => mkTotals o (tot_requests t) (tot_bytes_in t) (u64_add (tot_bytes_out t) v) (tot_storage_byte_secs t)
  | StorageBytes => t
  | StorageByteSecs =>
      mkTotals o (tot_requests t) (tot_bytes_in t) (tot_bytes_out t) (u64_add (tot_storage_byte_secs t) v)
  end.

Definition totals (buckets : list UsageBucket) : Totals :=
  foldl add_bucket (mkTotals (mkUsageOperations 0 0 0 0) 0 0 0 0) buckets.

Definition interval_secs (interval : string) : option Z :=
  if decide (interval = "minute"%string) then Some 60
  else if decide (interval = "hour"%string) then Some 3600
  else if decide (interval = "day"%string) then Some 86400
  else None.

(** [/] on [i64] truncates. *)
Definition merge_bucket (secs : Z) (m : gmap Z Z) (b : UsageBucket) : gmap Z Z :=
  let bucket := Z.quot (ub_bucket b) secs * secs in
  <[bucket := u64_add (default 0 (m !! bucket)) (ub_value b)]> m.

Definition timeseries (secs : Z) (buckets : list UsageBucket) : list (Z * Z) :=
  sort_by_key (fun p => (p.1, 0)) (map_to_list (foldl (merge_bucket secs) ∅ buckets)).

(** ** logging.rs *)

Definition op_segment `{UuidText} (prev p : string) : string :=
  match uuid_from_str p with
  | Some _ => "{id}"
  | None =>
      if bool_decide (prev = "kv"%string) && negb (bool_decide (p = "ops"%string)) then "{key}"
      else if bool_decide (prev = "by-name"%string) then "{name}"
      else p
  end.

Fixpoint op_segments `{UuidText} (prev : string) (segs : list string) : list string :=
  match segs with
  | [] => []
  | p :: rest => op_segment prev p :: op_segments p rest
  end.

Definition operation_name `{UuidText} (path : string) : string :=
  String.concat "." (op_segments EmptyString (path_segments path)).

Definition status_class (status : Z) : string :=
  if (200 <=? status) && (status <=? 299) then "2xx"
  else if (300 <=? status) && (status <=? 399) then "3xx"
  else if (400 <=? status) && (status <=? 499) then "4xx"
  else "5xx".

(** [Duration::as_secs_f64], of nanoseconds. *)
Definition as_secs_f64 (d : Z) : f64 :=
  f64_add (f64_of_Z (d / 1000000000)) (f64_div (f64_of_Z (d mod 1000000000)) (f64_of_Z 1000000000)).

(** ** credits.rs: the price list *)

Record PricingResponse := mkPricingResponse {
  pr_version : Z;
  pr_effective_at : Z;
  pr_units : gmap string (Z * Z * string);
}.

Definition price_per_unit (metric : UsageMetric) (unit_size price_units : Z) : string :=
  i64_to_string price_units +:+ " microcredits / " +:+ i64_to_string unit_size +:+ " " +:+ metric_as_str metric.

Definition get_pricing (cfg : PricingConfig) : PricingResponse :=
  mkPricingResponse (pc_version cfg) (pc_effective_at cfg)
    (list_to_map ((fun r : UsageMetric * (Z * Z) =>
      (metric_as_str r.1, (r.2.1, r.2.2, price_per_unit r.1 r.2.1 r.2.2))) <$> map_to_list (pc_rules cfg))).

(** ** The routes *)

Section queries.
Context {env : Env} `{UuidText} `{TimeText} {U : Type} `{CellFiles U} `{Images U}.

Abbreviation SrvM := (M (Server U) CombeeError).

Definition parse_time (s : string) : option Z := parse_from_rfc3339 s.

Definition resolve_range (q : UsageQuery) (now : Z) : Z * Z :=
  (default (i64_sub now 86400) (s ← uq_from q; parse_time s), default now (s ← uq_to q; parse_time s)).

Definition fmt_bucket (bucket : Z) : string := default EmptyString (from_timestamp_rfc3339 bucket).

Definition summarize (buckets : list UsageBucket) (from to : Z) : UsageSummary :=
  let t := totals buckets in
  mkUsageSummary (mkUsagePeriod (fmt_bucket from) (fmt_bucket to)) (tot_ops t) (tot_requests t) (tot_bytes_in t)
    (tot_bytes_out t) 0 (f64_div (f64_of_Z (tot_storage_byte_secs t)) (f64_of_Z BYTE_SECS_PER_GB_HOUR)).

(** [UsageMeter::query]: what is flushed, not what is pending. *)
Definition meter_query (tenant : TenantId) (cell : option DatabaseId) (metric : option UsageMetric) (from to : Z)
    : SrvM (list UsageBucket) :=
  on_accounts (query_usage tenant cell metric from to).

(** [client_for] and [storage_bytes], both of which may fail. *)
Definition current_storage (id : DatabaseId) : SrvM (Result Z) :=
  attempt (let! client := client_for id in
           call client "rpc/storage_bytes" (on_node (storage_bytes id))).

Definition set_storage (f : Z -> Z) (s : UsageSummary) : UsageSummary :=
  mkUsageSummary (us_period s) (us_operations s) (us_request_count s) (us_bytes_in s) (us_bytes_out s)
    (f (us_current_storage_bytes s)) (us_storage_gb_hours s).

Fixpoint add_storage (cells : list DatabaseRecord) (s : UsageSummary) : SrvM UsageSummary :=
  match cells with
  | [] => mret s
  | cell :: rest =>
      let! b := current_storage (db_id cell) in
      add_storage rest (match b with Ok b => set_storage (fun cur => u64_add cur b) s | Err _ => s end)
  end.

Definition usage_summary (auth : AuthContext) (q : UsageQuery) : SrvM UsageSummary :=
  let! now := read_clock in
  let '(from, to) := resolve_range q now in
  let! buckets := meter_query (auth_tenant auth) None None (bucket_start from) (bucket_start to) in
  let! cells := on_directory (list_databases (auth_tenant auth)) in
  add_storage cells (summarize buckets from to).

Definition usage_timeseries (auth : AuthContext) (q : UsageQuery) : SrvM (list TimeseriesPoint) :=
  match (s ← uq_metric q; metric_parse s) with
  | None => mfail (InvalidRequest "invalid or missing metric")
  | Some metric =>
      let! now := read_clock in
      let '(from, to) := resolve_range q now in
      let! buckets := meter_query (auth_tenant auth) None (Some metric) (bucket_start from) (bucket_start to) in
      let interval := default "minute"%string (uq_interval q) in
      match interval_secs interval with
      | None => mfail (InvalidRequest ("invalid interval: " +:+ interval))
      | Some secs => mret ((fun p : Z * Z => mkTimeseriesPoint (fmt_bucket p.1) p.2) <$> timeseries secs buckets)
      end
  end.

Definition cell_usage (auth : AuthContext) (id : DatabaseId) (q : UsageQuery) : SrvM UsageSummary :=
  do! on_directory (get_database (auth_tenant auth) id) in
  let! now := read_clock in
  let '(from, to) := resolve_range q now in
  let! buckets := meter_query (auth_tenant auth) (Some id) None (bucket_start from) (bucket_start to) in
  let summary := summarize buckets from to in
  let! b := current_storage id in
  mret (match b with Ok b => set_storage (fun _ => b) summary | Err _ => summary end).

(** ** handlers/admin.rs and handlers/waitlist.rs: lists *)

Definition admin_list_vouchers (limit : option Z) : SrvM (list CreditVoucher) :=
  on_accounts (list_vouchers (Z.max 1 (Z.min 1000 (default 100 limit)))).

Definition admin_list_pricing_versions : SrvM (list PricingVersion) := on_accounts list_pricing_versions.

Definition admin_list_waitlist (limit : option Z) : SrvM (list WaitlistEntry) :=
  on_directory (list_waitlist (default 100 limit)).

(** ** handlers/health.rs *)

Inductive Readiness := Ready | Degraded | NotReady.

Definition ready_status (r : Readiness) : Z := match r with NotReady => 503 | _ => 200 end.

Definition ready : SrvM Readiness :=
  let! up := attempt (on_directory (mret tt)) in
  match up with
  | Err _ => mret NotReady
  | Ok _ =>
      let! shared := gets (fun s => nr_shared (sv_registry s)) in
      if shared : bool then
        let! nodes := healthy in
        mret (if decide (nodes = []) then Degraded else Ready)
      else mret Ready
  end.

Abbreviation ObsM := (M (Server U * Registry) CombeeError).

Definition on_server {A} (m : SrvM A) : ObsM A := zoom fst (fun s p => (s, p.2)) m.
Definition on_metrics (f : Registry -> Registry) : ObsM unit := modify (fun p => (p.1, f p.2)).

Definition api_metrics : ObsM (list Piece) :=
  let! dbs := attempt (on_server (on_directory list_databases_all)) in
  do! (match dbs with
       | Ok dbs => on_metrics (gauge_set "combee_active_cells" [("service", "api")] (Z.of_nat (length dbs)))
       | Err _ => on_metrics (counter_inc "combee_postgres_errors_total"
                    [("service", "api"); ("error_class", "list_databases_all")])
       end)%string in
  gets (fun p => render p.2).

(** ** logging.rs: the middleware, up to the log lines *)

Definition request_logging {B} (next : Request -> ObsM (Response B)) (req : Request) : ObsM (Response B) :=
  let! started := read_instant in
  let operation := operation_name (rq_path req) in
  let! response := next req in
  let! stopped := read_instant in
  let latency_ms := f64_mul (as_secs_f64 (Z.max 0 (stopped - started))) (f64_of_Z 1000) in
  let labels := [("service", "api"); ("op", operation); ("status_class", status_class (rs_status response))]%string in
  do! on_metrics (counter_inc "combee_http_requests_total" labels) in
  do! on_metrics (histogram_observe "combee_request_duration_seconds"
        [("service", "api"); ("op", operation)]%string (f64_div latency_ms (f64_of_Z 1000))) in
  do! (if 500 <=? rs_status response then on_metrics (counter_inc "combee_http_errors_total" labels) else mret tt) in
  mret response.

End queries.
