(* ===== verification/QueriesSpec.v ===== *)
(** What the usage routes report is what the store holds: the counters of the
    summaries and the points of the series are exact, modulo the width of
    [u64]. *)

From Stdlib Require Import ZArith Lia String Ascii SpecFloat.
From stdpp Require Import gmap strings list fin_maps sorting.
From S2P Require Import Prelude Common Kv SqlGate Sql Cache Manager DataNode Catalog Ledger Billing Access Backup Routing Metrics AccessSpec Queries.

(** ** The counters of a summary *)

Definition total_of (m : UsageMetric) (t : Totals) : Z :=
  match m with
  | KvRead => kv_reads (tot_ops t)
  | KvWrite => kv_writes (tot_ops t)
  | SqlRead => sql_reads (tot_ops t)
  | SqlWrite => sql_writes (tot_ops t)
  | Requests => tot_requests t
  | BytesIn => tot_bytes_in t
  | BytesOut => tot_bytes_out t
  | StorageBytes => 0
  | StorageByteSecs => tot_storage_byte_secs t
  end.

Definition of_metric (m : UsageMetric) (b : UsageBucket) : bool := bool_decide (ub_metric b = m).

Lemma total_add m t b :
  m <> StorageBytes -> total_of m (add_bucket t b) = if of_metric m b then u64_add (total_of m t) (ub_value b) else total_of m t.
Proof.
  intros Hm. unfold of_metric, add_bucket. case_bool_decide as Hb.
  - subst m. by destruct (ub_metric b).
  - by destruct (ub_metric b), m.
Qed.

Lemma totals_exact m bs :
  m <> StorageBytes -> total_of m (totals bs) = wrap_u64 (sum_where (of_metric m) ub_value bs).
Proof.
  intros Hm. unfold totals.
  assert (forall t z, total_of m t = wrap_u64 z ->
    total_of m (foldl add_bucket t bs) = wrap_u64 (z + sum_where (of_metric m) ub_value bs)) as Hgen.
  { induction bs as [|b bs IH]; intros t z Ht; simpl; [by rewrite Z.add_0_r|].
    rewrite (IH _ (z + (if of_metric m b then ub_value b else 0))).
    - f_equal. lia.
    - rewrite total_add by done. destruct (of_metric m b); rewrite Ht; [apply u64_add_wrap|by rewrite Z.add_0_r]. }
  by apply (Hgen _ 0); destruct m.
Qed.

(** ** The points of a series *)

Definition slot (secs : Z) (b : UsageBucket) : Z := Z.quot (ub_bucket b) secs * secs.
Definition in_slot (secs ts : Z) (b : UsageBucket) : bool := bool_decide (slot secs b = ts).
Definition map_total (m : gmap Z Z) : Z := sum_where (fun _ => true) snd (map_to_list m).

Lemma map_total_insert (m : gmap Z Z) k v :
  map_total (<[k := v]> m) = map_total m - default 0 (m !! k) + v.
Proof.
  unfold map_total. rewrite <- insert_delete_eq, map_to_list_insert by apply lookup_delete_eq. simpl.
  destruct (m !! k) as [w|] eqn:Hk; simpl.
  - rewrite <- (map_to_list_delete m k w Hk). simpl. lia.
  - rewrite delete_id by done. lia.
Qed.

Lemma merge_lookup secs m b ts :
  merge_bucket secs m b !! ts =
  if in_slot secs ts b then Some (u64_add (default 0 (m !! ts)) (ub_value b)) else m !! ts.
Proof.
  unfold merge_bucket, in_slot, slot. case_bool_decide as Hk.
  - subst. by rewrite lookup_insert_eq.
  - by rewrite lookup_insert_ne.
Qed.

Lemma merge_exact secs bs (m : gmap Z Z) :
  (forall ts v, m !! ts = Some v -> wrap_u64 v = v) ->
  let m' := foldl (merge_bucket secs) m bs in
  (forall ts, wrap_u64 (default 0 (m' !! ts)) = default 0 (m' !! ts) /\
    default 0 (m' !! ts) = wrap_u64 (default 0 (m !! ts) + sum_where (in_slot secs ts) ub_value bs)) /\
  (forall ts, is_Some (m' !! ts) <-> is_Some (m !! ts) \/ exists b, b ∈ bs /\ slot secs b = ts) /\
  wrap_u64 (map_total m') = wrap_u64 (map_total m + sum_where (fun _ => true) ub_value bs).
Proof.
  revert m. induction bs as [|b bs IH]; intros m Hm; simpl.
  - split; [|split].
    + intros ts. rewrite Z.add_0_r. destruct (m !! ts) as [v|] eqn:Hv; simpl; [|done]. by rewrite (Hm ts v Hv).
    + intros ts. split; [by left|]. intros [?|(b & Hb & _)]; [done|by apply not_elem_of_nil in Hb].
    + by rewrite Z.add_0_r.
  - assert (forall ts v, merge_bucket secs m b !! ts = Some v -> wrap_u64 v = v) as Hm'.
    { intros ts v. rewrite merge_lookup. destruct (in_slot secs ts b); [|by apply Hm].
      intros [= <-]. apply wrap_u64_id. apply wrap_u64_range. }
    destruct (IH _ Hm') as (Hv & Hd & Ht). split; [|split].
    + intros ts. destruct (Hv ts) as [Hr ->]. split; [apply wrap_u64_id, wrap_u64_range|].
      rewrite merge_lookup. destruct (in_slot secs ts b); simpl; [|done].
      unfold u64_add, wrap_u64. rewrite Zplus_mod_idemp_l. f_equal. lia.
    + intros ts. rewrite Hd, merge_lookup. unfold in_slot. case_bool_decide as Hs.
      * split; [|by left; eauto]. intros _. right. exists b. split; [by left|done].
      * split; [intros [?|(b' & ? & ?)]; [by left|right; exists b'; split; [by right|done]]|].
        intros [?|(b' & [->|?]%elem_of_cons & ?)]; [by left|done|right; eauto].
    + rewrite Ht. unfold merge_bucket at 1. rewrite map_total_insert. unfold u64_add, wrap_u64.
      set (k := Z.quot _ _ * _). set (d := default 0 (m !! k)).
      rewrite <- (Zplus_mod_idemp_l (map_total m - d + _)), <- (Zplus_mod_idemp_r _ (map_total m - d)), Zmod_mod,
        Zplus_mod_idemp_r, Zplus_mod_idemp_l. f_equal. lia.
Qed.

Lemma strictly_sorted (l : list Z) : StronglySorted Z.le l -> NoDup l -> StronglySorted Z.lt l.
Proof.
  induction 1 as [|x l Hl IH Hx]; intros Hnd; constructor.
  - apply IH. by inversion Hnd.
  - apply NoDup_cons in Hnd as [Hnx _]. rewrite Forall_forall in Hx |- *. intros y Hy. specialize (Hx y Hy).
    destruct (decide (x = y)) as [->|]; [done|lia].
Qed.

Lemma sorted_times secs bs : StronglySorted Z.lt (timeseries secs bs).*1.
Proof.
  unfold timeseries, sort_by_key. set (m := foldl _ _ _).
  apply strictly_sorted.
  - assert (StronglySorted (by_key (fun p : Z * Z => (p.1, 0))) (merge_sort (by_key (fun p => (p.1, 0))) (map_to_list m)))
      as Hs.
    { apply StronglySorted_merge_sort.
      - intros a b c. unfold by_key, lex_le. simpl. lia.
      - intros a b. unfold by_key, lex_le. simpl. lia. }
    induction Hs as [|x l Hl IH Hx]; simpl; constructor; [done|].
    rewrite Forall_fmap. eapply Forall_impl; [exact Hx|]. intros y. unfold by_key, lex_le. simpl. lia.
  - rewrite (merge_sort_Permutation (by_key (fun p : Z * Z => (p.1, 0))) (map_to_list m)). apply NoDup_fst_map_to_list.
Qed.

(** ** What the store holds *)

(** The flushed usage of a tenant (in a Cell, or in all of them) of one kind,
    from the minute [from] to the minute [to], both included. *)
Definition stored (l : Ledger) (tenant : TenantId) (cell : option DatabaseId) (m : UsageMetric) (from to : Z) : Z :=
  sum_where (fun kv => usage_selected tenant cell (Some m) from to kv.1) snd (map_to_list (usage l)).

(** The same, of the minutes of one interval only. *)
Definition stored_in (l : Ledger) (tenant : TenantId) (m : UsageMetric) (from to secs ts : Z) : Z :=
  sum_where (fun kv => usage_selected tenant None (Some m) from to kv.1 &&
    bool_decide (Z.quot (uk_bucket kv.1) secs * secs = ts)) snd (map_to_list (usage l)).

Definition buckets_of (l : Ledger) tenant cell metric from to : list UsageBucket :=
  (fun kv : UsageKey * Z => mkUsageBucket (uk_tenant kv.1) (uk_cell kv.1) (uk_metric kv.1) (uk_bucket kv.1) kv.2) <$>
  filter (fun kv => usage_selected tenant cell metric from to kv.1 = true) (map_to_list (usage l)).

Lemma query_usage_run tenant cell metric from to l e :
  exists bs, query_usage tenant cell metric from to l e = (Ok bs, l, e) /\ bs ≡ₚ buckets_of l tenant cell metric from to.
Proof.
  eexists. split; [reflexivity|]. apply merge_sort_Permutation.
Qed.

Lemma buckets_where (P : UsageBucket -> bool) l tenant cell metric from to :
  sum_where P ub_value (buckets_of l tenant cell metric from to) =
  sum_where (fun kv : UsageKey * Z => usage_selected tenant cell metric from to kv.1 &&
    P (mkUsageBucket (uk_tenant kv.1) (uk_cell kv.1) (uk_metric kv.1) (uk_bucket kv.1) kv.2)) snd (map_to_list (usage l)).
Proof.
  unfold buckets_of. rewrite sum_where_fmap, sum_where_filter. apply sum_where_ext. intros kv. simpl.
  f_equal. by destruct (usage_selected _ _ _ _ _ _).
Qed.

Lemma selected_metric tenant cell m from to k :
  usage_selected tenant cell None from to k && bool_decide (uk_metric k = m) =
  usage_selected tenant cell (Some m) from to k.
Proof.
  unfold usage_selected. destruct (bool_decide (uk_tenant k = tenant)), (bool_decide (uk_metric k = m)),
    (from <=? uk_bucket k), (uk_bucket k <=? to), cell as [c|]; simpl; try done; by destruct (bool_decide _).
Qed.

Lemma totals_stored m l tenant cell from to bs :
  m <> StorageBytes -> bs ≡ₚ buckets_of l tenant cell None from to ->
  total_of m (totals bs) = wrap_u64 (stored l tenant cell m from to).
Proof.
  intros Hm Hbs. rewrite totals_exact by done. f_equal. rewrite Hbs, buckets_where. unfold stored.
  apply sum_where_ext. intros kv. apply selected_metric.
Qed.

(** A tenant's usage is that of its Cells and of what is of no Cell. *)
Theorem usage_splits_by_cell (l : Ledger) (tenant : TenantId) (m : UsageMetric) (from to : Z) (cells : list DatabaseId) :
  NoDup cells ->
  (forall k v c, usage l !! k = Some v -> uk_tenant k = tenant -> uk_cell k = Some c -> c ∈ cells) ->
  stored l tenant None m from to =
  sum_where (fun kv => usage_selected tenant None (Some m) from to kv.1 && bool_decide (uk_cell kv.1 = None)) snd
    (map_to_list (usage l)) +
  foldr (fun c acc => stored l tenant (Some c) m from to + acc) 0 cells.
Proof.
  intros Hnd Hin. unfold stored at 1. rewrite (sum_where_split _ _ (fun kv : UsageKey * Z => uk_cell kv.1) (None :: (Some <$> cells))).
  - cbn [foldr]. f_equal; [apply sum_where_ext; intros kv; f_equal; by apply bool_decide_ext|].
    clear Hnd Hin. induction cells as [|c cells IH]; simpl; [done|].
    f_equal; [|apply IH]. unfold stored. apply sum_where_ext. intros [k v]. simpl. unfold usage_selected.
    repeat case_bool_decide; simpl; try done; destruct (from <=? uk_bucket k), (uk_bucket k <=? to); done.
  - constructor; [|by apply (NoDup_fmap_2 Some)]. intros (c & Hc & _)%list_elem_of_fmap. done.
  - intros [k v] Hkv%elem_of_map_to_list Hsel. simpl in *. apply elem_of_cons.
    destruct (uk_cell k) as [c|] eqn:Hc; [right|by left]. apply list_elem_of_fmap. exists c. split; [done|].
    eapply Hin; eauto. unfold usage_selected in Hsel.
    do 4 apply andb_true_iff in Hsel as [Hsel _]. by apply bool_decide_eq_true in Hsel.
Qed.

(** ** The routes *)

Section routes.
Context {env : Env} `{UuidText} `{TimeText} {U : Type} `{CellFiles U} `{Images U}.

Definition server_ledger (s : Server U) : Ledger := sink (api_meter (sv_api s)).

(** The counter of a metric in a summary; the gauge of [StorageBytes] has none,
    and byte-seconds are converted. *)
Definition reported (m : UsageMetric) (s : UsageSummary) : option Z :=
  match m with
  | KvRead => Some (kv_reads (us_operations s))
  | KvWrite => Some (kv_writes (us_operations s))
  | SqlRead => Some (sql_reads (us_operations s))
  | SqlWrite => Some (sql_writes (us_operations s))
  | Requests => Some (us_request_count s)
  | BytesIn => Some (us_bytes_in s)
  | BytesOut => Some (us_bytes_out s)
  | StorageBytes | StorageByteSecs => None
  end.

Definition gb_hours (byte_secs : Z) : f64 := f64_div (f64_of_Z byte_secs) (f64_of_Z BYTE_SECS_PER_GB_HOUR).

Definition summary_exact (l : Ledger) tenant cell from to (s : UsageSummary) : Prop :=
  (forall m v, reported m s = Some v -> v = wrap_u64 (stored l tenant cell m (bucket_start from) (bucket_start to))) /\
  us_storage_gb_hours s =
    gb_hours (wrap_u64 (stored l tenant cell StorageByteSecs (bucket_start from) (bucket_start to))) /\
  us_period s = mkUsagePeriod (fmt_bucket from) (fmt_bucket to).

Lemma summarize_exact l tenant cell from to bs :
  bs ≡ₚ buckets_of l tenant cell None (bucket_start from) (bucket_start to) ->
  summary_exact l tenant cell from to (summarize bs from to).
Proof.
  intros Hbs. split; [|split; [|done]].
  - intros m v Hv. rewrite <- (totals_stored m _ _ _ _ _ bs) by (done || by intros ->).
    by destruct m; simplify_eq/=.
  - unfold gb_hours. by rewrite <- (totals_stored StorageByteSecs _ _ _ _ _ bs).
Qed.

Lemma set_storage_exact l tenant cell from to f s :
  summary_exact l tenant cell from to s -> summary_exact l tenant cell from to (set_storage f s).
Proof. intros (Hm & Hg & Hp). split; [|done]. intros m v Hv. apply Hm. by destruct m. Qed.

Lemma current_storage_ok id (s : Server U) e : exists r s' e', current_storage id s e = (Ok r, s', e').
Proof. unfold current_storage, attempt. destruct (bind _ _ s e) as [[r s'] e']. eauto. Qed.

Lemma add_storage_ok cells sum l tenant cell from to (s : Server U) e :
  summary_exact l tenant cell from to sum ->
  exists sum' s' e', add_storage cells sum s e = (Ok sum', s', e') /\ summary_exact l tenant cell from to sum'.
Proof.
  revert sum s e. induction cells as [|c cells IH]; intros sum s e Hsum; simpl; [by eexists _, _, _|].
  unfold bind. destruct (current_storage_ok (db_id c) s e) as (r & s' & e' & ->). apply IH.
  destruct r; [by apply set_storage_exact|done].
Qed.

(** A call of the store that reads: its value, or the fault. *)
Lemma accounts_read {A} (m : M Ledger CombeeError A) (s : Server U) e :
  (exists msg, fault (e_call e) = Some msg /\ on_accounts m s e = (Err (Internal msg), s, bump_call e)) \/
  (fault (e_call e) = None /\ forall a, m (server_ledger s) (bump_call e) = (Ok a, server_ledger s, bump_call e) ->
     on_accounts m s e = (Ok a, s, bump_call e)).
Proof.
  unfold on_accounts, on_api, zoom, store_call, bind, fallible, server_ledger.
  destruct (fault (e_call e)) as [msg|] eqn:Hf; [left|right].
  - exists msg. split; [done|]. by destruct s as [[? [] ?] ? ? ? ? ? ?].
  - split; [done|]. intros a Ha. simpl in *. rewrite Ha. by destruct s as [[? [] ?] ? ? ? ? ? ?].
Qed.

Lemma directory_read {A} (f : Catalog -> A) (s : Server U) e :
  (exists msg, fault (e_call e) = Some msg /\ on_directory (gets f) s e = (Err (Internal msg), s, bump_call e)) \/
  (fault (e_call e) = None /\ on_directory (gets f) s e = (Ok (f (api_catalog (sv_api s))), s, bump_call e)).
Proof.
  unfold on_directory, on_api, zoom, store_call, bind, fallible, gets.
  destruct (fault (e_call e)) as [msg|] eqn:Hf; [left; exists msg|right]; (split; [done|]);
    by destruct s as [[? ? ?] ? ? ? ? ? ?].
Qed.

Lemma query_cases tenant cell metric from to (s : Server U) e :
  (exists msg, fault (e_call e) = Some msg /\ meter_query tenant cell metric from to s e = (Err (Internal msg), s, bump_call e)) \/
  (fault (e_call e) = None /\ exists bs, meter_query tenant cell metric from to s e = (Ok bs, s, bump_call e) /\
    bs ≡ₚ buckets_of (server_ledger s) tenant cell metric from to).
Proof.
  unfold meter_query. destruct (accounts_read (query_usage tenant cell metric from to) s e) as [?|[Hf Hq]]; [by left|right].
  split; [done|]. destruct (query_usage_run tenant cell metric from to (server_ledger s) (bump_call e)) as (bs & Hr & Hbs).
  exists bs. by split; [apply Hq|].
Qed.

(** The usage summary of a tenant is exact: every counter is the sum of
    what the store holds for that tenant and metric over the minutes of the
    range, modulo 2^64, over all of its Cells, and the gigabyte-hours are the
    stored byte-seconds converted; it fails only when one of the two calls of
    the store does. *)
Theorem usage_summary_exact (auth : AuthContext) (q : UsageQuery) (s : Server U) (e : Eff) :
  let '(from, to) := resolve_range q (clock (e_clock e)) in
  match (usage_summary auth q s e).1.1 with
  | Ok sum => summary_exact (server_ledger s) (auth_tenant auth) None from to sum
  | Err err => exists n msg, (e_call e <= n <= S (e_call e))%nat /\ fault n = Some msg /\ err = Internal msg
  end.
Proof.
  unfold usage_summary, bind at 1, read_clock. destruct (resolve_range q (clock (e_clock e))) as [from to] eqn:Hr.
  unfold bind at 1.
  destruct (query_cases (auth_tenant auth) None None (bucket_start from) (bucket_start to) s (bump_clock e))
    as [(msg & Hf & ->)|(Hf & bs & -> & Hbs)]; simpl.
  { exists (e_call e), msg. split; [lia|done]. }
  unfold bind at 1, list_databases.
  destruct (directory_read (fun c => sort_by_key record_key
    (filter (fun kv => kv.1.1 = auth_tenant auth) (map_to_list (databases c))).*2) s (bump_call (bump_clock e)))
    as [(msg & Hf' & Hd)|(Hf' & Hd)]; rewrite Hd; simpl.
  { exists (S (e_call e)), msg. split; [lia|done]. }
  destruct (add_storage_ok (sort_by_key record_key
    (filter (fun kv => kv.1.1 = auth_tenant auth) (map_to_list (databases (api_catalog (sv_api s))))).*2)
    (summarize bs from to) (server_ledger s) (auth_tenant auth) None from to s (bump_call (bump_call (bump_clock e))))
    as (sum & s' & e' & -> & Hsum); [by apply summarize_exact|done].
Qed.

(** The usage of a Cell is exact in the same sense, over that Cell alone. *)
Theorem cell_usage_exact (auth : AuthContext) (id : DatabaseId) (q : UsageQuery) (s : Server U) (e : Eff) :
  fault (e_call e) = None -> fault (S (e_call e)) = None ->
  is_Some (databases (api_catalog (sv_api s)) !! (auth_tenant auth, id)) ->
  let '(from, to) := resolve_range q (clock (e_clock e)) in
  exists sum, (cell_usage auth id q s e).1.1 = Ok sum /\
    summary_exact (server_ledger s) (auth_tenant auth) (Some id) from to sum.
Proof.
  intros Hf0 Hf1 [rec Hrec]. unfold cell_usage, bind at 1.
  assert (on_directory (get_database (auth_tenant auth) id) s e = (Ok rec, s, bump_call e)) as ->.
  { unfold on_directory, on_api, zoom, store_call, bind, fallible, get_database. rewrite Hf0. unfold bind, gets. simpl. rewrite Hrec.
    by destruct s as [[? ? ?] ? ? ? ? ? ?]. }
  unfold bind at 1, read_clock. change (clock (e_clock (bump_call e))) with (clock (e_clock e)).
  destruct (resolve_range q (clock (e_clock e))) as [from to] eqn:Hr.
  unfold bind at 1.
  destruct (query_cases (auth_tenant auth) (Some id) None (bucket_start from) (bucket_start to) s (bump_clock (bump_call e)))
    as [(msg & Hf & _)|(_ & bs & -> & Hbs)]; [simpl in Hf; congruence|].
  unfold bind. destruct (current_storage_ok id s (bump_call (bump_clock (bump_call e)))) as (r & s' & e' & ->).
  eexists. split; [reflexivity|]. destruct r; [apply set_storage_exact|]; by apply summarize_exact.
Qed.

(** A time series is exact and complete: its points are in strictly
    ascending order of time, one per interval of the range in which the store
    holds usage, each with the sum over the minutes of its interval modulo
    2^64, and together they add up to the total of the range. *)
Theorem timeseries_exact (auth : AuthContext) (q : UsageQuery) (metric : UsageMetric) (secs : Z) (s : Server U) (e : Eff) :
  (t ← uq_metric q; metric_parse t) = Some metric ->
  interval_secs (default "minute"%string (uq_interval q)) = Some secs ->
  fault (e_call e) = None ->
  let '(from, to) := resolve_range q (clock (e_clock e)) in
  let l := server_ledger s in
  let from := bucket_start from in
  let to := bucket_start to in
  exists pts, usage_timeseries auth q s e =
      (Ok ((fun p : Z * Z => mkTimeseriesPoint (fmt_bucket p.1) p.2) <$> pts), s, bump_call (bump_clock e)) /\
    StronglySorted Z.lt pts.*1 /\
    (forall ts, ts ∈ pts.*1 <-> exists k v, usage l !! k = Some v /\
      usage_selected (auth_tenant auth) None (Some metric) from to k = true /\ Z.quot (uk_bucket k) secs * secs = ts) /\
    (forall ts v, (ts, v) ∈ pts -> v = wrap_u64 (stored_in l (auth_tenant auth) metric from to secs ts)) /\
    wrap_u64 (sum_where (fun _ => true) snd pts) = wrap_u64 (stored l (auth_tenant auth) None metric from to).
Proof.
  intros Hm Hi Hf. unfold usage_timeseries. rewrite Hm. unfold bind at 1, read_clock.
  destruct (resolve_range q (clock (e_clock e))) as [from to] eqn:Hr. unfold bind at 1.
  destruct (query_cases (auth_tenant auth) None (Some metric) (bucket_start from) (bucket_start to) s (bump_clock e))
    as [(msg & Hf' & _)|(_ & bs & -> & Hbs)]; [simpl in Hf'; congruence|].
  rewrite Hi. exists (timeseries secs bs). split; [done|]. split; [apply sorted_times|].
  assert (timeseries secs bs ≡ₚ map_to_list (foldl (merge_bucket secs) ∅ bs)) as Hperm
    by apply merge_sort_Permutation.
  destruct (merge_exact secs bs ∅) as (Hv & Hd & Ht); [intros ts v; by rewrite lookup_empty|].
  set (m := foldl (merge_bucket secs) ∅ bs) in *. split; [|split].
  - intros ts. trans (is_Some (m !! ts)).
    { rewrite Hperm. split.
      - intros ([ts' v] & -> & Hin%elem_of_map_to_list)%list_elem_of_fmap. by exists v.
      - intros [v Hv']. apply list_elem_of_fmap. exists (ts, v). split; [done|]. by apply elem_of_map_to_list. }
    rewrite Hd. split.
    + intros [[v Hv']|(b & Hb & Hs)]; [by rewrite lookup_empty in Hv'|]. rewrite Hbs in Hb.
      apply list_elem_of_fmap in Hb as ([k v] & -> & [Hsel Hkv%elem_of_map_to_list]%list_elem_of_filter). by exists k, v.
    + intros (k & v & Hk & Hsel & Hts). right. eexists (mkUsageBucket _ _ _ (uk_bucket k) v). split; [|exact Hts].
      rewrite Hbs. apply list_elem_of_fmap. exists (k, v). split; [reflexivity|].
      apply list_elem_of_filter. split; [done|]. by apply elem_of_map_to_list.
  - intros ts v Hin. rewrite Hperm in Hin. apply elem_of_map_to_list in Hin. destruct (Hv ts) as [_ Heq].
    rewrite Hin, lookup_empty in Heq. simpl in Heq. rewrite Heq. f_equal.
    rewrite Hbs, buckets_where. unfold stored_in. by apply sum_where_ext.
  - rewrite Hperm. trans (wrap_u64 (map_total m)); [done|]. rewrite Ht. f_equal. simpl. rewrite Hbs, buckets_where. unfold stored.
    apply sum_where_ext. intros kv. apply andb_true_r.
Qed.

(** A request for an unknown interval is turned down, after the store has been
    asked; one for an unknown metric before. *)
Theorem timeseries_errors (auth : AuthContext) (q : UsageQuery) (s : Server U) (e : Eff) :
  fault (e_call e) = None ->
  ((t ← uq_metric q; metric_parse t) = None -> usage_timeseries auth q s e = (Err (InvalidRequest "invalid or missing metric"), s, e)) /\
  (is_Some (t ← uq_metric q; metric_parse t) -> interval_secs (default "minute"%string (uq_interval q)) = None ->
   usage_timeseries auth q s e =
     (Err (InvalidRequest ("invalid interval: " +:+ default "minute"%string (uq_interval q))), s, bump_call (bump_clock e))).
Proof.
  intros Hf. unfold usage_timeseries. split; [by intros ->|]. intros [m ->] Hi. unfold bind at 1, read_clock.
  destruct (resolve_range q (clock (e_clock e))) as [from to]. unfold bind at 1.
  destruct (query_cases (auth_tenant auth) None (Some m) (bucket_start from) (bucket_start to) s (bump_clock e))
    as [(msg & Hf' & _)|(_ & bs & -> & Hbs)]; [simpl in Hf'; congruence|]. by rewrite Hi.
Qed.

End routes.

(** ** A concrete store *)

Definition plain_times : TimeText := {| parse_from_rfc3339 := parse_digits; from_timestamp_rfc3339 z := Some (i64_to_string z) |}.

(** Reads in two minutes of one hour and in another hour, of two Cells. *)
Definition metered_ledger : Ledger :=
  with_usage (fun _ => list_to_map [
    (mkUsageKey DEFAULT_TENANT (Some (mkDatabaseId 1)) KvRead 120, 5);
    (mkUsageKey DEFAULT_TENANT (Some (mkDatabaseId 2)) KvRead 180, 7);
    (mkUsageKey DEFAULT_TENANT (Some (mkDatabaseId 1)) KvRead 3660, 11);
    (mkUsageKey DEFAULT_TENANT (Some (mkDatabaseId 1)) KvWrite 120, 3)]) Ledger_empty.

Definition metered_server : Server unit :=
  mkServer (mkApi Catalog_empty (mkUsageMeter ∅ metered_ledger) ∅) (NodeRegistry_new 0) ∅ ∅ ∅ None None.

Definition hourly : UsageQuery := mkUsageQuery (Some "0"%string) (Some "7200"%string) (Some "kv_read"%string) (Some "hour"%string).

Lemma timeseries_exact_witness :
  exists pts, (usage_timeseries (env:=env_still) (H0:=plain_times) (mkAuthContext DEFAULT_TENANT false) hourly metered_server eff0).1.1 =
    Ok ((fun p : Z * Z => mkTimeseriesPoint (fmt_bucket (H0:=plain_times) p.1) p.2) <$> pts) /\
    wrap_u64 (sum_where (fun _ => true) snd pts) = 23 /\ StronglySorted Z.lt pts.*1.
Proof.
  destruct (timeseries_exact (env:=env_still) (H0:=plain_times) (mkAuthContext DEFAULT_TENANT false) hourly KvRead 3600
    metered_server eff0 eq_refl eq_refl eq_refl) as (pts & Hrun & Hsorted & _ & _ & Htotal).
  exists pts. split; [rewrite Hrun; reflexivity|]. split; [rewrite Htotal; vm_compute; reflexivity|exact Hsorted].
Defined.

(** What the route answers there: 12 reads in the first hour, 11 in the second. *)
Example hourly_points :
  (usage_timeseries (env:=env_still) (H0:=plain_times) (mkAuthContext DEFAULT_TENANT false) hourly metered_server eff0).1.1 =
  Ok [mkTimeseriesPoint "0" 12; mkTimeseriesPoint "3600" 11].
Proof. vm_compute. reflexivity. Qed.
