(* ===== verification/Background.v ===== *)
(** The background tasks of the API server, one turn of each loop: the
    flusher and the storage sampler (usage.rs), the price refresher
    (pricing.rs), the settlement (settlement.rs) and the failover scanner
    (failover.rs), with the metrics they set, on the state the routes run on;
    and how main.rs starts them. *)

From Stdlib Require Import ZArith Lia String Ascii.
From stdpp Require Import gmap strings list fin_maps sorting.
From S2P Require Import Prelude Common Kv SqlGate Sql Cache Manager DataNode Catalog Ledger Billing Access Backup Routing Metrics Queries.

(** The state of the process: what the routes see, the metrics, the prices in
    force, the watermark of the settlement and the sampler's identity. *)
Record Process (U : Type) := mkProcess {
  pr_server : Server U;
  pr_metrics : Registry;
  pr_pricing : PricingConfig;
  pr_watermark : Z;
  pr_owner : N;
}.
Arguments mkProcess {U}.
Arguments pr_server {U}.
Arguments pr_metrics {U}.
Arguments pr_pricing {U}.
Arguments pr_watermark {U}.
Arguments pr_owner {U}.

Definition i64_saturating_mul (a b : Z) : Z := Z.max I64_MIN (Z.min I64_MAX (a * b)).

(** [as_secs() as i64] *)
Definition secs_i64 (interval : Z) : Z := wrap_i64 interval.

Section background.
Context {env : Env} `{UuidText} {U : Type} `{CellFiles U} `{Images U}.

Abbreviation SrvM := (M (Server U) CombeeError).
Abbreviation ProcM := (M (Process U) CombeeError).
Implicit Types p : Process U.

Definition set_server (s : Server U) p : Process U :=
  mkProcess s (pr_metrics p) (pr_pricing p) (pr_watermark p) (pr_owner p).

Definition on_routes {A} (m : SrvM A) : ProcM A := zoom pr_server set_server m.

Definition on_registry (f : Registry -> Registry) : ProcM unit :=
  modify (fun p => mkProcess (pr_server p) (f (pr_metrics p)) (pr_pricing p) (pr_watermark p) (pr_owner p)).

Definition ledger_of p : Ledger := sink (api_meter (sv_api (pr_server p))).
Definition catalog_of p : Catalog := api_catalog (sv_api (pr_server p)).
Definition pending_of p : gmap UsageKey Z := counters (api_meter (sv_api (pr_server p))).

Definition put_stores (c : Catalog) (l : Ledger) (s : Server U) : Server U :=
  set_api (fun a => mkApi c (mkUsageMeter (counters (api_meter a)) l) (inflight a)) s.

(** The price manager and the settlement as parts of the process. *)
Definition on_prices {A} (m : M PricingManager CombeeError A) : ProcM A :=
  zoom (fun p => mkPricingManager (pr_pricing p) (ledger_of p))
    (fun x p => mkProcess (put_stores (catalog_of p) (pm_store x) (pr_server p)) (pr_metrics p) (current x)
       (pr_watermark p) (pr_owner p)) m.

Definition on_settlement {A} (m : M Settlement CombeeError A) : ProcM A :=
  zoom (fun p => mkSettlement (catalog_of p) (ledger_of p) (pr_pricing p) (pr_watermark p))
    (fun x p => mkProcess (put_stores (st_catalog x) (st_ledger x) (pr_server p)) (pr_metrics p) (pr_pricing p)
       (last_settled_bucket x) (pr_owner p)) m.

(** ** usage.rs *)

Definition UsageMeter_new (l : Ledger) : UsageMeter Ledger := mkUsageMeter ∅ l.

Definition set_snapshot (key : UsageKey) (value : Z) : SrvM unit := on_accounts (usage_set key value).

Definition api_label : list (string * string) := [("service", "api")]%string.

(** A turn of [spawn_flusher]; [interval] in seconds. *)
Definition flusher_turn (interval : Z) : ProcM unit :=
  let! r := attempt (on_routes (on_meter flush_once)) in
  match r with
  | Ok _ =>
      do! on_registry (gauge_set "combee_usage_flush_lag_seconds" api_label 0) in
      on_registry (counter_inc "combee_usage_flush_successes_total" api_label)
  | Err _ =>
      do! on_registry (counter_inc "combee_usage_flush_failures_total" api_label) in
      on_registry (gauge_set "combee_usage_flush_lag_seconds" api_label (secs_i64 interval))
  end.

(** The Cell's node may be unknown, down, or fail: the Cell is skipped. *)
Definition sample_cell (interval_secs : Z) (cell : DatabaseRecord) : SrvM nat :=
  let! bytes := current_storage (db_id cell) in
  match bytes with
  | Err _ => mret 0%nat
  | Ok bytes =>
      if bytes =? 0 then mret 0%nat else
      do! on_meter (record_usage (db_tenant cell) (Some (db_id cell)) StorageByteSecs
                      (u64_saturating_mul bytes interval_secs)) in
      mret 1%nat
  end.

Definition sample_storage_once (interval_secs : Z) : SrvM nat :=
  if interval_secs =? 0 then mret 0%nat else
  let! cells := on_directory list_all_databases in
  let! counts := mmap cells (sample_cell interval_secs) in
  mret (sum_list counts).

Definition sampler_ttl (interval : Z) : Z :=
  i64_add (Z.max (i64_saturating_mul (secs_i64 interval) 2) 1) 60.

(** A turn of [spawn_storage_sampler]: without the lease nothing is sampled,
    also when the store could not say whose it is. *)
Definition sampler_turn (interval : Z) : ProcM unit :=
  let! owner := gets pr_owner in
  let! now := read_clock in
  let! lease := attempt (on_routes (on_directory
    (try_acquire_lease "storage_sampler" owner now (sampler_ttl interval)))) in
  match lease with
  | Ok true => ignore (on_routes (sample_storage_once interval))
  | _ => mret tt
  end.

(** ** pricing.rs, settlement.rs *)

Definition PricingManager_new (l : Ledger) : PricingManager := mkPricingManager PricingConfig_empty l.

Definition pricing_rate (m : PricingManager) (metric : UsageMetric) (units : Z) : Z := rate (current m) metric units.

Definition refresher_turn : ProcM unit := ignore (on_prices refresh).

Definition Settlement_new (c : Catalog) (l : Ledger) (prices : PricingConfig) : Settlement :=
  mkSettlement c l prices 0.

Definition settlement_turn (interval : Z) : ProcM unit :=
  let! r := attempt (on_settlement settle_once) in
  match r with
  | Ok _ =>
      do! on_registry (gauge_set "combee_credit_settlement_lag_seconds" api_label 0) in
      on_registry (counter_inc "combee_credit_settlement_successes_total" api_label)
  | Err _ =>
      do! on_registry (counter_inc "combee_credit_settlement_failures_total" api_label) in
      on_registry (gauge_set "combee_credit_settlement_lag_seconds" api_label (secs_i64 interval))
  end.

(** ** failover.rs *)

Definition auto_label : list (string * string) := [("service", "api"); ("trigger", "auto")]%string.

Definition scan_cell (rec : DatabaseRecord) : ProcM unit :=
  match db_storage_node rec, db_replica_node rec with
  | Some primary, Some _ =>
      let! up := on_routes (is_healthy primary) in
      if up : bool then mret tt else
      let! r := attempt (on_routes (failover_cell (db_tenant rec) (db_id rec))) in
      match r with
      | Ok _ => on_registry (counter_inc "combee_failovers_total" auto_label)
      | Err _ => on_registry (counter_inc "combee_failover_failures_total" auto_label)
      end
  | _, _ => mret tt
  end.

Definition failover_turn : ProcM unit :=
  let! listed := attempt (on_routes (on_directory list_all_databases)) in
  match listed with
  | Err _ => mret tt
  | Ok records => mfor records scan_cell
  end.

(** The scanner runs when COMBEE_FAILOVER_INTERVAL_SECS is a positive
    number. *)
Definition failover_interval (parse_u64 : string -> option Z) (v : option string) : option Z :=
  let interval_secs := default 0 (s ← v; parse_u64 s) in
  if interval_secs =? 0 then None else Some interval_secs.

(** ** main.rs *)

Inductive Turn := TurnFlush | TurnSample | TurnRefresh | TurnSettle | TurnFailover.

(** The intervals of the loops, in seconds; the scanner may be off. *)
Record Intervals := mkIntervals {
  iv_flush : Z; iv_sample : Z; iv_settle : Z; iv_failover : option Z }.

Definition run_turn (iv : Intervals) (t : Turn) : ProcM unit :=
  match t with
  | TurnFlush => flusher_turn (iv_flush iv)
  | TurnSample => sampler_turn (iv_sample iv)
  | TurnRefresh => refresher_turn
  | TurnSettle => settlement_turn (iv_settle iv)
  | TurnFailover => match iv_failover iv with Some _ => failover_turn | None => mret tt end
  end.

(** From the stores to the loops: a new meter, the sampler's identity, an
    empty price list, the seed prices (a failure is logged), a settlement
    without a watermark. [price] is the configured storage price, parsed. *)
Definition start_tasks (s : Server U) (price : option Z) (e : Eff) : Process U * Eff :=
  let owner := uuid_v4 (e_uuid e) in
  let s := set_api (fun a => mkApi (api_catalog a) (UsageMeter_new (sink (api_meter a))) (inflight a)) s in
  let p := mkProcess s Registry_new PricingConfig_empty 0 owner in
  let '(_, p', e') := ignore (on_prices (seed_default_pricing price)) p (bump_uuid e) in
  (p', e').

End background.
