(* ===== verification/BackgroundSpec.v ===== *)
(** What the background tasks of the API server guarantee: no failure ends a
    loop, of several servers one samples at a time, and a flush followed by a
    settlement charges exactly what was metered. *)

From Stdlib Require Import ZArith Lia String Ascii.
From stdpp Require Import gmap strings list fin_maps sorting.
From S2P Require Import Prelude Common Kv SqlGate Sql Cache Manager DataNode NodeInv NodeCapacity Catalog Ledger LedgerSpec Billing BillingSpec SettleSpec MeterFleet Access Backup BackupSpec Routing Metrics Queries Background.

(** ** Computations without an error *)

(** Ends in a value, whatever fails on the way. *)
Definition never_fails {S E A} (m : M S E A) : Prop := forall s e, is_Ok (m s e).1.1 = true.

Section never_fails.
Context {S E : Type}.

Lemma never_fails_bind {A B} (m : M S E A) (k : A -> M S E B) :
  never_fails m -> (forall a, never_fails (k a)) -> never_fails (bind m k).
Proof.
  intros Hm Hk s e. specialize (Hm s e). unfold bind. destruct (m s e) as [[[a|err] s1] e1]; [apply Hk|done].
Qed.

Lemma never_fails_attempt {A} (m : M S E A) : never_fails (attempt m).
Proof. intros s e. unfold attempt. by destruct (m s e) as [[r s1] e1]. Qed.

Lemma never_fails_ignore {A} (m : M S E A) : never_fails (ignore m).
Proof. intros s e. unfold ignore. by destruct (m s e) as [[r s1] e1]. Qed.

Lemma never_fails_zoom {T A} (get : S -> T) put (m : M T E A) : never_fails m -> never_fails (zoom get put m).
Proof. intros Hm s e. specialize (Hm (get s) e). unfold zoom. by destruct (m (get s) e) as [[r s1] e1]. Qed.

Lemma never_fails_mfor {A} (l : list A) (body : A -> M S E unit) :
  (forall x, never_fails (body x)) -> never_fails (mfor l body).
Proof. intros Hb. induction l as [|x l IH]; [done|]. by apply never_fails_bind. Qed.

Lemma never_fails_ret {A} (a : A) : never_fails (mret (S:=S) (E:=E) a).
Proof. done. Qed.
Lemma never_fails_gets {A} (f : S -> A) : never_fails (gets (E:=E) f).
Proof. done. Qed.
Lemma never_fails_modify (f : S -> S) : never_fails (modify (E:=E) f).
Proof. done. Qed.
Lemma never_fails_clock `{Env} : never_fails (read_clock (S:=S) (E:=E)).
Proof. done. Qed.
Lemma never_fails_instant `{Env} : never_fails (read_instant (S:=S) (E:=E)).
Proof. done. Qed.

End never_fails.

Create HintDb total discriminated.
#[export] Hint Resolve never_fails_attempt never_fails_ignore never_fails_ret never_fails_gets never_fails_modify
  never_fails_clock never_fails_instant : total.

Ltac total_step :=
  match goal with
  | |- never_fails (bind _ _) => apply never_fails_bind; [|intros ?]
  | |- never_fails (match ?x with _ => _ end) => destruct x
  | |- never_fails (mfor _ _) => apply never_fails_mfor; intros ?
  | |- never_fails _ => solve [eauto with total]
  end.
Ltac total := repeat total_step.

Section tasks.
Context {env : Env} `{UuidText} {U : Type} `{CellFiles U} `{Images U}.

Abbreviation SrvM := (M (Server U) CombeeError).
Abbreviation ProcM := (M (Process U) CombeeError).
Implicit Types p : Process U.

(** ** The loops go on *)

Lemma is_healthy_total id : never_fails (on_routes (is_healthy (U:=U) id)).
Proof. apply never_fails_zoom. unfold is_healthy, ensure_fresh, cache_record. total. Qed.

(** No failure of a store, a node or a message ends a loop: every turn of
    every background task returns. *)
Theorem turns_return (iv : Intervals) (t : Turn) (p : Process U) (e : Eff) :
  is_Ok (run_turn iv t p e).1.1 = true.
Proof.
  assert (never_fails (run_turn (U:=U) iv t)) as Hr; [|apply Hr].
  destruct t; unfold run_turn, flusher_turn, sampler_turn, refresher_turn, settlement_turn, failover_turn,
    scan_cell, on_registry; total. apply is_healthy_total.
Qed.

(** ** One sampler at a time *)

Abbreviation same_api a := (fun (s : Server U) (_ : Eff) => sv_api s = a).

Lemma directory_read_keeps a {A} (m : M Catalog CombeeError A) :
  (forall c e, (m c e).1.2 = c) -> preserves (same_api a) (on_directory m).
Proof.
  intros Hm s e Hs. unfold on_directory, on_api, zoom, store_call, bind, fallible. simpl.
  destruct (fault (e_call e)); simpl; [rewrite Hs; by destruct a|].
  specialize (Hm (api_catalog (sv_api s)) (bump_call e)).
  destruct (m _ (bump_call e)) as [[r c] e1]. simpl in *. subst c. rewrite Hs. by destruct a.
Qed.

Lemma by_id_keeps a db : preserves (same_api a) (on_directory (get_database_by_id db)).
Proof.
  apply directory_read_keeps. intros c e. unfold get_database_by_id, bind, gets. by repeat case_match.
Qed.

Lemma addr_keeps a n : preserves (same_api a) (addr n).
Proof.
  unfold addr, ensure_fresh, cache_record. pres; try (by intros ???); by apply directory_read_keeps.
Qed.

Lemma client_for_keeps a db : preserves (same_api a) (client_for db).
Proof.
  assert (preserves (same_api a) (client_from_authority db)) as Hauth.
  { unfold client_from_authority, invalidate_route, make_client.
    pres; try apply addr_keeps; try apply by_id_keeps; by intros ???. }
  unfold client_for, invalidate_route, make_client. pres; try exact Hauth; try apply addr_keeps; by intros ???.
Qed.

Lemma call_keeps a {A} c path (m : M (Site U) CombeeError A) : preserves (same_api a) (call c path m).
Proof.
  destruct c as [|base on_error]; simpl.
  - intros s e Hs. unfold at_local. destruct (sv_local s); [|done]. by destruct (m (mkSite _ (sv_bucket s)) e) as [[r t] e1].
  - unfold rpc, rpc_failed, notify_error, invalidate_route. pres; try (by intros ???);
      try (intros s' e' Hs'; unfold fallible; by destruct (fault _)).
    intros s e Hs. unfold at_node. by destruct (m (mkSite _ (sv_bucket s)) e) as [[r t] e1].
Qed.

Lemma current_storage_keeps a id : preserves (same_api a) (current_storage id).
Proof. unfold current_storage. pres; [apply client_for_keeps|apply call_keeps]. Qed.

Abbreviation same_directory c := (fun (s : Server U) (_ : Eff) => api_catalog (sv_api s) = c).

Lemma same_api_directory c {A} (m : SrvM A) : (forall a, preserves (same_api a) m) -> preserves (same_directory c) m.
Proof.
  intros Hm s e Hs. specialize (Hm (sv_api s) s e eq_refl). destruct (m s e) as [[r s'] e']. by rewrite Hm.
Qed.

Lemma sample_storage_keeps c interval : preserves (same_directory c) (sample_storage_once interval).
Proof.
  unfold sample_storage_once, sample_cell. pres.
  - apply same_api_directory. intros a. by apply directory_read_keeps.
  - apply same_api_directory. intros b. apply current_storage_keeps.
  - intros s e Hs. unfold on_meter, on_api, zoom.
    by destruct (record_usage _ _ _ _ _ e) as [[r' u] e'].
Qed.

(** Whether a process that asks for the lease now gets it. *)
Definition lease_ok p (e : Eff) : Prop :=
  fault (e_call e) = None /\
  match leases (catalog_of p) !! "storage_sampler"%string with
  | Some (holder, expires) => holder = pr_owner p \/ expires < clock (e_clock e)
  | None => True
  end.

Lemma try_acquire_run name owner now ttl (c : Catalog) (e : Eff) :
  let free := match leases c !! name with
              | Some (holder, expires) => bool_decide (holder = owner) || (expires <? now)
              | None => true
              end in
  try_acquire_lease name owner now ttl c e =
  (Ok free, if free then with_leases <[name := (owner, i64_add now ttl)]> c else c, e).
Proof. unfold try_acquire_lease, bind, gets, modify, mret. by destruct (match leases c !! name with Some _ => _ | None => _ end). Qed.

Lemma sampler_turn_takes interval p e :
  lease_ok p e ->
  leases (catalog_of (sampler_turn interval p e).1.2) !! "storage_sampler"%string =
  Some (pr_owner p, i64_add (clock (e_clock e)) (sampler_ttl interval)).
Proof.
  intros [Hf Hl]. unfold sampler_turn, bind, gets, read_clock, attempt, on_routes, zoom, on_directory, on_api, zoom,
    store_call, bind, fallible. simpl. rewrite Hf. rewrite try_acquire_run.
  assert (match leases (api_catalog (sv_api (pr_server p))) !! "storage_sampler"%string with
    | Some (holder, expires) => bool_decide (holder = pr_owner p) || (expires <? clock (e_clock e))
    | None => true end = true) as ->.
  { unfold catalog_of in Hl. destruct (leases _ !! _) as [[h x]|]; [|done].
    destruct Hl as [->|Hx]; [by rewrite bool_decide_eq_true_2|]. apply orb_true_iff. right. lia. }
  cbn beta iota. unfold ignore, on_routes, zoom. set (s1 := pr_server _). set (e1 := bump_call _).
  pose proof (sample_storage_keeps (api_catalog (sv_api s1)) interval s1 e1 eq_refl) as Hk.
  destruct (sample_storage_once interval s1 e1) as [[r s2] e2]. unfold catalog_of. simpl. rewrite Hk.
  unfold s1. simpl. apply lookup_insert_eq.
Qed.

Lemma sampler_turn_idle interval p e : ~ lease_ok p e -> (sampler_turn interval p e).1.2 = p.
Proof.
  intros Hn. unfold sampler_turn, bind, gets, read_clock, attempt, on_routes, zoom, on_directory, on_api, zoom,
    store_call, bind, fallible. simpl.
  destruct (fault (e_call e)) as [msg|] eqn:Hf; simpl; [by destruct p as [[[]]]|].
  rewrite try_acquire_run. destruct (match leases _ !! _ with Some _ => _ | None => _ end) eqn:Hfree;
    [|simpl; by destruct p as [[[]]]].
  destruct Hn. split; [done|]. unfold catalog_of. destruct (leases _ !! _) as [[h x]|]; [|done].
  apply orb_true_iff in Hfree as [?%bool_decide_eq_true_1|?]; [by left|right; lia].
Qed.

(** Of the servers that share a store one samples storage at a time: once a
    server has sampled, a turn of any other one, up to the end of the lease,
    samples nothing and changes nothing, however its directory comes to
    differ otherwise; storage is never metered twice. *)
Theorem one_sampler interval p1 e1 p2 e2 :
  lease_ok p1 e1 -> is_i64 (clock (e_clock e1) + sampler_ttl interval) -> pr_owner p2 <> pr_owner p1 ->
  leases (catalog_of p2) !! "storage_sampler"%string =
    leases (catalog_of (sampler_turn interval p1 e1).1.2) !! "storage_sampler"%string ->
  clock (e_clock e2) <= clock (e_clock e1) + sampler_ttl interval ->
  (sampler_turn interval p2 e2).1.2 = p2.
Proof.
  intros Hok Hi Hne Hshare Ht. apply sampler_turn_idle. intros [_ Hl].
  rewrite Hshare, sampler_turn_takes in Hl by done.
  unfold i64_add in Hl. rewrite wrap_i64_id in Hl by done. destruct Hl as [Heq|Hlt]; [by destruct Hne|lia].
Qed.

(** ** The scanner *)

(** A turn of the scanner is a scan of [Routing.failover_scan], and it counts. *)
Theorem failover_turn_scan p e :
  let '(_, p', e') := failover_turn p e in
  let '(_, s', e'') := failover_scan (pr_server p) e in
  pr_server p' = s' /\ e' = e'' /\ pr_pricing p' = pr_pricing p /\ pr_watermark p' = pr_watermark p.
Proof.
  unfold failover_turn, failover_scan, bind at 1, attempt, on_routes, zoom.
  unfold bind at 1. destruct (on_directory list_all_databases (pr_server p) e) as [[[records|err] s1] e1]; [|done].
  assert (forall q e, let '(r, q', e') := mfor records scan_cell q e in
    let '(r', s', e'') := mfor records (fun rec =>
        match db_storage_node rec with
        | None => mret tt
        | Some primary =>
            match db_replica_node rec with
            | None => mret tt
            | Some _ =>
                let! up := is_healthy primary in
                if up : bool then mret tt else ignore (failover_cell (db_tenant rec) (db_id rec))
            end
        end) (pr_server q) e in
    r = r' /\ pr_server q' = s' /\ e' = e'' /\ pr_pricing q' = pr_pricing q /\ pr_watermark q' = pr_watermark q) as Hloop.
  { induction records as [|rec records IH]; intros q eq; [done|]. cbn [mfor]. unfold bind at 1. unfold bind at 2.
    unfold scan_cell at 1. destruct (db_storage_node rec) as [primary|]; [|apply IH].
    destruct (db_replica_node rec) as [replica|]; [|apply IH].
    unfold bind at 1, on_routes at 1, zoom. unfold bind at 2.
    destruct (is_healthy primary (pr_server q) eq) as [[[[|]|err] s2] e2]; [| |done].
    - specialize (IH (set_server s2 q) e2). exact IH.
    - unfold bind at 1, attempt, on_routes, zoom, ignore. simpl.
      destruct (failover_cell (db_tenant rec) (db_id rec) s2 e2) as [[[rec'|err] s3] e3]; simpl; apply (IH (mkProcess s3 _ _ _ _) e3). }
  specialize (Hloop (set_server s1 p) e1). simpl in Hloop.
  destruct (mfor records scan_cell _ e1) as [[r q'] e']. destruct (mfor records _ s1 e1) as [[r' s'] e''].
  by destruct Hloop as (_ & ? & ? & ? & ?).
Qed.

(** ** From the meter to the balance *)

(** The store once everything pending is flushed. *)
Definition store_batch (batch : list (UsageKey * Z)) (l : Ledger) : Ledger :=
  foldl (fun l kd => store_usage kd.1 kd.2 l) l batch.

Definition flushed p : Ledger := store_batch (map_to_list (pending_of p)) (ledger_of p).

Lemma store_batch_usage batch l k :
  eq_u64 (default 0 (usage (store_batch batch l) !! k)) (default 0 (usage l !! k) + amount_in batch k).
Proof.
  revert l. induction batch as [|[key d] batch IH]; intros l; simpl; [by rewrite Z.add_0_r|].
  rewrite IH. pose proof (lookup_add_counter key d (usage l) k) as Ha.
  change (add_counter key d (usage l)) with (usage (store_usage key d l)) in Ha.
  rewrite Ha. unfold eq_u64, if_key. f_equal. lia.
Qed.

(** Nothing but the usage table. *)
Lemma store_batch_books batch l :
  credit_accounts (store_batch batch l) = credit_accounts l /\
  credit_txn_by_ref (store_batch batch l) = credit_txn_by_ref l /\
  credit_transactions (store_batch batch l) = credit_transactions l.
Proof.
  revert l. induction batch as [|kd batch IH]; intros l; simpl; [done|].
  by destruct (IH (store_usage kd.1 kd.2 l)) as (-> & -> & ->).
Qed.

Hypothesis Hok : forall n, fault n = None.

Lemma flush_batch_run batch n c l e :
  exists e', flush_batch batch n (mkUsageMeter c l) e =
    (Ok (n + length batch)%nat, mkUsageMeter c (store_batch batch l), e') /\ e_clock e' = e_clock e.
Proof.
  revert n l e. induction batch as [|[key d] batch IH]; intros n l e; simpl; [exists e; by rewrite Nat.add_0_r|].
  unfold bind at 1, attempt, on_sink, zoom. simpl. unfold store_call, bind at 1, fallible. rewrite Hok. simpl.
  destruct (IH (n + 1)%nat (store_usage key d l) (bump_call e)) as (e' & He & Hc).
  exists e'. split; [|exact Hc]. replace (n + S (length batch))%nat with (n + 1 + length batch)%nat by lia. exact He.
Qed.

Lemma flusher_turn_run interval p e :
  exists p' e', flusher_turn interval p e = (Ok tt, p', e') /\ e_clock e' = e_clock e /\
    ledger_of p' = flushed p /\ pending_of p' = ∅ /\ catalog_of p' = catalog_of p /\
    pr_pricing p' = pr_pricing p /\ pr_watermark p' = pr_watermark p.
Proof.
  unfold flusher_turn, bind at 1, attempt, on_routes, zoom, on_meter, on_api, zoom. simpl.
  assert (exists r e1, flush_once (api_meter (sv_api (pr_server p))) e =
    (Ok r, mkUsageMeter ∅ (flushed p), e1) /\ e_clock e1 = e_clock e) as (r & e1 & Hrun & Hc).
  { unfold flush_once, bind at 1, gets. fold (pending_of p). unfold flushed.
    destruct (decide (map_to_list (pending_of p) = [])) as [Hn|Hn].
    - rewrite Hn. exists 0%nat, e. split; [|done]. simpl. apply map_to_list_empty_iff in Hn.
      unfold mret, pending_of, ledger_of in *. destruct (api_meter _) as [c l]. simpl in *. by subst c.
    - unfold bind, modify.
      destruct (flush_batch_run (map_to_list (pending_of p)) 0 ∅ (ledger_of p) e) as (e1 & He & Hc).
      eexists _, e1. split; [exact He|done]. }
  rewrite Hrun. eexists _, e1. split; [reflexivity|]. split; [exact Hc|]. done.
Qed.

(** C16: what was metered is what is charged: a flush and then a settlement on a
    store that answers leave nothing pending, move the watermark to the
    present minute, and take from every tenant they settle, metric by metric,
    the price of the window on a store that has, for every key, what was stored
    plus what was pending (modulo 2^64). Excepted are metrics for which
    something was charged under the window's reference before: they are charged
    nothing, and usage that was added to the window since is never paid.
    Conditions: there are minutes to settle, the references of the ledger
    resolve, tenants are stored under their own ids, and every settled tenant's
    balance is in the range of i64 before and after. *)
Theorem metered_is_charged `{!UuidTextLaws} iv p e from upto :
  refs_resolve (ledger_of p) -> tenants_keyed (catalog_of p) ->
  settle_window (pr_watermark p) (clock (e_clock e)) = Some (from, upto) ->
  (forall t, t ∈ settled_tenants (catalog_of p) -> is_i64 (balance (ledger_of p) t) /\
     is_i64 (balance (ledger_of p) t - due (flushed p) (pr_pricing p) t from upto)) ->
  let '(_, p1, e1) := run_turn iv TurnFlush p e in
  let '(_, p2, _) := run_turn iv TurnSettle p1 e1 in
  pending_of p2 = ∅ /\ pr_watermark p2 = bucket_start (clock (e_clock e)) /\
  (forall t, balance (ledger_of p2) t = balance (ledger_of p) t -
     if decide (t ∈ settled_tenants (catalog_of p)) then due (flushed p) (pr_pricing p) t from upto else 0) /\
  forall k, eq_u64 (default 0 (usage (flushed p) !! k))
    (default 0 (usage (ledger_of p) !! k) + default 0 (pending_of p !! k)).
Proof.
  intros Hr Hk Hw Hi. simpl.
  destruct (flusher_turn_run (iv_flush iv) p e) as (p1 & e1 & -> & Hc & Hl & Hp & Hcat & Hpr & Hwm).
  destruct (store_batch_books (map_to_list (pending_of p)) (ledger_of p)) as (Hacc & Href & Htx).
  fold (flushed p) in Hacc, Href, Htx.
  assert (forall t, balance (flushed p) t = balance (ledger_of p) t) as Hbal by (intros t; unfold balance; by rewrite Hacc).
  set (st := mkSettlement (catalog_of p1) (ledger_of p1) (pr_pricing p1) (pr_watermark p1)).
  destruct (settle_once_run Hok st e1 from upto) as (n & s2 & e2 & Hrun & Hw2 & Hb2);
    cbn [st st_catalog st_ledger st_pricing last_settled_bucket]; rewrite ?Hcat, ?Hl, ?Hpr, ?Hwm, ?Hc; try done.
  { intros r0 id. rewrite Href, Htx. apply Hr. }
  { intros t Ht. rewrite Hbal. by apply Hi. }
  unfold settlement_turn, bind at 1, attempt, on_settlement, zoom. fold st. rewrite Hrun.
  split; [exact Hp|]. split; [rewrite Hw2; f_equal; by rewrite Hc|]. split.
  - intros t. rewrite <- Hbal. pose proof (ch_balance _ _ _ _ _ Hb2 t) as Hbt.
    cbn [st st_catalog st_ledger st_pricing] in Hbt. rewrite Hcat, Hl, Hpr in Hbt. exact Hbt.
  - intros k. unfold flushed. rewrite store_batch_usage. by rewrite amount_in_map.
Qed.

End tasks.

(** ** Concrete processes *)

(** One tenant with a thousand reads stored and five hundred pending in the
    minute before, prices in force, no nodes. *)
Definition small_process (owner : N) : Process unit :=
  mkProcess
    (mkServer (mkApi (st_catalog (two_minutes 840))
        (mkUsageMeter {[mkUsageKey acme_tenant None KvRead 900 := 500]} (st_ledger (two_minutes 840))) ∅)
      (NodeRegistry_new 0) ∅ ∅ ∅ None None)
    Registry_new priced 840 owner.

Definition loop_intervals : Intervals := mkIntervals 5 300 60 None.

Lemma metered_is_charged_witness :
  let p := small_process 1 in
  let '(_, p1, e1) := run_turn (env:=env_still) (H:=decimal_uuid_text) (H0:=plain_files) (H1:=sample_images)
    loop_intervals TurnFlush p eff0 in
  let '(_, p2, _) := run_turn (env:=env_still) (H:=decimal_uuid_text) (H0:=plain_files) (H1:=sample_images)
    loop_intervals TurnSettle p1 e1 in
  balance (ledger_of p2) acme_tenant = -15.
Proof.
  pose proof (metered_is_charged (env:=env_still) (H:=decimal_uuid_text) (H0:=plain_files) (H1:=sample_images)
    (fun _ => eq_refl) (H2:=decimal_uuid_laws) loop_intervals (small_process 1) eff0 840 900) as Hx.
  cbv zeta. destruct (run_turn loop_intervals TurnFlush _ eff0) as [[r1 p1] e1].
  destruct (run_turn loop_intervals TurnSettle p1 e1) as [[r2 p2] e2].
  destruct Hx as (_ & _ & Hb & _).
  - intros r0 id Hid. discriminate Hid.
  - intros t rec. simpl. intros [<- <-]%lookup_singleton_Some. split; reflexivity.
  - reflexivity.
  - intros t Ht. replace (balance _ t) with 0 by reflexivity.
    assert (t = acme_tenant \/ t = DEFAULT_TENANT) as [-> | ->].
    { change (settled_tenants _) with [acme_tenant; DEFAULT_TENANT] in Ht. set_solver. }
    all: split; vm_compute; split; discriminate.
  - rewrite Hb. vm_compute. reflexivity.
Defined.

Lemma one_sampler_witness :
  let p1 := small_process 1 in
  let lease := with_leases (fun _ => {["storage_sampler"%string := (1%N, 1660)]}) in
  let p2 := set_server (set_api (fun a => mkApi (lease (api_catalog a)) (api_meter a) (inflight a))
              (pr_server p1)) (small_process 2) in
  (sampler_turn (env:=env_still) (H:=decimal_uuid_text) (H0:=plain_files) 300 p2 eff0).1.2 = p2.
Proof.
  cbv zeta. apply (one_sampler (env:=env_still) (H:=decimal_uuid_text) (H0:=plain_files)
    300 (small_process 1) eff0 _ eff0).
  - split; [reflexivity|]. vm_compute. exact Logic.I.
  - vm_compute. split; discriminate.
  - discriminate.
  - vm_compute. reflexivity.
  - vm_compute. discriminate.
Defined.
