(* ===== verification/Labels.v ===== *)
(** The public routes of app.rs, and the labels the request log gives them:
    over the whole table there are few, whatever keys, names and ids the paths
    carry. *)

From Stdlib Require Import ZArith Lia String Ascii.
From stdpp Require Import gmap strings list fin_maps.
From S2P Require Import Prelude Common Kv SqlGate Sql Cache Manager DataNode Catalog Ledger Billing Access Backup Routing Metrics MetricsSpec Queries.

(** ** app.rs: the table *)

Inductive Seg := Lit (s : string) | PId | PKey | PName.

Definition db_route (rest : list Seg) : list Seg := [Lit "v1"; Lit "databases"; PId] ++ rest.
Definition kv_ops_route (op : string) : list Seg := db_route [Lit "kv"; Lit "ops"; Lit op].

Definition public_routes : list (list string * list Seg) := [
  (["GET"; "POST"], [Lit "v1"; Lit "databases"]);
  (["PUT"; "GET"; "DELETE"], [Lit "v1"; Lit "databases"; Lit "by-name"; PName]);
  (["GET"; "DELETE"; "PATCH"], db_route []);
  (["POST"], db_route [Lit "reset"]);
  (["POST"], db_route [Lit "sql"]);
  (["POST"], db_route [Lit "backup"]);
  (["POST"], db_route [Lit "backup"; Lit "incr"]);
  (["POST"], db_route [Lit "restore"]);
  (["POST"], db_route [Lit "transaction"]);
  (["GET"; "PUT"; "DELETE"], db_route [Lit "kv"; PKey]);
  (["GET"], db_route [Lit "kv"]);
  (["POST"], kv_ops_route "exists");
  (["POST"], kv_ops_route "mget");
  (["POST"], kv_ops_route "mset");
  (["POST"], kv_ops_route "ttl");
  (["POST"], kv_ops_route "expire");
  (["POST"], kv_ops_route "incr");
  (["POST"; "GET"], [Lit "v1"; Lit "api-keys"]);
  (["DELETE"], [Lit "v1"; Lit "api-keys"; PId]);
  (["GET"], [Lit "v1"; Lit "usage"; Lit "summary"]);
  (["GET"], [Lit "v1"; Lit "usage"; Lit "timeseries"]);
  (["POST"], [Lit "v1"; Lit "waitlist"]);
  (["GET"], [Lit "v1"; Lit "cells"; PId; Lit "usage"]);
  (["GET"], [Lit "v1"; Lit "credits"; Lit "balance"]);
  (["GET"], [Lit "v1"; Lit "credits"; Lit "transactions"]);
  (["POST"], [Lit "v1"; Lit "credits"; Lit "redeem"]);
  (["GET"], [Lit "v1"; Lit "pricing"]);
  (["GET"], [Lit "openapi.json"]);
  (["POST"], db_route [Lit "failover"]);
  (["GET"; "POST"; "DELETE"], db_route [Lit "replication"])]%string.

(** ** Paths of a route *)

Fixpoint no_slash (s : string) : bool :=
  match s with
  | EmptyString => true
  | String.String c rest => negb (bool_decide (c = "/"%char)) && no_slash rest
  end.

Definition segment (p : string) : Prop := p <> EmptyString /\ no_slash p = true.

Definition fits `{UuidText} (seg : Seg) (p : string) : Prop :=
  match seg with
  | Lit s => p = s
  | PId => is_Some (uuid_from_str p)
  | PKey | PName => True
  end.

Definition path_text (ps : list string) : string := foldr (fun p acc => "/" +:+ p +:+ acc) EmptyString ps.

(** The labels a segment of a route can get. *)
Definition seg_labels (seg : Seg) : list string :=
  match seg with
  | Lit s => [s]
  | PId => ["{id}"]
  | PKey => ["{key}"; "{id}"; "ops"]
  | PName => ["{name}"; "{id}"]
  end%string.

Fixpoint route_labels (segs : list Seg) : list (list string) :=
  match segs with
  | [] => [[]]
  | seg :: rest => l ← seg_labels seg; cons l <$> route_labels rest
  end.

Definition public_ops : list string := String.concat "." <$> (public_routes ≫= (fun r => route_labels r.2)).

(** No literal follows a key or a name, keys follow [kv] and names [by-name]. *)
Fixpoint well_placed (prev : Seg) (segs : list Seg) : bool :=
  match segs with
  | [] => true
  | seg :: rest =>
      match seg, prev with
      | Lit s, Lit p => (String.length s <? 32)%nat && negb (bool_decide (p = "by-name"%string)) &&
          (negb (bool_decide (p = "kv"%string)) || bool_decide (s = "ops"%string))
      | Lit s, PId => (String.length s <? 32)%nat
      | Lit _, _ => false
      | PId, _ => true
      | PKey, Lit p => bool_decide (p = "kv"%string)
      | PName, Lit p => bool_decide (p = "by-name"%string)
      | _, _ => false
      end && well_placed seg rest
  end.

Lemma public_well_placed : forallb (fun r => well_placed (Lit EmptyString) r.2) public_routes = true.
Proof. reflexivity. Qed.

(** ** Reading a path back *)

Lemma segments_read cur p rest :
  no_slash p = true ->
  path_segments_aux (p +:+ rest) cur = path_segments_aux rest (cur +:+ p).
Proof.
  revert cur. induction p as [|c p IH]; intros cur Hp.
  - by rewrite append_nil_r.
  - simpl in Hp. apply andb_true_iff in Hp as [Hc Hp]. apply negb_true_iff, bool_decide_eq_false in Hc.
    change (String.String c p +:+ rest) with (String.String c (p +:+ rest)). cbn [path_segments_aux].
    destruct (decide (c = "/"%char)); [done|]. rewrite IH by done. by rewrite append_assoc_str.
Qed.

Lemma path_segments_text ps : Forall segment ps -> path_segments (path_text ps) = ps.
Proof.
  unfold path_segments.
  assert (forall cur, Forall segment ps -> path_segments_aux (path_text ps) cur =
    (match cur with EmptyString => [] | _ => [cur] end) ++ ps) as Hgen; [|by intros Hps; rewrite Hgen].
  induction ps as [|p ps IH]; intros cur Hps; simpl; [by rewrite app_nil_r|].
  apply Forall_cons in Hps as [[Hne Hp] Hps]. f_equal.
  change (path_segments_aux (p +:+ path_text ps) EmptyString = p :: ps). rewrite segments_read by done.
  change (path_segments_aux (path_text ps) p = p :: ps). rewrite IH by done. by destruct p.
Qed.

Section labels.
Context `{UuidText}.
(** The textual forms of a UUID have 32 hexadecimal digits at least. *)
Hypothesis uuid_long : forall s u, uuid_from_str s = Some u -> (32 <= String.length s)%nat.

Lemma short_no_uuid s : (String.length s < 32)%nat -> uuid_from_str s = None.
Proof using uuid_long. intros Hs. destruct (uuid_from_str s) as [u|] eqn:Hu; [|done]. apply uuid_long in Hu. lia. Qed.

Lemma op_segments_labels prev segs p ps :
  fits prev p -> well_placed prev segs = true -> Forall2 fits segs ps -> op_segments p ps ∈ route_labels segs.
Proof using uuid_long.
  intros Hprev Hw Hfits. revert prev p Hprev Hw.
  induction Hfits as [|seg q segs ps Hq Hfits IH]; intros prev p Hprev Hw; [by apply list_elem_of_singleton|].
  cbn [well_placed] in Hw. apply andb_true_iff in Hw as [Hseg Hw]. cbn [op_segments route_labels].
  apply list_elem_of_bind. exists (op_segment p q). split; [apply list_elem_of_fmap_2; by eapply IH|]. clear IH Hfits.
  unfold op_segment. destruct seg as [s| | |].
  - simpl in Hq. subst q. apply list_elem_of_singleton.
    destruct prev as [t| | |]; try done.
    + simpl in Hprev. subst t. apply andb_true_iff in Hseg as [[Hlen Hb]%andb_true_iff Hk].
      rewrite short_no_uuid by (by apply Nat.ltb_lt). apply negb_true_iff in Hb. rewrite Hb.
      by destruct (bool_decide (p = "kv"%string)), (bool_decide (s = "ops"%string)).
    + destruct Hprev as [u Hu]. apply uuid_long in Hu. rewrite short_no_uuid by (by apply Nat.ltb_lt).
      rewrite (bool_decide_eq_false_2 (p = "kv"%string)), (bool_decide_eq_false_2 (p = "by-name"%string))
        by (intros ->; simpl in Hu; lia). done.
  - destruct Hq as [u ->]. by apply list_elem_of_singleton.
  - destruct prev as [t| | |]; try done. simpl in Hprev. subst t. apply bool_decide_eq_true in Hseg. subst p.
    destruct (uuid_from_str q); [by right; left|]. rewrite bool_decide_eq_true_2 by done. simpl.
    destruct (decide (q = "ops"%string)) as [->|Hq']; [by right; right; left|].
    rewrite bool_decide_eq_false_2 by done. by left.
  - destruct prev as [t| | |]; try done. simpl in Hprev. subst t. apply bool_decide_eq_true in Hseg. subst p.
    destruct (uuid_from_str q); [by right; left|by left].
Qed.

Definition on_route (segs : list Seg) (ps : list string) : Prop := Forall2 fits segs ps /\ Forall segment ps.

(** The label of a request on a public route comes from a fixed list of
    33, whatever key, name or id the path carries; a path below
    /v1/databases whose id is not a UUID, which the same routes answer with an
    error, keeps that text as its label. *)
Theorem operation_labels (methods : list string) (segs : list Seg) (ps : list string) (x : string) :
  (methods, segs) ∈ public_routes -> on_route segs ps ->
  segment x -> (String.length x < 32)%nat ->
  operation_name (path_text ps) ∈ public_ops /\ length public_ops = 33%nat /\
  operation_name (path_text ["v1"; "databases"; x]%string) = "v1.databases." +:+ x.
Proof using uuid_long.
  intros Hr [Hfits Hps] Hx Hlen. split; [|split; [reflexivity|]].
  - unfold operation_name. rewrite path_segments_text by done. apply list_elem_of_fmap_2, list_elem_of_bind.
    exists (methods, segs). split; [|done]. apply (op_segments_labels (Lit EmptyString)); [done| |done].
    pose proof public_well_placed as Hw. rewrite forallb_forall in Hw. apply (Hw (methods, segs)).
    by apply list_elem_of_In.
  - unfold operation_name. rewrite path_segments_text.
    + cbn [op_segments]. unfold op_segment. rewrite !short_no_uuid by (done || simpl; lia). by simpl.
    + repeat constructor; done || apply Hx.
Qed.

End labels.

(** ** A concrete path *)

(** A textual form of 32 characters. *)
Definition long_uuid_text : UuidText := {|
  uuid_to_string _ := "00000000000000000000000000000000"%string;
  uuid_from_str s := if (String.length s =? 32)%nat then Some 0%N else None;
|}.

Lemma operation_labels_witness :
  operation_name (H:=long_uuid_text)
    (path_text ["v1"; "databases"; "00000000000000000000000000000000"; "kv"; "session:abc"]%string) ∈ public_ops.
Proof.
  apply (operation_labels (H:=long_uuid_text)) with (methods := ["GET"; "PUT"; "DELETE"]%string)
    (segs := db_route [Lit "kv"; PKey]) (x := "u"%string).
  - intros s u Hs. simpl in Hs. destruct (String.length s =? 32)%nat eqn:E; [|discriminate]. apply Nat.eqb_eq in E. lia.
  - apply list_elem_of_In. simpl. tauto.
  - split; [|repeat constructor; discriminate]. repeat constructor. exists 0%N. reflexivity.
  - split; [discriminate|reflexivity].
  - simpl. lia.
Defined.
