(* ===== verification/Handlers.v ===== *)
(** crates/api-server/src/handlers: what the routes do, from the request's
    tenant to the directory, the meter and the data node of the Cell. An error
    is an [ApiError]; [respond] turns it into a response. *)

From Stdlib Require Import ZArith Lia String Ascii.
From stdpp Require Import gmap strings list fin_maps.
From S2P Require Import Prelude Common Kv SqlGate Sql Cache Manager DataNode Catalog Ledger Billing Access Backup Routing.

(** The idempotency payload, [serde_json::json!({ "id": id })] and the reading
    of its [id], belong to serde_json. *)
Class IdPayload := { payload_of_id : string -> string; payload_id : string -> option string }.

(** ** database.rs: names *)

Definition is_name_char (c : ascii) : bool :=
  is_lower c || is_digit c || bool_decide (c = "-"%char) || bool_decide (c = "_"%char).

Definition valid_cell_name (name : string) : bool :=
  match trim (as_bytes name) with
  | [] => false
  | c :: _ as n => (length n <=? 63)%nat && forallb is_name_char n && (is_lower c || is_digit c)
  end.

(** ** waitlist.rs: addresses *)

(** [email.split('@')] *)
Fixpoint split_at (sep : ascii) (b cur : bytes) : list bytes :=
  match b with
  | [] => [cur]
  | c :: b' => if decide (c = sep) then cur :: split_at sep b' [] else split_at sep b' (cur ++ [c])
  end.

Definition is_valid_email (email : bytes) : bool :=
  match split_at "@"%char email [] with
  | [user; host] => negb (bool_decide (user = [])) && contains ["."%char] host && (3 <=? length host)%nat
  | _ => false
  end.

Record RedeemResponse := mkRedeemResponse { credits_added : Z; redeemed_balance : Z; already_redeemed : bool }.

(** A rule of a new price list, the metric by name. *)
Record PricingRuleIn := mkPricingRuleIn { ri_metric : string; ri_unit_size : Z; ri_price_units : Z }.

Section handlers.
Context {env : Env} `{UuidText} `{HttpText} `{MillisClock} `{IdPayload}.
Context {U : Type} `{CellFiles U} `{SqlEngine U} `{Images U}.
(** The configuration of the data nodes, and of the API server. *)
Variable ncfg : DataNodeConfig.
Variable cfg : ApiConfig.
(** SHA-256 in hexadecimal, and [object_store]'s paths. *)
Variable sha256 : string -> string.
Variable obj_path : string -> string.

Abbreviation SrvM := (M (Server U) CombeeError).

Definition validate_cell_name (name : string) : SrvM unit :=
  if valid_cell_name name then mret tt else mfail (InvalidCellName name).

(** ** sql.rs *)

Definition require_db (auth : AuthContext) (id : DatabaseId) : SrvM DatabaseRecord :=
  if auth_internal auth then on_directory (get_database_by_id id)
  else on_directory (get_database (auth_tenant auth) id).

Definition sql_metric (sql : string) : UsageMetric := if is_read_sql sql then SqlRead else SqlWrite.

Definition h_execute_sql (auth : AuthContext) (id : DatabaseId) (req : SqlRequest) : SrvM SqlResult :=
  let! record := require_db auth id in
  let! client := client_for id in
  do! on_meter (record_billed auth (Some id) (sql_metric (req_sql req)) 1) in
  call client "rpc/execute_sql" (on_node (node_execute_sql ncfg id req (db_generation record))).

Definition h_execute_transaction (auth : AuthContext) (id : DatabaseId) (statements : list SqlRequest)
    : SrvM (list SqlResult) :=
  let! record := require_db auth id in
  let! client := client_for id in
  do! mfor statements (fun st => on_meter (record_billed auth (Some id) (sql_metric (req_sql st)) 1)) in
  call client "rpc/execute_transaction"
    (on_node (node_execute_transaction ncfg id statements (db_generation record))).

(** ** kv.rs *)

(** What every KV handler does first. *)
Definition enter_kv (auth : AuthContext) (id : DatabaseId) (metric : UsageMetric)
    : SrvM (DatabaseRecord * Client) :=
  let! record := require_db auth id in
  do! on_meter (record_usage (auth_tenant auth) (Some id) metric 1) in
  let! client := client_for id in
  mret (record, client).

Definition h_kv_get (auth : AuthContext) (id : DatabaseId) (key : string) : SrvM (option KvEntry) :=
  let! (_, client) := enter_kv auth id KvRead in
  call client "rpc/kv_get" (on_node (kv_get ncfg id key)).

Definition h_kv_set (auth : AuthContext) (id : DatabaseId) (key value : string) (ttl : option Z)
    (nx xx : bool) : SrvM bool :=
  let! (record, client) := enter_kv auth id KvWrite in
  call client "rpc/kv_set" (on_node (kv_set ncfg id key value ttl nx xx (db_generation record))).

Definition h_kv_del (auth : AuthContext) (id : DatabaseId) (key : string) : SrvM bool :=
  let! (record, client) := enter_kv auth id KvWrite in
  call client "rpc/kv_del" (on_node (kv_del ncfg id key (db_generation record))).

Definition h_kv_exists (auth : AuthContext) (id : DatabaseId) (keys : list string) : SrvM (list bool) :=
  let! (_, client) := enter_kv auth id KvRead in
  mmap keys (fun k => call client "rpc/kv_exists" (on_node (kv_exists ncfg id k))).

Definition h_kv_mget (auth : AuthContext) (id : DatabaseId) (keys : list string)
    : SrvM (list (option string)) :=
  let! (_, client) := enter_kv auth id KvRead in
  call client "rpc/kv_mget" (on_node (kv_mget ncfg id keys)).

Definition h_kv_mset (auth : AuthContext) (id : DatabaseId) (items : list KvSetItem) : SrvM unit :=
  let! (record, client) := enter_kv auth id KvWrite in
  call client "rpc/kv_mset" (on_node (kv_mset ncfg id items (db_generation record))).

Definition h_kv_ttl (auth : AuthContext) (id : DatabaseId) (keys : list string) : SrvM (list (option Z)) :=
  let! (_, client) := enter_kv auth id KvRead in
  mmap keys (fun k => call client "rpc/kv_ttl" (on_node (kv_ttl ncfg id k))).

Definition h_kv_expire (auth : AuthContext) (id : DatabaseId) (key : string) (ttl : option Z) : SrvM bool :=
  let! (record, client) := enter_kv auth id KvWrite in
  call client "rpc/kv_expire" (on_node (kv_expire ncfg id key ttl (db_generation record))).

Definition h_kv_incr (auth : AuthContext) (id : DatabaseId) (key : string) (delta : Z) (ttl : option Z)
    : SrvM Z :=
  let! (record, client) := enter_kv auth id KvWrite in
  call client "rpc/kv_incr" (on_node (kv_incr ncfg id key delta ttl (db_generation record))).

Definition h_kv_list (auth : AuthContext) (id : DatabaseId) (prefix : option string) (limit : option Z)
    (cursor : option string) : SrvM RpcKvScanResult :=
  let! (_, client) := enter_kv auth id KvRead in
  call client "rpc/kv_scan"
    (on_node (kv_scan ncfg id (default EmptyString prefix) (default 50 limit) (default EmptyString cursor))).

(** ** database.rs *)

(** The quota on Cells per tenant, of POST and PUT. *)
Definition check_cell_quota (tenant : TenantId) : SrvM unit :=
  let max := max_cells_per_tenant (api_quota cfg) in
  if (0 <? max)%nat then
    let! cells := on_directory (list_databases tenant) in
    if (max <=? length cells)%nat then
      mfail (QuotaExceeded ("cell limit reached: " +:+ nat_to_string (length cells) +:+ " (max " +:+
        nat_to_string max +:+ ")"))
    else mret tt
  else mret tt.

(** The Cell a repeated Idempotency-Key stands for. *)
Definition replay_created (auth : AuthContext) (existing : string) : SrvM (Z * (DatabaseId * string)) :=
  match payload_id existing with
  | None => mfail (Internal "idempotency payload missing id")
  | Some text =>
      match DatabaseId_from_str text with
      | None => mfail (Internal "idempotency payload corrupt")
      | Some cached_id =>
          let! rec := on_directory (get_database (auth_tenant auth) cached_id) in
          mret (200, (db_id rec, db_name rec))
      end
  end.

Definition create_new (auth : AuthContext) (id : DatabaseId) (name : option string)
    : SrvM (Z * (DatabaseId * string)) :=
  do! check_cell_quota (auth_tenant auth) in
  let! storage_node := pick in
  do! (match name with Some n => validate_cell_name n | None => mret tt end) in
  let! record := on_directory (create_database (auth_tenant auth) id (fst <$> storage_node) name) in
  do! ignore (on_directory (set_database_state (auth_tenant auth) id Active)) in
  mret (201, (id, db_name record)).

Definition h_create_database (auth : AuthContext) (idempotency_key name : option string)
    : SrvM (Z * (DatabaseId * string)) :=
  let! id := DatabaseId_new in
  match idempotency_key with
  | Some key =>
      let! existing := on_directory
        (save_idempotency key (auth_tenant auth) (payload_of_id (DatabaseId_to_string id))) in
      match existing with
      | Some e => replay_created auth e
      | None => create_new auth id name
      end
  | None => create_new auth id name
  end.

Definition h_list_databases (auth : AuthContext) : SrvM (list DatabaseRecord) :=
  on_directory (list_databases (auth_tenant auth)).

Definition h_delete_database (auth : AuthContext) (id : DatabaseId) : SrvM unit :=
  do! on_directory (get_database (auth_tenant auth) id) in
  do! on_directory (set_database_state (auth_tenant auth) id Deleting) in
  let! client := client_for id in
  do! call client "rpc/delete_database" (on_node (node_delete_database ncfg id)) in
  on_directory (store_delete_database (auth_tenant auth) id).

Definition h_ensure_database (auth : AuthContext) (name : string) : SrvM (Z * (DatabaseRecord * bool)) :=
  do! validate_cell_name name in
  do! check_cell_quota (auth_tenant auth) in
  let! storage_node := pick in
  let! (record, created) := on_directory (ensure_database_by_name (auth_tenant auth) name (fst <$> storage_node)) in
  do! (if created : bool then
         let id := db_id record in
         let! ensured := attempt (let! client := client_for id in
           call client "rpc/ensure_database" (on_node (ensure_database ncfg id))) in
         match ensured with
         | Err e =>
             do! ignore (on_directory (store_delete_database (auth_tenant auth) id)) in mfail e
         | Ok _ => ignore (on_directory (set_database_state (auth_tenant auth) id Active))
         end
       else mret tt) in
  mret (if created then 201 else 200, (record, created)).

Definition h_get_database_by_name (auth : AuthContext) (name : string) : SrvM DatabaseRecord :=
  on_directory (get_database_by_name (auth_tenant auth) name).

Definition h_get_database (auth : AuthContext) (id : DatabaseId) : SrvM DatabaseRecord :=
  require_db auth id.

Definition h_rename_database (auth : AuthContext) (id : DatabaseId) (name : string) : SrvM DatabaseRecord :=
  do! validate_cell_name name in
  on_directory (rename_database (auth_tenant auth) id name).

Definition h_reset_database (auth : AuthContext) (id : DatabaseId) : SrvM DatabaseRecord :=
  do! require_db auth id in
  let! client := client_for id in
  let! done_ := attempt (call client "rpc/reset_database" (on_node (reset_database id))) in
  match done_ with
  | Err e => mfail (CellResetFailed (error_to_string e))
  | Ok _ => on_directory (store_reset_database (auth_tenant auth) id)
  end.

Definition h_delete_database_by_name (auth : AuthContext) (name : string) : SrvM unit :=
  let! record := on_directory (get_database_by_name (auth_tenant auth) name) in
  let! client := client_for (db_id record) in
  do! call client "rpc/delete_database" (on_node (node_delete_database ncfg (db_id record))) in
  on_directory (store_delete_database (auth_tenant auth) (db_id record)).

(** ** backup.rs and replication.rs *)

Definition h_backup (auth : AuthContext) (id : DatabaseId) : SrvM BackupInfo :=
  do! require_db auth id in
  let! client := client_for id in
  call client "rpc/backup" (backup ncfg sha256 id).

Definition h_incremental_backup (auth : AuthContext) (id : DatabaseId) : SrvM BackupInfo :=
  do! require_db auth id in
  let! client := client_for id in
  call client "rpc/incremental_backup" (incremental_backup ncfg sha256 id).

Definition h_restore (auth : AuthContext) (id : DatabaseId) (version : option string) : SrvM unit :=
  do! require_db auth id in
  do! (match version with
       | Some v =>
           if negb (String.prefix (prefix id) v) then
             mfail (InvalidRequest ("backup version must be under '" +:+ prefix id +:+ "'"))
           else mret tt
       | None => mret tt
       end) in
  let! client := client_for id in
  call client "rpc/restore" (restore ncfg obj_path id version).

Definition h_set_replica (auth : AuthContext) (id : DatabaseId) (node : NodeId)
    : SrvM (DatabaseId * option NodeId) :=
  do! require_db auth id in
  let! record := on_directory (set_replica_node (auth_tenant auth) id (Some node)) in
  mret (db_id record, db_replica_node record).

Definition h_unset_replica (auth : AuthContext) (id : DatabaseId) : SrvM unit :=
  do! require_db auth id in
  do! on_directory (set_replica_node (auth_tenant auth) id None) in mret tt.

Definition h_get_replica (auth : AuthContext) (id : DatabaseId) : SrvM (DatabaseId * option NodeId) :=
  let! record := on_directory (get_database (auth_tenant auth) id) in
  mret (db_id record, db_replica_node record).

Definition h_failover (auth : AuthContext) (id : DatabaseId) : SrvM DatabaseRecord :=
  failover_cell (auth_tenant auth) id.

(** ** keys.rs and api_key.rs *)

Definition KEY_PREFIX : string := "cmb_sk_".

(** [Uuid::simple]: the hexadecimal digits without hyphens. *)
Definition uuid_simple (u : N) : string := strip_dashes (uuid_to_string u).

Definition generate_key : SrvM string :=
  let! a := fresh_uuid in
  let! b := fresh_uuid in
  mret (KEY_PREFIX +:+ uuid_simple a +:+ uuid_simple b).

Definition h_create_api_key (auth : AuthContext) (name : option string) : SrvM (string * ApiKeyRecord) :=
  let! plain := generate_key in
  let name := match name with
              | Some n => if bool_decide (trim (as_bytes n) = []) then "default"%string else n
              | None => "default"%string
              end in
  let! record := on_directory (create_api_key (auth_tenant auth) (sha256 plain) name) in
  mret (plain, record).

Definition h_list_api_keys (auth : AuthContext) : SrvM (list ApiKeyRecord) :=
  on_directory (list_api_keys (auth_tenant auth)).

Definition h_revoke_api_key (auth : AuthContext) (id : N) : SrvM unit :=
  on_directory (revoke_api_key (auth_tenant auth) id).

(** ** credits.rs and waitlist.rs *)

Definition h_credits_balance (auth : AuthContext) : SrvM CreditAccount :=
  on_accounts (get_credit_account (auth_tenant auth)).

Definition h_credits_transactions (auth : AuthContext) (limit : option Z) (cursor : option N)
    : SrvM (list CreditTransaction * option N) :=
  let limit := Z.max 1 (Z.min 1000 (default 100 limit)) in
  let! items := on_accounts (list_credit_transactions (auth_tenant auth) (limit + 1) cursor) in
  let has_more := limit <? Z.of_nat (length items) in
  let page := take (Z.to_nat limit) items in
  mret (page, if has_more then txn_id <$> last page else None).

Definition h_credits_redeem (auth : AuthContext) (code : string) : SrvM RedeemResponse :=
  let code := String.string_of_list_ascii (trim (as_bytes code)) in
  let hash := hash_voucher_code sha256 code in
  let! now := read_clock in
  let! known := on_accounts (find_transaction_by_reference (voucher_reference hash)) in
  match known with
  | Some txn =>
      let! account := on_accounts (get_credit_account (auth_tenant auth)) in
      mret (mkRedeemResponse (amount_units txn) (balance_units account) true)
  | None =>
      let! amount := on_accounts (redeem_voucher hash (auth_tenant auth) now) in
      let! account := on_accounts (get_credit_account (auth_tenant auth)) in
      mret (mkRedeemResponse amount (balance_units account) false)
  end.

(** [lower] is [str::to_lowercase]. *)
Definition h_waitlist_join (lower : bytes -> bytes) (email : string) : SrvM Z :=
  let email := lower (trim (as_bytes email)) in
  if negb (is_valid_email email) then mfail (InvalidRequest "invalid email address") else
  let! now := read_clock in
  do! on_directory (create_waitlist_entry (String.string_of_list_ascii email) now) in
  mret now.

(** ** admin.rs *)

Definition admin_grant_credits (tenant : TenantId) (amount : Z) (reason : option string)
    : SrvM (Z * N) :=
  if amount <=? 0 then mfail (InvalidRequest "amount_units must be > 0") else
  let! id := fresh_uuid in
  let! ref := fresh_uuid in
  let! now := read_clock in
  let txn := mkTxn id tenant Grant amount None
    (Some ("grant:" +:+ uuid_to_string (tenant_uuid tenant) +:+ ":" +:+ uuid_to_string ref))
    (Some (default "admin grant"%string reason)) now None in
  let! entry := on_accounts (append_credit_transaction txn) in
  mret (default 0 (balance_after entry), txn_id entry).

Definition admin_generate_vouchers (amount count : Z) (campaign : option string) (expires_at : option Z)
    : SrvM (list (string * Z)) :=
  if (amount <=? 0) || (count =? 0) || (1000 <? count) then
    mfail (InvalidRequest "amount_units > 0 and 1 <= count <= 1000")
  else
    let! made := on_accounts (create_vouchers sha256 amount (Z.to_nat count) campaign expires_at) in
    mret ((fun cv : string * CreditVoucher => (cv.1, v_amount_units cv.2)) <$> made).

Definition admin_migrate_cell (id : DatabaseId) (to_node : NodeId) : SrvM (option NodeId * NodeId * Z) :=
  let! record := on_directory (get_database_by_id id) in
  let from_node := db_storage_node record in
  if decide (Some to_node = from_node) then
    mfail (InvalidRequest "to_node_id is already the storage node")
  else
    do! client_for_node to_node in
    let! frozen := on_directory (migrate_database (db_tenant record) id to_node) in
    let! info := attempt (let! src := client_for id in call src "rpc/backup" (backup ncfg sha256 id)) in
    let version := match info with Ok b => Some (bi_key b) | Err _ => None end in
    let! target := client_for_node to_node in
    do! call target "rpc/restore" (restore ncfg obj_path id version) in
    do! invalidate_route id in
    mret (from_node, to_node, db_generation frozen).

Definition parse_rule (r : PricingRuleIn) : SrvM PricingRule :=
  match metric_parse (ri_metric r) with
  | None => mfail (InvalidRequest ("unknown metric: " +:+ ri_metric r))
  | Some metric =>
      if (ri_unit_size r <=? 0) || (ri_price_units r <=? 0) then
        mfail (InvalidRequest "unit_size and price_units must be > 0")
      else mret (mkPricingRule 0 metric (ri_unit_size r) (ri_price_units r))
  end.

Definition admin_create_pricing_version (rules : list PricingRuleIn) : SrvM Z :=
  if bool_decide (rules = []) then mfail (InvalidRequest "at least one rule required") else
  let! rules := mmap rules parse_rule in
  let! version := on_accounts (create_pricing_version rules) in
  mret (pv_version version).

Definition DEFAULT_NEW_USER_GRANT_UNITS : Z := 1000 * CREDIT_UNITS_PER_CREDIT.

Definition admin_create_tenant : SrvM (TenantId * string * N) :=
  let! tenant := TenantId_new in
  do! on_directory (create_tenant tenant) in
  let! key := generate_key in
  let! record := on_directory (create_api_key tenant (sha256 key) "console-user") in
  let! configured := on_directory (get_config "new_user_grant_units") in
  let grant_units := default DEFAULT_NEW_USER_GRANT_UNITS
    (v ← configured; parse_i64 (String.string_of_list_ascii (trim (as_bytes v)))) in
  do! (if 0 <? grant_units then
         let! now := read_clock in
         let! id := fresh_uuid in
         ignore (on_accounts (append_credit_transaction (mkTxn id tenant Grant grant_units None
           (Some ("signup_grant:" +:+ uuid_to_string (tenant_uuid tenant)))
           (Some "new user signup grant"%string) now None)))
       else mret tt) in
  mret (tenant, key, k_id record).

(** The handler's own status, or [ApiError::into_response]. *)
Definition respond {A} (status : Z) (m : SrvM A) : SrvM (Response A) :=
  let! r := attempt m in
  mret (match r with
        | Ok a => mkResponse status (inr a) (plain_body [])
        | Err e => error_response (http_status e) (kind e) (error_to_string e)
        end).

End handlers.
