(* ===== verification/App.v ===== *)
(** crates/api-server/src/app.rs: the whole API server. Each route of
    [build_app] is a constructor, with the parameters axum and serde have
    taken out of path, query and body; [build_app] runs the handler behind its layers.
    A request that no route matches is answered by axum and is not modelled. *)

From Stdlib Require Import ZArith Lia String Ascii.
From stdpp Require Import gmap strings list fin_maps sorting.
From S2P Require Import Prelude Common Kv SqlGate Sql Cache Manager DataNode Catalog Ledger Billing Access Backup Routing Metrics NodeApi Agent Queries Handlers.

(** ** Routes *)

(** The routes under /v1/databases/{id}. *)
Inductive CellOp :=
| OKvGet (key : string)
| OKvSet (key value : string) (ttl : option Z) (nx xx : bool)
| OKvDel (key : string)
| OKvExists (keys : list string)
| OKvMget (keys : list string)
| OKvMset (items : list KvSetItem)
| OKvTtl (keys : list string)
| OKvExpire (key : string) (ttl : option Z)
| OKvIncr (key : string) (delta : Z) (ttl : option Z)
| OKvList (prefix : option string) (limit : option Z) (cursor : option string)
| OSql (req : SqlRequest)
| OTransaction (statements : list SqlRequest)
| OGet
| ODelete
| ORename (name : string)
| OReset
| OBackup
| OIncrBackup
| ORestore (version : option string)
| OSetReplica (node : NodeId)
| OUnsetReplica
| OGetReplica
| OFailover.

Inductive PublicOp :=
| PCell (id : DatabaseId) (op : CellOp)
| PList
| PCreate (idempotency_key name : option string)
| PEnsure (name : string)
| PGetByName (name : string)
| PDeleteByName (name : string)
| PCreateKey (name : option string)
| PListKeys
| PRevokeKey (id : N)
| PUsageSummary (q : UsageQuery)
| PUsageTimeseries (q : UsageQuery)
| PCellUsage (id : DatabaseId) (q : UsageQuery)
| PWaitlist (email : string)
| PBalance
| PTransactions (limit : option Z) (cursor : option N)
| PRedeem (code : string)
| PPricing
| POpenApi.

Inductive AdminOp :=
| AGrant (tenant : TenantId) (amount : Z) (reason : option string)
| AGenerateVouchers (amount count : Z) (campaign : option string) (expires_at : option Z)
| ACreateTenant
| AListVouchers (limit : option Z)
| AWaitlist (limit : option Z)
| AMigrate (id : DatabaseId) (to_node : NodeId)
| ACreatePricing (rules : list PricingRuleIn)
| AListPricing.

Inductive InternalOp :=
| IRegister (id : option NodeId) (address : string) (capacity : Z)
| IHeartbeat (id : NodeId) (active_conns : Z)
| IUnregister (id : NodeId)
| IList
| IReplicas (node : NodeId).

Inductive Route :=
| RPublic (op : PublicOp)
| RAdmin (op : AdminOp)
| RInternal (op : InternalOp)
| RHealth
| RReady
| RMetrics.

(** What the handlers answer, before it is written as JSON. *)
Inductive Reply :=
| ReNone
| ReOk
| ReEntry (o : option KvEntry)
| ReFlag (b : bool)
| ReFlags (l : list bool)
| ReValues (l : list (option string))
| ReTtls (l : list (option Z))
| ReInt (z : Z)
| ReKeys (r : RpcKvScanResult)
| ReSql (r : SqlResult)
| ReTx (l : list SqlResult)
| ReCell (r : DatabaseRecord)
| ReCells (l : list DatabaseRecord)
| ReCreated (id : DatabaseId) (name : string)
| ReEnsured (r : DatabaseRecord) (created : bool)
| ReBackup (b : BackupInfo)
| ReReplica (id : DatabaseId) (node : option NodeId)
| ReKey (plain : string) (r : ApiKeyRecord)
| ReKeyList (l : list ApiKeyRecord)
| ReSummary (s : UsageSummary)
| ReSeries (l : list TimeseriesPoint)
| ReAccount (a : CreditAccount)
| ReTxns (l : list CreditTransaction) (next : option N)
| ReRedeemed (r : RedeemResponse)
| RePrices (p : PricingResponse)
| ReGrant (balance : Z) (id : N)
| ReCodes (l : list (string * Z))
| ReTenant (t : TenantId) (key : string) (key_id : N)
| ReVouchers (l : list CreditVoucher)
| ReWaitlist (l : list WaitlistEntry)
| ReMigrated (from : option NodeId) (to : NodeId) (generation : Z)
| ReVersion (v : Z)
| ReVersions (l : list PricingVersion)
| ReNode (id : NodeId)
| ReNodes (l : list NodeInfo)
| ReIds (l : list DatabaseId)
| ReReady (r : Readiness)
| ReMetrics (l : list Piece).

Section app.
Context {env : Env} `{UuidText} `{HttpText} `{MillisClock} `{IdPayload} `{TimeText}.
Context {U : Type} `{CellFiles U} `{SqlEngine U} `{Images U}.
Variable ncfg : DataNodeConfig.
Variable cfg : ApiConfig.
Variable sha256 : string -> string.
Variable obj_path : string -> string.
Variable lower : bytes -> bytes.
(** The prices in force. *)
Variable prices : PricingConfig.

Abbreviation SrvM := (M (Server U) CombeeError).
Abbreviation ObsM := (M (Server U * Registry) CombeeError).

#[export] Instance observed_has_api : HasApi (Server U * Registry) :=
  {| api_of p := sv_api p.1; put_api a p := (put_api a p.1, p.2) |}.

#[export] Instance observed_has_api_laws : HasApiLaws (Server U * Registry).
Proof. split; [done|]. by intros [[] reg]. Qed.

(** ** Handlers *)

(** A handler that answers with one status. *)
Definition answering {A} (status : Z) (f : A -> Reply) (m : SrvM A) : SrvM (Response Reply) :=
  respond status (let! a := m in mret (f a)).

(** A handler that chooses its status. *)
Definition answering_with {A} (f : A -> Reply) (m : SrvM (Z * A)) : SrvM (Response Reply) :=
  let! r := attempt m in
  mret (match r with
        | Ok (status, a) => mkResponse status (inr (f a)) (plain_body [])
        | Err e => error_response (http_status e) (kind e) (error_to_string e)
        end).

Definition nothing {A} (_ : A) : Reply := ReNone.

Definition run_cell (auth : AuthContext) (id : DatabaseId) (op : CellOp) : SrvM (Response Reply) :=
  match op with
  | OKvGet k => answering 200 ReEntry (h_kv_get ncfg auth id k)
  | OKvSet k v ttl nx xx => answering 200 ReFlag (h_kv_set ncfg auth id k v ttl nx xx)
  | OKvDel k => answering 200 ReFlag (h_kv_del ncfg auth id k)
  | OKvExists ks => answering 200 ReFlags (h_kv_exists ncfg auth id ks)
  | OKvMget ks => answering 200 ReValues (h_kv_mget ncfg auth id ks)
  | OKvMset items => answering 204 nothing (h_kv_mset ncfg auth id items)
  | OKvTtl ks => answering 200 ReTtls (h_kv_ttl ncfg auth id ks)
  | OKvExpire k ttl => answering 200 ReFlag (h_kv_expire ncfg auth id k ttl)
  | OKvIncr k d ttl => answering 200 ReInt (h_kv_incr ncfg auth id k d ttl)
  | OKvList p l c => answering 200 ReKeys (h_kv_list ncfg auth id p l c)
  | OSql req => answering 200 ReSql (h_execute_sql ncfg auth id req)
  | OTransaction sts => answering 200 ReTx (h_execute_transaction ncfg auth id sts)
  | OGet => answering 200 ReCell (h_get_database auth id)
  | ODelete => answering 204 nothing (h_delete_database ncfg auth id)
  | ORename name => answering 200 ReCell (h_rename_database auth id name)
  | OReset => answering 200 ReCell (h_reset_database auth id)
  | OBackup => answering 200 ReBackup (h_backup ncfg sha256 auth id)
  | OIncrBackup => answering 200 ReBackup (h_incremental_backup ncfg sha256 auth id)
  | ORestore v => answering 204 nothing (h_restore ncfg obj_path auth id v)
  | OSetReplica n => answering 200 (fun r => ReReplica r.1 r.2) (h_set_replica auth id n)
  | OUnsetReplica => answering 204 nothing (h_unset_replica auth id)
  | OGetReplica => answering 200 (fun r => ReReplica r.1 r.2) (h_get_replica auth id)
  | OFailover => answering 200 ReCell (h_failover auth id)
  end.

Definition run_public (auth : AuthContext) (op : PublicOp) : SrvM (Response Reply) :=
  match op with
  | PCell id op => run_cell auth id op
  | PList => answering 200 ReCells (h_list_databases auth)
  | PCreate key name => answering_with (fun r => ReCreated r.1 r.2) (h_create_database cfg auth key name)
  | PEnsure name => answering_with (fun r => ReEnsured r.1 r.2) (h_ensure_database ncfg cfg auth name)
  | PGetByName name => answering 200 ReCell (h_get_database_by_name auth name)
  | PDeleteByName name => answering 204 nothing (h_delete_database_by_name ncfg auth name)
  | PCreateKey name => answering 201 (fun r => ReKey r.1 r.2) (h_create_api_key sha256 auth name)
  | PListKeys => answering 200 ReKeyList (h_list_api_keys auth)
  | PRevokeKey id => answering 204 nothing (h_revoke_api_key auth id)
  | PUsageSummary q => answering 200 ReSummary (usage_summary auth q)
  | PUsageTimeseries q => answering 200 ReSeries (usage_timeseries auth q)
  | PCellUsage id q => answering 200 ReSummary (cell_usage auth id q)
  | PWaitlist email => answering 200 ReInt (h_waitlist_join lower email)
  | PBalance => answering 200 ReAccount (h_credits_balance auth)
  | PTransactions limit cursor => answering 200 (fun r => ReTxns r.1 r.2) (h_credits_transactions auth limit cursor)
  | PRedeem code => answering 200 ReRedeemed (h_credits_redeem sha256 auth code)
  | PPricing => answering 200 RePrices (mret (get_pricing prices))
  | POpenApi => answering 200 nothing (mret tt)
  end.

Definition run_admin (op : AdminOp) : SrvM (Response Reply) :=
  match op with
  | AGrant t amount reason => answering 201 (fun r => ReGrant r.1 r.2) (admin_grant_credits t amount reason)
  | AGenerateVouchers amount count campaign x =>
      answering 200 ReCodes (admin_generate_vouchers sha256 amount count campaign x)
  | ACreateTenant => answering 200 (fun r => ReTenant r.1.1 r.1.2 r.2) (admin_create_tenant sha256)
  | AListVouchers limit => answering 200 ReVouchers (admin_list_vouchers limit)
  | AWaitlist limit => answering 200 ReWaitlist (admin_list_waitlist limit)
  | AMigrate id n => answering 200 (fun r => ReMigrated r.1.1 r.1.2 r.2) (admin_migrate_cell ncfg sha256 obj_path id n)
  | ACreatePricing rules => answering 200 ReVersion (admin_create_pricing_version rules)
  | AListPricing => answering 200 ReVersions admin_list_pricing_versions
  end.

Definition map_reply {A} (f : A -> Reply) (m : SrvM (Response A)) : SrvM (Response Reply) :=
  let! r := m in
  mret (mkResponse (rs_status r) (match rs_content r with inl e => inl e | inr a => inr (f a) end) (rs_body r)).

Definition run_internal (op : InternalOp) : SrvM (Response Reply) :=
  match op with
  | IRegister id a c => map_reply ReNode (internal_register id a c)
  | IHeartbeat id n => map_reply nothing (internal_heartbeat id n)
  | IUnregister id => map_reply nothing (internal_unregister id)
  | IList => answering 200 ReNodes internal_list
  | IReplicas node => answering 200 ReIds (internal_replicas node)
  end.

(** ** Layers, outermost first *)

Definition public_stack (handler : Request -> ObsM (Response Reply)) : Request -> ObsM (Response Reply) :=
  public_app sha256 cfg request_logging handler.

(** The routers, merged. *)
Definition routes (r : Route) (req : Request) : ObsM (Response Reply) :=
  match r with
  | RPublic op => public_stack (fun req => on_server (run_public (request_auth req) op)) req
  | RAdmin op => admin_auth cfg (fun _ => on_server (run_admin op)) req
  | RInternal op => internal_auth cfg (fun _ => on_server (run_internal op)) req
  | RHealth => mret (mkResponse 200 (inr ReOk) (plain_body []))
  | RReady => on_server (let! r := ready in mret (mkResponse (ready_status r) (inr (ReReady r)) (plain_body [])))
  | RMetrics => let! text := api_metrics in mret (mkResponse 200 (inr (ReMetrics text)) (plain_body []))
  end.

(** [request_id]: the client's id or a new one, sent back with the response. *)
Definition request_id (next : Request -> ObsM (Response Reply)) (req : Request) : ObsM (Response Reply * string) :=
  let! id := match header_text "x-request-id" req with
             | Some id => mret id
             | None => let! u := fresh_uuid in mret ("req_" +:+ uuid_simple u)
             end in
  let! response := next req in
  mret (response, id).

Definition build_app (r : Route) (req : Request) : ObsM (Response Reply * string) := request_id (routes r) req.

End app.
