(* ===== verification/HandlersSpec.v ===== *)
(** The routes: a tenant cannot touch another tenant's Cell, which names are
    accepted, and how resets, migrations and restarts interact with fencing. *)

From Stdlib Require Import ZArith Lia String Ascii.
From stdpp Require Import gmap strings list fin_maps sorting.
From S2P Require Import Prelude Common Kv SqlGate Sql Cache Manager DataNode NodeInv NodeCapacity NodeSafety Catalog Ledger Billing Access Backup BackupSpec Routing RoutingSpec Handlers App.

(** ** Requests on a Cell *)

Section isolation.
Context {env : Env} `{UuidText} `{MillisClock}.
Context {U : Type} `{CellFiles U} `{SqlEngine U} `{Images U}.
Variable ncfg : DataNodeConfig.
Variable sha256 : string -> string.
Variable obj_path : string -> string.

Abbreviation SrvM := (M (Server U) CombeeError).

Lemma set_catalog_same (s : Server U) : set_catalog (catalog_of s) s = s.
Proof. by destruct s as [[]]. Qed.

(** Work that starts by looking up what is not there fails and leaves the
    server as it was. *)
Lemma foreign_bind {A} (s : Server U) e tenant id (k : DatabaseRecord -> M Catalog CombeeError A) :
  databases (catalog_of s) !! (tenant, id) = None ->
  exists err, on_directory (bind (get_database tenant id) k) s e = (Err err, s, bump_call e).
Proof.
  intros Hnone. unfold on_directory, on_api, zoom, store_call, get_database, bind, fallible, gets.
  destruct (fault _) as [msg|]; simpl.
  - exists (Internal msg). f_equal. f_equal. apply set_catalog_same.
  - unfold catalog_of in Hnone. rewrite Hnone. eexists. simpl. f_equal. f_equal. apply set_catalog_same.
Qed.

Lemma foreign_lookup (s : Server U) e tenant id :
  databases (catalog_of s) !! (tenant, id) = None ->
  exists err, on_directory (get_database tenant id) s e = (Err err, s, bump_call e).
Proof.
  intros Hnone. destruct (foreign_bind s e tenant id mret Hnone) as [err Herr]. exists err.
  rewrite <- Herr. unfold on_directory, on_api, zoom, store_call, get_database, bind, fallible, gets, mret.
  destruct (fault _); [done|]. by destruct (databases _ !! _).
Qed.

(** The response to an error. *)
Definition refusal (err : CombeeError) : Response Reply :=
  error_response (http_status err) (kind err) (error_to_string err).

Lemma answering_fails {A} status (f : A -> Reply) (m : SrvM A) s e err s' e' :
  m s e = (Err err, s', e') -> answering status f m s e = (Ok (refusal err), s', e').
Proof. intros Hm. unfold answering, respond, attempt, bind. by rewrite Hm. Qed.

(** Tenants are isolated at the API: a request of a tenant on a Cell that
    is not in its directory, whatever it asks for, is answered with an error
    and changes nothing at all: no node, no object, no record, no usage. *)
Theorem foreign_cell_untouched (auth : AuthContext) (id : DatabaseId) (op : CellOp) (s : Server U) (e : Eff) :
  auth_internal auth = false -> databases (catalog_of s) !! (auth_tenant auth, id) = None ->
  exists err e', run_cell ncfg sha256 obj_path auth id op s e = (Ok (refusal err), s, e').
Proof.
  intros Hint Hnone. destruct (foreign_lookup s e (auth_tenant auth) id Hnone) as [err Hrun].
  assert (require_db auth id s e = (Err err, s, bump_call e)) as Hreq
    by (unfold require_db; by rewrite Hint).
  destruct op; simpl; try (exists err, (bump_call e); apply answering_fails;
    unfold h_kv_get, h_kv_set, h_kv_del, h_kv_exists, h_kv_mget, h_kv_mset, h_kv_ttl, h_kv_expire,
      h_kv_incr, h_kv_list, enter_kv, h_execute_sql, h_execute_transaction, h_get_database, h_delete_database,
      h_reset_database, h_backup, h_incremental_backup, h_restore, h_set_replica, h_unset_replica,
      h_get_replica, h_failover, failover_cell, bind; rewrite ?Hreq, ?Hrun; done).
  destruct (valid_cell_name name) eqn:Hname.
  - assert (exists err2, on_directory (rename_database (auth_tenant auth) id name) s e =
      (Err err2, s, bump_call e)) as [err2 Hren] by (by apply foreign_bind).
    exists err2, (bump_call e). apply answering_fails.
    unfold h_rename_database, validate_cell_name. rewrite Hname. exact Hren.
  - exists (InvalidCellName name), e. apply answering_fails.
    unfold h_rename_database, validate_cell_name. by rewrite Hname.
Qed.

End isolation.

(** ** A small deployment *)

Definition node_1 : NodeId := mkNodeId 1.
Definition node_2 : NodeId := mkNodeId 2.
Definition owner : AuthContext := mkAuthContext (mkTenantId 9) false.
Definition the_cell : DatabaseId := mkDatabaseId 5.

Definition cell_record : DatabaseRecord :=
  mkDatabaseRecord the_cell "main" (mkTenantId 9) Active 0 (Some node_1) (Some node_2) 0.

Definition holding (kv : KvTable) : Node unit :=
  mkNode {[the_cell := mkCellDb kv tt]} ∅ ∅ ∅ ∅ KvCache_new ∅.

(** Two data nodes; the first is the Cell's primary and holds one key, the
    second its replica. *)
Definition deployment : Server unit :=
  mkServer
    (mkApi (mkCatalog {[(mkTenantId 9, the_cell) := cell_record]} ∅ ∅ ∅ ∅ ∅ ∅ ∅ [])
      (mkUsageMeter ∅ Ledger_empty) ∅)
    (mkNodeRegistry {[node_1 := mkNodeEntry "http://one/" 8 0 0 0; node_2 := mkNodeEntry "http://two" 8 0 0 0]}
      0 false 0)
    ∅ ∅
    {["http://one"%string := holding {["k"%string := mkKvRow "v" None 1]}; "http://two"%string := Node_new]}
    None (Some ∅).

Definition set_k (s : Server unit) (e : Eff) :=
  h_kv_set (env:=env_still) (H:=decimal_uuid_text) (H3:=plain_files) sample_config owner the_cell
    "k" "w" None false false s e.
Definition get_k (s : Server unit) (e : Eff) :=
  h_kv_get (env:=env_still) (H:=decimal_uuid_text) (H3:=plain_files) sample_config owner the_cell "k" s e.
Definition do_failover (s : Server unit) (e : Eff) :=
  h_failover (env:=env_still) (H:=decimal_uuid_text) (H5:=sample_images) owner the_cell s e.
Definition do_reset (s : Server unit) (e : Eff) :=
  h_reset_database (env:=env_still) (H:=decimal_uuid_text) owner the_cell s e.
Definition do_migrate (s : Server unit) (e : Eff) :=
  admin_migrate_cell (env:=env_still) (H:=decimal_uuid_text) (H1:=clock_5s) (H3:=plain_files) (H5:=sample_images)
    sample_config (fun s => s) (fun s => s) the_cell node_2 s e.

(** The process at an address starts again on the same disk: [DataNode::new]
    with the files that are there. *)
Definition restart_node (base : string) (s : Server unit) : Server unit :=
  match sv_nodes s !! base with
  | Some n => set_node base (mkNode (files n) (manifests n) ∅ ∅ ∅ KvCache_new ∅) (sv_bucket s) s
  | None => s
  end.

(** The server and the environment after a request. *)
Definition after_request {A} (r : result CombeeError A * Server unit * Eff) : Server unit * Eff := (r.1.2, r.2).

Definition is_forbidden {A} (r : Result A) : bool :=
  match r with Err (Forbidden _) => true | _ => false end.

(** A reset locks the Cell's writers out: the directory counts the
    generation up, the data node is not told, and every later write through
    the API is refused as fenced, without any fault having occurred. *)
Theorem reset_blocks_writes :
  let '(s, e) := after_request (do_reset deployment eff0) in
  is_Ok (set_k deployment eff0).1.1 = true /\ is_Ok (do_reset deployment eff0).1.1 = true /\
  is_forbidden (set_k s e).1.1 = true.
Proof. vm_compute. auto. Qed.

(** A migration without a cached route loses the Cell: the directory is
    switched first, so the backup that should come from the source is taken
    of the empty Cell at the target; the key is gone and, the target not being
    told the generation, writes are refused. *)
Theorem migration_loses_data :
  let '(s, e) := after_request (do_migrate deployment eff0) in
  is_Ok (do_migrate deployment eff0).1.1 = true /\
  (get_k deployment eff0).1.1 = Ok (Some (mkKvEntry "v" None)) /\ (get_k s e).1.1 = Ok None /\
  is_forbidden (set_k s e).1.1 = true.
Proof. vm_compute. auto. Qed.

(** Fencing does not survive a restart: after a failover the new primary
    accepts writes, but once its process has started again it has forgotten
    the generation and refuses them all. *)
Theorem restart_blocks_writes :
  let '(s, e) := after_request (do_failover deployment eff0) in
  is_Ok (set_k s e).1.1 = true /\ is_forbidden (set_k (restart_node "http://two" s) e).1.1 = true.
Proof. vm_compute. auto. Qed.

(** A failover succeeds without an archive to catch up from: that the
    replica found nothing to apply is ignored, and the promoted Cell is
    empty. *)
Theorem failover_promotes_empty :
  let '(s, e) := after_request (do_failover deployment eff0) in
  is_Ok (do_failover deployment eff0).1.1 = true /\
  (get_k deployment eff0).1.1 = Ok (Some (mkKvEntry "v" None)) /\ (get_k s e).1.1 = Ok None.
Proof. vm_compute. auto. Qed.

(** Internal requests are metered on the KV routes: a read by the service
    account adds to the tenant's usage, as the same read by the tenant does,
    while an SQL statement of the service account adds nothing. *)
Theorem internal_kv_metered :
  let internal := mkAuthContext (mkTenantId 9) true in
  let key := mkUsageKey (mkTenantId 9) (Some the_cell) KvRead 960 in
  let read auth := (h_kv_get (env:=env_still) (H:=decimal_uuid_text) (H3:=plain_files) sample_config
    auth the_cell "k" deployment eff0).1.2 in
  let query := (h_execute_sql (env:=env_still) (H:=decimal_uuid_text) (H3:=plain_files) (H4:=no_engine)
    sample_config internal the_cell (mkSqlRequest "SELECT 1" []) deployment eff0).1.2 in
  counters (api_meter (sv_api (read internal))) !! key = Some 1 /\
  counters (api_meter (sv_api (read owner))) !! key = Some 1 /\
  counters (api_meter (sv_api query)) = ∅.
Proof. vm_compute. auto. Qed.

Lemma foreign_cell_untouched_witness :
  exists err e', run_cell (env:=env_still) (H:=decimal_uuid_text) (H1:=clock_5s) (H4:=plain_files) (H5:=no_engine)
    (H6:=sample_images) sample_config (fun s => s) (fun s => s) (mkAuthContext (mkTenantId 8) false) the_cell
    ODelete deployment eff0 = (Ok (refusal (H:=decimal_uuid_text) err), deployment, e').
Proof.
  apply (foreign_cell_untouched (env:=env_still) (H:=decimal_uuid_text) (H0:=clock_5s) (H1:=plain_files)
    (H2:=no_engine) (H3:=sample_images) sample_config (fun s => s) (fun s => s)
    (mkAuthContext (mkTenantId 8) false) the_cell ODelete deployment eff0); reflexivity.
Defined.

Lemma deployment_ready :
  failover_ready (env:=env_still) deployment (mkTenantId 9) the_cell cell_record node_1 node_2
    "http://one/" "http://two".
Proof.
  split; try (reflexivity || discriminate || by eexists).
  - split; [reflexivity|]. eexists. split; [reflexivity|]. by split.
  - split; [reflexivity|]. eexists. split; [reflexivity|]. by split.
Qed.

(** The same deployment after the old primary's entry has left the registry. *)
Definition primary_lost : Server unit := set_registry (set_inner (delete node_1)) deployment.


Lemma failover_reroutes_witness :
  returns (do! failover_cell (env:=env_still) (H:=decimal_uuid_text) (H0:=sample_images) (mkTenantId 9) the_cell in
      client_for (env:=env_still) (H:=decimal_uuid_text) the_cell) deployment
    (fun c _ => c = RemoteClient "http://two" (Some the_cell)).
Proof.
  eapply returns_weaken.
  - apply (failover_reroutes (env:=env_still) (fun _ => eq_refl) (H:=decimal_uuid_text) (H2:=sample_images)
      deployment (mkTenantId 9) the_cell cell_record node_1 node_2 "http://one/" "http://two");
      [exact deployment_ready|reflexivity|].
    intros k r Hk _. simpl in Hk. by apply lookup_singleton_Some in Hk as [<- _].
  - by intros c s' [-> _].
Defined.

Lemma pick_round_robin_witness :
  returns (mmap (seq 0 2) (fun _ => pick (env:=env_still))) deployment
    (fun picks _ => picks ≡ₚ [Some (node_2, "http://two"%string); Some (node_1, "http://one/"%string)]).
Proof.
  eapply returns_weaken.
  - apply (pick_round_robin (env:=env_still) deployment
      [(node_2, "http://two"%string); (node_1, "http://one/"%string)]); [|simpl; lia..].
    split; [reflexivity|]. intros k. vm_compute. reflexivity.
  - by intros picks s'.
Defined.
