(* ===== verification/Confine.v ===== *)
(** What the work of one tenant cannot reach: another Cell's content on the
    nodes, its objects in the store, the other tenants' records, keys, accounts
    and usage. The lemmas go up from a node to a site, the directory, the
    books and the server. *)

From Stdlib Require Import ZArith Lia String Ascii.
From stdpp Require Import gmap strings list fin_maps sorting.
From S2P Require Import Prelude Common Kv SqlGate Sql Cache Manager DataNode NodeInv NodeCapacity NodeSafety Catalog Ledger Billing Access Backup BackupSpec Routing RoutingSpec.

(** ** Object names of different Cells *)

Section names.
Context `{UuidTextLaws} `{!UuidHexLaw}.

#[local] Arguments String.append !_ _ / : simpl nomatch.

Lemma prefix_cons c d a b :
  String.prefix (String.String c a) (String.String d b) = true -> c = d /\ String.prefix a b = true.
Proof. simpl. by destruct (ascii_dec c d). Qed.

(** Texts up to the first slash. *)
Lemma prefix_until_slash a b rest :
  all_chars is_hex a = true -> all_chars is_hex b = true ->
  String.prefix (a +:+ "/") (b +:+ String.String "/" rest) = true -> a = b.
Proof.
  revert b. induction a as [|c a IH]; intros [|d b] Ha Hb Hp; [done|..].
  - apply (prefix_cons "/" d EmptyString) in Hp as [<- _]. discriminate Hb.
  - apply (prefix_cons c "/" (a +:+ "/")) in Hp as [-> _]. discriminate Ha.
  - apply (prefix_cons c d (a +:+ "/")) in Hp as [<- Hp].
    apply andb_true_iff in Ha as [_ Ha]. apply andb_true_iff in Hb as [_ Hb]. f_equal. by apply IH.
Qed.

Lemma foreign_object (x db : DatabaseId) rest :
  (database_uuid x < 2 ^ 128)%N -> (database_uuid db < 2 ^ 128)%N -> db <> x ->
  String.prefix (prefix x) (prefix db +:+ rest) = false.
Proof.
  intros Hx Hdb Hne. destruct (String.prefix _ _) eqn:Hp; [|done]. destruct Hne. unfold prefix in Hp.
  rewrite !string_app_assoc in Hp. simpl in Hp.
  apply prefix_until_slash in Hp; try apply uuid_print_hex.
  unfold DatabaseId_to_string in Hp. destruct x as [x], db as [d]. simpl in *. f_equal.
  apply (f_equal uuid_from_str) in Hp. rewrite !uuid_parse_print in Hp by done. congruence.
Qed.

End names.

(** ** A node and its object store *)

(** The objects of a Cell are as they were. *)
Definition same_objects `{UuidText} (x : DatabaseId) (b0 b : option (gmap string string)) : Prop :=
  match b0, b with
  | Some o0, Some o => forall k, String.prefix (prefix x) k = true -> o !! k = o0 !! k
  | None, None => True
  | _, _ => False
  end.

Section site.
Context {env : Env} `{UuidTextLaws} `{!UuidHexLaw} `{MillisClock}.
Context {U : Type} `{CellFiles U} `{SqlEngine U} `{Images U}.
Variable ncfg : DataNodeConfig.
Variable sha256 : string -> string.
Variable obj_path : string -> string.
Variables (x : DatabaseId) (n0 : Node U) (b0 : option (gmap string string)).

Abbreviation SiteM := (M (Site U) CombeeError).

Definition site_kept (t : Site U) (e : Eff) : Prop :=
  same_other x n0 (site_node t) e /\ same_objects x b0 (bucket t).

Lemma kept_on_node {A} (m : M (Node U) CombeeError A) :
  preserves (same_other x n0) m -> preserves site_kept (on_node m).
Proof.
  intros Hm t e [Hn Hb]. unfold on_node, zoom. specialize (Hm (site_node t) e Hn).
  by destruct (m (site_node t) e) as [[r n] e1].
Qed.

Lemma discard_inv {A} (m : M (Node U) CombeeError A) :
  preserves (same_other x n0) (discard m) -> preserves (same_other x n0) m.
Proof.
  intros Hd n e Hn. specialize (Hd n e Hn). unfold discard, bind in Hd.
  destruct (m n e) as [[[a|err] n1] e1]; exact Hd.
Qed.

Lemma kept_fallible err : preserves site_kept (fallible (E:=CombeeError) err).
Proof. intros t e Ht. unfold fallible. by destruct (fault _). Qed.
Lemma kept_ms : preserves site_kept read_ms.
Proof. by intros t e Ht. Qed.
Lemma kept_next_call : preserves site_kept (next_call (E:=CombeeError)).
Proof. by intros t e Ht. Qed.
Lemma kept_clock : preserves site_kept (read_clock (E:=CombeeError)).
Proof. by intros t e Ht. Qed.
Lemma kept_uuid : preserves site_kept (fresh_uuid (E:=CombeeError)).
Proof. by intros t e Ht. Qed.

Variable db : DatabaseId.
Hypotheses (Hne : db <> x) (Hx : (database_uuid x < 2 ^ 128)%N) (Hdb : (database_uuid db < 2 ^ 128)%N).

Lemma kept_put context rest bytes : preserves site_kept (put_object context (prefix db +:+ rest) bytes).
Proof using All.
  unfold put_object. pres; [apply kept_fallible|]. intros t e [Hn Hb]. split; [done|]. simpl.
  destruct b0 as [o0|], (bucket t) as [o|]; simpl in *; try done. intros k Hk.
  rewrite lookup_insert_ne; [by apply Hb|]. intros <-. by rewrite foreign_object in Hk.
Qed.

Lemma kept_install f : preserves site_kept (on_node (modify (set_files <[db := f]>))).
Proof using Hne. apply kept_on_node. by apply other_set_files. Qed.

#[local] Hint Resolve kept_fallible kept_next_call kept_ms kept_clock kept_uuid kept_put kept_install : combee.

Lemma kept_download key install :
  (forall bytes, preserves site_kept (install bytes)) -> preserves site_kept (download_snapshot key install).
Proof using Hne. intros Hi. unfold download_snapshot, get_object, store_of. pres. Qed.

Lemma kept_install_main bytes : preserves site_kept (install_main db bytes).
Proof using Hne env. unfold install_main. pres. Qed.

Lemma kept_install_wal main bytes : preserves site_kept (install_wal db main bytes).
Proof using Hne env. unfold install_wal. pres. Qed.

Lemma kept_remove_wal main : preserves site_kept (remove_wal db main).
Proof using Hne env. unfold remove_wal. pres. Qed.

#[local] Hint Resolve kept_download kept_install_main kept_install_wal kept_remove_wal : combee.

Lemma kept_restore_incr : preserves site_kept (restore_from_incr db).
Proof using Hne.
  unfold restore_from_incr, latest_incr, list_objects, store_of.
  pres.
Qed.

Lemma kept_close : preserves site_kept (on_node (close_database db)).
Proof using Hne.
  apply kept_on_node. unfold close_database, drop_conn, checkpoint.
  pres; first [apply other_fallible | apply other_conns].
Qed.

Lemma kept_clear : preserves site_kept (on_node (clear_cache db)).
Proof using Hne. apply kept_on_node. by apply other_clear. Qed.

#[local] Hint Resolve kept_restore_incr kept_close kept_clear : combee.

Lemma kept_replicate : preserves site_kept (replicate_from_primary db).
Proof using Hne. unfold replicate_from_primary, store_of. pres. Qed.

Lemma kept_with_conn {A} (f : M (Node U) CombeeError A) :
  preserves (same_other x n0) f -> preserves site_kept (on_node (with_conn ncfg db f)).
Proof using Hne. intros Hf. by apply kept_on_node, other_with_conn. Qed.

Lemma kept_backup : preserves site_kept (backup ncfg sha256 db).
Proof using All.
  unfold backup, store_of, upload_snapshot, snapshot_key. pres.
  apply kept_with_conn. pres; first [apply other_fallible | by intros ???].
Qed.

Lemma kept_incremental : preserves site_kept (incremental_backup ncfg sha256 db).
Proof using All.
  unfold incremental_backup, store_of, upload_incr, snap_key, wal_key, incr_prefix, copy_files.
  rewrite ?string_app_assoc. pres; try (rewrite !string_app_assoc; apply kept_put).
  apply kept_with_conn. pres; first [apply other_fallible | by intros ???].
Qed.

Lemma kept_restore version : preserves site_kept (restore ncfg obj_path db version).
Proof using Hne.
  unfold restore, store_of, restore_version, restore_latest, integrity_check, list_snapshots, list_objects, store_of.
  pres.
  apply kept_with_conn. pres. apply other_fallible.
Qed.

Lemma kept_op op : op_db op = Some db -> preserves site_kept (on_node (run_node ncfg op)).
Proof using Hne. intros Hop. by apply kept_on_node, other_run with (db := db). Qed.

Lemma kept_discard {A} op (m : M (Node U) CombeeError A) :
  op_db op = Some db -> run_node ncfg op = discard m -> preserves site_kept (on_node m).
Proof using Hne. intros Hop Hm. apply kept_on_node, discard_inv. rewrite <- Hm. by apply other_run with (db := db). Qed.

Lemma kept_fence g : preserves site_kept (on_node (fence_cell db g)).
Proof using Hne. apply kept_on_node. by apply other_fence. Qed.

Lemma kept_gets {A} (f : Node U -> A) : preserves site_kept (on_node (gets f)).
Proof. by apply kept_on_node, preserves_gets. Qed.

End site.

(** ** The directory and the books *)

Section stores.
Context {env : Env} `{UuidText}.
Variables (t : TenantId) (x : DatabaseId).

(** An id the tenant may use: not the other Cell's, and of 128 bits. *)
Definition apart (id : DatabaseId) : Prop := id <> x /\ (database_uuid id < 2 ^ 128)%N.

(** The Cells of the tenant are under their own ids. *)
Definition owns (c : Catalog) : Prop :=
  forall id rec, databases c !! (t, id) = Some rec -> db_id rec = id /\ apart id.

Record catalog_kept (c0 c : Catalog) : Prop := {
  ck_owns : owns c;
  ck_records : forall u id, u <> t -> databases c !! (u, id) = databases c0 !! (u, id);
  ck_names : forall u n, u <> t -> name_index c !! (u, n) = Some x <-> name_index c0 !! (u, n) = Some x;
  ck_keys : forall kid k, k_tenant k <> t -> api_keys c !! kid = Some k <-> api_keys c0 !! kid = Some k;
  ck_rest : tenants c = tenants c0 /\ data_nodes c = data_nodes c0 /\ leases c = leases c0 /\ config c = config c0;
}.

Record ledger_kept (l0 l : Ledger) : Prop := {
  lk_accounts : forall u, u <> t -> credit_accounts l !! u = credit_accounts l0 !! u;
  lk_entries : forall id y, txn_tenant y <> t ->
    credit_transactions l !! id = Some y <-> credit_transactions l0 !! id = Some y;
  lk_rest : usage l = usage l0 /\ pricing_versions l = pricing_versions l0 /\ pricing_rules l = pricing_rules l0;
}.

Lemma catalog_kept_refl c : owns c -> catalog_kept c c.
Proof. by split. Qed.

Lemma ledger_kept_refl l : ledger_kept l l.
Proof. by split. Qed.

Variables (c0 : Catalog) (l0 : Ledger).

(** Drawn ids are new: no other Cell, key or entry of another tenant has one. *)
Record draws_new : Prop := {
  dn_cell : forall n, apart (mkDatabaseId (uuid_v4 n));
  dn_key : forall n k, api_keys c0 !! uuid_v4 n = Some k -> k_tenant k = t;
  dn_entry : forall n y, credit_transactions l0 !! uuid_v4 n = Some y -> txn_tenant y = t;
}.

Abbreviation cat_ok := (fun (c : Catalog) (_ : Eff) => catalog_kept c0 c).
Abbreviation led_ok := (fun (l : Ledger) (_ : Eff) => ledger_kept l0 l).

Lemma kept_put_record id rec :
  db_id rec = id -> apart id -> preserves cat_ok (put_record t id rec).
Proof.
  intros Hid Ha c e [Ho Hr Hn Hk Hs]. split; try done; unfold owns; simpl.
  - intros id' rec' [[[= <-] <-]|[_ Hl]]%lookup_insert_Some; [done|by apply Ho].
  - intros u id' Hu. rewrite lookup_insert_ne by congruence. by apply Hr.
Qed.

Lemma kept_name_put n id : preserves cat_ok (modify (E:=CombeeError) (with_names <[(t, n) := id]>)).
Proof.
  intros c e [Ho Hr Hn Hk Hs]. split; try done. intros u m Hu. simpl.
  rewrite lookup_insert_ne by congruence. by apply Hn.
Qed.

Lemma kept_name_del n : preserves cat_ok (modify (E:=CombeeError) (with_names (delete (t, n)))).
Proof.
  intros c e [Ho Hr Hn Hk Hs]. split; try done. intros u m Hu. simpl.
  rewrite lookup_delete_ne by congruence. by apply Hn.
Qed.

Lemma kept_record_del id : preserves cat_ok (modify (E:=CombeeError) (with_databases (delete (t, id)))).
Proof.
  intros c e [Ho Hr Hn Hk Hs]. split; try done; unfold owns; simpl.
  - intros id' rec' [_ Hl]%lookup_delete_Some. by apply Ho.
  - intros u id' Hu. rewrite lookup_delete_ne by congruence. by apply Hr.
Qed.

Lemma kept_names_purge id :
  apart id -> preserves cat_ok (modify (E:=CombeeError) (with_names (filter (fun kv => kv.2 <> id)))).
Proof.
  intros [Hne _] c e [Ho Hr Hn Hk Hs]. split; try done. intros u m Hu. simpl. rewrite <- Hn by done.
  rewrite map_lookup_filter_Some. simpl. split; [by intros [? _]|]. by intros ?; split; [|congruence].
Qed.

Lemma kept_insert_record id name node now :
  apart id -> preserves cat_ok (insert_record (mkDatabaseRecord id name t Created now node None 0)).
Proof.
  intros Ha. unfold insert_record. pres; [apply kept_name_put|].
  by apply (kept_put_record id (mkDatabaseRecord id name t Created now node None 0)).
Qed.

Lemma kept_cat_clock : preserves cat_ok now_unix.
Proof. by intros c e Hc. Qed.

(** Work on a record of the tenant starts from its own Cell. *)
Lemma kept_get_bind {A} id (k : DatabaseRecord -> M Catalog CombeeError A) :
  (forall rec, apart id -> db_id rec = id -> preserves cat_ok (k rec)) ->
  preserves cat_ok (bind (get_database t id) k).
Proof.
  intros Hk. eapply (hoare_bind _ _ _ (fun r c _ => catalog_kept c0 c /\ forall rec, r = Ok rec -> apart id /\ db_id rec = id)).
  - intros c e Hc. unfold get_database, bind, gets.
    destruct (databases c !! (t, id)) as [rec|] eqn:Hrec; [|done]. split; [done|].
    intros rec' [= <-]. by apply and_comm, (ck_owns _ _ Hc).
  - intros rec c e [Hc Hrec]. destruct (Hrec rec eq_refl). by apply Hk.
  - by intros err c e [Hc _].
Qed.

Lemma kept_rename id n : preserves cat_ok (rename_database t id n).
Proof.
  apply kept_get_bind. intros rec Ha Hid. cbv zeta.
  pres; first [apply kept_name_del | apply kept_name_put | by apply kept_put_record].
Qed.

Lemma kept_reset id : preserves cat_ok (store_reset_database t id).
Proof. apply kept_get_bind. intros rec Ha Hid. cbv zeta. pres. by apply kept_put_record. Qed.

Lemma kept_state id st : preserves cat_ok (set_database_state t id st).
Proof. apply kept_get_bind. intros rec Ha Hid. by apply kept_put_record. Qed.

Lemma kept_set_replica id r : preserves cat_ok (set_replica_node t id r).
Proof. apply kept_get_bind. intros rec Ha Hid. cbv zeta. pres. by apply kept_put_record. Qed.

Lemma kept_promote id : preserves cat_ok (promote_replica t id).
Proof. apply kept_get_bind. intros rec Ha Hid. cbv zeta. pres. by apply kept_put_record. Qed.

Lemma kept_create id node name : apart id -> preserves cat_ok (create_database t id node name).
Proof. intros Ha. unfold create_database. pres; first [apply kept_cat_clock | by apply kept_insert_record]. Qed.

Lemma kept_delete id : apart id -> preserves cat_ok (store_delete_database t id).
Proof. intros Ha. unfold store_delete_database. pres; [apply kept_record_del|by apply kept_names_purge]. Qed.

Lemma kept_revoke kid : preserves cat_ok (revoke_api_key t kid).
Proof.
  intros c e Hc. unfold revoke_api_key, bind, gets.
  destruct (api_keys c !! kid) as [k|] eqn:Hkid; [|done].
  destruct (decide (k_tenant k <> t)) as [|Ht%dec_stable]; [done|].
  destruct Hc as [Ho Hr Hn Hk Hs]. split; try done. intros kid' k' Hk'. simpl. rewrite <- Hk by done.
  destruct (decide (kid = kid')) as [<-|]; [|by rewrite lookup_insert_ne].
  rewrite lookup_insert_eq, Hkid. split; intros [= <-]; by destruct Hk'.
Qed.

Lemma kept_idempotency key p : preserves cat_ok (save_idempotency key t p).
Proof. intros c e Hc. unfold save_idempotency, bind, gets. destruct (idempotency c !! key) as [[]|]; [done|]. by destruct Hc. Qed.

Lemma kept_waitlist email now : preserves cat_ok (create_waitlist_entry email now).
Proof. intros c e Hc. unfold create_waitlist_entry, bind, gets. destruct (forallb _ _); [|done]. by destruct Hc. Qed.

Section drawing.
Hypothesis Hdraw : draws_new.

Lemma kept_create_key h n : preserves cat_ok (create_api_key t h n).
Proof using Hdraw.
  intros c e [Ho Hr Hn Hk Hs]. unfold create_api_key, bind, fresh_uuid, now_unix, read_clock, modify, mret. simpl.
  split; try done. intros kid k Hkt. simpl. rewrite <- Hk by done.
  destruct (decide (uuid_v4 (e_uuid e) = kid)) as [<-|]; [|by rewrite lookup_insert_ne].
  rewrite lookup_insert_eq. split; [by intros [= <-]|]. intros Hold%Hk; [|done].
  destruct Hkt. by eapply (dn_key Hdraw).
Qed.

Lemma kept_account : preserves led_ok (get_credit_account t).
Proof.
  unfold get_credit_account, led_now. pres; [by intros ???|]. intros l e [Ha He Hs]. split; try done.
  intros u Hu. simpl. rewrite lookup_insert_ne by done. by apply Ha.
Qed.

Lemma kept_credit amount now : preserves led_ok (credit t amount now).
Proof.
  unfold credit. pres; [apply kept_account|]. intros l e [Ha He Hs]. split; try done.
  intros u Hu. simpl. rewrite lookup_insert_ne by done. by apply Ha.
Qed.

Lemma kept_voucher_use f : preserves led_ok (modify (E:=CombeeError) (with_vouchers f)).
Proof. by intros l e [Ha He Hs]. Qed.

(** An entry of the tenant under a drawn id. *)
Lemma kept_draw_entry {A} (f : N -> CreditTransaction) (a : A) :
  (forall id, txn_id (f id) = id /\ txn_tenant (f id) = t) ->
  preserves led_ok (let! id := fresh_uuid in do! record_transaction (f id) in mret a).
Proof using Hdraw.
  intros Hf l e [Ha He Hs]. unfold bind, fresh_uuid, record_transaction, modify, mret. simpl.
  destruct (Hf (uuid_v4 (e_uuid e))) as [Hid Ht].
  assert (ledger_kept l0 (with_transactions <[uuid_v4 (e_uuid e) := f (uuid_v4 (e_uuid e))]> l)) as Hl.
  { split; try done. intros id y Hy. simpl. rewrite <- He by done.
    destruct (decide (uuid_v4 (e_uuid e) = id)) as [<-|]; [|by rewrite lookup_insert_ne].
    rewrite lookup_insert_eq. split; [by intros [= <-]|]. intros Hold%He; [|done].
    destruct Hy. by eapply (dn_entry Hdraw). }
  rewrite Hid. destruct (reference_id _); by destruct Hl.
Qed.

Lemma kept_redeem h now : preserves led_ok (redeem_voucher h t now).
Proof using Hdraw.
  unfold redeem_voucher.
  repeat first [apply kept_voucher_use | apply kept_credit | apply kept_draw_entry; done | pres_step].
Qed.

End drawing.
End stores.

(** ** The server *)

Definition same_node {U} (x : DatabaseId) (o0 o : option (Node U)) : Prop :=
  match o0, o with
  | Some n0, Some n => same_other x n0 n eff0
  | None, None => True
  | _, _ => False
  end.

Lemma same_node_refl {U} x (o : option (Node U)) : same_node x o o.
Proof. by destruct o. Qed.

Lemma same_objects_refl `{UuidText} x o : same_objects x o o.
Proof. by destruct o. Qed.

Section server.
Context {env : Env} `{UuidText} {U : Type} `{Images U}.
Variables (t : TenantId) (x : DatabaseId) (s0 : Server U).

Abbreviation SrvM := (M (Server U) CombeeError).
Abbreviation books s := (sink (api_meter (sv_api s))).

(** What a tenant's work leaves of the server. *)
Record server_kept (s : Server U) : Prop := {
  sk_catalog : catalog_kept t x (catalog_of s0) (catalog_of s);
  sk_ledger : ledger_kept t (books s0) (books s);
  sk_usage : forall k, uk_tenant k <> t ->
    counters (api_meter (sv_api s)) !! k = counters (api_meter (sv_api s0)) !! k;
  sk_nodes : forall base, same_node x (sv_nodes s0 !! base) (sv_nodes s !! base);
  sk_local : same_node x (sv_local s0) (sv_local s);
  sk_objects : same_objects x (sv_bucket s0) (sv_bucket s);
}.

Abbreviation srv_ok := (fun (s : Server U) (_ : Eff) => server_kept s).

Lemma server_kept_refl : owns t x (catalog_of s0) -> server_kept s0.
Proof.
  intros Ho. split; auto using catalog_kept_refl, ledger_kept_refl, same_node_refl, same_objects_refl.
Qed.

Lemma srv_directory {A} (m : M Catalog CombeeError A) :
  preserves (fun c _ => catalog_kept t x (catalog_of s0) c) m -> preserves srv_ok (on_directory m).
Proof.
  intros Hm s e Hs. unfold on_directory, on_api, zoom, store_call, bind, fallible.
  destruct (fault (e_call e)); [by destruct Hs|].
  specialize (Hm (catalog_of s) (bump_call e) (sk_catalog _ Hs)). simpl.
  unfold catalog_of in Hm. destruct (m _ (bump_call e)) as [[r c] e1]. by destruct Hs.
Qed.

Lemma srv_accounts {A} (m : M Ledger CombeeError A) :
  preserves (fun l _ => ledger_kept t (books s0) l) m -> preserves srv_ok (on_accounts m).
Proof.
  intros Hm s e Hs. unfold on_accounts, on_api, zoom, store_call, bind, fallible.
  destruct (fault (e_call e)); [by destruct Hs|].
  specialize (Hm (books s) (bump_call e) (sk_ledger _ Hs)). simpl.
  destruct (m _ (bump_call e)) as [[r l] e1]. by destruct Hs.
Qed.

Lemma srv_meter cell metric d : preserves srv_ok (on_meter (record_usage t cell metric d)).
Proof.
  intros s e Hs. unfold on_meter, on_api, zoom, record_usage.
  destruct (d =? 0); simpl; [by destruct Hs|]. destruct Hs as [Hc Hl Hu Hn Ho Hb]. split; try done. simpl.
  intros k Hk. unfold bump_counter. simpl. rewrite lookup_insert_ne; [by apply Hu|]. by intros <-.
Qed.

Lemma srv_inflight {A} (f : gmap string Z -> A * gmap string Z) : preserves srv_ok (on_inflight f).
Proof. intros s e Hs. unfold on_inflight, on_api, zoom. destruct (f _). by destruct Hs. Qed.

Lemma srv_registry f : preserves srv_ok (modify (E:=CombeeError) (set_registry f)).
Proof. by intros s e []. Qed.
Lemma srv_routes f : preserves srv_ok (modify (E:=CombeeError) (set_routes f)).
Proof. by intros s e []. Qed.
Lemma srv_clients f : preserves srv_ok (modify (E:=CombeeError) (set_clients f)).
Proof. by intros s e []. Qed.
Lemma srv_clock : preserves srv_ok (read_clock (E:=CombeeError)).
Proof. by intros s e Hs. Qed.
Lemma srv_instant : preserves srv_ok (read_instant (E:=CombeeError)).
Proof. by intros s e Hs. Qed.
Lemma srv_uuid : preserves srv_ok (fresh_uuid (E:=CombeeError)).
Proof. by intros s e Hs. Qed.
Lemma srv_fallible err : preserves srv_ok (fallible (E:=CombeeError) err).
Proof. intros s e Hs. unfold fallible. by destruct (fault _). Qed.

(** Reading the directory or the books. *)
Lemma srv_read {A} (m : M Catalog CombeeError A) : (forall c e, (m c e).1.2 = c) -> preserves srv_ok (on_directory m).
Proof. intros Hm. apply srv_directory. intros c e Hc. specialize (Hm c e). by destruct (m c e) as [[r c'] e']; simpl in *; subst. Qed.

Lemma srv_get id : preserves srv_ok (on_directory (get_database t id)).
Proof. apply srv_read. intros c e. unfold get_database, bind, gets. by repeat case_match. Qed.

Lemma srv_by_name name : preserves srv_ok (on_directory (get_database_by_name t name)).
Proof.
  apply srv_read. intros c e. unfold get_database_by_name, get_database, bind, gets.
  destruct (name_index c !! (t, name)) as [id|]; [|done]. by destruct (databases c !! (t, id)).
Qed.

Lemma srv_by_id id : preserves srv_ok (on_directory (get_database_by_id id)).
Proof. apply srv_read. intros c e. unfold get_database_by_id, bind, gets. by repeat case_match. Qed.

Lemma srv_nodes_list : preserves srv_ok (on_directory list_data_nodes).
Proof. by apply srv_read. Qed.

#[local] Hint Resolve srv_meter srv_inflight srv_registry srv_routes srv_clients srv_clock srv_instant srv_uuid srv_fallible
  srv_get srv_by_id srv_nodes_list : combee.

Lemma srv_ensure_fresh : preserves srv_ok ensure_fresh.
Proof. unfold ensure_fresh, cache_record. pres. Qed.

#[local] Hint Resolve srv_ensure_fresh : combee.

Lemma srv_addr n : preserves srv_ok (addr n).
Proof. unfold addr. pres. Qed.

Lemma srv_healthy : preserves srv_ok healthy.
Proof. unfold healthy. pres. Qed.

#[local] Hint Resolve srv_addr srv_healthy : combee.

Lemma srv_pick : preserves srv_ok pick.
Proof. unfold pick. pres. Qed.

Lemma srv_client_for db : preserves srv_ok (client_for db).
Proof. unfold client_for, client_from_authority, invalidate_route, make_client. pres. Qed.

Lemma srv_client_for_node n : preserves srv_ok (client_for_node n).
Proof. unfold client_for_node. pres. Qed.

(** ** Calls to the nodes *)

Definition site_ok {A} (m : M (Site U) CombeeError A) : Prop :=
  forall n0 b0, preserves (site_kept x n0 b0) m.

Lemma same_site {A} (m : M (Site U) CombeeError A) o0 b0 n b e :
  site_ok m -> same_node x o0 (Some n) -> same_objects x b0 b ->
  let '(_, st, _) := m (mkSite n b) e in same_node x o0 (Some (site_node st)) /\ same_objects x b0 (bucket st).
Proof.
  intros Hm Hn Hb. destruct o0 as [n0|]; [|done].
  specialize (Hm n0 b0 (mkSite n b) e (conj Hn Hb)). by destruct (m _ e) as [[r st] e1].
Qed.

Lemma srv_at_local {A} (m : M (Site U) CombeeError A) : site_ok m -> preserves srv_ok (at_local m).
Proof.
  intros Hm s e Hs. unfold at_local. destruct (sv_local s) as [n|] eqn:Hl; [|done].
  destruct Hs as [Hc Hb Hu Hn Ho Hk]. rewrite Hl in Ho. pose proof (same_site m _ _ n _ e Hm Ho Hk) as Hr.
  destruct (m _ e) as [[r st] e1]. destruct Hr. by split.
Qed.

Lemma srv_at_node {A} base n (m : M (Site U) CombeeError A) :
  site_ok m -> same_node x (sv_nodes s0 !! base) (Some n) -> preserves srv_ok (at_node base n m).
Proof.
  intros Hm Hsame s e [Hc Hb Hu Hn Ho Hk]. unfold at_node. pose proof (same_site m _ _ n _ e Hm Hsame Hk) as Hr.
  destruct (m _ e) as [[r st] e1]. destruct Hr as [Hr1 Hr2]. split; try done. simpl. intros base'.
  destruct (decide (base = base')) as [<-|]; [by rewrite lookup_insert_eq|by rewrite lookup_insert_ne].
Qed.

Lemma srv_call {A} c path (m : M (Site U) CombeeError A) : site_ok m -> preserves srv_ok (call c path m).
Proof.
  intros Hm. destruct c as [|base on_error]; [by apply srv_at_local|]. simpl. unfold rpc.
  apply preserves_bind; [pres|]. intros sent.
  eapply (hoare_bind _ _ _ (fun r s _ => server_kept s /\ forall o, r = Ok o -> same_node x (sv_nodes s0 !! base) o)).
  - intros s e Hs. split; [done|]. intros o [= <-]. by apply sk_nodes.
  - intros o s e [Hs Hsame]. specialize (Hsame o eq_refl). revert s e Hs.
    change (preserves srv_ok (match sent, o with
      | Err _, _ => rpc_failed on_error path "send"
      | _, None => rpc_failed on_error path "connection refused"
      | Ok _, Some n =>
          let! r := at_node base n m in
          let! received := attempt (fallible Internal) in
          match received with
          | Err _ => rpc_failed on_error path "decode"
          | Ok _ => let! u := fresh_uuid in mlift (into_result (mkDatabaseId u) (from_result r))
          end
      end)).
    unfold rpc_failed, notify_error, invalidate_route. pres. by apply srv_at_node.
  - by intros err s e [Hs _].
Qed.

(** Work on a Cell starts by finding it in the tenant's directory. *)
Lemma srv_find_bind {A} (P : DatabaseRecord -> Prop) m (k : DatabaseRecord -> SrvM A) :
  (forall c e, (m c e).1.2 = c) ->
  (forall c e rec, owns t x c -> (m c e).1.1 = Ok rec -> P rec) ->
  (forall rec, P rec -> preserves srv_ok (k rec)) ->
  preserves srv_ok (bind (on_directory m) k).
Proof.
  intros Hro Hfound Hk.
  eapply (hoare_bind _ _ _ (fun r s _ => server_kept s /\ forall rec, r = Ok rec -> P rec)).
  - intros s e Hs. pose proof (srv_read m Hro s e Hs) as Hkept.
    unfold on_directory, on_api, zoom, store_call, bind, fallible in *. destruct (fault (e_call e)); [by split|].
    specialize (Hfound (catalog_of s) (bump_call e)). unfold catalog_of in Hfound. simpl in *.
    destruct (m _ (bump_call e)) as [[r c] e1]. split; [done|]. intros rec ->.
    apply Hfound; [|done]. apply (ck_owns _ _ _ _ (sk_catalog _ Hs)).
  - intros rec s e [Hs Hrec]. by apply (Hk rec (Hrec rec eq_refl)).
  - by intros err s e [Hs _].
Qed.

Lemma srv_get_bind {A} id (k : DatabaseRecord -> SrvM A) :
  (forall rec, db_id rec = id /\ apart x id -> preserves srv_ok (k rec)) ->
  preserves srv_ok (bind (on_directory (get_database t id)) k).
Proof.
  apply srv_find_bind.
  - intros c e. unfold get_database, bind, gets. by repeat case_match.
  - intros c e rec Ho. unfold get_database, bind, gets.
    destruct (databases c !! (t, id)) as [r|] eqn:Hr; [|done]. intros [= <-]. by apply Ho.
Qed.

Lemma srv_by_name_bind {A} name (k : DatabaseRecord -> SrvM A) :
  (forall rec, apart x (db_id rec) -> preserves srv_ok (k rec)) ->
  preserves srv_ok (bind (on_directory (get_database_by_name t name)) k).
Proof.
  apply srv_find_bind.
  - intros c e. unfold get_database_by_name, get_database, bind, gets.
    destruct (name_index c !! (t, name)) as [id|]; [|done]. by destruct (databases c !! (t, id)).
  - intros c e rec Ho. unfold get_database_by_name, get_database, bind, gets.
    destruct (name_index c !! (t, name)) as [id|]; [|done].
    destruct (databases c !! (t, id)) as [r|] eqn:Hr; [|done]. intros [= <-].
    destruct (Ho id r Hr) as [-> Ha]. done.
Qed.

End server.
