(* ===== verification/AppSpec.v ===== *)
(** The whole API server, route by route: a request without credentials
    changes nothing, and a tenant's request stays within what the tenant owns. *)

From Stdlib Require Import ZArith Lia String Ascii.
From stdpp Require Import gmap strings list fin_maps sorting.
From S2P Require Import Prelude Common Kv SqlGate Sql Cache Manager DataNode NodeInv NodeCapacity NodeSafety Catalog CatalogSpec Ledger Billing Access AccessSpec Backup BackupSpec Routing RoutingSpec Metrics NodeApi Agent Queries Handlers App Confine.

(** ** The handlers of the public routes *)

Section handlers.
Context {env : Env} `{UuidTextLaws} `{!UuidHexLaw} `{HttpText} `{MillisClock} `{IdPayload} `{TimeText}.
Context {U : Type} `{CellFiles U} `{SqlEngine U} `{Images U}.
Variable ncfg : DataNodeConfig.
Variable cfg : ApiConfig.
Variable sha256 : string -> string.
Variable obj_path : string -> string.
Variable lower : bytes -> bytes.
Variable prices : PricingConfig.
Variables (t : TenantId) (x : DatabaseId) (s0 : Server U).
Hypothesis Hx : (database_uuid x < 2 ^ 128)%N.
Hypothesis Hdraw : draws_new t x (catalog_of s0) (sink (api_meter (sv_api s0))).

Abbreviation SrvM := (M (Server U) CombeeError).
Abbreviation srv_ok := (fun (s : Server U) (_ : Eff) => server_kept t x s0 s).
Abbreviation auth := (mkAuthContext t false).

(** Node operations on a Cell of the tenant. *)
Ltac site :=
  intros ??;
  lazymatch goal with
  | |- preserves _ (on_node (kv_get _ ?i ?k)) => apply (kept_discard ncfg) with (op := NGet i k) (db := i)
  | |- preserves _ (on_node (kv_set _ ?i ?k ?v ?ttl ?nx ?xx ?g)) =>
      apply (kept_discard ncfg) with (op := NSet i k v ttl nx xx g) (db := i)
  | |- preserves _ (on_node (kv_del _ ?i ?k ?g)) => apply (kept_discard ncfg) with (op := NDel i k g) (db := i)
  | |- preserves _ (on_node (kv_exists _ ?i ?k)) => apply (kept_discard ncfg) with (op := NExists i k) (db := i)
  | |- preserves _ (on_node (kv_mget _ ?i ?ks)) => apply (kept_discard ncfg) with (op := NMget i ks) (db := i)
  | |- preserves _ (on_node (kv_mset _ ?i ?items ?g)) => apply (kept_op ncfg) with (op := NMset i items g) (db := i)
  | |- preserves _ (on_node (kv_ttl _ ?i ?k)) => apply (kept_discard ncfg) with (op := NTtl i k) (db := i)
  | |- preserves _ (on_node (kv_expire _ ?i ?k ?ttl ?g)) => apply (kept_discard ncfg) with (op := NExpire i k ttl g) (db := i)
  | |- preserves _ (on_node (kv_incr _ ?i ?k ?d ?ttl ?g)) => apply (kept_discard ncfg) with (op := NIncr i k d ttl g) (db := i)
  | |- preserves _ (on_node (kv_scan _ ?i ?p ?l ?c)) => apply (kept_discard ncfg) with (op := NScan i p l c) (db := i)
  | |- preserves _ (on_node (node_execute_sql _ ?i ?req ?g)) => apply (kept_discard ncfg) with (op := NSql i req g) (db := i)
  | |- preserves _ (on_node (node_execute_transaction _ ?i ?sts ?g)) =>
      apply (kept_discard ncfg) with (op := NTx i sts g) (db := i)
  | |- preserves _ (on_node (ensure_database _ ?i)) => apply (kept_op ncfg) with (op := NEnsure i) (db := i)
  | |- preserves _ (on_node (reset_database ?i)) => apply (kept_op ncfg) with (op := NReset i) (db := i)
  | |- preserves _ (on_node (node_delete_database _ ?i)) => apply (kept_op ncfg) with (op := NDelete i) (db := i)
  | |- preserves _ (on_node (fence_cell _ _)) => apply kept_fence
  | |- preserves _ (on_node (storage_bytes _)) => apply kept_on_node; by intros ???
  | |- preserves _ (on_node (gets _)) => apply kept_gets
  | |- preserves _ (backup _ _ _) => apply kept_backup
  | |- preserves _ (incremental_backup _ _ _) => apply kept_incremental
  | |- preserves _ (restore _ _ _ _) => apply kept_restore
  | |- preserves _ (replicate_from_primary _) => apply kept_replicate
  end; first [assumption | reflexivity | by split].

Lemma preserves_assoc {A B C} I (m : SrvM A) (f : A -> SrvM B) (k : B -> SrvM C) :
  preserves I (let! a := m in let! b := f a in k b) -> preserves I (let! b := (let! a := m in f a) in k b).
Proof. intros Hm s e Hs. rewrite bind_assoc. by apply Hm. Qed.

(** One step through a handler. *)
Ltac srv_step :=
  lazymatch goal with
  | |- preserves _ (bind (bind _ _) _) => apply preserves_assoc
  | |- preserves _ (bind (on_directory (get_database t _)) _) => apply srv_get_bind; intros ? [? [? ?]]
  | |- preserves _ (bind (on_directory (get_database_by_name t _)) _) => apply srv_by_name_bind; intros ? [? ?]
  | |- preserves _ (on_directory (get_database t _)) => apply srv_get
  | |- preserves _ (on_directory (get_database_by_name t _)) => apply srv_by_name
  | |- preserves _ (on_directory (set_database_state t _ _)) => apply srv_directory, kept_state
  | |- preserves _ (on_directory (rename_database t _ _)) => apply srv_directory, kept_rename
  | |- preserves _ (on_directory (store_reset_database t _)) => apply srv_directory, kept_reset
  | |- preserves _ (on_directory (store_delete_database t _)) => apply srv_directory, kept_delete; by split
  | |- preserves _ (on_directory (set_replica_node t _ _)) => apply srv_directory, kept_set_replica
  | |- preserves _ (on_directory (promote_replica t _)) => apply srv_directory, kept_promote
  | |- preserves _ (on_directory (create_database t _ _ _)) => apply srv_directory, kept_create; by split
  | |- preserves _ (on_directory (create_api_key t _ _)) => eapply srv_directory, kept_create_key; exact Hdraw
  | |- preserves _ (on_directory (revoke_api_key t _)) => apply srv_directory, kept_revoke
  | |- preserves _ (on_directory (save_idempotency _ t _)) => apply srv_directory, kept_idempotency
  | |- preserves _ (on_directory (create_waitlist_entry _ _)) => apply srv_directory, kept_waitlist
  | |- preserves _ (on_directory _) => by apply srv_read
  | |- preserves _ (on_accounts (get_credit_account t)) => apply srv_accounts, kept_account
  | |- preserves _ (on_accounts (redeem_voucher _ t _)) => eapply srv_accounts, kept_redeem; exact Hdraw
  | |- preserves _ (on_accounts _) => apply srv_accounts; by intros ???
  | |- preserves _ (on_meter (record_usage t _ _ _)) => apply srv_meter
  | |- preserves _ (on_inflight _) => apply srv_inflight
  | |- preserves _ (client_for _) => apply srv_client_for
  | |- preserves _ (client_for_node _) => apply srv_client_for_node
  | |- preserves _ pick => apply srv_pick
  | |- preserves _ healthy => apply srv_healthy
  | |- preserves _ (call _ _ _) => apply srv_call; site
  | |- preserves _ (modify (set_routes _)) => apply srv_routes
  | |- preserves _ read_clock => apply srv_clock
  | |- preserves _ read_instant => apply srv_instant
  | |- preserves _ fresh_uuid => apply srv_uuid
  | |- preserves _ _ => pres_step
  end.

Ltac srv := cbn [auth_internal auth_tenant]; cbv zeta; repeat srv_step.

(** A Cell with a drawn id. *)
Lemma srv_draw_bind {A} (k : DatabaseId -> SrvM A) :
  (forall id, apart x id -> preserves srv_ok (k id)) -> preserves srv_ok (let! id := DatabaseId_new in k id).
Proof using Hdraw. intros Hk s e Hs. exact (Hk _ (dn_cell _ _ _ _ Hdraw (e_uuid e)) s (bump_uuid e) Hs). Qed.

Lemma srv_ensure_bind {A} name node (k : DatabaseRecord * bool -> SrvM A) :
  (forall p, apart x (db_id p.1) -> preserves srv_ok (k p)) ->
  preserves srv_ok (let! p := on_directory (ensure_database_by_name t name node) in k p).
Proof using Hdraw.
  intros Hk.
  eapply (hoare_bind _ _ _ (fun r s _ => server_kept t x s0 s /\ forall p, r = Ok p -> apart x (db_id p.1))).
  - intros s e Hs. unfold on_directory, on_api, zoom, store_call, bind at 1, fallible.
    destruct (fault (e_call e)); [by destruct Hs|].
    pose proof (kept_insert_record t x (catalog_of s0) (mkDatabaseId (uuid_v4 (e_uuid e))) name node (clock (e_clock e))
      (dn_cell _ _ _ _ Hdraw _) (catalog_of s) (bump_call e) (sk_catalog _ _ _ _ Hs)) as Hins.
    unfold ensure_database_by_name, bind at 1, gets. simpl.
    destruct (name_index (api_catalog (sv_api s)) !! (t, name)) as [id|].
    + unfold get_database, bind, gets. simpl.
      destruct (databases (api_catalog (sv_api s)) !! (t, id)) as [rec|] eqn:Hrec; [|by destruct Hs].
      split; [by destruct Hs|]. intros p [= <-]. simpl.
      destruct (ck_owns _ _ _ _ (sk_catalog _ _ _ _ Hs) id rec Hrec) as [-> Ha]. done.
    + split; [by destruct Hs|]. intros p [= <-]. apply (dn_cell _ _ _ _ Hdraw).
  - intros p s e [Hs Hp]. by apply (Hk p (Hp p eq_refl)).
  - by intros err s e [Hs _].
Qed.

Lemma cell_confined id op : preserves srv_ok (run_cell ncfg sha256 obj_path auth id op).
Proof using H0 H1 Hx Hdraw.
  destruct op; unfold run_cell, answering, respond, h_kv_get, h_kv_set, h_kv_del, h_kv_exists, h_kv_mget, h_kv_mset,
    h_kv_ttl, h_kv_expire, h_kv_incr, h_kv_list, enter_kv, h_execute_sql, h_execute_transaction, h_get_database,
    h_delete_database, h_rename_database, validate_cell_name, h_reset_database, h_backup, h_incremental_backup,
    h_restore, h_set_replica, h_unset_replica, h_get_replica, h_failover, failover_cell, invalidate_route, require_db, record_billed;
    srv.
Qed.

Lemma add_storage_confined cells s : preserves srv_ok (add_storage cells s).
Proof using All.
  revert s. induction cells as [|c cells IH]; intros s; simpl; [by apply preserves_ret|].
  unfold current_storage. apply preserves_bind; [|intros ?; apply IH]. srv.
Qed.

Lemma create_confined id name : apart x id -> preserves srv_ok (create_new cfg auth id name).
Proof using All.
  intros [Hne Hid]. unfold create_new, check_cell_quota, validate_cell_name. srv.
Qed.

Lemma public_confined op : preserves srv_ok (run_public ncfg cfg sha256 obj_path lower prices auth op).
Proof using All.
  destruct op; [apply cell_confined|..]; simpl; unfold answering, answering_with, respond;
    (apply preserves_bind; [apply preserves_attempt|intros ?; by apply preserves_ret]).
  - by apply preserves_bind; [apply srv_read|intros ?; apply preserves_ret].
  - unfold h_create_database, replay_created. apply srv_draw_bind. intros id Ha. cbn [auth_tenant].
    destruct idempotency_key; [|by apply create_confined]. srv. by apply create_confined.
  - unfold h_ensure_database, check_cell_quota, validate_cell_name. cbn [auth_tenant]. cbv zeta.
    repeat first [apply srv_ensure_bind; intros [rec created] [? ?] | srv_step].
  - unfold h_get_database_by_name. srv.
  - unfold h_delete_database_by_name. srv.
  - unfold h_create_api_key, generate_key. srv.
  - unfold h_list_api_keys. srv.
  - unfold h_revoke_api_key. srv.
  - unfold usage_summary, meter_query. srv. apply add_storage_confined.
  - unfold usage_timeseries, meter_query. srv.
  - unfold cell_usage, meter_query, current_storage. srv.
  - unfold h_waitlist_join. srv.
  - unfold h_credits_balance. srv.
  - unfold h_credits_transactions. srv.
  - unfold h_credits_redeem. srv.
  - srv.
  - srv.
Qed.

(** ** The layers *)

Abbreviation ObsM := (M (Server U * Registry) CombeeError).
Abbreviation obs_ok := (fun (p : Server U * Registry) (_ : Eff) => server_kept t x s0 p.1).

Lemma obs_server {A} (m : SrvM A) : preserves srv_ok m -> preserves obs_ok (on_server m).
Proof. intros Hm [s reg] e Hs. unfold on_server, zoom. simpl. specialize (Hm s e Hs). by destruct (m s e) as [[r s'] e']. Qed.

Lemma obs_metrics f : preserves obs_ok (on_metrics f).
Proof. by intros [s reg] e Hs. Qed.

Lemma obs_api {A} (m : M Api CombeeError A) : preserves srv_ok (on_api m) -> preserves obs_ok (on_api m).
Proof.
  intros Hm [s reg] e Hs. specialize (Hm s e Hs). unfold on_api, zoom in *. simpl in *.
  by destruct (m (sv_api s) e) as [[r a] e'].
Qed.

Lemma obs_meter cell metric d : preserves obs_ok (on_meter (record_usage t cell metric d)).
Proof. apply obs_api, srv_meter. Qed.

Lemma obs_inflight {A} (f : gmap string Z -> A * gmap string Z) : preserves obs_ok (on_inflight f).
Proof. apply obs_api, srv_inflight. Qed.

Lemma obs_account : preserves obs_ok (on_accounts (get_credit_account t)).
Proof. apply obs_api. apply srv_accounts, kept_account. Qed.

Lemma obs_instant : preserves obs_ok (read_instant (E:=CombeeError)).
Proof. by intros p e Hp. Qed.

#[local] Hint Resolve obs_meter obs_inflight obs_account obs_instant obs_metrics : combee.

(** The layers inside authentication, around a handler that keeps to the tenant. *)
Lemma stack_confined (handler : Request -> ObsM (Response Reply)) req :
  (forall req', rq_auth req' = Some auth -> preserves obs_ok (handler req')) -> rq_auth req = Some auth ->
  preserves obs_ok (credit_quota cfg (usage_tracking (request_logging (concurrency_quota cfg handler))) req).
Proof.
  intros Hh Hreq.
  assert (forall req', rq_auth req' = Some auth -> preserves obs_ok (request_logging (concurrency_quota cfg handler) req'))
    as Hlog.
  { intros req' Ha. unfold request_logging, concurrency_quota, drop_guard. rewrite Ha. simpl. pres; by apply Hh. }
  unfold credit_quota, usage_tracking. rewrite Hreq. simpl. pres; try (by apply Hlog).
  all: apply Hlog; simpl; by rewrite Hreq.
Qed.

Lemma public_stack_confined op req p e :
  obs_ok p e -> (forall a, authorised sha256 cfg req a (catalog_of p.1) -> a = auth) ->
  obs_ok (public_stack cfg sha256 (fun req => on_server (run_public ncfg cfg sha256 obj_path lower prices (request_auth req) op))
    req p e).1.2 e.
Proof using All.
  intros Hp Hauth. unfold public_stack, public_app.
  destruct (auth_cases sha256 cfg (credit_quota cfg (usage_tracking (request_logging (concurrency_quota cfg
    (fun req => on_server (run_public ncfg cfg sha256 obj_path lower prices (request_auth req) op)))))) req p e)
    as [(resp & e' & -> & _)|(a & e' & -> & _ & Ha)]; [done|].
  apply Hauth in Ha as ->.
  pose proof (stack_confined (fun req => on_server (run_public ncfg cfg sha256 obj_path lower prices (request_auth req) op))
    (with_auth auth req)) as Hs.
  specialize (Hs ltac:(intros req' Hr; unfold request_auth; rewrite Hr; apply obs_server, public_confined) eq_refl p e' Hp).
  by destruct (credit_quota _ _ _ p e') as [[r p'] e2].
Qed.

Lemma ready_confined : preserves srv_ok ready.
Proof. unfold ready. srv. Qed.

Lemma api_metrics_confined : preserves obs_ok api_metrics.
Proof.
  unfold api_metrics. pres. apply obs_server. by apply srv_read.
Qed.

End handlers.

Section app.
Context {env : Env} `{UuidText} `{HttpText} `{MillisClock} `{IdPayload} `{TimeText}.
Context {U : Type} `{CellFiles U} `{SqlEngine U} `{Images U}.
Variable ncfg : DataNodeConfig.
Variable cfg : ApiConfig.
Variable sha256 : string -> string.
Variable obj_path : string -> string.
Variable lower : bytes -> bytes.
Variable prices : PricingConfig.
Implicit Types (s : Server U) (reg : Registry) (p : Server U * Registry) (e : Eff) (req : Request).

Abbreviation app_routes := (routes ncfg cfg sha256 obj_path lower prices).
Abbreviation app := (build_app ncfg cfg sha256 obj_path lower prices).

(** The outer layer adds an id to whatever the route answers. *)
Lemma build_app_run r req p e :
  exists id e1, app r req p e =
    let '(res, p', e') := app_routes r req p e1 in
    (match res with Ok resp => Ok (resp, id) | Err err => Err err end, p', e').
Proof.
  unfold build_app, request_id, bind, fresh_uuid, mret.
  destruct (header_text "x-request-id" req) as [id|];
    [exists id, e|exists ("req_" +:+ uuid_simple (uuid_v4 (e_uuid e)))%string, (bump_uuid e)];
    by destruct (app_routes r req p _) as [[[resp|err] p'] e'].
Qed.

Lemma build_app_state (I : Server U * Registry -> Prop) r req p e :
  (forall e1, I (app_routes r req p e1).1.2) -> I (app r req p e).1.2.
Proof.
  intros Hr. destruct (build_app_run r req p e) as (id & e1 & ->). specialize (Hr e1).
  by destruct (app_routes r req p e1) as [[res p'] e'].
Qed.

(** ** Strangers *)

(** No credential of the request opens anything. *)
Record stranger req (c : Catalog) : Prop := {
  st_mode : auth_mode cfg = AuthKey;
  st_key : forall key, header_text "x-api-key" req = Some key -> bff_service_key cfg <> Some key /\
    forall id rec, api_keys c !! id = Some rec -> k_hash rec = sha256 key -> k_revoked_at rec <> None;
  st_admin : forall tok, admin_token cfg = Some tok -> token_presented "x-admin-token" tok req = false;
  st_control : exists tok, control_plane_token cfg = Some tok /\ token_presented "x-control-token" tok req = false;
}.

(** Everything but the registry of nodes and the metrics. *)
Definition data_of s := (sv_api s, sv_nodes s, sv_local s, sv_bucket s, sv_routes s, sv_clients s).

Abbreviation same_data d := (fun s (_ : Eff) => data_of s = d).

Lemma data_read d {A} (m : M Catalog CombeeError A) :
  (forall c e, (m c e).1.2 = c) -> preserves (same_data d) (on_directory m).
Proof.
  intros Hm s e <-. unfold on_directory, on_api, zoom, store_call, bind, fallible. simpl.
  destruct (fault (e_call e)); simpl; [by destruct s as [[]]|].
  specialize (Hm (api_catalog (sv_api s)) (bump_call e)).
  destruct (m _ (bump_call e)) as [[r c] e1]. simpl in *. subst c. by destruct s as [[]].
Qed.

Lemma ready_data d : preserves (same_data d) ready.
Proof.
  unfold ready, healthy, ensure_fresh, cache_record. pres; try (by intros ???); by apply data_read.
Qed.

(** What answers without credentials. *)
Definition is_open (r : Route) : bool := match r with RHealth | RReady | RMetrics => true | _ => false end.

Lemma open_routes_data r req s reg e :
  is_open r = true -> data_of (app_routes r req (s, reg) e).1.2.1 = data_of s.
Proof.
  destruct r; intros [=]; simpl; [done| |].
  - pose proof (ready_data (data_of s) s e eq_refl) as Hr. unfold on_server, zoom, bind, mret. simpl.
    by destruct (ready s e) as [[[a|err] s'] e'].
  - unfold api_metrics, on_metrics, attempt, on_server, zoom, bind, modify, gets, mret. simpl.
    pose proof (data_read (data_of s) list_databases_all (fun _ _ => eq_refl) s e eq_refl) as Hr.
    by destruct (on_directory list_databases_all s e) as [[[a|err] s'] e'].
Qed.

Lemma stranger_key req next p e :
  stranger req (catalog_of p.1) ->
  exists resp e', auth_middleware (B:=Reply) sha256 cfg next req p e = (Ok resp, p, e') /\ rs_status resp = 401.
Proof.
  intros [Hmode Hkey _ _]. unfold auth_middleware, unauthorized. rewrite decide_True by done.
  destruct (header_text "x-api-key" req) as [key|]; [|by eexists _, _].
  destruct (Hkey key eq_refl) as [_ Hdead]. unfold bind.
  destruct (lookup_key_run (sha256 key) p e) as (r & -> & Hlive).
  destruct r as [[rec|]|]; try (by eexists _, _).
  destruct (Hlive rec eq_refl) as (id & Hid & Hh & Hr). by destruct (Hdead id rec Hid Hh).
Qed.

(** [/v1/waitlist], which the documentation has open to everyone. *)
Definition is_waitlist (r : Route) : bool := match r with RPublic (PWaitlist _) => true | _ => false end.


(** ** Tenants *)

(** The request of a tenant: its key, not the service account's, is a key of
    that tenant wherever it is live. *)
Record tenant_request req (t : TenantId) (c : Catalog) : Prop := {
  tr_mode : auth_mode cfg = AuthKey;
  tr_key : exists key, header_text "x-api-key" req = Some key /\ bff_service_key cfg <> Some key /\
    forall id rec, api_keys c !! id = Some rec -> k_hash rec = sha256 key -> k_revoked_at rec = None -> k_tenant rec = t;
}.

(** The Cell of another tenant, in a directory of 128-bit ids. *)
Record foreign (t : TenantId) (x : DatabaseId) (c : Catalog) : Prop := {
  fo_ok : catalog_ok c;
  fo_owner : exists u rec, u <> t /\ databases c !! (u, x) = Some rec;
  fo_width : forall u id rec, databases c !! (u, id) = Some rec -> (database_uuid id < 2 ^ 128)%N;
}.

Lemma foreign_owns t x c : foreign t x c -> owns t x c.
Proof.
  intros [Hok (u & recx & Hu & Hrecx) Hw] id rec Hrec. split; [by eapply record_has_name|]. split; [|by eapply Hw].
  intros ->. destruct Hu. by eapply id_has_tenant.
Qed.

Lemma tenant_authorised req t c a :
  tenant_request req t c -> authorised sha256 cfg req a c -> a = mkAuthContext t false.
Proof.
  intros [Hmode (key & Hkey & Hbff & Hlive)] [[Hoff _]|(_ & key' & id & rec & Hk & Hid & Hh & Hr & Hint & Ht & _)];
    [congruence|].
  assert (key' = key) as -> by congruence. rewrite bool_decide_eq_false_2 in Hint by done.
  destruct a as [ta ia]. simpl in *. subst ia. f_equal. rewrite Ht by done. by apply (Hlive id).
Qed.

(** C12: tenants are confined: whatever route a tenant's request takes, and
    however it ends, a Cell of another tenant keeps its content, generation and
    cached entries on every node, its objects, its record and its names, and
    the other tenants keep their records, keys, balances, ledger entries and
    metered usage; the ids drawn are new to the others. *)
Theorem tenant_confined `{!UuidTextLaws} `{!UuidHexLaw} (t : TenantId) (x : DatabaseId) (r : Route) (req : Request)
    (s : Server U) (reg : Registry) (e : Eff) :
  tenant_request req t (catalog_of s) -> foreign t x (catalog_of s) ->
  draws_new t x (catalog_of s) (sink (api_meter (sv_api s))) ->
  server_kept t x s (app r req (s, reg) e).1.2.1.
Proof.
  intros Hreq Hfor Hdraw. pose proof (foreign_owns _ _ _ Hfor) as Ho.
  assert (database_uuid x < 2 ^ 128)%N as Hx by (destruct (fo_owner _ _ _ Hfor) as (u & rec & _ & Hu); by eapply fo_width).
  pose proof (server_kept_refl t x s Ho) as Hs.
  destruct (tr_key _ _ _ Hreq) as (key & Hkey & Hbff & _).
  assert (header "x-api-key" req <> None) as Hhdr.
  { intros Hno. unfold header_text in Hkey. by rewrite Hno in Hkey. }
  apply (build_app_state (fun p => server_kept t x s p.1)). intros e1.
  destruct r as [op|op|op| | |]; simpl.
  - apply (public_stack_confined ncfg cfg sha256 obj_path lower prices t x s Hx Hdraw op req (s, reg) e1 Hs).
    intros a. by apply tenant_authorised.
  - destruct (proj2 (control_planes_closed cfg (fun _ => on_server (run_admin ncfg sha256 obj_path op)) req (s, reg) e1))
      as [(resp & -> & _)|(_ & [(_ & _ & bff & Hb & Hk)|(Hno & _)])]; [done|congruence|done].
  - by destruct (proj1 (control_planes_closed cfg (fun _ => on_server (run_internal op)) req (s, reg) e1))
      as [(resp & -> & _)|(_ & Hno & _)].
  - done.
  - pose proof (ready_confined (U:=U) t x s s e1 Hs) as Hr. unfold on_server, zoom, bind, mret. simpl.
    by destruct (ready s e1) as [[[a|err] s'] e'].
  - pose proof (api_metrics_confined (U:=U) t x s (s, reg) e1 Hs) as Hr. unfold bind, mret.
    by destruct (api_metrics (s, reg) e1) as [[[a|err] p'] e'].
Qed.

End app.

(** ** Two tenants on one server *)

(** Every drawn id is the same one; it names nothing here. *)
Definition env_draw : Env := {| clock _ := 1000; instant _ := 0; fault _ := None; uuid_v4 _ := 77%N |}.

Definition rfc3339_none : TimeText := {| parse_from_rfc3339 _ := None; from_timestamp_rfc3339 _ := None |}.
Definition plain_payload : IdPayload := {| payload_of_id s := s; payload_id := Some |}.

Definition keyed_config : ApiConfig :=
  mkApiConfig AuthKey (Some "control"%string) (Some "ops"%string) (Some "bff"%string) QuotaConfig_default 0.

Definition acme_key : ApiKeyRecord := mkApiKeyRecord 3 acme "default" "k1" 1000 None.

Definition shared_catalog : Catalog :=
  with_api_keys <[3%N := acme_key]> (sample_catalog [sample_record acme 5 "main"; sample_record globex 6 "main"]).

Definition globex_content : CellDb unit := mkCellDb {["k"%string := mkKvRow "v" None 1]} tt.

Definition shared_server : Server unit :=
  mkServer (mkApi shared_catalog (mkUsageMeter ∅ Ledger_empty) ∅) (mkNodeRegistry ∅ 0 false 0) ∅ ∅ ∅
    (Some (mkNode {[mkDatabaseId 6 := globex_content]} ∅ ∅ ∅ ∅ KvCache_new ∅)) (Some ∅).

Definition keyed_request (key : string) : Request :=
  mkRequest "DELETE" "/v1/databases/5" [("x-api-key"%string, key)] None (plain_body []).

Lemma shared_record u id rec :
  databases shared_catalog !! (u, id) = Some rec ->
  (u = acme /\ id = mkDatabaseId 5 /\ rec = sample_record acme 5 "main") \/
  (u = globex /\ id = mkDatabaseId 6 /\ rec = sample_record globex 6 "main").
Proof.
  simpl. intros [[[= <- <-] <-]|[_ Hr]]%lookup_insert_Some; [by left|].
  apply lookup_insert_Some in Hr as [[[= <- <-] <-]|[_ Hr]]; [by right|]. by rewrite lookup_empty in Hr.
Qed.

Lemma shared_foreign : foreign acme (mkDatabaseId 6) shared_catalog.
Proof.
  split; [split|..].
  - intros u n id. simpl. intros [[[= <- <-] <-]|[_ Hn]]%lookup_insert_Some; [by eexists|].
    apply lookup_insert_Some in Hn as [[[= <- <-] <-]|[_ Hn]]; [by eexists|]. by rewrite lookup_empty in Hn.
  - intros u id rec [(-> & -> & ->)|(-> & -> & ->)]%shared_record; done.
  - intros t1 t2 id r1 r2 [(-> & -> & _)|(-> & -> & _)]%shared_record [(-> & H2 & _)|(-> & H2 & _)]%shared_record; done.
  - by exists globex, (sample_record globex 6 "main").
  - intros u id rec [(_ & -> & _)|(_ & -> & _)]%shared_record; done.
Qed.

Lemma shared_keys id rec : api_keys shared_catalog !! id = Some rec -> id = 3%N /\ rec = acme_key.
Proof. simpl. intros [[<- <-]|[_ Hr]]%lookup_insert_Some; [done|]. by rewrite lookup_empty in Hr. Qed.

(** The logging layer keeps what neither time nor the metrics change. *)
Lemma logging_keeps {env : Env} `{UuidText} {U : Type} {B} (P Q : Server U * Registry -> Eff -> Prop)
    (next : Request -> M (Server U * Registry) CombeeError (Response B)) req :
  (forall p e, P p e -> P p (bump_instant e)) -> (forall p e, Q p e -> Q p (bump_instant e)) ->
  (forall s reg reg' e, Q (s, reg) e -> Q (s, reg') e) ->
  hoare P (next req) (fun _ p e => Q p e) -> hoare P (request_logging next req) (fun _ p e => Q p e).
Proof.
  intros HP HQ Hreg Hnext p e Hp. unfold request_logging, bind, read_instant, on_metrics, modify, mret.
  specialize (Hnext p (bump_instant e) (HP p e Hp)). destruct (next req p (bump_instant e)) as [[[r|err] [s reg]] e1]; [|done].
  apply HQ in Hnext. simpl. destruct (500 <=? rs_status r); by eapply Hreg.
Qed.

Definition cells_handler (req : Request) : M (Server unit * Registry) CombeeError (Response nat) :=
  let! cells := on_directory (env:=env_draw) (list_databases (auth_tenant (request_auth req))) in
  mret (mkResponse 200 (inr (length cells)) (plain_body [])).

Lemma complete_mediation_witness :
  catalog_of (public_app (env:=env_draw) (H:=decimal_uuid_text) (H0:=ascii_headers) (fun s => s) keyed_config
    (request_logging (env:=env_draw) (H:=decimal_uuid_text)) cells_handler (keyed_request "k1") (shared_server, Registry_new) eff0).1.2.1
  = shared_catalog.
Proof.
  set (I := fun (p : Server unit * Registry) (_ : Eff) => catalog_of p.1 = shared_catalog).
  assert (preserves I (public_app (env:=env_draw) (H:=decimal_uuid_text) (H0:=ascii_headers) (fun s => s) keyed_config
    (request_logging (env:=env_draw) (H:=decimal_uuid_text)) cells_handler (keyed_request "k1"))) as Hp.
  { apply (complete_mediation (env:=env_draw) (H:=decimal_uuid_text) (H0:=ascii_headers) (fun s => s) keyed_config I).
    - by split.
    - intros a next req'. apply logging_keeps; [by intros p e Hp|done|done].
    - intros a req' _ _ p e [Hp _]. unfold cells_handler, bind, on_directory, on_api, zoom, store_call, fallible. exact Hp. }
  specialize (Hp (shared_server, Registry_new) eff0 eq_refl). by destruct (public_app _ _ _ _ _ _ _) as [[r p] e].
Defined.

Lemma tenant_confined_witness :
  server_kept (H:=decimal_uuid_text) acme (mkDatabaseId 6) shared_server
    (build_app (env:=env_draw) (H:=decimal_uuid_text) (H0:=ascii_headers) (H1:=clock_5s) (H2:=plain_payload)
      (H3:=rfc3339_none) (H4:=plain_files) (H5:=no_engine) (H6:=sample_images) sample_config keyed_config (fun s => s)
      (fun s => s) (fun b => b) (mkPricingConfig 0 0 ∅) (RPublic (PCell (mkDatabaseId 5) ODelete)) (keyed_request "k1")
      (shared_server, Registry_new) eff0).1.2.1.
Proof.
  apply (tenant_confined (env:=env_draw) (H:=decimal_uuid_text) (H0:=ascii_headers) (H1:=clock_5s) (H2:=plain_payload)
    (H3:=rfc3339_none) (H4:=plain_files) (H5:=no_engine) (H6:=sample_images)
    sample_config keyed_config (fun s => s) (fun s => s) (fun b => b) (mkPricingConfig 0 0 ∅)
    (H7:=decimal_uuid_laws) (H8:=decimal_hex_law)).
  - split; [reflexivity|]. exists "k1"%string. split; [reflexivity|]. split; [discriminate|].
    intros id rec Hrec _ _. destruct (shared_keys id rec Hrec) as [_ ->]. reflexivity.
  - exact shared_foreign.
  - split.
    + intros n. split; [discriminate|reflexivity].
    + intros n k Hk. destruct (shared_keys _ _ Hk) as [Hid _]. discriminate Hid.
    + intros n y Hy. simpl in Hy. rewrite lookup_empty in Hy. discriminate Hy.
Defined.


(** The service account after its key was revoked, on a server without an
    operators' token. *)
Definition revoked_server : Server unit :=
  mkServer (mkApi (with_api_keys <[4%N := mkApiKeyRecord 4 globex "bff" "bff" 1000 (Some 1001)]> Catalog_empty)
      (mkUsageMeter ∅ Ledger_empty) ∅) (mkNodeRegistry ∅ 0 false 0) ∅ ∅ ∅ None None.

Definition tokenless_config : ApiConfig := mkApiConfig AuthKey None None (Some "bff"%string) QuotaConfig_default 0.

(** Revoking the service key does not close the operators' API to it: the
    guard compares the key with the configuration and never asks the directory,
    so the request that creates a tenant with its signup credits still passes,
    also when no operators' token is configured. *)
Theorem revoked_service_key_passes :
  let run method path r := build_app (env:=env_draw) (H:=decimal_uuid_text) (H0:=ascii_headers) (H1:=clock_5s)
      (H2:=plain_payload) (H3:=rfc3339_none) (H4:=plain_files) (H5:=no_engine) (H6:=sample_images) sample_config
      tokenless_config (fun s => s) (fun s => s) (fun b => b) (mkPricingConfig 0 0 ∅) r
      (mkRequest method path [("x-api-key", "bff")]%string None (plain_body [])) (revoked_server, Registry_new) eff0 in
  let created := run "POST"%string "/admin/tenants"%string (RAdmin ACreateTenant) in
  let listed := run "GET"%string "/v1/databases"%string (RPublic PList) in
  match created.1.1 with Ok (resp, _) => rs_status resp = 200 | Err _ => False end /\
  size (tenants (catalog_of created.1.2.1)) = 1%nat /\
  match listed.1.1 with Ok (resp, _) => rs_status resp = 401 | Err _ => False end.
Proof. vm_compute. auto. Qed.
