(* ===== verification/EndToEnd.v ===== *)
(** From the API to the files and back: a value that a tenant has written and
    that an incremental backup has archived is what the API returns after the
    Cell has failed over, and writing goes on there. The theorem runs through
    directory, routing, RPC, node, cache, SQLite table, object store and
    failover. *)

From Stdlib Require Import ZArith Lia String Ascii.
From stdpp Require Import gmap strings list fin_maps sorting.
From S2P Require Import Prelude Common Kv SqlGate Sql Cache Manager DataNode NodeInv NodeCapacity NodeSafety Catalog Ledger Billing Access Backup BackupSpec Routing RoutingSpec Metrics NodeApi Agent Queries Handlers App HandlersSpec.

(** ** One node *)

Section node.
Context {env : Env} (Hfault : forall n, fault n = None).
Context `{UuidText} {U : Type} `{CellFiles U} `{SqlEngine U}.
Variable ncfg : DataNodeConfig.
(** SQLite's checks find nothing wrong. *)
Hypothesis Hsound : forall c : CellDb U, sound_cell c.
Implicit Types (n : Node U) (db : DatabaseId) (key value : string).

(** The node has the value, without expiry, in the table; the cache, if it
    has the key, agrees. *)
Record holds n db key value : Prop := {
  hd_row : exists row, cell_kv (cell_of db n) !! key = Some row /\ row_value row = value /\ row_expires_at row = None;
  hd_cache : forall v, cache_inner (cache n) !! (db, key) = Some v -> v = mkCachedValue value None;
  hd_readable : readable db n;
}.

Lemma holds_conns n db key value g : holds n db key value -> holds (set_conns g n) db key value.
Proof. by intros [Hr Hc Hd]. Qed.

Lemma returns_read key value t (Q : option (string * option Z) -> KvTable -> Prop) :
  (exists row, t !! key = Some row /\ row_value row = value /\ row_expires_at row = None) ->
  utf8_valid value = true -> Q (Some (value, None)) t -> returns (read_with_expiry key) t Q.
Proof using Hfault.
  intros (row & Hk & <- & Hx) Htext HQ. unfold read_with_expiry, unix_now, read_row, query. ret.
  unfold sql_select_row. rewrite Hk. simpl. rewrite Hx. simpl. rewrite Htext. by ret.
Qed.

Lemma returns_kv_get n db key value (Q : option KvEntry -> Node U -> Prop) :
  holds n db key value -> utf8_valid value = true ->
  (forall n', holds n' db key value -> Q (Some (mkKvEntry value None)) n') ->
  returns (kv_get ncfg db key) n Q.
Proof using Hfault Hsound.
  intros [Hrow Hcache Hread] Htext HQ. unfold kv_get, node_now. ret.
  intros e. unfold cache_lookup, cache_get.
  destruct (cache_inner (cache n) !! (db, key)) as [v|] eqn:Hv.
  - rewrite (Hcache v eq_refl). simpl. eexists _, _, _. split; [done|]. apply returns_ret, HQ. split; try done.
    intros v'. simpl. rewrite Hv. apply Hcache.
  - eexists _, _, _. split; [done|]. apply returns_with_conn; [done|apply Hsound|done|].
    intros n1 (Hc1 & Hk1 & Hr1 & _). ret. unfold on_kv. ret.
    eapply returns_read; [|exact Htext|].
    { rewrite Hc1. exact Hrow. }
    unfold fill_cache. ret. intros g. apply HQ. split; simpl.
    + unfold cell_of at 1. simpl. rewrite lookup_insert_eq. simpl. by rewrite Hc1.
    + intros v. rewrite lookup_insert_eq. by intros [= <-].
    + by apply Hr1.
Qed.

Lemma returns_set_table key value t (Q : bool -> KvTable -> Prop) :
  key <> EmptyString ->
  (forall t', (exists row, t' !! key = Some row /\ row_value row = value /\ row_expires_at row = None) -> Q true t') ->
  returns (set key value None false false) t Q.
Proof using Hfault.
  intros Hk HQ. unfold set. rewrite decide_False by done. unfold unix_now. ret. cbv zeta. ret.
  intros e. unfold exec. unfold bind, fallible. rewrite Hfault. unfold sql_upsert.
  destruct (t !! key) as [r|]; eexists _, _, _; (split; [done|]); ret; apply HQ;
    eexists; by rewrite lookup_insert_eq.
Qed.

(** However often the main file is measured, the value fits. *)
Definition room_for n db value : Prop :=
  forall e, match (storage_bytes db n e).1.1 with
            | Ok current => current + Z.of_nat (String.length value) <= storage_hard_bytes (quota ncfg)
            | Err _ => True
            end.

(** Within the quotas, and accepted by the fence. *)
Record writable n db key value (generation : Z) : Prop := {
  wr_generation : generation = default 0 (generations n !! db);
  wr_readonly : db ∉ readonly n;
  wr_key : key <> EmptyString;
  wr_key_size : max_kv_key_bytes (quota ncfg) = 0%nat \/ (String.length key <= max_kv_key_bytes (quota ncfg))%nat;
  wr_value_size : max_kv_value_bytes (quota ncfg) = 0%nat \/ (String.length value <= max_kv_value_bytes (quota ncfg))%nat;
  wr_storage : storage_hard_bytes (quota ncfg) <= 0 \/ room_for n db value;
}.

Lemma returns_check_storage n db value (Q : unit -> Node U -> Prop) :
  storage_hard_bytes (quota ncfg) <= 0 \/ room_for n db value ->
  Q tt n -> returns (check_storage ncfg db value) n Q.
Proof.
  intros Hs HQ. unfold check_storage. cbv zeta. apply returns_seq.
  assert (returns (if 0 <? storage_soft_bytes (quota ncfg) then let! _ := storage_bytes db in mret tt else mret tt) n Q)
    as Hsoft by (unfold storage_bytes; destruct (0 <? _); by ret).
  destruct (0 <? storage_hard_bytes _) eqn:Hz; [|by ret]. destruct Hs as [Hs|Hs]; [lia|]. apply returns_seq.
  intros e. specialize (Hs e). unfold storage_bytes, next_call, bind, gets in *. eexists _, n, _. split; [reflexivity|].
  cbv beta iota zeta in Hs |- *. match goal with |- context [storage_hard_bytes _ <? ?p] =>
    replace (storage_hard_bytes (quota ncfg) <? p) with false by (symmetry; apply Z.ltb_ge;
      unfold u64_saturating_add; simpl in Hs; lia) end.
  by apply returns_ret.
Qed.

Lemma returns_kv_set n db key value g (Q : bool -> Node U -> Prop) :
  writable n db key value g -> readable db n ->
  (forall n', holds n' db key value -> Q true n') ->
  returns (kv_set ncfg db key value None false false g) n Q.
Proof using Hfault Hsound.
  intros [Hg Hro Hkey Hks Hvs Hstore] Hread HQ. unfold kv_set.
  apply returns_seq. intros e. rewrite check_generation_ok by done. eexists _, _, _. split; [done|].
  unfold check_writable, is_readonly. ret. rewrite bool_decide_eq_false_2 by done. unfold check_ttl. ret.
  unfold check_kv_size. cbv zeta.
  replace ((0 <? max_kv_key_bytes (quota ncfg))%nat && (max_kv_key_bytes (quota ncfg) <? String.length key)%nat)
    with false by (symmetry; apply andb_false_iff; rewrite !Nat.ltb_ge; lia).
  replace ((0 <? max_kv_value_bytes (quota ncfg))%nat && (max_kv_value_bytes (quota ncfg) <? String.length value)%nat)
    with false by (symmetry; apply andb_false_iff; rewrite !Nat.ltb_ge; lia).
  ret. apply returns_check_storage; [done|].
  apply returns_with_conn; [done|apply Hsound|done|]. intros n1 (Hc1 & _ & Hr1 & _).
  unfold set_and_cache, on_kv. ret. apply returns_set_table; [done|]. intros t' Ht'. ret.
  unfold node_now, fill_cache. ret. intros gc. apply HQ. split; simpl.
  - unfold cell_of. simpl. by rewrite lookup_insert_eq.
  - intros v. rewrite lookup_insert_eq. by intros [= <-].
  - by apply Hr1.
Qed.

End node.

(** ** Archiving and catching up *)

Section archive.
Context {env : Env} (Hfault : forall n, fault n = None).
Context `{UuidHexLaw} `{MillisClock} {U : Type} `{CellFiles U} `{SqlEngine U} `{ImagesLaws U}.
Variable ncfg : DataNodeConfig.
Variable sha256 : string -> string.
Hypothesis Hsound : forall c : CellDb U, sound_cell c.
Implicit Types (n : Node U) (db : DatabaseId) (objs : gmap string string).

(** The newest round in the store is the given content of the Cell. *)
Definition archived objs db (c : CellDb U) : Prop :=
  exists objs0 rev snap wal, objs = uploaded objs0 db rev snap wal /\ 0 <= rev < 2 ^ 128 /\ older objs0 db rev /\
    open_images snap wal = c.

Lemma returns_incr_backup n db objs (Q : BackupInfo -> Site U -> Prop) :
  readable db n -> (forall k, 0 <= clock_ms k < 2 ^ 128 /\ older objs db (clock_ms k)) ->
  (forall info n' objs', same_cell db n n' -> archived objs' db (cell_of db n) -> Q info (mkSite n' (Some objs'))) ->
  returns (incremental_backup ncfg sha256 db) (mkSite n (Some objs)) Q.
Proof using Hfault Hsound H5.
  intros Hr Hclock HQ. unfold incremental_backup, on_node.
  apply returns_seq. eapply returns_store; [done|]. apply returns_seq, returns_zoom.
  apply returns_with_conn; [done|apply Hsound|done|]. intros n1 H1n. pose proof H1n as (Hc1 & _).
  unfold copy_files. ret. eapply returns_copy; [exact Hc1|]. intros snap wal Hsplit. ret.
  apply returns_when; [done|]. ret. intros g. ret. apply returns_when; [done|].
  apply returns_seq. eapply returns_upload_incr; [done|done|]. intros rv info _. ret.
  destruct (Hclock rv) as [Hrange Hold]. apply HQ; [|by exists objs, (clock_ms rv), snap, wal].
  eapply same_cell_trans; [exact H1n|apply same_cell_conns].
Qed.

Lemma returns_catch_up n db objs c (Q : bool -> Site U -> Prop) :
  readable db n -> archived objs db c ->
  (forall n', files n' !! db = Some c -> uncached db n' -> readable db n' -> Q true (mkSite n' (Some objs))) ->
  returns (replicate_from_primary db) (mkSite n (Some objs)) Q.
Proof using Hfault H0 H2 H5.
  intros Hr (objs0 & rev & snap & wal & -> & Hrev & Hold & Hopen) HQ.
  unfold replicate_from_primary, on_node at 1, close_database at 1. apply returns_seq.
  eapply returns_store; [done|]. apply returns_seq, returns_zoom, (returns_drop_conn Hfault db).
  intros n3 (_ & _ & Hread3 & _). apply returns_seq.
  eapply (returns_restore_incr Hfault); [done..|].
  intros n4 Hf _ Hman. unfold on_node, clear_cache. ret.
  apply HQ; simpl.
  - rewrite Hf. apply lookup_insert_eq.
  - intros key. simpl. rewrite cache_clear_database_lookup. by rewrite decide_True.
  - unfold readable. simpl. rewrite Hman. by apply Hread3.
Qed.

End archive.

(** ** The cluster *)

Section cluster.
Context {env : Env} (Hfault : forall n, fault n = None).
Context `{UuidHexLaw} `{MillisClock} {U : Type} `{CellFiles U} `{SqlEngine U} `{ImagesLaws U}.
Variable ncfg : DataNodeConfig.
Variable sha256 : string -> string.
Variable obj_path : string -> string.
Hypothesis Hsound : forall c : CellDb U, sound_cell c.
Variables (t : TenantId) (db : DatabaseId) (rec : DatabaseRecord) (old new : NodeId) (a_old a_new : string).
Implicit Types (s : Server U) (n : Node U) (objs : gmap string string).

Abbreviation SrvM := (M (Server U) CombeeError).
Abbreviation auth := (mkAuthContext t false).

(** A tenant's Cell with its primary and its replica; what the caches of the
    server know of it is right. *)
Record cluster s n_old n_new objs : Prop := {
  cl_ready : failover_ready s t db rec old new a_old a_new;
  cl_id : db_id rec = db;
  cl_only : forall k r, databases (catalog_of s) !! k = Some r -> db_id r = db -> k = (t, db);
  cl_route : forall nd at_, sv_routes s !! db = Some (nd, at_) -> nd = old;
  cl_old : sv_nodes s !! trim_slashes a_old = Some n_old;
  cl_new : sv_nodes s !! trim_slashes a_new = Some n_new;
  cl_bucket : sv_bucket s = Some objs;
}.

(** The parts a request on the Cell may change. *)
Lemma cluster_update s s' n_old n_old' n_new objs objs' :
  cluster s n_old n_new objs ->
  catalog_of s' = catalog_of s -> sv_registry s' = sv_registry s ->
  client_ok s' old a_old -> client_ok s' new a_new ->
  (forall nd at_, sv_routes s' !! db = Some (nd, at_) -> nd = old) ->
  sv_nodes s' !! trim_slashes a_old = Some n_old' -> sv_nodes s' !! trim_slashes a_new = Some n_new ->
  sv_bucket s' = Some objs' -> cluster s' n_old' n_new objs'.
Proof.
  intros [[] ? ? ?] Hc Hr Hco Hcn Hroute Hn1 Hn2 Hb. split; try done; [|by rewrite Hc].
  split; try done; first [by rewrite Hc | by unfold alive in *; rewrite Hr | by eexists].
Qed.

Lemma cluster_make_client s n_old n_new objs :
  cluster s n_old n_new objs ->
  cluster (set_clients <[old := RemoteClient (trim_slashes a_old) (Some db)]> s) n_old n_new objs.
Proof.
  intros Hc. pose proof Hc as [[] ? ? ?]. eapply cluster_update; [exact Hc|try done..]; intros c; simpl.
  - rewrite lookup_insert_eq. intros [= <-]. by eexists.
  - rewrite lookup_insert_ne by done. auto.
Qed.

Lemma cluster_route s n_old n_new objs at_ :
  cluster s n_old n_new objs -> cluster (set_routes <[db := (old, at_)]> s) n_old n_new objs.
Proof.
  intros Hc. pose proof Hc as [[] ? ? ?]. eapply cluster_update; [exact Hc|try done..].
  intros nd a. simpl. rewrite lookup_insert_eq. by intros [= <- _].
Qed.

Lemma cluster_catalog s n_old n_new objs :
  cluster s n_old n_new objs -> cluster (set_catalog (catalog_of s) s) n_old n_new objs.
Proof. intros Hc. pose proof Hc as [[] ? ? ?]. by eapply cluster_update. Qed.

Lemma returns_cluster_client s n_old n_new objs (Q : Client -> Server U -> Prop) :
  cluster s n_old n_new objs ->
  (forall h s', cluster s' n_old n_new objs -> Q (RemoteClient (trim_slashes a_old) h) s') ->
  returns (client_for db) s Q.
Proof using Hfault.
  intros Hc HQ.
  assert (returns (client_from_authority db) s Q) as Hauth.
  { unfold client_from_authority. apply returns_seq, returns_directory; [done|].
    pose proof (cl_only _ _ _ _ Hc) as Honly. pose proof (fr_record _ _ _ _ _ _ _ _ (cl_ready _ _ _ _ Hc)) as Hrec.
    pose proof (fr_storage _ _ _ _ _ _ _ _ (cl_ready _ _ _ _ Hc)) as Hst.
    apply (returns_by_id _ t _ rec); [done|apply (cl_id _ _ _ _ Hc)| |].
    { intros k r Hk Hr. pose proof (Honly k r Hk Hr) as Hkey. subst k. congruence. }
    rewrite Hst. ret. set (s1 := set_routes _ _).
    assert (cluster s1 n_old n_new objs) as Hc1 by (by apply cluster_route, cluster_catalog).
    apply (returns_addr _ _ a_old); [apply (fr_old _ _ _ _ _ _ _ _ (cl_ready _ _ _ _ Hc1))|]. ret.
    unfold make_client. ret. apply HQ. by apply cluster_make_client. }
  unfold client_for. ret. destruct (sv_routes s !! db) as [[nd at_]|] eqn:Hroute; [|exact Hauth].
  pose proof (cl_route _ _ _ _ Hc _ _ Hroute) as ->. ret.
  destruct (_ <? ROUTE_CACHE_TTL); [|exact Hauth]. ret.
  pose proof (cl_ready _ _ _ _ Hc) as Hready.
  destruct (sv_clients s !! old) as [c|] eqn:Hcl.
  - destruct (fr_old_client _ _ _ _ _ _ _ _ Hready c Hcl) as [h ->]. ret. by apply HQ.
  - apply returns_seq, (returns_addr _ _ a_old); [apply (fr_old _ _ _ _ _ _ _ _ Hready)|].
    unfold make_client. ret. apply HQ. by apply cluster_make_client.
Qed.

(** A call on the primary. *)
Lemma returns_cluster_call {A} s h path n_old n_new objs (m : M (Site U) CombeeError A) (Q : A -> Server U -> Prop) :
  cluster s n_old n_new objs ->
  returns m (mkSite n_old (Some objs)) (fun a st =>
    exists n' objs', st = mkSite n' (Some objs') /\ forall s', cluster s' n' n_new objs' -> Q a s') ->
  returns (call (RemoteClient (trim_slashes a_old) h) path m) s Q.
Proof using Hfault.
  intros Hc Hm. simpl. eapply returns_rpc; [done|apply (cl_old _ _ _ _ Hc)|]. rewrite (cl_bucket _ _ _ _ Hc).
  eapply returns_weaken; [exact Hm|]. intros a st (n' & objs' & -> & HQ). apply HQ.
  pose proof Hc as [[] ? ? ?]. eapply cluster_update; [exact Hc|try done..]; simpl.
  - apply lookup_insert_eq.
  - by rewrite lookup_insert_ne.
Qed.

Lemma returns_cluster_db s n_old n_new objs (Q : DatabaseRecord -> Server U -> Prop) :
  cluster s n_old n_new objs -> (forall s', cluster s' n_old n_new objs -> Q rec s') ->
  returns (require_db auth db) s Q.
Proof using Hfault.
  intros Hc HQ. unfold require_db. simpl. apply returns_directory; [done|]. unfold get_database. ret.
  rewrite (fr_record _ _ _ _ _ _ _ _ (cl_ready _ _ _ _ Hc)). ret. apply HQ. by apply cluster_catalog.
Qed.

Lemma returns_record_usage s cell metric (Q : unit -> Server U -> Prop) :
  (forall u, Q tt (set_api (fun a => mkApi (api_catalog a) u (inflight a)) s)) ->
  returns (on_meter (record_usage t cell metric 1)) s Q.
Proof. intros HQ. unfold on_meter, on_api, record_usage. simpl. ret. apply HQ. Qed.

Lemma returns_enter_kv s metric n_old n_new objs (Q : DatabaseRecord * Client -> Server U -> Prop) :
  cluster s n_old n_new objs ->
  (forall h s', cluster s' n_old n_new objs -> Q (rec, RemoteClient (trim_slashes a_old) h) s') ->
  returns (enter_kv auth db metric) s Q.
Proof using Hfault.
  intros Hc HQ. unfold enter_kv. apply returns_seq, (returns_cluster_db _ n_old n_new objs); [done|].
  intros s1 Hc1. apply returns_seq. simpl. apply returns_record_usage. intros u.
  apply returns_seq, (returns_cluster_client _ n_old n_new objs).
  { pose proof Hc1 as [[] ? ? ?]. by eapply cluster_update. }
  intros h s2 Hc2. ret. by apply HQ.
Qed.

(** ** The requests *)

Abbreviation run op := (run_cell ncfg sha256 obj_path auth db op).

(** The response of a handler that succeeded. *)
Definition success (status : Z) (r : Reply) : Response Reply := mkResponse status (inr r) (plain_body []).

Lemma returns_answering {A} status (f : A -> Reply) (m : SrvM A) s (Q : Response Reply -> Server U -> Prop) :
  returns m s (fun a s' => Q (success status (f a)) s') -> returns (answering status f m) s Q.
Proof.
  intros Hm. unfold answering, respond. ret. eapply returns_weaken; [exact Hm|]. intros a s' HQ. by ret.
Qed.

Lemma returns_put_request s n_old n_new objs key value (Q : Response Reply -> Server U -> Prop) :
  cluster s n_old n_new objs -> writable ncfg n_old db key value (db_generation rec) -> readable db n_old ->
  (forall s' n', cluster s' n' n_new objs -> holds n' db key value -> Q (success 200 (ReFlag true)) s') ->
  returns (run (OKvSet key value None false false)) s Q.
Proof using Hfault Hsound.
  intros Hc Hw Hr HQ. simpl. apply returns_answering. unfold h_kv_set.
  apply returns_seq, (returns_enter_kv _ _ n_old n_new objs); [done|]. intros h s1 Hc1. cbv beta iota.
  apply (returns_cluster_call _ _ _ n_old n_new objs); [done|]. unfold on_node. ret.
  apply returns_kv_set; [done..|]. intros n' Hh. exists n', objs. split; [done|]. intros s2 Hc2. by apply (HQ s2 n').
Qed.

Lemma returns_backup_request s n_old n_new objs (Q : Response Reply -> Server U -> Prop) :
  cluster s n_old n_new objs -> readable db n_old ->
  (forall k, 0 <= clock_ms k < 2 ^ 128 /\ older objs db (clock_ms k)) ->
  (forall info s' n' objs', cluster s' n' n_new objs' -> archived objs' db (cell_of db n_old) ->
     Q (success 200 (ReBackup info)) s') ->
  returns (run OIncrBackup) s Q.
Proof using Hfault Hsound H5.
  intros Hc Hr Hclock HQ. simpl. apply returns_answering. unfold h_incremental_backup.
  apply returns_seq, (returns_cluster_db _ n_old n_new objs); [done|]. intros s1 Hc1.
  apply returns_seq, (returns_cluster_client _ n_old n_new objs); [done|]. intros h s2 Hc2.
  apply (returns_cluster_call _ _ _ n_old n_new objs); [done|]. apply returns_incr_backup; [done..|].
  intros info n' objs' _ Harch. exists n', objs'. split; [done|]. intros s3 Hc3. by apply (HQ info s3 n' objs').
Qed.

(** After the failover: the replica serves the Cell. *)
Definition promoted_to (n : Node U) s : Prop :=
  sv_routes s !! db = None /\ databases (catalog_of s) !! (t, db) = Some (bump_generation (Some new) None rec) /\
  (forall k r, databases (catalog_of s) !! k = Some r -> db_id r = db -> r = bump_generation (Some new) None rec) /\
  alive s new a_new /\ sv_nodes s !! trim_slashes a_new = Some n.

Lemma returns_failover_request s n_old n_new objs c key value (Q : Response Reply -> Server U -> Prop) :
  cluster s n_old n_new objs -> readable db n_new -> archived objs db c ->
  (exists row, cell_kv c !! key = Some row /\ row_value row = value /\ row_expires_at row = None) ->
  (forall s' n', promoted_to n' s' -> holds n' db key value ->
     Q (success 200 (ReCell (bump_generation (Some new) None rec))) s') ->
  returns (run OFailover) s Q.
Proof using Hfault H0 H2 H5.
  intros Hc Hr Harch Hrow HQ. simpl. apply returns_answering. unfold h_failover. simpl.
  eapply returns_weaken.
  - apply (failover_run_with Hfault (fun n => holds n db key value) _ _ _ _ _ _ _ _ _ (cl_ready _ _ _ _ Hc) (cl_new _ _ _ _ Hc)).
    rewrite (cl_bucket _ _ _ _ Hc). apply (returns_catch_up Hfault (H2 := H2) n_new db objs c); [done|exact Harch|].
    intros n' Hf Hun Hread. split; simpl; [|by intros v; rewrite Hun|done].
    unfold cell_of. by rewrite Hf.
  - intros promoted s' (-> & Hcat & Hroutes & Hreg & n1 & n2 & Hh & Hn & _). simpl in Hn. eapply HQ.
    + split; [rewrite Hroutes; apply lookup_delete_eq|]. rewrite Hcat. simpl. split; [apply lookup_insert_eq|].
      split; [|split; [|exact Hn]].
      * intros k r [[<- <-]|[Hne Hl]]%lookup_insert_Some; [done|]. intros Hr'.
        by rewrite (cl_only _ _ _ _ Hc k r Hl Hr') in Hne.
      * unfold alive. rewrite Hreg. apply (fr_new _ _ _ _ _ _ _ _ (cl_ready _ _ _ _ Hc)).
    + by destruct Hh.
Qed.

Lemma returns_get_request s n key value (Q : Response Reply -> Server U -> Prop) :
  db_id rec = db -> promoted_to n s -> holds n db key value -> utf8_valid value = true ->
  (forall s', Q (success 200 (ReEntry (Some (mkKvEntry value None)))) s') ->
  returns (run (OKvGet key)) s Q.
Proof using Hfault Hsound.
  intros Hid (Hroute & Hrec & Honly & Ha & Hn) Hh Htext HQ. simpl. apply returns_answering.
  unfold h_kv_get, enter_kv, require_db. ret. simpl. apply returns_directory; [done|]. unfold get_database. ret.
  rewrite Hrec. ret. apply returns_record_usage. intros u.
  apply returns_seq, (returns_client_for Hfault _ t _ (bump_generation (Some new) None rec) new a_new); [done..|].
  intros at_. cbv zeta. apply returns_ret. cbn [call]. eapply returns_rpc; [done|exact Hn|]. unfold on_node. ret.
  apply returns_kv_get with (value := value); [done..|]. intros n' _. apply HQ.
Qed.


End cluster.

(** ** The small deployment *)

Lemma deployment_cluster :
  cluster (env:=env_still) (mkTenantId 9) the_cell cell_record node_1 node_2 "http://one/" "http://two" deployment
    (holding {["k"%string := mkKvRow "v" None 1]}) Node_new ∅.
Proof.
  split; [exact deployment_ready|reflexivity|..|reflexivity|reflexivity|reflexivity].
  - intros k r Hk _. simpl in Hk. by apply lookup_singleton_Some in Hk as [<- _].
  - intros nd at_. simpl. by rewrite lookup_empty.
Qed.

