(* ===== verification/NodeMain.v ===== *)
(** The data-node process: data-node/src/main.rs from the environment to the
    running tasks and down again, the configuration it hands on
    (manager.rs, [DataNodeConfig::from_common]; backup.rs, [build_s3_store]) and
    the container's health check (common/src/healthcheck.rs). *)

From Stdlib Require Import ZArith Lia String Ascii.
From stdpp Require Import gmap strings list fin_maps.
From S2P Require Import Prelude Common Kv SqlGate Sql Cache Manager DataNode NodeInv NodeCapacity NodeSafety Catalog Ledger Billing Access AccessSpec Backup Routing Agent AgentSpec Startup.

(** ** healthcheck.rs *)

(** What the socket does: connecting and writing succeed or not, and reading
    gives up to 256 bytes of the answer or nothing. *)
Record Probe := mkProbe { pr_connects : bool; pr_writes : bool; pr_reads : option string }.

Definition tcp_http_get (p : Probe) : bool :=
  if negb (pr_connects p) then false else
  if negb (pr_writes p) then false else
  match pr_reads p with
  | None | Some EmptyString => false
  | Some head => String.prefix "HTTP/1.1 2" head || String.prefix "HTTP/1.0 2" head
  end.

(** The exit code, when the process was asked for a health check. *)
Definition run_if_healthcheck (args : list string) (p : Probe) : option Z :=
  if existsb (fun a => bool_decide (a = "--healthcheck"%string)) args
  then Some (if tcp_http_get p then 0 else 1) else None.

(** ** main.rs: the memory sample *)

(** The second item of [split_whitespace]. *)
Definition second_word (b : bytes) : option bytes :=
  let rest := trim_start (drop (length (until_whitespace (trim_start b))) (trim_start b)) in
  match until_whitespace rest with [] => None | w => Some w end.

(** [statm] is the content of /proc/self/statm, if it can be read. *)
Definition current_rss_mb (statm : option string) : option Z :=
  s ← statm;
  w ← second_word (as_bytes s);
  pages ← parse_u64 (String.string_of_list_ascii w);
  Some (u64_saturating_mul pages 4096 / (1024 * 1024)).

(** ** main.rs: start *)

(** [{:?}] of a whole number of seconds. *)
Definition secs_debug (n : Z) : string := i64_to_string n +:+ "s".

Definition node_config (cfg : Config) : DataNodeConfig :=
  mkDataNodeConfig (cf_data_dir cfg) (Z.to_nat (cf_max_active_dbs cfg)) (from_secs (cf_db_idle_timeout cfg))
    (if 0 <? cf_sql_timeout_secs cfg then Some (secs_debug (cf_sql_timeout_secs cfg)) else None) (cf_quota cfg).

(** The running process: what it serves with, and its periodic tasks with
    their intervals in seconds. *)
Record NodeProcess := mkNodeProcess {
  np_addr : string;
  np_config : DataNodeConfig;
  np_store : bool;
  np_token : option string;
  np_agent : option (string * AgentConfig);
  np_wal_backup : option Z;
  np_replica_sync : option Z;
  np_mem_sample : option Z;
}.

Section main.
Context {env : Env} `{UuidText}.
(** Which texts are socket addresses, as std prints them. *)
Variable socket_addr : string -> option string.
(** Whether object_store builds a client from endpoint, keys, bucket, region and style. *)
Variable s3_builds : string -> string -> string -> string -> string -> bool -> bool.

Definition is_addr (s : string) : bool := match socket_addr s with Some _ => true | None => false end.

Definition build_s3_store (cfg : Config) : bool :=
  match cf_s3_endpoint cfg with
  | EmptyString => false
  | e => s3_builds e (cf_s3_access_key cfg) (cf_s3_secret_key cfg) (cf_s3_bucket cfg) (cf_s3_region cfg)
           (cf_s3_virtual_hosted cfg)
  end.

(** An interval read from the environment; 0 turns the task off. *)
Definition env_interval (vars : Environ) (name : string) (default_ : Z) : option Z :=
  let n := env_parse parse_u64 vars name default_ in if 0 <? n then Some n else None.

Definition node_agent (vars : Environ) (cfg : Config) (addr : string) : option (string * AgentConfig) :=
  (fun api_url => (api_url,
    mkAgentConfig (env_str vars "COMBEE_NODE_ADVERTISE_URL" ("http://" +:+ addr)) (cf_max_active_dbs cfg)
      (cf_control_plane_token cfg))) <$> vars !! "COMBEE_API_SERVER_URL"%string.

(** [main] up to the listener; [None] when an address panics. *)
Definition launch_node (vars : Environ) : option NodeProcess :=
  cfg ← Config_from_env is_addr vars;
  addr ← socket_addr (env_str vars "COMBEE_DATA_NODE_ADDR" "0.0.0.0:9000");
  let store := build_s3_store cfg in
  let agent := node_agent vars cfg addr in
  Some {|
    np_addr := addr;
    np_config := node_config cfg;
    np_store := store;
    np_token := non_empty (env_str vars "COMBEE_CONTROL_PLANE_TOKEN" EmptyString);
    np_agent := agent;
    np_wal_backup := if store then env_interval vars "COMBEE_WAL_BACKUP_INTERVAL_SECS" 0 else None;
    np_replica_sync :=
      match agent with
      | Some _ => if store then env_interval vars "COMBEE_REPLICA_INTERVAL_SECS" 0 else None
      | None => None
      end;
    np_mem_sample := env_interval vars "COMBEE_MEM_SAMPLE_INTERVAL_SECS" 30;
  |}.

(** The node and the agent of one deployment share their token, and the
    tasks that need the object store or the control plane run only with them. *)
Theorem launch_node_consistent (vars : Environ) (np : NodeProcess) :
  launch_node vars = Some np ->
  (forall url ag, np_agent np = Some (url, ag) -> ag_control_token ag = np_token np) /\
  (np_wal_backup np <> None -> np_store np = true) /\
  (np_replica_sync np <> None -> np_store np = true /\ np_agent np <> None) /\
  Forall (fun o => from_option (fun n => 0 < n) True o) [np_wal_backup np; np_replica_sync np; np_mem_sample np].
Proof.
  unfold launch_node. destruct (Config_from_env is_addr vars) as [cfg|] eqn:Hcfg; [|done]. simpl.
  destruct (socket_addr _) as [addr|]; [|done]. simpl. intros [= <-]. simpl.
  assert (forall name d, from_option (fun n => 0 < n) True (env_interval vars name d)) as Hpos.
  { intros name d. unfold env_interval. destruct (0 <? _) eqn:Hz; [|done]. simpl. lia. }
  split.
  - intros url ag. unfold node_agent. destruct (vars !! "COMBEE_API_SERVER_URL"%string); [|done]. intros [= <- <-]. simpl.
    unfold Config_from_env in Hcfg. destruct (negb _); [done|]. by injection Hcfg as <-.
  - destruct (build_s3_store cfg), (node_agent vars cfg addr); simpl; repeat split; try done; repeat constructor; auto.
Qed.

End main.

(** ** main.rs: the end *)

Section stop.
Context {env : Env} `{UuidText} {U : Type} `{Images U} `{HttpText}.
Variable acfg : ApiConfig.
Variable gcfg : AgentConfig.

Abbreviation WorldM := (M (World U) string).

(** Work on the process's own node. *)
Definition own_node {A} (base : string) (m : M (Node U) CombeeError A) : WorldM unit :=
  fun w e =>
    let s := wd_server w in
    match sv_nodes s !! base with
    | Some n => let '(_, n1, e1) := m n e in
        (Ok tt, mkWorld (set_node base n1 (sv_bucket s) s) (wd_agent w) (wd_file w), e1)
    | None => (Ok tt, w, e)
    end.

(** After the listener has drained: unregister, then [DataNode::shutdown]. *)
Definition stop_node (base : string) : WorldM unit :=
  let! agent := gets wd_agent in
  do! (match agent with Some _ => agent_unregister acfg gcfg | None => mret tt end) in
  own_node base close_all.

Lemma close_all_run (n : Node U) e :
  exists e', close_all n e = (Ok tt, set_conns (fun _ => ∅) n, e').
Proof.
  unfold close_all, bind, gets, modify. generalize (set_conns (fun _ => ∅) n) as m. intros m.
  generalize (active_databases n) as l. intros l. revert e.
  induction l as [|id l IH]; intros e; [by exists e|]. simpl. unfold bind at 1, ignore, checkpoint, fallible.
  destruct (fault (e_call e)); apply IH.
Qed.

Lemma when_shared_nodes {A} (m : M Catalog CombeeError A) (s : Server U) e :
  sv_nodes (when_shared m s e).1.2 = sv_nodes s.
Proof.
  unfold when_shared, bind at 1, gets. destruct (nr_shared (sv_registry s)); [|done].
  unfold ignore, on_directory, on_api, zoom. by destruct (store_call m _ e) as [[r c] e'].
Qed.

(** The call itself: the entry goes, the nodes stay. *)
Lemma internal_unregister_run id (s : Server U) e :
  exists resp s' e', internal_unregister id s e = (Ok resp, s', e') /\ sv_nodes s' = sv_nodes s /\
    nr_inner (sv_registry s') !! id = None.
Proof.
  unfold internal_unregister, unregister, bind at 1 2, gets.
  destruct (nr_inner (sv_registry s) !! id) eqn:Hent; [|by eexists _, _, _].
  unfold bind at 1, modify. set (s1 := set_registry _ s).
  pose proof (when_shared_nodes (unregister_data_node id) s1 e) as Hnodes.
  destruct (when_shared_run (unregister_data_node id) s1 e (unregister_counts id)) as (s' & e' & Hrun & Hreg & _).
  unfold bind. rewrite Hrun in *. simpl in Hnodes. eexists _, _, _. split; [done|]. split; [done|].
  rewrite Hreg. apply lookup_delete_eq.
Qed.

(** Unregistering returns, touches no node, and removes the entry when the
    call gets through. *)
Lemma unregister_run (w : World U) e id a :
  wd_agent w = Some a -> ag_id a = Some id ->
  exists w1 e1, agent_unregister acfg gcfg w e = (Ok tt, w1, e1) /\
    sv_nodes (wd_server w1) = sv_nodes (wd_server w) /\
    (token_accepted acfg gcfg -> fault (e_call e) = None -> nr_inner (sv_registry (wd_server w1)) !! id = None).
Proof.
  intros Ha Hid. destruct w as [s ag f]. simpl in Ha. subst ag.
  unfold agent_unregister, bind at 1 2, modify, gets. simpl. rewrite Hid.
  unfold ignore, bind at 1, fallible. destruct (fault (e_call e)) eqn:Hf; [by eexists _, _|].
  unfold bind at 1, at_server. simpl.
  destruct (internal_unregister_run id s (bump_call e)) as (resp & s' & e' & Hrun & Hnodes & Hgone).
  pose proof (agent_passes acfg gcfg "POST" "/internal/nodes/unregister"
    (fun _ : Request => internal_unregister (U:=U) id)) as Hpass.
  destruct (internal_auth_cases acfg (S:=Server U) (fun _ => internal_unregister id)
    (agent_request gcfg "POST" "/internal/nodes/unregister")) as [Hcase|Hcase]; rewrite Hcase in *.
  - rewrite Hrun. by eexists _, _.
  - eexists _, _. split; [done|]. split; [done|]. intros Ht _. simpl.
    apply Hpass, (f_equal (fun m => (m s (bump_call e)).1.2)) in Ht. rewrite Hrun in Ht. simpl in Ht. by rewrite Ht.
Qed.

(** A process that ends in order leaves nothing behind: whatever gets lost
    on the way to the API server, its node has no open connection and every
    Cell's content is as it was; and when the call gets through with the right
    token, the API server no longer has the node, so that nothing new is placed
    on it or sent to it through the registry. *)
Theorem clean_shutdown (base : string) (n : Node U) (id : NodeId) (a : NodeAgent) (w : World U) (e : Eff) :
  sv_nodes (wd_server w) !! base = Some n -> wd_agent w = Some a -> ag_id a = Some id ->
  exists w' e' n', stop_node base w e = (Ok tt, w', e') /\
    sv_nodes (wd_server w') !! base = Some n' /\ conns n' = ∅ /\ files n' = files n /\
    (token_accepted acfg gcfg -> fault (e_call e) = None ->
     nr_inner (sv_registry (wd_server w')) !! id = None).
Proof.
  intros Hn Ha Hid. unfold stop_node, bind at 1 2, gets. rewrite Ha.
  destruct (unregister_run w e id a Ha Hid) as (w1 & e1 & Hu & Hk & Hreg).
  rewrite Hu. unfold own_node. rewrite Hk, Hn.
  destruct (close_all_run n e1) as [e2 ->]. eexists _, _, _. split; [done|]. simpl.
  by rewrite lookup_insert_eq.
Qed.

End stop.

(** ** Concrete runs *)

Example rss_of_512_pages : current_rss_mb (Some "1000 512 3 1 0 9 0"%string) = Some 2.
Proof. reflexivity. Qed.

Example healthcheck_exit_codes :
  run_if_healthcheck ["combee-data-node"; "--healthcheck"]%string (mkProbe true true (Some "HTTP/1.1 200 OK"%string)) = Some 0 /\
  run_if_healthcheck ["combee-data-node"; "--healthcheck"]%string (mkProbe true true (Some "HTTP/1.1 503"%string)) = Some 1 /\
  run_if_healthcheck ["combee-data-node"]%string (mkProbe false false None) = None.
Proof. split_and!; reflexivity. Qed.

Definition node_environ : Environ :=
  list_to_map [("COMBEE_S3_ENDPOINT", "http://minio"); ("COMBEE_API_SERVER_URL", "http://api");
    ("COMBEE_CONTROL_PLANE_TOKEN", "t"); ("COMBEE_REPLICA_INTERVAL_SECS", "10")]%string.

Lemma launch_node_consistent_witness :
  exists np, launch_node Some (fun _ _ _ _ _ _ => true) node_environ = Some np /\
    np_replica_sync np = Some 10 /\ np_store np = true /\ np_agent np <> None.
Proof.
  destruct (launch_node Some (fun _ _ _ _ _ _ => true) node_environ) as [np|] eqn:Hnp; [|discriminate Hnp].
  destruct (launch_node_consistent Some (fun _ _ _ _ _ _ => true) node_environ np Hnp) as (_ & _ & Hsync & _).
  exists np. split; [reflexivity|].
  assert (np_replica_sync np = Some 10) as Hten
    by (injection Hnp as <-; reflexivity).
  split; [exact Hten|]. apply Hsync. rewrite Hten. discriminate.
Defined.

(** One node, registered, with an open connection. *)
Definition stop_world : World unit :=
  mkWorld (mkServer (mkApi Catalog_empty (mkUsageMeter ∅ Ledger_empty) ∅)
      (mkNodeRegistry {[mkNodeId 1 := mkNodeEntry "http://one" 8 0 0 0]} 0 false 0) ∅ ∅
      {["http://one"%string := mkNode {[cell_a := mkCellDb ∅ tt]} ∅ {[cell_a := 0]} ∅ ∅ KvCache_new ∅]} None None)
    (Some (mkNodeAgent (Some (mkNodeId 1)) false)) None.

Lemma clean_shutdown_witness :
  exists w' e' n', stop_node (env:=env_still) (H1:=ascii_headers) sample_api_config (mkAgentConfig "http://one" 8 None)
      "http://one" stop_world eff0 = (Ok tt, w', e') /\
    sv_nodes (wd_server w') !! "http://one"%string = Some n' /\ conns n' = ∅ /\
    files n' = {[cell_a := mkCellDb ∅ tt]} /\ nr_inner (sv_registry (wd_server w')) !! mkNodeId 1 = None.
Proof.
  destruct (clean_shutdown (env:=env_still) (H1:=ascii_headers) sample_api_config (mkAgentConfig "http://one" 8 None)
    "http://one" (mkNode {[cell_a := mkCellDb ∅ tt]} ∅ {[cell_a := 0]} ∅ ∅ KvCache_new ∅) (mkNodeId 1)
    (mkNodeAgent (Some (mkNodeId 1)) false) stop_world eff0 eq_refl eq_refl eq_refl)
    as (w' & e' & n' & Hrun & Hn & Hc & Hf & Hreg).
  exists w', e', n'. split; [exact Hrun|]. split; [exact Hn|]. split; [exact Hc|]. split; [exact Hf|].
  apply Hreg; [exact I|reflexivity].
Defined.
