(* ===== verification/Conform.v ===== *)
(** Conformance of the model with the program's own unit tests: the tests of
    the source, translated statement by statement, run on the definitions.
    This file has the vocabulary of a test and the tests of the storage engine
    (data-node: kv.rs, ttl.rs); the files after it go through the other
    crates. A test is a computation that fails when an assertion does. *)

From Stdlib Require Import ZArith Lia String Ascii.
From stdpp Require Import gmap strings list fin_maps.
From S2P Require Import Prelude Common Kv.

(** ** Tests *)

Section test.
Context {S : Type}.

Definition assert (b : bool) : M S CombeeError unit :=
  if b then mret tt else mfail (Internal "assertion failed").

(** [assert_eq!] *)
Definition assert_eq {A} `{EqDecision A} (x y : A) : M S CombeeError unit := assert (bool_decide (x = y)).

(** [Option::unwrap] *)
Definition unwrap {A} (o : option A) : M S CombeeError A :=
  match o with Some a => mret a | None => mfail (Internal "unwrap on None") end.

(** [assert!(matches!(m, Err(pattern)))] *)
Definition assert_err {A} (pattern : CombeeError -> bool) (m : M S CombeeError A) : M S CombeeError unit :=
  let! r := attempt m in
  assert (match r with Err e => pattern e | Ok _ => false end).

(** [assert!(m.unwrap())] and [assert_eq!(m.unwrap(), a)] *)
Definition holds (m : M S CombeeError bool) : M S CombeeError unit := let! b := m in assert b.
Definition fails (m : M S CombeeError bool) : M S CombeeError unit := let! b := m in assert (negb b).
Definition yields {A} `{EqDecision A} (m : M S CombeeError A) (a : A) : M S CombeeError unit :=
  let! x := m in assert_eq x a.

(** A test passes when it runs to its end. *)
Definition passes {A} (s : S) (m : M S CombeeError A) : bool := is_Ok (m s eff0).1.1.

End test.

Definition is_InvalidRequest (e : CombeeError) : bool :=
  match e with InvalidRequest _ => true | _ => false end.

(** The tests run within a second of November 2023, and nothing fails. *)
Definition test_now : Z := 1700000000.
Definition test_env : Env := {|
  clock _ := test_now; instant n := Z.of_nat n; fault _ := None; uuid_v4 n := N.of_nat (100 + n) |}.

#[export] Instance KvEntry_eq_dec : EqDecision KvEntry.
Proof. solve_decision. Defined.
#[export] Instance RpcKvScanResult_eq_dec : EqDecision RpcKvScanResult.
Proof. solve_decision. Defined.

(** ** kv.rs *)

Module KvTests.
Section kv_tests.
#[local] Existing Instance test_env.

(** INSERT INTO __sys_kv (key, value, expires_at) VALUES (?1, ?2, ?3) *)
Definition insert_raw (key value : string) (expires_at : option Z) : M KvTable CombeeError unit :=
  modify <[key := mkKvRow value expires_at 1]>.

Definition scan_prefix_pagination_and_expiry : M KvTable CombeeError unit :=
  do! mfor [("alpha:1", None); ("alpha:2", Some 60); ("beta:1", None); ("alpha:3", Some U64_MAX)]%string
        (fun kt => do! set kt.1 "v" kt.2 false false in mret tt) in
  let! r := scan "alpha:" 10 EmptyString in
  do! assert_eq (scan_keys r) ["alpha:1"; "alpha:2"]%string in
  do! assert_eq (scan_next_cursor r) EmptyString in
  let! r1 := scan EmptyString 1 EmptyString in
  do! assert_eq (scan_keys r1) ["alpha:1"%string] in
  do! assert_eq (scan_next_cursor r1) "alpha:1"%string in
  let! r2 := scan EmptyString 1 (scan_next_cursor r1) in
  do! assert_eq (scan_keys r2) ["alpha:2"%string] in
  let! all := scan EmptyString 10 EmptyString in
  assert_eq (scan_keys all) ["alpha:1"; "alpha:2"; "beta:1"]%string.

Definition set_get_roundtrip : M KvTable CombeeError unit :=
  do! holds (set "k" "v" None false false) in
  let! g := get "k" in
  let! e := unwrap g in
  do! assert_eq (entry_value e) "v"%string in
  assert_eq (entry_ttl_seconds e) None.

Definition value_of (key : string) : M KvTable CombeeError string :=
  let! g := get key in let! e := unwrap g in mret (entry_value e).

Definition set_overwrites_existing : M KvTable CombeeError unit :=
  do! set "k" "v1" None false false in
  do! set "k" "v2" None false false in
  yields (value_of "k") "v2"%string.

Definition empty_key_rejected : M KvTable CombeeError unit :=
  do! assert_err is_InvalidRequest (set EmptyString "v" None false false) in
  assert_err is_InvalidRequest (incr EmptyString 1 None).

Definition get_missing_returns_none : M KvTable CombeeError unit := yields (get "nope") None.

Definition get_expired_invisible_and_deleted_lazily : M KvTable CombeeError unit :=
  do! set "k" "v" (Some 0) false false in
  do! yields (get "k") None in
  yields (read_row "k") None.

Definition get_non_utf8_value_rejected : M KvTable CombeeError unit :=
  do! insert_raw "k" (String.String (ascii_of_nat 255) (String.String (ascii_of_nat 254) EmptyString)) None in
  assert_err is_InvalidRequest (get "k").

Definition set_nx_and_xx : M KvTable CombeeError unit :=
  do! holds (set "k" "a" None true false) in
  do! fails (set "k" "b" None true false) in
  do! yields (value_of "k") "a"%string in
  do! fails (set "nope" "x" None false true) in
  do! holds (set "k" "c" None false true) in
  yields (value_of "k") "c"%string.

Definition del_semantics : M KvTable CombeeError unit :=
  do! fails (del "k") in
  do! set "k" "v" None false false in
  do! holds (del "k") in
  fails (del "k").

Definition exists_ignores_expired : M KvTable CombeeError unit :=
  do! fails (exists_ "k") in
  do! set "k" "v" None false false in
  do! holds (exists_ "k") in
  do! set "e" "v" (Some 0) false false in
  fails (exists_ "e").

Definition mget_mset_preserve_order : M KvTable CombeeError unit :=
  do! mset [mkKvSetItem "a" "1" None; mkKvSetItem "b" "2" (Some 100)] in
  yields (mget ["b"; "a"; "z"]%string) [Some "2"; Some "1"; None]%string.

(** [(1..=100).contains(&t)] *)
Definition within_100 (key : string) : M KvTable CombeeError unit :=
  let! r := ttl key in let! t := unwrap r in assert ((1 <=? t) && (t <=? 100)).

Definition ttl_semantics : M KvTable CombeeError unit :=
  do! yields (ttl "missing") None in
  do! set "k" "v" None false false in
  do! yields (ttl "k") (Some (-1)) in
  do! set "e" "v" (Some 0) false false in
  do! yields (ttl "e") None in
  do! set "t" "v" (Some 100) false false in
  within_100 "t".

Definition expire_and_persist : M KvTable CombeeError unit :=
  do! fails (expire "k" (Some 10)) in
  do! set "k" "v" None false false in
  do! holds (expire "k" (Some 100)) in
  let! r := ttl "k" in
  let! t := unwrap r in
  do! assert (0 <? t) in
  do! holds (expire "k" None) in
  yields (ttl "k") (Some (-1)).

Definition incr_semantics : M KvTable CombeeError unit :=
  do! yields (incr "c" 1 None) 1 in
  do! yields (incr "c" 10 None) 11 in
  yields (incr "c" (-5) None) 6.

Definition incr_keeps_original_ttl : M KvTable CombeeError unit :=
  do! set "c" "5" (Some 100) false false in
  do! incr "c" 1 None in
  within_100 "c".

Definition incr_sets_ttl_when_provided : M KvTable CombeeError unit :=
  do! incr "c" 1 (Some 100) in
  within_100 "c".

Definition incr_on_non_integer_errors : M KvTable CombeeError unit :=
  do! set "s" "hello" None false false in
  assert_err is_InvalidRequest (incr "s" 1 None).

Definition incr_overflow_errors : M KvTable CombeeError unit :=
  do! set "m" (i64_to_string I64_MAX) None false false in
  assert_err is_InvalidRequest (incr "m" 1 None).

Definition incr_on_expired_resets : M KvTable CombeeError unit :=
  do! set "c" "5" (Some 0) false false in
  yields (incr "c" 1 None) 1.

Definition kv_rs : list (M KvTable CombeeError unit) :=
  [scan_prefix_pagination_and_expiry; set_get_roundtrip; set_overwrites_existing; empty_key_rejected;
   get_missing_returns_none; get_expired_invisible_and_deleted_lazily; get_non_utf8_value_rejected;
   set_nx_and_xx; del_semantics; exists_ignores_expired; mget_mset_preserve_order; ttl_semantics;
   expire_and_persist; incr_semantics; incr_keeps_original_ttl; incr_sets_ttl_when_provided;
   incr_on_non_integer_errors; incr_overflow_errors; incr_on_expired_resets].

(** ** ttl.rs *)

Definition is_expired_boundaries : M KvTable CombeeError unit :=
  do! assert (is_expired (Some 100) 100) in
  do! assert (is_expired (Some 99) 100) in
  do! assert (negb (is_expired (Some 101) 100)) in
  assert (negb (is_expired None 100)).

Definition expires_at_from_and_remaining : M KvTable CombeeError unit :=
  do! assert_eq (expires_at_from None 1000) None in
  do! assert_eq (expires_at_from (Some 60) 1000) (Some 1060) in
  do! assert_eq (ttl_or_remaining None 1000) None in
  do! assert_eq (ttl_or_remaining (Some 1060) 1000) (Some 60) in
  assert_eq (ttl_or_remaining (Some 990) 1000) (Some 0).

Definition unix_now_is_reasonable : M KvTable CombeeError unit :=
  let! now := unix_now in assert ((1577836800 <=? now) && (now <=? 4102444800)).

(** SELECT COUNT( * ) FROM __sys_kv *)
Definition count_rows : M KvTable CombeeError Z := gets (fun t => Z.of_nat (size t)).

Definition gc_removes_only_expired : M KvTable CombeeError unit :=
  let! now := unix_now in
  do! insert_raw "expired" "v" (Some (now - 1)) in
  do! insert_raw "live" "v" (Some (now + 100)) in
  do! insert_raw "persist" "v" None in
  do! yields (gc_expired 100) 1 in
  yields count_rows 2.

Definition gc_respects_limit : M KvTable CombeeError unit :=
  let! now := unix_now in
  do! mfor [0; 1; 2; 3; 4]%nat
        (fun i => insert_raw (String.String (ascii_of_nat i) EmptyString) "v" (Some (now - 1))) in
  do! yields (gc_expired 2) 2 in
  do! yields count_rows 3 in
  yields (gc_expired 100) 3.

Definition ttl_rs : list (M KvTable CombeeError unit) :=
  [is_expired_boundaries; expires_at_from_and_remaining; unix_now_is_reasonable;
   gc_removes_only_expired; gc_respects_limit].

End kv_tests.
End KvTests.

(** The KV engine of the model passes the unit tests of kv.rs and ttl.rs; each
    starts from the empty table of a new file. *)
Theorem kv_tests_pass : forallb (passes ∅) (KvTests.kv_rs ++ KvTests.ttl_rs) = true.
Proof. vm_compute. reflexivity. Qed.
