(* ===== verification/ConformCommon.v ===== *)
(** Conformance with the unit tests of crates/common (usage.rs, credit.rs,
    rpc.rs, ids.rs, config.rs, metrics.rs, api_key.rs) and of the request log's
    labels (api-server/src/logging.rs). *)

From Stdlib Require Import ZArith Lia String Ascii.
From Stdlib Require Import Floats.SpecFloat.
From stdpp Require Import gmap strings list fin_maps.
From S2P Require Import Prelude Common Kv SqlGate Sql Ledger PgBooks Metrics Queries Startup Conform.

(** ** Uuids as the [uuid] crate writes them *)

Fixpoint hex_digits (k : nat) (u : N) (acc : string) : string :=
  match k with
  | O => acc
  | Datatypes.S k' => hex_digits k' (u / 16) (String.String (hex_digit (N.to_nat (u mod 16))) acc)
  end.

(** 8-4-4-4-12 lower-case digits. *)
Definition hyphenated (u : N) : string :=
  let h := hex_digits 32 u EmptyString in
  String.substring 0 8 h +:+ "-" +:+ String.substring 8 4 h +:+ "-" +:+ String.substring 12 4 h +:+ "-" +:+
  String.substring 16 4 h +:+ "-" +:+ String.substring 20 12 h.

Definition hex_value (c : ascii) : option N :=
  let n := nat_of_ascii c in
  if byte_in 48 57 c then Some (N.of_nat (n - 48))
  else if byte_in 97 102 c then Some (N.of_nat (n - 87))
  else if byte_in 65 70 c then Some (N.of_nat (n - 55))
  else None.

Fixpoint hex_parse (s : string) (acc : N) : option N :=
  match s with
  | EmptyString => Some acc
  | String.String c s' => d ← hex_value c; hex_parse s' (acc * 16 + d)
  end.

Definition dash_at (i : nat) (s : string) : bool := bool_decide (String.get i s = Some "-"%char).

(** The hyphenated form and the one without hyphens. *)
Definition uuid_parse (s : string) : option N :=
  if (String.length s =? 36)%nat then
    if dash_at 8 s && dash_at 13 s && dash_at 18 s && dash_at 23 s then
      hex_parse (String.substring 0 8 s +:+ String.substring 9 4 s +:+ String.substring 14 4 s +:+
        String.substring 19 4 s +:+ String.substring 24 12 s) 0
    else None
  else if (String.length s =? 32)%nat then hex_parse s 0
  else None.

Definition hex_uuid_text : UuidText := {| uuid_to_string := hyphenated; uuid_from_str := uuid_parse |}.

(** ** Tests *)

#[export] Instance f64_eq_dec : EqDecision f64.
Proof. unfold f64. solve_decision. Defined.
#[export] Instance Piece_eq_dec : EqDecision Piece.
Proof. solve_decision. Defined.
#[export] Instance KvDurability_eq_dec : EqDecision KvDurability.
Proof. solve_decision. Defined.

Module CommonTests.
Section common_tests.
#[local] Existing Instance test_env.
#[local] Existing Instance hex_uuid_text.
Abbreviation T := (M unit CombeeError unit).

(** *** usage.rs *)

Definition metric_roundtrip : T :=
  do! mfor [KvRead; KvWrite; SqlRead; SqlWrite; Requests; BytesIn; BytesOut; StorageBytes; StorageByteSecs]
        (fun m => assert_eq (metric_parse (metric_as_str m)) (Some m)) in
  assert_eq (metric_parse "nope") None.

Definition bucket_start_floors_to_minute : T :=
  do! assert_eq (bucket_start 0) 0 in
  do! assert_eq (bucket_start 59) 0 in
  do! assert_eq (bucket_start 60) 60 in
  assert_eq (bucket_start 1700000000) 1699999980.

(** *** credit.rs *)

Definition pricing_rate_is_proportional_floor_and_missing_is_zero : T :=
  let cfg := mkPricingConfig 7 0 {[KvRead := (1000, 10)]} in
  do! assert_eq (rate cfg KvRead 0) 0 in
  do! assert_eq (rate cfg KvRead 1000) 10 in
  do! assert_eq (rate cfg KvRead 1001) 10 in
  do! assert_eq (rate cfg KvRead 2000) 20 in
  do! assert_eq (rate cfg KvRead 500) 5 in
  do! assert_eq (rate cfg KvRead 99) 0 in
  assert_eq (rate cfg SqlWrite 99) 0.

Definition storage_gb_hour_rate_is_proportional_floor : T :=
  let cfg := mkPricingConfig 1 0 {[StorageByteSecs := (BYTE_SECS_PER_GB_HOUR, 10000)]} in
  do! assert_eq (rate cfg StorageByteSecs BYTE_SECS_PER_GB_HOUR) 10000 in
  do! assert_eq (rate cfg StorageByteSecs (BYTE_SECS_PER_GB_HOUR + 1)) 10000 in
  do! assert_eq (rate cfg StorageByteSecs (BYTE_SECS_PER_GB_HOUR / 2)) 5000 in
  assert_eq (rate cfg StorageByteSecs 0) 0.

Definition transaction_type_roundtrip : T :=
  mfor [Recharge; Usage; Grant; Voucher; Refund; Adjustment]
    (fun t => assert_eq (txn_type_parse (txn_type_as_str t)) (Some t)).

(** *** rpc.rs *)

Definition error_kind_roundtrip : T :=
  let! a := DatabaseId_new in
  let! b := DatabaseId_new in
  mfor [DatabaseNotFound a; DatabaseAlreadyExists b; Unauthorized; InvalidRequest "bad"; Forbidden "no";
        QuotaExceeded "full"; SqlError "syntax"; Internal "boom"]
    (fun e =>
       let! fresh := DatabaseId_new in
       assert_eq (kind (from_kind fresh (kind e) (error_to_string e))) (kind e)).

(** *** ids.rs *)

Definition VALID : string := "01234567-89ab-cdef-0123-456789abcdef".

Definition parse_and_display_roundtrip : T :=
  let! db := unwrap (DatabaseId_from_str VALID) in
  do! assert_eq (DatabaseId_to_string db) VALID in
  let! tenant := unwrap (TenantId_from_str VALID) in
  assert_eq (TenantId_to_string tenant) VALID.

Definition invalid_uuid_rejected : T :=
  do! assert_eq (DatabaseId_from_str "not-a-uuid") None in
  do! assert_eq (DatabaseId_from_str EmptyString) None in
  assert_eq (TenantId_from_str "01234567") None.

Definition new_ids_are_unique : T :=
  let! a := DatabaseId_new in
  let! b := DatabaseId_new in
  assert (negb (bool_decide (a = b)) && negb (bool_decide (database_uuid a = database_uuid b))).

(** *** config.rs *)

Definition durability (s : string) : option KvDurability :=
  match durability_from_str s with Ok d => Some d | Err _ => None end.

Definition durability_parse_and_display : T :=
  do! assert_eq (durability "fast") (Some Fast) in
  do! assert_eq (durability "FAST") (Some Fast) in
  do! assert_eq (durability "normal") (Some Normal) in
  do! assert_eq (durability "wal") (Some Normal) in
  do! assert_eq (durability "strict") (Some Strict) in
  do! assert_eq (durability "full") (Some Strict) in
  do! assert_eq (durability "unknown") None in
  do! assert_eq (durability_as_str Fast) "fast"%string in
  do! assert_eq (durability_as_str Strict) "strict"%string in
  assert_eq (durability_or_default "unknown") Fast.

Definition env_parse_falls_back_to_default : T :=
  assert_eq (env_parse parse_u64 ∅ "COMBEE_THIS_VAR_SHOULD_NOT_EXIST_9f3k" 42) 42.

(** *** logging.rs *)

Definition normalizes_high_cardinality_segments : T :=
  let uuid := "00000000-0000-0000-0000-000000000001"%string in
  do! assert_eq (operation_name ("/v1/databases/" +:+ uuid +:+ "/kv/session:abc")) "v1.databases.{id}.kv.{key}"%string in
  do! assert_eq (operation_name ("/v1/databases/" +:+ uuid +:+ "/kv/other-key-xyz")) "v1.databases.{id}.kv.{key}"%string in
  do! assert_eq (operation_name ("/v1/databases/" +:+ uuid +:+ "/kv/ops/incr")) "v1.databases.{id}.kv.ops.incr"%string in
  do! assert_eq (operation_name "/v1/databases/by-name/combee-bff") "v1.databases.by-name.{name}"%string in
  assert_eq (operation_name ("/v1/databases/" +:+ uuid +:+ "/sql")) "v1.databases.{id}.sql"%string.

Definition common : list T :=
  [metric_roundtrip; bucket_start_floors_to_minute; pricing_rate_is_proportional_floor_and_missing_is_zero;
   storage_gb_hour_rate_is_proportional_floor; transaction_type_roundtrip; error_kind_roundtrip;
   parse_and_display_roundtrip; invalid_uuid_rejected; new_ids_are_unique; durability_parse_and_display;
   env_parse_falls_back_to_default; normalizes_high_cardinality_segments].

(** *** metrics.rs *)

Definition quoted (s : string) : string := str1 DQUOTE +:+ s +:+ str1 DQUOTE.

(** The rendered text has the line. *)
Definition has_line (l : string) (r : Registry) : bool := bool_decide (PText (l +:+ newline) ∈ render r).

Definition counter_inc_and_render : T :=
  let requests := "combee_http_requests_total"%string in
  let r := counter_inc requests [("op", "kv")]%string
             (counter_inc requests [("op", "sql")]%string
                (counter_inc requests [("op", "sql")]%string Registry_new)) in
  do! assert (has_line (requests +:+ "{op=" +:+ quoted "sql" +:+ "} 2") r) in
  assert (has_line (requests +:+ "{op=" +:+ quoted "kv" +:+ "} 1") r).

(** The nearest [f64] to 0.005, and 2. *)
Definition f_5ms : f64 := S754_finite false 5764607523034235 (-60).
Definition f_2s : f64 := S754_finite false 4503599627370496 (-51).

Definition histogram_renders_buckets_count_sum : T :=
  let duration := "combee_request_duration_seconds"%string in
  let op := [("op", "sql")]%string in
  let r := histogram_observe duration op f_2s (histogram_observe duration op f_5ms Registry_new) in
  let base := duration +:+ "{op=" +:+ quoted "sql" +:+ "}" in
  do! assert (has_line (base +:+ "_bucket{le=" +:+ quoted "0.005" +:+ "} 1") r) in
  do! assert (has_line (base +:+ "_bucket{le=" +:+ quoted "2.5" +:+ "} 2") r) in
  do! assert (has_line (base +:+ "_count 2") r) in
  assert (bool_decide (PText (base +:+ "_sum ") ∈ render r) &&
    bool_decide (PFloat (f64_add f_5ms f_2s) ∈ render r)).

Definition gauge_set_and_render : T :=
  let r := gauge_set "combee_open_sqlite_connections" [("node_role", "data")]%string 3 Registry_new in
  assert (has_line ("combee_open_sqlite_connections{node_role=" +:+ quoted "data" +:+ "} 3") r).

Definition label_escaping : T :=
  let q := str1 DQUOTE in let b := str1 BACKSLASH in
  let r := counter_inc "x" [("op"%string, "a" +:+ q +:+ "b" +:+ b +:+ "c")] Registry_new in
  assert (has_line ("x{op=" +:+ q +:+ "a" +:+ b +:+ q +:+ "b" +:+ b +:+ b +:+ "c" +:+ q +:+ "} 1") r).

Definition metrics : list T :=
  [counter_inc_and_render; histogram_renders_buckets_count_sum; gauge_set_and_render; label_escaping].

End common_tests.
End CommonTests.

(** The model passes the unit tests of the common crate and of the request
    log's labels. *)
Theorem common_tests_pass : forallb (passes tt) (CommonTests.common ++ CommonTests.metrics) = true.
Proof. vm_compute. reflexivity. Qed.
