(* ===== verification/ConformNode.v ===== *)
(** Conformance with the unit tests of crates/data-node: cache.rs, storage.rs,
    manager.rs, sandbox.rs and sql.rs. SQLite is stood in for by an engine that
    knows the statements of the tests; a new temporary directory is an empty
    node. *)

From Stdlib Require Import ZArith Lia String Ascii.
From stdpp Require Import gmap strings list fin_maps.
From S2P Require Import Prelude Common Kv SqlGate Sql Cache Manager DataNode Conform ConformCommon.

(** ** A small engine *)

(** Tables with their columns and rows. *)
Abbreviation Tables := (gmap string (list string * list (list SqlValue))).

Inductive Stmt :=
| CreateTable (t : string) (cols : list string)
| InsertRow (t : string) (row : list SqlValue)
| InsertParams (t : string) (n : nat)
| SelectFrom (t : string) (cols : list string)
| SelectParam.

(** The statements of the tests. *)
Definition compile (sql : string) : option Stmt :=
  snd <$> find (fun p => bool_decide (p.1 = sql)) [
    ("CREATE TABLE t (x TEXT)", CreateTable "t" ["x"]);
    ("CREATE TABLE t (x)", CreateTable "t" ["x"]);
    ("CREATE TABLE t (x INTEGER)", CreateTable "t" ["x"]);
    ("CREATE TABLE t (x INTEGER, y TEXT)", CreateTable "t" ["x"; "y"]);
    ("CREATE TABLE t (a, b, c, d, e)", CreateTable "t" ["a"; "b"; "c"; "d"; "e"]);
    ("INSERT INTO t VALUES (1)", InsertRow "t" [SqlInteger 1]);
    ("INSERT INTO t VALUES (2)", InsertRow "t" [SqlInteger 2]);
    ("INSERT INTO t VALUES (3)", InsertRow "t" [SqlInteger 3]);
    ("INSERT INTO t VALUES (42)", InsertRow "t" [SqlInteger 42]);
    ("INSERT INTO t VALUES (1, 'a')", InsertRow "t" [SqlInteger 1; SqlText "a"]);
    ("INSERT INTO nosuch_table VALUES (1)", InsertRow "nosuch_table" [SqlInteger 1]);
    ("INSERT INTO t VALUES (?, ?, ?, ?, ?)", InsertParams "t" 5);
    ("SELECT x FROM t", SelectFrom "t" ["x"]);
    ("SELECT x, y FROM t", SelectFrom "t" ["x"; "y"]);
    ("SELECT ?", SelectParam)]%string.

Definition no_table (t : string) : string := "no such table: " +:+ t.

Definition add_row (u : Tables) (t : string) (row : list SqlValue) : result string Z * Tables :=
  match u !! t with
  | Some (cols, rows) => (Ok 1, <[t := (cols, rows ++ [row])]> u)
  | None => (Err (no_table t), u)
  end.

Definition table_engine : SqlEngine Tables := {|
  prepare u sql :=
    match compile sql with
    | Some (CreateTable t _) => Ok ([], [AInsert "sqlite_master"%string])
    | Some (InsertRow t _) | Some (InsertParams t _) =>
        match u !! t with Some _ => Ok ([], [AInsert t]) | None => Err (no_table t) end
    | Some (SelectFrom t cols) =>
        match u !! t with Some _ => Ok (cols, [ARead t EmptyString]) | None => Err (no_table t) end
    | Some SelectParam => Ok (["?"%string], [])
    | None => Err "syntax error"%string
    end;
  run_query u sql params :=
    match compile sql with
    | Some (SelectFrom t _) =>
        (Ok ((fun row => Ok (Ok row)) <$> match u !! t with Some (_, rows) => rows | None => [] end), u)
    | Some SelectParam =>
        match params with
        | [v] => (Ok [Ok (Ok [v])], u)
        | _ => (Err "Wrong number of parameters passed to query"%string, u)
        end
    | _ => (Err "not a query"%string, u)
    end;
  run_execute u sql params :=
    match compile sql with
    | Some (CreateTable t cols) => (Ok 0, <[t := (cols, [])]> u)
    | Some (InsertRow t row) => add_row u t row
    | Some (InsertParams t n) =>
        if (length params =? n)%nat then add_row u t params
        else (Err "Wrong number of parameters passed to query"%string, u)
    | _ => (Err "not a statement without columns"%string, u)
    end;
  begin_tx _ := Ok tt;
  commit_tx _ := Ok tt;
  tx_misuse _ := "transaction state"%string;
  auth_denied := "not authorized"%string;
  u64_as_f64 z := z;
  json_display _ := EmptyString;
  json_size _ := 0%nat;
|}.

Definition table_files : CellFiles Tables := {|
  fresh_user := ∅;
  file_len _ _ := 36864;
  quick_check_result _ := "ok"%string;
|}.

#[export] Instance Number_eq_dec : EqDecision Number.
Proof. solve_decision. Defined.
#[export] Instance SqlValue_eq_dec : EqDecision SqlValue.
Proof. solve_decision. Defined.

(** Scalars, which is what the tests compare. *)
Definition json_eqb (a b : Json) : bool :=
  match a, b with
  | JNull, JNull => true
  | JBool x, JBool y => Bool.eqb x y
  | JNumber x, JNumber y => bool_decide (x = y)
  | JString x, JString y => bool_decide (x = y)
  | _, _ => false
  end.

Fixpoint list_eqb {A} (eqb : A -> A -> bool) (l1 l2 : list A) : bool :=
  match l1, l2 with
  | [], [] => true
  | x :: l1', y :: l2' => eqb x y && list_eqb eqb l1' l2'
  | _, _ => false
  end.

(** ** cache.rs, the cache alone *)

Module CacheTests.
Section cache_tests.
#[local] Existing Instance test_env.
Abbreviation T := (M KvCache CombeeError unit).

Definition NOW : Z := 1000000.

Definition c_get (d : DatabaseId) (k : string) (now : Z) : M KvCache CombeeError (option KvEntry) :=
  fun c e => let '(r, c') := cache_get d k now c in (Ok r, c', e).
Definition c_put (d : DatabaseId) (k v : string) (x : option Z) : T := modify (cache_put d k v x).

Definition hit_miss_and_lazy_expiry : T :=
  let! d := DatabaseId_new in
  do! yields (c_get d "k" NOW) None in
  do! c_put d "k" "v" (Some (NOW + 100)) in
  let! g := c_get d "k" NOW in
  let! e := unwrap g in
  do! assert_eq (entry_value e) "v"%string in
  do! assert_eq (entry_ttl_seconds e) (Some 100) in
  do! yields (c_get d "k" (NOW + 200)) None in
  do! yields (c_get d "k" (NOW + 300)) None in
  do! c_put d "p" "x" None in
  let! p := c_get d "p" (NOW + 1000000) in
  do! unwrap p in
  let! (hits, misses) := gets (fun c => (cache_hits c, cache_misses c)) in
  do! assert_eq hits 2 in
  assert_eq misses 3.

Definition key_scoped_to_database : T :=
  let! a := DatabaseId_new in
  let! b := DatabaseId_new in
  do! c_put a "k" "a-value" None in
  do! yields (c_get b "k" NOW) None in
  let! g := c_get a "k" NOW in
  let! e := unwrap g in
  assert_eq (entry_value e) "a-value"%string.

Definition invalidate_removes_entry : T :=
  let! d := DatabaseId_new in
  do! c_put d "k" "v" None in
  let! g := c_get d "k" NOW in
  do! unwrap g in
  do! modify (cache_invalidate d "k") in
  yields (c_get d "k" NOW) None.

Definition cache_alone : list T := [hit_miss_and_lazy_expiry; key_scoped_to_database; invalidate_removes_entry].

End cache_tests.
End CacheTests.

(** ** The data node *)

Module NodeTests.
Section node_tests.
#[local] Existing Instance test_env.
#[local] Existing Instance hex_uuid_text.
#[local] Existing Instance table_engine.
#[local] Existing Instance table_files.
Abbreviation T := (M (Node Tables) CombeeError unit).

(** [node] and [cfg] of the tests. *)
Definition cfg (active : nat) (idle : Z) : DataNodeConfig :=
  mkDataNodeConfig "/tmp/t" active idle (Some "30s"%string) QuotaConfig_default.
Definition node : DataNodeConfig := cfg 8 3600.

Definition put (d : DatabaseId) (k v : string) (ttl : option Z) : T :=
  do! kv_set node d k v ttl false false 0 in mret tt.

Definition value_at (d : DatabaseId) (k : string) : M (Node Tables) CombeeError string :=
  let! g := kv_get node d k in let! e := unwrap g in mret (entry_value e).

Definition cache_stats : M (Node Tables) CombeeError (Z * Z) :=
  gets (fun n => (cache_hits (cache n), cache_misses (cache n))).

(** A new process on the same directory. *)
Definition restart : T := modify (fun n => mkNode (files n) (manifests n) ∅ ∅ ∅ KvCache_new ∅).

Definition set_then_get_is_cache_hit : T :=
  let! d := DatabaseId_new in
  do! put d "k" "v" None in
  do! yields (value_at d "k") "v"%string in
  yields cache_stats (1, 0).

Definition miss_fills_cache_then_hits : T :=
  let! d := DatabaseId_new in
  do! put d "k" "v2" None in
  do! close_all in
  do! restart in
  do! yields (value_at d "k") "v2"%string in
  do! yields cache_stats (0, 1) in
  do! yields (value_at d "k") "v2"%string in
  yields cache_stats (1, 1).

Definition overwrite_and_delete_invalidate_cache : T :=
  let! d := DatabaseId_new in
  do! put d "k" "v1" None in
  do! yields (value_at d "k") "v1"%string in
  do! put d "k" "v2" None in
  do! yields (value_at d "k") "v2"%string in
  do! holds (kv_del node d "k" 0) in
  yields (kv_get node d "k") None.

Definition is_some {A} (o : option A) : bool := match o with Some _ => true | None => false end.

Definition incr_and_expire_stay_consistent_with_cache : T :=
  let! d := DatabaseId_new in
  do! put d "c" "5" (Some 100) in
  let! g := kv_get node d "c" in
  let! e := unwrap g in
  do! assert_eq (entry_value e) "5"%string in
  do! assert (is_some (entry_ttl_seconds e)) in
  do! yields (kv_incr node d "c" 3 None 0) 8 in
  let! g := kv_get node d "c" in
  let! e := unwrap g in
  do! assert_eq (entry_value e) "8"%string in
  do! assert (is_some (entry_ttl_seconds e)) in
  do! holds (kv_expire node d "c" (Some 50) 0) in
  let! g := kv_get node d "c" in
  let! e := unwrap g in
  do! assert_eq (entry_value e) "8"%string in
  let! ttl := unwrap (entry_ttl_seconds e) in
  assert ((1 <=? ttl) && (ttl <=? 50)).

Definition expired_cache_entry_falls_back_to_sqlite : T :=
  let! d := DatabaseId_new in
  do! put d "k" "v" (Some 0) in
  do! yields (kv_get node d "k") None in
  yields (kv_get node d "k") None.

Definition ttl_of (d : DatabaseId) (k : string) : M (Node Tables) CombeeError Z :=
  let! g := kv_get node d k in let! e := unwrap g in unwrap (entry_ttl_seconds e).

Definition ttl_seconds_decrease_across_cache_hits : T :=
  let! d := DatabaseId_new in
  do! put d "t" "v" (Some 100) in
  let! t1 := ttl_of d "t" in
  let! t2 := ttl_of d "t" in
  do! assert ((1 <=? t1) && (t1 <=? 100) && ((1 <=? t2) && (t2 <=? 100))) in
  do! assert (t2 <=? t1) in
  let! (hits, _) := cache_stats in
  assert_eq hits 2.

Definition cache_isolation_between_databases : T :=
  let! a := DatabaseId_new in
  let! b := DatabaseId_new in
  do! put a "k" "a" None in
  do! put b "k" "b" None in
  do! yields (value_at a "k") "a"%string in
  do! yields (value_at b "k") "b"%string in
  yields cache_stats (2, 0).

Definition cache_survives_shutdown_but_data_reads_from_sqlite : T :=
  let! d := DatabaseId_new in
  do! put d "k" "persisted" None in
  do! close_all in
  do! restart in
  do! yields (value_at d "k") "persisted"%string in
  yields cache_stats (0, 1).

Definition delete_database_clears_its_cache_entries : T :=
  let! d := DatabaseId_new in
  do! put d "k" "v" None in
  do! yields (value_at d "k") "v"%string in
  let! (hits, _) := cache_stats in
  do! assert (1 <=? hits) in
  do! node_delete_database node d in
  yields (gets (fun n => size (cache_inner (cache n)))) 0%nat.

Definition cache_node : list T :=
  [set_then_get_is_cache_hit; miss_fills_cache_then_hits; overwrite_and_delete_invalidate_cache;
   incr_and_expire_stay_consistent_with_cache; expired_cache_entry_falls_back_to_sqlite;
   ttl_seconds_decrease_across_cache_hits; cache_isolation_between_databases;
   cache_survives_shutdown_but_data_reads_from_sqlite; delete_database_clears_its_cache_entries].

(** *** storage.rs *)

Definition id_0123 : DatabaseId := default (mkDatabaseId 0) (DatabaseId_from_str CommonTests.VALID).

Definition db_path_uses_hex_bucket : T :=
  let hex := CommonTests.VALID in
  assert_eq (db_path node id_0123) ("/tmp/t/" +:+ String.substring 0 2 hex +:+ "/" +:+ hex +:+ ".sqlite").

Definition db_path_is_stable_and_unique_per_db : T :=
  let! a := DatabaseId_new in
  let! b := DatabaseId_new in
  do! assert_eq (db_path node a) (db_path node a) in
  assert (negb (bool_decide (db_path node a = db_path node b))).

Definition path_exists (d : DatabaseId) : M (Node Tables) CombeeError bool :=
  gets (fun n => is_some (files n !! d)).

Definition remove_files_cleans_all_suffixes : T :=
  let! id := DatabaseId_new in
  do! open_ id in
  do! on_sql id (execute_sql (mkSqlRequest "CREATE TABLE t (x)" [])) in
  do! holds (path_exists id) in
  do! remove_files node id in
  fails (path_exists id).

Definition remove_files_skips_missing_files : T :=
  let! id := DatabaseId_new in remove_files node id.

Definition storage : list T :=
  [db_path_uses_hex_bucket; db_path_is_stable_and_unique_per_db; remove_files_cleans_all_suffixes;
   remove_files_skips_missing_files].

(** *** manager.rs *)

Definition set_on (cf : DataNodeConfig) (d : DatabaseId) (k v : string) : T :=
  do! with_conn cf d (on_kv d (set k v None false false)) in mret tt.

Definition get_on (cf : DataNodeConfig) (d : DatabaseId) (k : string) : M (Node Tables) CombeeError string :=
  let! g := with_conn cf d (on_kv d (get k)) in let! e := unwrap g in mret (entry_value e).

Definition open_count : M (Node Tables) CombeeError nat := gets (fun n => size (conns n)).

Definition lru_evicts_oldest_when_at_capacity : T :=
  let c := cfg 1 3600 in
  let! d1 := DatabaseId_new in
  let! d2 := DatabaseId_new in
  do! set_on c d1 "a" "1" in
  do! set_on c d2 "b" "2" in
  do! yields open_count 1%nat in
  yields (get_on c d1 "a") "1"%string.

(** A maintenance tick half a second later; [Instant] counts nanoseconds. *)
Definition half_a_second_later : Env := {|
  clock _ := test_now; instant n := 500000000 + Z.of_nat n; fault _ := None; uuid_v4 n := N.of_nat (100 + n) |}.

Definition idle_timeout_sleeps_connections : T :=
  let c := cfg 8 150000000 in
  let! db := DatabaseId_new in
  do! set_on c db "k" "v" in
  do! yields open_count 1%nat in
  do! maintenance_tick (env:=half_a_second_later) c in
  do! yields open_count 0%nat in
  yields (get_on c db "k") "v"%string.

Definition delete_database_removes_connection_and_files : T :=
  let! db := DatabaseId_new in
  do! set_on node db "k" "v" in
  do! yields open_count 1%nat in
  do! holds (path_exists db) in
  do! manager_delete_database node db in
  do! yields open_count 0%nat in
  fails (path_exists db).

Definition data_persists_across_manager_restart : T :=
  let! db := DatabaseId_new in
  do! with_conn node db (
        do! on_kv db (set "k" "v" None false false) in
        on_sql db (execute_sql (mkSqlRequest "CREATE TABLE t (x TEXT)" []))) in
  do! close_all in
  do! restart in
  with_conn node db (
    let! g := on_kv db (get "k") in
    let! e := unwrap g in
    do! assert_eq (entry_value e) "v"%string in
    let! r := on_sql db (execute_sql (mkSqlRequest "SELECT x FROM t" [])) in
    do! assert_eq (res_columns r) ["x"%string] in
    assert (match res_rows r with [] => true | _ => false end)).

Definition manager : list T :=
  [lru_evicts_oldest_when_at_capacity; idle_timeout_sleeps_connections;
   delete_database_removes_connection_and_files; data_persists_across_manager_restart].

End node_tests.
End NodeTests.

(** ** sandbox.rs *)

Module SqlTests.
Section sql_tests.
#[local] Existing Instance test_env.
#[local] Existing Instance table_engine.
Abbreviation T := (M (SqlState Tables) CombeeError unit).

Definition pragma_whitelist_judgment : T :=
  do! mfor ["user_version"; "quick_check"; "integrity_check"; "table_info"; "journal_mode"; "foreign_keys";
            "function_list"; "pragma_list"]%string (fun p => assert (pragma_allowed p false)) in
  do! mfor ["table_info"; "quick_check"; "index_list"; "table_list"]%string
        (fun p => assert (pragma_allowed p true)) in
  do! mfor ["synchronous"; "locking_mode"; "temp_store"; "page_size"; "cache_size"; "wal_autocheckpoint";
            "trusted_schema"; "load_extension"; "security_delete"; "read_uncommitted"]%string
        (fun p => do! assert (negb (pragma_allowed p true)) in assert (negb (pragma_allowed p false))) in
  do! assert (pragma_allowed "journal_mode" false) in
  do! assert (negb (pragma_allowed "journal_mode" true)) in
  do! assert (pragma_allowed "user_version" true) in
  assert (pragma_allowed "application_id" true).

Definition function_blacklist_judgment : T :=
  do! mfor ["load_extension"; "readfile"; "writefile"]%string (fun f => assert (negb (function_allowed f))) in
  mfor ["count"; "sum"; "avg"; "max"; "min"; "random"; "date"; "strftime"; "json_extract"; "lower"; "upper";
        "length"]%string (fun f => assert (function_allowed f)).

(** ** sql.rs *)

Definition is_Forbidden (e : CombeeError) : bool := match e with Forbidden _ => true | _ => false end.

Definition nl : string := String.String NL EmptyString.
Definition tab : string := String.String TAB EmptyString.
Definition dq : string := String.String QUOTE EmptyString.

Definition check_statement_rejects_dangerous_sql : T :=
  do! mfor ["SELECT * FROM __sys_kv"; "select * from __sys_kv"; "INSERT INTO __SYS_META VALUES (1, 2)";
            "SELECT * FROM __sys_kv_expires_at"]%string
        (fun bad => assert_err is_Forbidden (mlift (check_statement bad))) in
  do! mfor ["VACUUM"%string; "vacuum"%string; "  VACUUM INTO '/tmp/escape.sqlite'"%string;
            "  -- comment" +:+ nl +:+ "VACUUM INTO '/tmp/escape.sqlite'";
            "/* x */ VACUUM INTO '/tmp/escape.sqlite'"%string]
        (fun bad => assert_err is_InvalidRequest (mlift (check_statement bad))) in
  do! mfor ["SELECT 1; DROP TABLE t"%string; "INSERT INTO t VALUES (1); INSERT INTO t VALUES (2)"%string;
            "SELECT 1;" +:+ nl +:+ "DROP TABLE t"; "SELECT 'a'; -- note" +:+ nl +:+ "DROP TABLE t"]
        (fun bad => assert_err is_InvalidRequest (mlift (check_statement bad))) in
  mfor ["SELECT 1"%string; "CREATE TABLE users (id INTEGER)"%string; "INSERT INTO users VALUES (1)"%string;
        "SELECT 'BEGIN'"%string; "PRAGMA user_version"%string; "SELECT 1;"%string; "SELECT 'a;b'"%string;
        "SELECT " +:+ dq +:+ "a;b" +:+ dq; "SELECT 1; -- trailing comment"%string;
        "SELECT 1; /* trailing block */"%string; "-- leading comment" +:+ nl +:+ "SELECT 1";
        "/* leading block */ SELECT 1"%string; "  " +:+ tab +:+ "-- comment" +:+ nl +:+ "/* block */ SELECT 1;"]
    (fun ok => mlift (check_statement ok)).

Definition multi_statement_detector_edge_cases : T :=
  do! mfor ["SELECT ';'"%string; "SELECT 'it''s; fine'"%string; "SELECT " +:+ dq +:+ "a;b" +:+ dq;
            "SELECT 1 -- ;"%string; "SELECT 1 /* ; */"%string; "SELECT 1;"%string; "SELECT 1;  "%string]
        (fun s => assert (negb (has_multiple_statements s))) in
  mfor ["SELECT 1; SELECT 2"%string; "SELECT ';' ; SELECT 2"%string; "SELECT 1; -- x" +:+ nl +:+ "SELECT 2"]
    (fun s => assert (has_multiple_statements s)).

(** The connection's own statements go past the gate. *)
Definition execute_batch (sql : string) : T :=
  do! on_data (fun u => run_execute u sql []) in mret tt.

(** 3.5 as the bits of an [f64]. *)
Definition f_3_5 : Z := 4615063718147915776.

Definition param_types_map_to_sqlite_values : T :=
  do! execute_batch "CREATE TABLE t (a, b, c, d, e)" in
  do! execute_sql (mkSqlRequest "INSERT INTO t VALUES (?, ?, ?, ?, ?)"
        [JNull; JBool true; JBool false; JNumber (Float f_3_5); JString "s"]) in
  yields (gets (fun s => snd <$> user_data s !! "t"%string))
    (Some [[SqlNull; SqlInteger 1; SqlInteger 0; SqlReal f_3_5; SqlText "s"]]).

Definition unsupported_param_types_rejected : T :=
  mfor [JObject [("a"%string, JNumber (PosInt 1))]; JArray [JNumber (PosInt 1); JNumber (PosInt 2)]]
    (fun bad => assert_err is_InvalidRequest (execute_sql (mkSqlRequest "SELECT ?" [bad]))).

Definition parameter_count_mismatch_rejected : T :=
  assert_err (fun _ => true) (execute_sql (mkSqlRequest "SELECT ?" [])).

Definition multi_statement_injection_rejected : T :=
  do! execute_batch "CREATE TABLE t (x)" in
  do! assert_err (fun _ => true) (execute_sql (mkSqlRequest "SELECT 1; DROP TABLE t" [])) in
  holds (gets (fun s => NodeTests.is_some (user_data s !! "t"%string))).

Definition select_returns_columns_and_rows : T :=
  do! execute_batch "CREATE TABLE t (x INTEGER, y TEXT)" in
  do! execute_batch "INSERT INTO t VALUES (1, 'a')" in
  let! r := execute_sql (mkSqlRequest "SELECT x, y FROM t" []) in
  do! assert_eq (res_columns r) ["x"; "y"]%string in
  do! assert (list_eqb (list_eqb json_eqb) (res_rows r) [[JNumber (PosInt 1); JString "a"]]) in
  assert_eq (res_rows_affected r) 0.

Definition transaction_commits_and_rolls_back : T :=
  do! execute_batch "CREATE TABLE t (x INTEGER)" in
  let! results := execute_transaction
    [mkSqlRequest "INSERT INTO t VALUES (1)" []; mkSqlRequest "INSERT INTO t VALUES (2)" []] None in
  do! assert_eq (length results) 2%nat in
  do! assert_eq (res_rows_affected <$> head results) (Some 1) in
  do! assert_err (fun _ => true) (execute_transaction
        [mkSqlRequest "INSERT INTO t VALUES (3)" []; mkSqlRequest "INSERT INTO nosuch_table VALUES (1)" []] None) in
  yields (gets (fun s => length <$> (snd <$> user_data s !! "t"%string))) (Some 2%nat).

Definition empty_transaction_rejected : T := assert_err is_InvalidRequest (execute_transaction [] None).

Definition transaction_rejects_sys_table_access : T :=
  assert_err is_Forbidden (execute_transaction [mkSqlRequest "SELECT * FROM __sys_kv" []] None).

Definition sql : list T :=
  [pragma_whitelist_judgment; function_blacklist_judgment; check_statement_rejects_dangerous_sql;
   multi_statement_detector_edge_cases; param_types_map_to_sqlite_values; unsupported_param_types_rejected;
   parameter_count_mismatch_rejected; multi_statement_injection_rejected; select_returns_columns_and_rows;
   transaction_commits_and_rolls_back; empty_transaction_rejected; transaction_rejects_sys_table_access].

End sql_tests.
End SqlTests.

(** The data node of the model passes the unit tests of cache.rs, storage.rs,
    manager.rs, sandbox.rs and sql.rs. *)
Theorem node_tests_pass :
  (forallb (passes KvCache_new) CacheTests.cache_alone &&
   forallb (passes Node_new) (NodeTests.cache_node ++ NodeTests.storage ++ NodeTests.manager) &&
   forallb (passes (mkSqlState ∅ false None)) SqlTests.sql)%bool = true.
Proof. vm_compute. reflexivity. Qed.
