(* ===== verification/ConformStore.v ===== *)
(** Conformance with the unit tests of crates/metadata (store.rs): the
    directory and the books of the in-memory store; and, since the trait
    promises the same of every store, the same tests of the books on the
    PostgreSQL store. *)

From Stdlib Require Import ZArith Lia String Ascii.
From stdpp Require Import gmap strings list fin_maps sorting.
From S2P Require Import Prelude Common Kv Catalog Ledger Postgres PgBooks Conform ConformCommon.

(** A stand-in for SHA-256 with 64 digits: the text from its end, in
    hexadecimal. *)
Fixpoint hex_of_rev (b : list ascii) : string :=
  match b with
  | [] => EmptyString
  | c :: b' =>
      String.String (hex_digit (nat_of_ascii c / 16)) (String.String (hex_digit (nat_of_ascii c mod 16)) (hex_of_rev b'))
  end.

Definition sha_stub (s : string) : string :=
  String.substring 0 64 (hex_of_rev (rev (String.list_ascii_of_string s)) +:+
    "0000000000000000000000000000000000000000000000000000000000000000").

Definition is_DatabaseNotFound (e : CombeeError) : bool := match e with DatabaseNotFound _ => true | _ => false end.
Definition is_DatabaseAlreadyExists (e : CombeeError) : bool :=
  match e with DatabaseAlreadyExists _ => true | _ => false end.

(** ** The directory *)

Module CatalogTests.
Section catalog_tests.
#[local] Existing Instance test_env.
#[local] Existing Instance hex_uuid_text.
Abbreviation T := (M Catalog CombeeError unit).

Definition tenant (n : N) : TenantId := mkTenantId n.

Definition lease_single_owner_then_expiry_takeover : T :=
  let! a := fresh_uuid in
  let! b := fresh_uuid in
  do! holds (try_acquire_lease "storage_sampler" a 100 30) in
  do! fails (try_acquire_lease "storage_sampler" b 105 30) in
  do! holds (try_acquire_lease "storage_sampler" a 110 30) in
  do! holds (try_acquire_lease "storage_sampler" b 200 30) in
  fails (try_acquire_lease "storage_sampler" a 205 30).

Definition count (t : TenantId) : M Catalog CombeeError nat :=
  let! l := list_databases t in mret (length l).

Definition create_get_list_delete_roundtrip : T :=
  let t := tenant 1 in
  let! id := DatabaseId_new in
  let! record := create_database t id None None in
  do! assert_eq (db_id record) id in
  do! assert_eq (db_tenant record) t in
  do! assert_eq (db_state record) Created in
  do! assert (0 <? db_created_at record) in
  let! fetched := get_database t id in
  do! assert_eq (db_id fetched) id in
  let! l := list_databases t in
  do! assert_eq (db_id <$> l) [id] in
  do! store_delete_database t id in
  yields (count t) 0%nat.

Definition duplicate_create_rejected : T :=
  let t := tenant 1 in
  let! id := DatabaseId_new in
  do! create_database t id None None in
  assert_err is_DatabaseAlreadyExists (create_database t id None None).

Definition get_and_delete_missing_rejected : T :=
  let t := tenant 1 in
  let! id := DatabaseId_new in
  do! assert_err is_DatabaseNotFound (get_database t id) in
  assert_err is_DatabaseNotFound (store_delete_database t id).

Definition tenants_are_isolated : T :=
  let t_a := tenant 1 in
  let t_b := tenant 2 in
  let! id := DatabaseId_new in
  do! create_database t_a id None None in
  do! assert_err is_DatabaseNotFound (get_database t_b id) in
  do! yields (count t_b) 0%nat in
  do! create_database t_b id None None in
  do! yields (count t_a) 1%nat in
  do! yields (count t_b) 1%nat in
  do! store_delete_database t_a id in
  yields (count t_b) 1%nat.

Definition replicas (n : NodeId) : M Catalog CombeeError (list DatabaseId) :=
  let! l := list_replicas_of n in mret (db_id <$> l).

Definition replica_set_and_list : T :=
  let t := tenant 1 in
  let! p := fresh_uuid in
  let! r := fresh_uuid in
  let primary := mkNodeId p in
  let replica := mkNodeId r in
  let! id := DatabaseId_new in
  do! create_database t id (Some primary) None in
  let! rec := set_replica_node t id (Some replica) in
  do! assert_eq (db_replica_node rec) (Some replica) in
  do! yields (replicas replica) [id] in
  do! yields (replicas primary) [] in
  do! set_replica_node t id None in
  do! yields (replicas replica) [] in
  let! missing := DatabaseId_new in
  assert_err (fun _ => true) (set_replica_node t missing (Some replica)).

Definition list_sorted_by_created_at_then_id : T :=
  let t := tenant 1 in
  let! id1 := DatabaseId_new in
  let! id2 := DatabaseId_new in
  do! create_database t id2 None None in
  do! create_database t id1 None None in
  let! l := list_databases t in
  do! assert_eq (length l) 2%nat in
  do! assert_eq (db_id <$> l)
        (sort_by_key (fun d => (Z.of_N (database_uuid d), 0)) [id1; id2]) in
  assert (match l with [a; b] => db_created_at a <=? db_created_at b | _ => false end).

Definition directory : list T :=
  [lease_single_owner_then_expiry_takeover; create_get_list_delete_roundtrip; duplicate_create_rejected;
   get_and_delete_missing_rejected; tenants_are_isolated; replica_set_and_list; list_sorted_by_created_at_then_id].

End catalog_tests.
End CatalogTests.

(** ** The books *)

Module LedgerTests.
Section ledger_tests.
#[local] Existing Instance test_env.
#[local] Existing Instance hex_uuid_text.
Abbreviation T := (M Ledger CombeeError unit).

Definition CREDIT : Z := CREDIT_UNITS_PER_CREDIT.

Definition credits_ledger_append_only_and_idempotent : T :=
  let! t := TenantId_new in
  let! i := fresh_uuid in
  let g := mkTxn i t Grant (500 * CREDIT) None (Some "grant:alpha"%string) (Some "alpha tester"%string) 100 None in
  let! entry := append_credit_transaction g in
  do! assert_eq (balance_after entry) (Some (500 * CREDIT)) in
  let! again := append_credit_transaction g in
  do! assert_eq (balance_after again) (Some (500 * CREDIT)) in
  let! account := get_credit_account t in
  do! assert_eq (balance_units account) (500 * CREDIT) in
  let! j := fresh_uuid in
  let u := mkTxn j t Usage (-10000000) (Some 7) (Some "usage:cell:kv_read:1700000040"%string) None 200 None in
  let! e2 := append_credit_transaction u in
  do! assert_eq (balance_after e2) (Some (490 * CREDIT)) in
  let! txns := list_credit_transactions t 10 None in
  do! assert_eq (length txns) 2%nat in
  do! assert_eq (txn_type <$> head txns) (Some Usage) in
  let! all := list_credit_transactions t 1000 None in
  assert_eq (foldr Z.add 0 (amount_units <$> all)) (490 * CREDIT).

Definition voucher_redeem_single_use_and_expired : T :=
  let! t := TenantId_new in
  let! made := create_vouchers sha_stub (50 * CREDIT) 1 (Some "alpha"%string) (Some 1000000) in
  let! (code, _) := unwrap (head made) in
  let hash := hash_voucher_code sha_stub code in
  do! assert_err (fun _ => true) (redeem_voucher hash t 2000000) in
  do! yields (redeem_voucher hash t 500000) (50 * CREDIT) in
  let! account := get_credit_account t in
  do! assert_eq (balance_units account) (50 * CREDIT) in
  do! assert_err (fun _ => true) (redeem_voucher hash t 600000) in
  let! account := get_credit_account t in
  assert_eq (balance_units account) (50 * CREDIT).

Definition pricing_version_activation_and_rules : T :=
  let! v1 := create_pricing_version [mkPricingRule 0 KvRead 1000 10] in
  do! assert_eq (pv_version v1) 1 in
  do! assert_eq (pv_status v1) PricingActive in
  let! (active, rules) := get_active_pricing in
  do! assert_eq (pv_version active) 1 in
  do! assert_eq (length rules) 1%nat in
  let! v2 := create_pricing_version [] in
  do! assert_eq (pv_version v2) 2 in
  let! (active, _) := get_active_pricing in
  do! assert_eq (pv_version active) 2 in
  let! versions := list_pricing_versions in
  do! assert_eq (length versions) 2%nat in
  assert_eq (pv_status <$> head versions) (Some PricingInactive).

(** credit.rs *)
Definition voucher_code_format_and_hash : T :=
  let! code := generate_voucher_code in
  do! assert (String.prefix "CMB-" code) in
  do! assert_eq (String.length code) 18%nat in
  let h1 := hash_voucher_code sha_stub code in
  let h2 := hash_voucher_code sha_stub code in
  do! assert_eq h1 h2 in
  do! assert (negb (bool_decide (h1 = hash_voucher_code sha_stub "CMB-AAAA-AAAA-AAAA"))) in
  assert_eq (String.length h1) 32%nat.

Definition books : list T :=
  [credits_ledger_append_only_and_idempotent; voucher_redeem_single_use_and_expired;
   pricing_version_activation_and_rules; voucher_code_format_and_hash].

End ledger_tests.
End LedgerTests.

(** The in-memory store of the model passes the unit tests of store.rs. *)
Theorem store_tests_pass :
  (forallb (passes Catalog_empty) CatalogTests.directory && forallb (passes Ledger_empty) LedgerTests.books)%bool = true.
Proof. vm_compute. reflexivity. Qed.
