(* ===== verification/ConformBackup.v ===== *)
(** Conformance with the unit tests of crates/data-node/src/backup.rs: full and
    incremental backups, the loss of a node's files, and restores. *)

From Stdlib Require Import ZArith Lia String Ascii.
From stdpp Require Import gmap strings list fin_maps countable.
From S2P Require Import Prelude Common Kv SqlGate Sql Cache Manager DataNode Catalog Backup Conform ConformCommon ConformNode ConformStore.

(** ** Files as bytes *)

#[export] Instance SqlValue_countable : Countable SqlValue.
Proof.
  refine (inj_countable'
    (fun v => match v with
       | SqlNull => inl (inl tt) | SqlInteger i => inl (inr i) | SqlReal b => inr (inl b)
       | SqlText s => inr (inr (inl s)) | SqlBlob s => inr (inr (inr s)) end)
    (fun v => match v with
       | inl (inl _) => SqlNull | inl (inr i) => SqlInteger i | inr (inl b) => SqlReal b
       | inr (inr (inl s)) => SqlText s | inr (inr (inr s)) => SqlBlob s end) _).
  by intros [].
Defined.

#[export] Instance row_eq_dec : EqDecision KvRow.
Proof. solve_decision. Defined.
#[export] Instance row_countable : Countable KvRow.
Proof.
  refine (inj_countable' (fun r => (row_value r, row_expires_at r, row_version r))
    (fun p => mkKvRow p.1.1 p.1.2 p.2) _). by intros [].
Defined.

Definition write_cell (c : CellDb Tables) : string := i64_to_string (Z.pos (encode (cell_kv c, cell_user c))).
Definition read_cell (s : string) : CellDb Tables :=
  match parse_digits s with
  | Some (Z.pos p) => match decode p with Some (t, u) => mkCellDb t u | None => mkCellDb ∅ ∅ end
  | _ => mkCellDb ∅ ∅
  end.

(** What was written since the last checkpoint is in the WAL: here all of it. *)
Definition table_images : Images Tables := {|
  split_files _ c := (write_cell (mkCellDb ∅ ∅), Some (write_cell c));
  vacuum_into := write_cell;
  open_images m w := match w with Some EmptyString | None => read_cell m | Some w => read_cell w end;
  integrity_result _ := "ok"%string;
  leftover_wal _ := None;
|}.

(** Each reading is a millisecond later. *)
Definition ticking : MillisClock := {| clock_ms n := test_now * 1000 + Z.of_nat n |}.

Module BackupTests.
Section backup_tests.
#[local] Existing Instance test_env.
#[local] Existing Instance hex_uuid_text.
#[local] Existing Instance table_engine.
#[local] Existing Instance table_files.
#[local] Existing Instance table_images.
#[local] Existing Instance ticking.
Abbreviation SM := (M (Site Tables) CombeeError).

Definition node : DataNodeConfig := NodeTests.node.
Definition same_path (s : string) : string := s.

Definition put (db : DatabaseId) (k v : string) : SM unit :=
  do! on_node (kv_set node db k v None false false 0) in mret tt.
Definition value (db : DatabaseId) (k : string) : SM string :=
  let! g := on_node (kv_get node db k) in let! e := unwrap g in mret (entry_value e).
Definition run_sql (db : DatabaseId) (sql : string) : SM SqlResult :=
  on_node (node_execute_sql node db (mkSqlRequest sql []) 0).

(** [shutdown], the loss of the files, a new process. *)
Definition shutdown : SM unit := on_node close_all.
Definition destroy_files (db : DatabaseId) : SM unit := on_node (modify (set_files (delete db))).
Definition new_node : SM unit := on_node NodeTests.restart.
Definition path_exists (db : DatabaseId) : SM bool := on_node (NodeTests.path_exists db).

Definition full_backup (db : DatabaseId) : SM BackupInfo := backup node sha_stub db.
Definition incr_backup (db : DatabaseId) : SM unit := do! incremental_backup node sha_stub db in mret tt.
Definition restored (db : DatabaseId) (version : option string) : SM unit := restore node same_path db version.

Definition backup_then_restore_after_destroy : SM unit :=
  let! db := DatabaseId_new in
  do! put db "k" "v" in
  do! run_sql db "CREATE TABLE t (x INTEGER)" in
  do! run_sql db "INSERT INTO t VALUES (42)" in
  let! info := full_backup db in
  do! assert (0 <? bi_size_bytes info) in
  do! assert (string_contains (DatabaseId_to_string db) (bi_key info)) in
  do! assert (match bi_checksum info with Some c => (String.length c =? 64)%nat | None => false end) in
  let! metas := list_snapshots db in
  do! assert_eq (length metas) 1%nat in
  do! shutdown in
  do! destroy_files db in
  do! fails (path_exists db) in
  do! new_node in
  do! restored db None in
  do! holds (path_exists db) in
  do! yields (value db "k") "v"%string in
  let! r := run_sql db "SELECT x FROM t" in
  assert (list_eqb (list_eqb json_eqb) (res_rows r) [[JNumber (PosInt 42)]]).

Definition restore_specific_version : SM unit :=
  let! db := DatabaseId_new in
  do! put db "k" "v1" in
  let! info1 := full_backup db in
  do! put db "k" "v2" in
  do! full_backup db in
  do! shutdown in
  do! destroy_files db in
  do! new_node in
  do! restored db (Some (bi_key info1)) in
  do! yields (value db "k") "v1"%string in
  do! shutdown in
  do! new_node in
  do! restored db None in
  yields (value db "k") "v2"%string.

Definition incremental_restores_latest_archived_state : SM unit :=
  let! db := DatabaseId_new in
  do! put db "k" "v1" in
  do! incr_backup db in
  do! put db "k" "v2" in
  do! run_sql db "CREATE TABLE t (x INTEGER)" in
  do! incr_backup db in
  do! put db "k" "v3" in
  do! shutdown in
  do! destroy_files db in
  do! new_node in
  do! restored db None in
  do! yields (value db "k") "v2"%string in
  let! r := run_sql db "SELECT x FROM t" in
  assert_eq (res_columns r) ["x"%string].

Definition incremental_across_checkpoint_restart : SM unit :=
  let! db := DatabaseId_new in
  do! put db "k" "v1" in
  do! incr_backup db in
  do! shutdown in
  do! new_node in
  do! put db "k" "v2" in
  do! incr_backup db in
  do! shutdown in
  do! destroy_files db in
  do! new_node in
  do! restored db None in
  yields (value db "k") "v2"%string.

Definition restore_prefers_incremental_over_full_snapshot : SM unit :=
  let! db := DatabaseId_new in
  do! put db "k" "snap-v" in
  do! full_backup db in
  do! put db "k" "incr-v" in
  do! incr_backup db in
  do! shutdown in
  do! destroy_files db in
  do! new_node in
  do! restored db None in
  yields (value db "k") "incr-v"%string.

Definition backups : list (SM unit) :=
  [backup_then_restore_after_destroy; restore_specific_version; incremental_restores_latest_archived_state;
   incremental_across_checkpoint_restart; restore_prefers_incremental_over_full_snapshot].

End backup_tests.
End BackupTests.

(** The model passes the unit tests of backup.rs. *)
Theorem backup_tests_pass : forallb (passes (mkSite Node_new (Some ∅))) BackupTests.backups = true.
Proof. vm_compute. reflexivity. Qed.
