(* ===== verification/ConformServer.v ===== *)
(** Conformance with the unit tests of crates/api-server: settlement.rs,
    usage.rs, pricing.rs and nodes.rs, and of the API keys (common/src/api_key.rs).
    The tests share one in-memory store; the server is the one of [Routing] with
    a local data node. *)

From Stdlib Require Import ZArith Lia String Ascii.
From stdpp Require Import gmap strings list fin_maps sorting.
From S2P Require Import Prelude Common Kv SqlGate Sql Cache Manager DataNode Catalog Ledger Billing Access Backup Routing Metrics Queries Background Handlers Conform ConformCommon ConformNode ConformStore ConformBackup.

(** api_key.rs *)
Definition is_valid_format (key : string) : bool :=
  String.prefix KEY_PREFIX key && (String.length KEY_PREFIX + 32 <=? String.length key)%nat.

Module ServerTests.
Section server_tests.
#[local] Existing Instance test_env.
#[local] Existing Instance hex_uuid_text.
#[local] Existing Instance table_engine.
#[local] Existing Instance table_files.
#[local] Existing Instance table_images.
#[local] Existing Instance ticking.
Abbreviation Proc := (Process Tables).
Abbreviation T := (M Proc CombeeError unit).

(** ** The server of the tests *)

Definition server0 : Server Tables :=
  mkServer (mkApi Catalog_empty (UsageMeter_new Ledger_empty) ∅) (NodeRegistry_new 0) ∅ ∅ ∅ (Some Node_new) None.
Definition process0 : Proc := mkProcess server0 Registry_new PricingConfig_empty 0 7.

Definition books {A} (m : M Ledger CombeeError A) : M Proc CombeeError A :=
  on_settlement (zoom st_ledger (fun l s => mkSettlement (st_catalog s) l (st_pricing s) (last_settled_bucket s)) m).
Definition directory {A} (m : M Catalog CombeeError A) : M Proc CombeeError A :=
  on_settlement (zoom st_catalog (fun c s => mkSettlement c (st_ledger s) (st_pricing s) (last_settled_bucket s)) m).
Definition meter {A} (m : M (UsageMeter Ledger) CombeeError A) : M Proc CombeeError A := on_routes (on_meter m).

(** ** settlement.rs *)

(** [settlement.last_settled_bucket.store(..)] *)
Definition store_watermark (b : Z) : T :=
  modify (fun p => mkProcess (pr_server p) (pr_metrics p) (pr_pricing p) b (pr_owner p)).

Definition balance_of (t : TenantId) : M Proc CombeeError Z :=
  let! a := books (get_credit_account t) in mret (balance_units a).

Definition usage_is_settled_against_tenant_credits : T :=
  let! t := TenantId_new in
  do! books (create_pricing_version [mkPricingRule 0 Requests 1 100]) in
  do! directory (create_tenant t) in
  let! i := fresh_uuid in
  do! books (append_credit_transaction (mkTxn i t Grant (10 * CREDIT_UNITS_PER_CREDIT) None
        (Some "grant:test"%string) (Some "test grant"%string) 100 None)) in
  let! now := read_clock in
  let past_bucket := bucket_start (now - 180) in
  do! books (usage_add (mkUsageKey t None Requests past_bucket) 100) in
  do! on_prices refresh in
  do! store_watermark (past_bucket - 60) in
  do! yields (on_settlement settle_once) 1%nat in
  let! balance := balance_of t in
  do! assert_eq (10 * CREDIT_UNITS_PER_CREDIT - balance) (100 * 100) in
  assert (balance <? 10 * CREDIT_UNITS_PER_CREDIT).

Definition storage_byte_secs_settled_but_storage_gauge_skipped : T :=
  let! t := TenantId_new in
  do! books (create_pricing_version [mkPricingRule 0 StorageByteSecs BYTE_SECS_PER_GB_HOUR 10000]) in
  do! directory (create_tenant t) in
  let! i := fresh_uuid in
  do! books (append_credit_transaction (mkTxn i t Grant 1000000000 None (Some "grant:storage"%string) None 100 None)) in
  let! now := read_clock in
  let past_bucket := bucket_start (now - 180) in
  do! books (usage_add (mkUsageKey t None StorageByteSecs past_bucket) (2 * BYTE_SECS_PER_GB_HOUR)) in
  do! books (usage_add (mkUsageKey t None StorageBytes past_bucket) 999999999) in
  do! on_prices refresh in
  do! store_watermark (past_bucket - 60) in
  do! yields (on_settlement settle_once) 1%nat in
  let! balance := balance_of t in
  assert_eq (1000000000 - balance) (2 * 10000).

(** ** usage.rs *)

Definition cell_parsing : T :=
  let id := "00000000-0000-0000-0000-000000000001"%string in
  do! assert (NodeTests.is_some (parse_cell_from_path ("/v1/databases/" +:+ id +:+ "/kv/k"))) in
  do! assert (NodeTests.is_some (parse_cell_from_path ("/v1/databases/" +:+ id +:+ "/sql"))) in
  do! assert_eq (parse_cell_from_path "/v1/databases") None in
  do! assert_eq (parse_cell_from_path "/v1/api-keys") None in
  assert_eq (parse_cell_from_path "/v1/databases/not-a-uuid/sql") None.

Definition pending_count : M Proc CombeeError nat := meter (gets pending).

Definition internal_requests_not_billed : T :=
  let! t := TenantId_new in
  let! c := DatabaseId_new in
  do! meter (record_billed (mkAuthContext t false) (Some c) KvRead 5) in
  do! yields pending_count 1%nat in
  do! meter (record_billed (mkAuthContext t true) (Some c) KvRead 99) in
  do! yields pending_count 1%nat in
  do! meter (record_usage t (Some c) KvWrite 1) in
  yields pending_count 2%nat.

Definition bucket_of (metric : UsageMetric) (l : list UsageBucket) : option Z :=
  ub_value <$> List.find (fun b => bool_decide (ub_metric b = metric)) l.

Definition flush_writes_and_clears_counter : T :=
  let! t := TenantId_new in
  let! c := DatabaseId_new in
  do! meter (record_usage t (Some c) KvRead 3) in
  do! meter (record_usage t (Some c) KvRead 4) in
  do! meter (record_usage t (Some c) KvWrite 1) in
  do! yields pending_count 2%nat in
  do! yields (meter flush_once) 2%nat in
  do! yields pending_count 0%nat in
  let! buckets := on_routes (meter_query t (Some c) None 0 I64_MAX) in
  assert_eq (bucket_of KvRead buckets) (Some 7).

Definition flush_failure_requeues : T := yields (meter flush_once) 0%nat.

Definition sql_read_heuristic : T :=
  do! mfor ["SELECT 1"; "  WITH x AS (SELECT 1) SELECT * FROM x"; "PRAGMA table_info(t)"]%string
        (fun s => assert (is_read_sql s)) in
  mfor ["INSERT INTO t VALUES (1)"; "UPDATE t SET x = 1"; "CREATE TABLE t (x)"; "DELETE FROM t"]%string
    (fun s => assert (negb (is_read_sql s))).

(** An operation of the local data node. *)
Definition local {A} (m : M (Node Tables) CombeeError A) : M Proc CombeeError A :=
  on_routes (zoom (fun s => default Node_new (sv_local s)) (fun n s => set_local n (sv_bucket s) s) m).

Definition storage_sampler_records_byte_secs : T :=
  let! tenant := TenantId_new in
  let! cell := DatabaseId_new in
  do! directory (create_database tenant cell None None) in
  do! local (kv_set NodeTests.node cell "k" "v" None false false 0) in
  let! expected_bytes := local (storage_bytes cell) in
  do! assert (0 <? expected_bytes) in
  do! yields (on_routes (sample_storage_once 300)) 1%nat in
  do! meter flush_once in
  let! buckets := on_routes (meter_query tenant (Some cell) None 0 I64_MAX) in
  assert_eq (bucket_of StorageByteSecs buckets) (Some (expected_bytes * 300)).

(** ** pricing.rs *)

Definition price_now (metric : UsageMetric) (units : Z) : M Proc CombeeError Z :=
  on_prices (gets (fun m => pricing_rate m metric units)).
Definition version_now : M Proc CombeeError Z := on_prices (gets (fun m => pc_version (current m))).

Definition hot_reload_and_invalid_config_rollback : T :=
  do! yields version_now 0 in
  do! yields (price_now KvRead 1000) 0 in
  do! books (create_pricing_version [mkPricingRule 0 KvRead 1000 10]) in
  do! holds (on_prices refresh) in
  do! yields version_now 1 in
  do! yields (price_now KvRead 1000) 10 in
  do! books (create_pricing_version [mkPricingRule 0 KvRead 1000 0]) in
  do! fails (on_prices refresh) in
  do! yields version_now 1 in
  yields (price_now KvRead 1000) 10.

(** ** nodes.rs *)

Definition register_heartbeat_pick_and_unregister : T :=
  let! a := on_routes (register "http://a:9000" 10) in
  let! _b := on_routes (register "http://b:9000" 10) in
  do! holds (on_routes (heartbeat a 3)) in
  let! u := fresh_uuid in
  do! fails (on_routes (heartbeat (mkNodeId u) 0)) in
  let! l := on_routes healthy in
  do! assert_eq (length l) 2%nat in
  do! holds (on_routes (is_healthy a)) in
  let! seen := mmap (seq 0 4) (fun _ => let! p := on_routes pick in let! p := unwrap p in mret p.1) in
  do! assert_eq (length (remove_dups seen)) 2%nat in
  do! holds (on_routes (unregister a)) in
  let! l := on_routes healthy in
  do! assert_eq (length l) 1%nat in
  fails (on_routes (unregister a)).

(** ** api_key.rs *)

Definition generate_and_hash : T :=
  let! key := on_routes generate_key in
  do! assert (String.prefix KEY_PREFIX key) in
  do! assert_eq (String.length key) (String.length KEY_PREFIX + 64)%nat in
  do! assert (is_valid_format key) in
  do! assert (negb (is_valid_format "not-a-key")) in
  do! assert (negb (is_valid_format (String.substring 0 10 key))) in
  do! assert_eq (sha_stub key) (sha_stub key) in
  do! assert_eq (String.length (sha_stub key)) 64%nat in
  do! assert (negb (string_contains key (sha_stub key))) in
  let! other := on_routes generate_key in
  assert (negb (bool_decide (sha_stub other = sha_stub key))).

Definition server : list T :=
  [usage_is_settled_against_tenant_credits; storage_byte_secs_settled_but_storage_gauge_skipped; cell_parsing;
   internal_requests_not_billed; flush_writes_and_clears_counter; flush_failure_requeues; sql_read_heuristic;
   storage_sampler_records_byte_secs; hot_reload_and_invalid_config_rollback;
   register_heartbeat_pick_and_unregister; generate_and_hash].

End server_tests.
End ServerTests.

(** The API server of the model passes the unit tests of settlement.rs,
    usage.rs, pricing.rs, nodes.rs and api_key.rs. *)
Theorem server_tests_pass : forallb (passes ServerTests.process0) ServerTests.server = true.
Proof. vm_compute. reflexivity. Qed.
