(* ===== verification/ConformThreads.v ===== *)
(** Conformance with the concurrent unit tests of crates/data-node (manager.rs
    and cache.rs): the requests are tasks of [NodeWorld], and a scheduler that
    gives every request and every worker a step in turn interleaves them. *)

From Stdlib Require Import ZArith Lia String Ascii.
From stdpp Require Import gmap strings list fin_maps.
From S2P Require Import Prelude Common Kv SqlGate Sql Cache Manager DataNode NodeInv NodeThreads NodeWorld Conform ConformCommon ConformNode.

Module ThreadTests.
Section thread_tests.
#[local] Existing Instance test_env.
#[local] Existing Instance hex_uuid_text.
#[local] Existing Instance table_engine.
#[local] Existing Instance table_files.
Abbreviation W := (World Tables).

(** ** A scheduler *)

Definition attempt_action (w : W) (a : Action) : W := default w (exec NodeTests.node a w).

(** One turn: each request that can go on does, then each worker. *)
Definition turn (w : W) : W :=
  let w1 := foldl (fun w t => foldl attempt_action w [Advance t; Grant t; Join t]) w (map_to_list (w_tasks w)).*1 in
  foldl (fun w j => attempt_action w (Work j)) w1 (map_to_list (w_jobs w1)).*1.

Definition is_answered (s : TaskState Tables) : bool := match s with Answered _ => true | _ => false end.
Definition all_answered (w : W) : bool := forallb (fun p => is_answered p.2) (map_to_list (w_tasks w)).

(** Turns until every request is answered. *)
Fixpoint await_all (fuel : nat) (w : W) : W :=
  match fuel with
  | O => w
  | S fuel' => if all_answered w then w else await_all fuel' (turn w)
  end.

(** [tokio::spawn] of the requests, under the next free numbers. *)
Definition spawn (ops : list NodeOp) (w : W) : W :=
  foldl (fun w op => attempt_action w (Spawn (size (w_tasks w)) op)) w ops.

Definition answer (tid : nat) (w : W) : option (result CombeeError NodeReply) :=
  match w_tasks w !! tid with Some (Answered r) => Some r | _ => None end.

(** One request after the others have been answered. *)
Definition request_now (op : NodeOp) (w : W) : option (result CombeeError NodeReply) * W :=
  let w' := await_all 100 (spawn [op] w) in (answer (size (w_tasks w)) w', w').

Definition db : DatabaseId := mkDatabaseId 100.
Definition db2 : DatabaseId := mkDatabaseId 101.

Definition value_is (v : string) (r : option (result CombeeError NodeReply)) : bool :=
  match r with Some (Ok (REntry (Some e))) => bool_decide (entry_value e = v) | _ => false end.

(** ** manager.rs *)

Definition concurrent_incr_same_db_is_atomic : bool :=
  let w := await_all 1000 (spawn (replicate 50 (NIncr db "counter" 1 None 0)) world0) in
  all_answered w && value_is "50" (request_now (NGet db "counter") w).1.

Definition different_dbs_do_not_interfere : bool :=
  let w := await_all 100 (spawn [NSet db "k" "d1" None false false 0; NSet db2 "k" "d2" None false false 0] world0) in
  let (r1, w1) := request_now (NGet db "k") w in
  let (r2, _) := request_now (NGet db2 "k") w1 in
  all_answered w && value_is "d1" r1 && value_is "d2" r2.

Definition lock_stats_track_waiting_and_queue_depth : bool :=
  let w := await_all 1000 (spawn (replicate 16 (NSet db "k" "v" None false false 0)) world0) in
  let stats := lock_stats (w_counters w) in
  let w' := attempt_action w ResetStats in
  let after := lock_stats (w_counters w') in
  all_answered w && (16 <=? samples stats) && (2 <=? max_queue_depth stats) &&
  (samples after =? 0) && (max_queue_depth after =? 0).

(** ** cache.rs *)

Definition cache_hits_take_no_per_db_lock : bool :=
  let w := (request_now (NSet db "k" "v" None false false 0) world0).2 in
  let w := (request_now (NGet db "k") w).2 in
  let w := attempt_action w ResetStats in
  let w := await_all 1000 (spawn (replicate 100 (NGet db "k")) w) in
  all_answered w && (samples (lock_stats (w_counters w)) =? 0) && (100 <=? cache_hits (cache (w_node w))).

Definition threads : list bool :=
  [concurrent_incr_same_db_is_atomic; different_dbs_do_not_interfere; lock_stats_track_waiting_and_queue_depth;
   cache_hits_take_no_per_db_lock].

End thread_tests.
End ThreadTests.

(** The machine of tasks and workers passes the concurrent unit tests of
    manager.rs and cache.rs. *)
Theorem thread_tests_pass : forallb (fun b => b) ThreadTests.threads = true.
Proof. vm_compute. reflexivity. Qed.
